(* ===== verification/_CoqProject ===== *)
-Q . S2P
Prelude.v
Fair.v
GoStrings.v
GoPath.v
GoTime.v
GoDate.v
GoFloat.v
GoText.v
GoFlag.v
Syscalls.v
Constants.v
Events.v
Alerts.v
Tracker.v
Dedup.v
Config.v
PrivEsc.v
Ptrace.v
RevShell.v
SensitiveFile.v
Storyline.v
StoryFacts.v
StoryProps.v
Engine.v
EngineProps.v
Wire.v
KernelEvent.v
Loader.v
Collect.v
Probes.v
ProbeProps.v
Record.v
Replay.v
Sinks.v
Console.v
Term.v
Dashboard.v
Panels.v
DashProps.v
Screen.v
Lifecycle.v
PidFilter.v
Agent.v
Pump.v
Cli.v
Flags.v
EndToEnd.v
System.v
Live.v
Gencapture.v
Main.v
Exit.v
