(* ===== verification/Prelude.v ===== *)
(** * KrnlSentry: a model of the agent and its correctness

    KrnlSentry watches system calls through eBPF, decodes them into events, runs
    detection rules over the events and writes the alerts to a log and to a
    display.  This library models the agent and its kernel probes, file by file,
    and proves what each part promises and that the parts fit together.

    ** The program and the files that model it

    An event goes through the program in this order; each stage is named with
    the source file it is in and the file here that models it.

    - The probes: the C struct of [bpf/event.h] as a block of bytes in
      [KernelEvent], the programs of [bpf/krnlsentry.bpf.c] in [Probes], over the
      results of the kernel's helpers ([Hit]) and the state of the maps ([Maps]).
    - Ring-buffer records: [ebpfloader/decode.go] in [Wire].
      [ebpfloader/loader.go] (loading, attaching, draining, counters, tear-down)
      in [Loader]: the kernel and the eBPF library are the class [Kernel], what
      is asked of them is a trace; the two goroutines of its [Run], as a step
      relation, and [loader_other.go] in [Collect].
    - Decoding: [events/event.go] in [Events], over the tables and formatting
      functions of [events/constants.go] in [Constants] and the identifiers of
      [events/syscall.go] in [Syscalls].
    - The scope filter of [--pid]: [cmd/krnlsentry/pidfilter.go] in [PidFilter],
      over a [ProcFS] that says what [/proc] holds.
    - The engine: [detect/engine.go] in [Config] (settings, contexts, the rule
      type and its interface [LawfulRule]) and [Engine] (registry, construction,
      [Evaluate]); process histories, [detect/tracker.go], in [Tracker];
      deduplication, [detect/dedup.go], in [Dedup]; alerts, [detect/alert.go], in
      [Alerts].
    - The rules: [detect/privesc.go] in [PrivEsc], [detect/ptrace.go] in
      [Ptrace], [detect/sensitivefile.go] in [SensitiveFile],
      [detect/revshell.go] in [RevShell].
    - Attack chains: [detect/storyline.go] in [Storyline]; storylines are shared
      through pointers, which are addresses of a heap there.
    - Output: [output/sink.go] and [output/jsonl.go] in [Sinks],
      [output/console.go] in [Console], [output/term*.go] in [Term],
      [output/dashboard.go] in [Dashboard] (state, text layout), [Panels] (one
      frame, the loop that fits it to the terminal) and [Lifecycle] (the
      goroutine behind [Start] and [Close], as a step relation).  The two files
      are written through a [json.Encoder], which writes nothing more once a
      write has failed.
    - The agent: [cmd/krnlsentry/main.go] in [Agent] ([process]: filter, verbose
      log, engine, sinks, counters), [Pump] (the two goroutines of [pump] and
      the queue between them, as a step relation), [Flags] ([parseFlags]),
      [Cli] (engine configuration, summaries, [replay] and its pacer) and [Main]
      ([run] with its deferred calls, as traces); [Exit] computes that trace from
      the arguments, the disk and the kernel.
    - The whole of a live run: [Live] composes the probes, the ring buffer, the
      collector's goroutines ([Collect]) and the main one ([Pump]) into one step
      relation, whose runs project to theirs; [Fair] says what a fairly scheduled
      infinite run is.
    - Captures and replay: [events/record.go] in [Record]; the configuration [run]
      replays with, without [/proc] and without a PID of its own, in [Replay]; the tool that writes
      the sample capture, [internal/gencapture/main.go], in [Gencapture].

    State is passed explicitly: an operation returns what it returns in Go and
    the new state.  Errors are the [inr] of a sum, [None], or an error type.
    Integers are [Z] kept in their width by [u32], [u64] and [i64].  Strings are
    byte strings, taken apart into runes where Go does so.  Maps are [gmap]s; a
    function that ranges over one takes the order as an argument and its
    theorems hold for every order.  The argument map of an event, which several
    rules and alerts share, is threaded through the rules and read by the alerts
    only when [Evaluate] returns.  [float64] is IEEE double precision, computed
    by the Standard Library's specification of it.

    The language and its library are modelled in [GoStrings], [GoText], [GoPath],
    [GoTime], [GoDate], [GoFloat] and [GoFlag] (the [flag] package, [ParseInt]
    and [ParseDuration]); this file holds the integer widths, the
    automation and the lemmas on lists and maps that all of them share.

    ** What is shown

    - Rules ([RevShell], [SensitiveFile], [PrivEsc], [Ptrace]): each reports
      exactly what its declarative description says, on every branch; the
      reverse-shell rule also through the tracker, whatever other processes do
      meanwhile, and the file rule however the path is spelled.  The chain of the
      reverse-shell rule contains the attempt to connect: what [connect] returned
      is recorded but not looked at.
    - Tracker and deduplicator ([Tracker], [Dedup]): bounded, and refinements of
      unbounded specifications.
    - Correlator ([Storyline], [StoryFacts], [StoryProps]): invariant of every
      reachable state, stories as the connected components of the alerts'
      ancestries, whose name a merged story keeps, how often a chain is reported,
      termination of the walk up the ancestry.
    - Engine ([EngineProps], [Replay]): construction and its errors, [Evaluate]
      sound and complete for the rules, memory bounds, and a replay raises the
      live rule alerts (attack chains too, if the live agent looked nothing up in
      [/proc]).
    - Decoding and captures ([Events], [Constants], [Wire], [Record], [GoDate]):
      round trips, rejection of short records and no index out of range, what a
      successful or failed read of a capture means.  A capture keeps every field
      but the sub-millisecond part of the wall clock and the bytes of strings that
      are not valid UTF-8, which [encoding/json] replaces.
    - Probes ([ProbeProps]): what the agent handles is what a declarative table
      says each tracepoint reports, through the bytes of the ring buffer; no
      event is lost without being counted; records carry no kernel memory; an
      identity change is judged by its registers.
    - Loading and filtering ([Loader], [Collect], [PidFilter]): after a failed
      start only what the kernel refused to detach is left attached, after a good
      one everything is attached; a cancelled collector stops; the filter is the
      parentage closure, for every map order.
    - Pipeline ([Agent], [Pump], [Cli], [Sinks]): the composition of filter,
      engine and files is exact; no event is lost without being counted, in any
      interleaving; the queue drains after the collector ends; the alert log is
      complete up to its first failed write, whatever other sinks do.  [EndToEnd]
      puts them together: the verbose log of a live run, replayed, raises the
      rule alerts of that run; and
      [System], from the system call to its line in the alert log, for a buffer
      read to its end.
    - The live agent ([Live]): at every moment of every interleaving each system
      call is processed, queued, dropped, unread or refused, and the counters say
      how many; an interrupted agent stops, under load too.
    - Liveness ([Collect], [Live]) is stated of infinite runs that are weakly fair
      to each goroutine: one that can take a step from some time on takes one.
      For the main goroutine that includes that its [select] does not pick a
      ticker for ever while the queue has events.
    - Display ([DashProps], [Screen], [Lifecycle]): what a frame shows is an exact
      count of the alerts written, the layout loop ends and fits the frame, feed
      rows fit the width, [Close] returns if and only if the display was started.
    - Exit ([Main]): every error path gives back what was taken, in reverse
      order, the alert log before the display; on one of them the last close, of a
      display never started, blocks, and the agent neither prints its error nor
      exits.  On all of them ([Exit]) every probe attached is asked to detach, and
      a pipeline never runs on fewer probes than the kernel provides.

    ** Bounds and fuel

    Recursion that is not structural has fuel with a proof that it suffices:
    [ancestry] the sixteen levels of its own bound, [Render] eighteen attempts
    (nine feed rows, six chain rows and two panels can be given up), [narrow]
    eleven columns, the sweeps of the filter one more than the number of
    processes, number formatting sixty-four digits, [ParseDuration] the length of its text.  Where fuel shows in a
    statement, the theorem holds for all sufficient fuel.

    ** Parameters

    What is not in the repository is a record or class with what the code relies
    on: [Hit] with [lawful] (the kernel's helpers and what they are documented to
    do) and [reserve_lawful] (when the ring buffer has room), [FloatText] ([strconv.ParseFloat]),
    [Host] ([os.Stat], [os.Getpid]), [ProcFS], [Kernel], [Disk] (which opens and
    writes fail, and how much of a failed write reaches the file; the encoder's
    stored error is modelled), [Encoder] and
    [RecordDecoder] ([encoding/json]), [WallClock] (the local time of day),
    [UnicodeTables] and [UnicodeUpper] (tables of the Unicode release),
    [FloatConv] (conversions out of range).  Theorems that assume something of
    them name it as a hypothesis and are applied at a concrete instance.

    ** Not modelled, and why

    A probe is one step, from its tracepoint to its record: how programs on
    different processors interleave inside the kernel's ring buffer is the
    kernel's; what they hold of it meanwhile is allowed for in [reserve_lawful].
    Where the buffer's fill does not matter ([Probes], [System]) the kernel's
    answer is an argument.  The text of log lines and of the flag
    package's messages, and signals (their effect, a cancelled context, is an
    argument) are the library's. *)

From Stdlib Require Export ZArith Lia Ascii.
From Stdlib Require Export Sorted.
From stdpp Require Export base gmap strings list fin_maps sorting.

(** String literals are Go strings (byte sequences); [++] stays list append
    and string append is stdpp's [+:+]. *)
Global Open Scope string_scope.
Global Open Scope list_scope.
Global Open Scope Z_scope.

Declare Scope go_scope.
Delimit Scope go_scope with go.
Global Open Scope go_scope.

#[global] Arguments String.append !_ _ / : simpl nomatch.

(** Go's [==] on strings. *)
Notation "s ==s t" := (String.eqb s t) (at level 70) : go_scope.

(** ** Machine-width integers

    A Go [uintN] is a [Z] in [[0, 2^N)], an [int64] (also [int] on the two
    64-bit targets, and [time.Duration]) a [Z] in [[-2^63, 2^63)].  The
    functions below are Go's conversions between them: they wrap. *)
Definition u8 (z : Z) : Z := z mod 2 ^ 8.
Definition u16 (z : Z) : Z := z mod 2 ^ 16.
Definition u32 (z : Z) : Z := z mod 2 ^ 32.
Definition u64 (z : Z) : Z := z mod 2 ^ 64.
Definition i64 (z : Z) : Z := (z + 2 ^ 63) mod 2 ^ 64 - 2 ^ 63.

Definition is_u16 (z : Z) : Prop := 0 <= z < 2 ^ 16.
Definition is_u32 (z : Z) : Prop := 0 <= z < 2 ^ 32.
Definition is_u64 (z : Z) : Prop := 0 <= z < 2 ^ 64.
Definition is_i64 (z : Z) : Prop := - 2 ^ 63 <= z < 2 ^ 63.

Create HintDb krnl.
Create Rewrite HintDb krnl_w.

Lemma u64_small z : is_u64 z -> u64 z = z.
Proof. intros; now apply Z.mod_small. Qed.

Lemma u64_range z : is_u64 (u64 z).
Proof. now apply Z.mod_pos_bound. Qed.

Lemma u32_small z : is_u32 z -> u32 z = z.
Proof. intros; now apply Z.mod_small. Qed.

Lemma i64_small z : is_i64 z -> i64 z = z.
Proof. unfold is_i64, i64; intros; rewrite Z.mod_small; lia. Qed.

Lemma i64_range z : is_i64 (i64 z).
Proof.
  unfold is_i64, i64.
  pose proof (Z.mod_pos_bound (z + 2 ^ 63) (2 ^ 64) ltac:(lia)). lia.
Qed.

(** A [uint64] subtraction that does not underflow is the subtraction on [Z]. *)
Lemma u64_sub_small a b : is_u64 a -> is_u64 b -> b <= a -> u64 (a - b) = a - b.
Proof. unfold is_u64; intros; apply u64_small; unfold is_u64; lia. Qed.

(** One that does underflow wraps to a value above every small bound. *)
Lemma u64_sub_wrap a b : is_u64 a -> is_u64 b -> a < b -> u64 (a - b) = 2 ^ 64 + a - b.
Proof.
  unfold is_u64, u64; intros.
  replace (a - b) with ((2 ^ 64 + a - b) + (-1) * 2 ^ 64) by lia.
  rewrite Z.mod_add by lia. apply Z.mod_small; lia.
Qed.

Lemma u64_i64 z : is_u64 z -> u64 (i64 z) = z.
Proof.
  unfold is_u64, u64, i64; intros.
  rewrite Zminus_mod_idemp_l. replace (z + 2 ^ 63 - 2 ^ 63) with z by lia.
  now apply Z.mod_small.
Qed.

#[export] Hint Resolve u64_range i64_range : krnl.
#[export] Hint Rewrite u64_small u32_small i64_small using (unfold is_u64, is_u32, is_i64 in *; lia) : krnl_w.

(** A Go octal literal [0oDDD] is written [oct DDD]: the decimal digits of the
    argument read in base eight. *)
Fixpoint oct_go (fuel : nat) (z : Z) : Z :=
  match fuel with O => 0 | S f => z mod 10 + 8 * oct_go f (z / 10) end.
Definition oct (z : Z) : Z := oct_go 12 z.

(** ** Tactics *)

(** Splits the [match]es and [if]s of the goal, outermost first, keeping the
    equations; closes what becomes trivial. *)
Ltac go_cases := repeat (case_match; simplify_eq/=; try done).

(** Decides a closed proposition by evaluating its decision procedure. *)
Ltac by_compute := apply (bool_decide_unpack _); vm_compute; exact I.

(** Decides a closed comparison of integers by evaluating it. *)
Ltac z_compute := vm_compute; (reflexivity || discriminate).

(** Reads boolean comparisons on [Z], [nat] and strings as propositions. *)
Ltac bool_prop :=
  repeat match goal with
  | H : (_ && _)%bool = true |- _ => apply andb_true_iff in H as [? ?]
  | H : (_ || _)%bool = false |- _ => apply orb_false_iff in H as [? ?]
  | H : (_ || _)%bool = true |- _ => apply orb_true_iff in H
  | H : (_ && _)%bool = false |- _ => apply andb_false_iff in H
  | H : negb _ = true |- _ => apply negb_true_iff in H
  | H : negb _ = false |- _ => apply negb_false_iff in H
  | H : (_ =? _)%Z = true |- _ => apply Z.eqb_eq in H
  | H : (_ =? _)%Z = false |- _ => apply Z.eqb_neq in H
  | H : (_ <? _)%Z = true |- _ => apply Z.ltb_lt in H
  | H : (_ <? _)%Z = false |- _ => apply Z.ltb_ge in H
  | H : (_ <=? _)%Z = true |- _ => apply Z.leb_le in H
  | H : (_ <=? _)%Z = false |- _ => apply Z.leb_gt in H
  | H : (_ =? _)%nat = true |- _ => apply Nat.eqb_eq in H
  | H : (_ =? _)%nat = false |- _ => apply Nat.eqb_neq in H
  | H : (_ <? _)%nat = true |- _ => apply Nat.ltb_lt in H
  | H : (_ <? _)%nat = false |- _ => apply Nat.ltb_ge in H
  | H : (_ <=? _)%nat = true |- _ => apply Nat.leb_le in H
  | H : (_ <=? _)%nat = false |- _ => apply Nat.leb_gt in H
  | H : String.eqb _ _ = true |- _ => apply String.eqb_eq in H
  | H : String.eqb _ _ = false |- _ => apply String.eqb_neq in H
  | H : bool_decide _ = true |- _ => apply bool_decide_eq_true_1 in H
  | H : bool_decide _ = false |- _ => apply bool_decide_eq_false_1 in H
  end.

(** ** Association tables

    A Go map literal that is only read is kept as the list of its entries in
    source order; [assoc] is the map lookup. *)
Fixpoint assoc {K V} `{EqDecision K} (k : K) (l : list (K * V)) : option V :=
  match l with
  | [] => None
  | (k', v) :: l' => if decide (k = k') then Some v else assoc k l'
  end.

Section assoc.
Context {K V : Type} `{EqDecision K}.
Implicit Types (l : list (K * V)).

Lemma assoc_Some_elem k v l : assoc k l = Some v -> (k, v) ∈ l.
Proof.
  induction l as [|[k' v'] l IH]; cbn; [done|].
  case_decide; simplify_eq; set_solver.
Qed.

Lemma assoc_elem k v l : NoDup l.*1 -> (k, v) ∈ l -> assoc k l = Some v.
Proof.
  induction l as [|[k' v'] l IH]; cbn; [set_solver|].
  intros [Hn Hd]%NoDup_cons [Heq|Hin]%elem_of_cons; [simplify_eq; by case_decide|].
  case_decide as Hk; [subst|by auto].
  exfalso; apply Hn. by apply (list_elem_of_fmap_2 fst) in Hin.
Qed.

Lemma assoc_None k l : assoc k l = None <-> k ∉ l.*1.
Proof.
  induction l as [|[k' v'] l IH]; cbn; [set_solver|].
  case_decide; [set_solver|]. rewrite IH, elem_of_cons. naive_solver.
Qed.

(** A lookup does not depend on the order of a table with distinct keys. *)
Lemma assoc_Permutation k l1 l2 : NoDup l1.*1 -> l1 ≡ₚ l2 -> assoc k l1 = assoc k l2.
Proof.
  intros Hd Hp.
  assert (Hd2 : NoDup l2.*1) by (by rewrite <- Hp).
  destruct (assoc k l2) as [v|] eqn:E2.
  - apply assoc_elem; [done|]. rewrite Hp. by apply assoc_Some_elem.
  - apply assoc_None. rewrite Hp. by apply assoc_None.
Qed.
End assoc.

(** ** First match in a list *)
Section find_first.
Context {A : Type} (f : A -> bool).

Fixpoint find_first (l : list A) : option A :=
  match l with
  | [] => None
  | x :: l' => if f x then Some x else find_first l'
  end.

Lemma find_first_Some x l :
  find_first l = Some x <->
  exists l1 l2, l = l1 ++ x :: l2 /\ f x = true /\ Forall (fun y => f y = false) l1.
Proof.
  split.
  - induction l as [|y l IH]; cbn; [done|].
    destruct (f y) eqn:E; intros; simplify_eq; [by exists [], l|].
    destruct IH as (l1 & l2 & -> & ? & ?); [done|]. exists (y :: l1), l2; auto.
  - intros (l1 & l2 & -> & Hx & Hl1). induction l1 as [|y l1 IH]; cbn; [by rewrite Hx|].
    apply Forall_cons in Hl1 as [-> Hl1]. auto.
Qed.

Lemma find_first_None l : find_first l = None <-> Forall (fun y => f y = false) l.
Proof.
  induction l as [|y l IH]; cbn; [done|].
  rewrite Forall_cons, <- IH. destruct (f y); naive_solver.
Qed.
Lemma find_first_app l1 l2 :
  find_first (l1 ++ l2) = match find_first l1 with Some x => Some x | None => find_first l2 end.
Proof. induction l1 as [|x l1 IH]; cbn; [done|]. by destruct (f x). Qed.

(** When one element only satisfies the test, the order does not matter. *)
Lemma find_first_unique x l :
  x ∈ l -> f x = true -> (forall y, y ∈ l -> f y = true -> y = x) -> find_first l = Some x.
Proof.
  intros Hx Hf Hu. destruct (find_first l) as [y|] eqn:E.
  - apply find_first_Some in E as (l1 & l2 & -> & Hy & _). f_equal. apply Hu; [set_solver|done].
  - apply find_first_None in E. rewrite Forall_forall in E. apply E in Hx. congruence.
Qed.
End find_first.

(** Two entries of a table with distinct values and the same value are one. *)
Lemma table_value_inj {K V} (l : list (K * V)) k1 k2 v :
  NoDup l.*2 -> (k1, v) ∈ l -> (k2, v) ∈ l -> k1 = k2.
Proof.
  intros Hd [i Hi]%list_elem_of_lookup [j Hj]%list_elem_of_lookup.
  assert (i = j) as ->; [|congruence].
  eapply NoDup_lookup; [exact Hd| |]; rewrite list_lookup_fmap; [rewrite Hi|rewrite Hj]; done.
Qed.

(** ** Lists *)

Section lists.
Context {A : Type}.
Implicit Types (l : list A) (P Q : A -> Prop).

Lemma filter_all P `{forall x, Decision (P x)} l : Forall P l -> filter P l = l.
Proof. induction 1 as [|x l Hx _ IH]; [done|]. rewrite filter_cons_True by done. by rewrite IH. Qed.

Lemma filter_none P `{forall x, Decision (P x)} l : Forall (fun x => ~ P x) l -> filter P l = [].
Proof. induction 1 as [|x l Hx _ IH]; [done|]. by rewrite filter_cons_False. Qed.

Lemma filter_ext_Forall P Q `{forall x, Decision (P x)} `{forall x, Decision (Q x)} l :
  Forall (fun x => P x <-> Q x) l -> filter P l = filter Q l.
Proof.
  induction 1 as [|x l Hx _ IH]; [done|]. rewrite !filter_cons, IH. repeat case_decide; tauto.
Qed.

(** The last [n] elements of a list. *)
Definition lastn (n : nat) l : list A := drop (length l - n) l.

Lemma lastn_length n l : (length (lastn n l) <= n)%nat.
Proof. unfold lastn. rewrite length_drop. lia. Qed.

Lemma lastn_all n l : (length l <= n)%nat -> lastn n l = l.
Proof. intros. unfold lastn. by replace (length l - n)%nat with 0%nat by lia. Qed.

Lemma lastn_lastn_snoc n l x : lastn n (lastn n l ++ [x]) = lastn n (l ++ [x]).
Proof.
  unfold lastn. rewrite !length_app, length_drop. cbn [length].
  destruct (decide (length l <= n)%nat).
  - replace (length l - n)%nat with 0%nat by lia. rewrite drop_0. do 2 f_equal. lia.
  - destruct n as [|n].
    { rewrite !drop_ge; rewrite ?length_app, ?length_drop; cbn; [done|lia..]. }
    rewrite !drop_app_le by (rewrite ?length_drop; lia). rewrite drop_drop. do 2 f_equal. lia.
Qed.

Lemma lastn_suffix n l : exists l', l = l' ++ lastn n l.
Proof. exists (take (length l - n) l). unfold lastn. by rewrite take_drop. Qed.

(** Filtering the tail only can drop fewer than filtering the whole. *)
Lemma lastn_Forall P n l : Forall P l -> Forall P (lastn n l).
Proof. intros H. unfold lastn. by apply Forall_drop. Qed.

Lemma lastn_app n l1 l2 : lastn n (l1 ++ l2) = lastn (n - length l2) l1 ++ lastn n l2.
Proof.
  unfold lastn. rewrite length_app, drop_app. f_equal; [|f_equal; lia].
  destruct (decide (n <= length l2)%nat).
  - by rewrite !drop_ge by lia.
  - f_equal; lia.
Qed.

Lemma StronglySorted_drop (R : A -> A -> Prop) n l : StronglySorted R l -> StronglySorted R (drop n l).
Proof.
  revert n; induction l as [|x l IH]; intros [|n] H; cbn; try done.
  apply IH. by inversion H.
Qed.

Lemma StronglySorted_snoc (R : A -> A -> Prop) l x :
  StronglySorted R l -> Forall (fun y => R y x) l -> StronglySorted R (l ++ [x]).
Proof.
  induction 1 as [|y l Hs IH Hy]; cbn; intros Hx; [by repeat constructor|].
  apply Forall_cons in Hx as [Hyx Hx]. constructor; [by apply IH|]. apply Forall_app; auto.
Qed.

Lemma StronglySorted_snoc_inv (R : A -> A -> Prop) l x :
  StronglySorted R (l ++ [x]) -> StronglySorted R l /\ Forall (fun y => R y x) l.
Proof.
  induction l as [|y l IH]; cbn; intros Hs; [repeat constructor|].
  apply StronglySorted_inv in Hs as [Hs Hy]. apply Forall_app in Hy as [Hy Hyx].
  apply Forall_cons in Hyx as [Hyx _]. destruct (IH Hs). split; constructor; assumption.
Qed.
End lists.

(** ** Maps *)

Lemma map_Forall_subseteq {K V} `{Countable K} (P : K -> V -> Prop) (m1 m2 : gmap K V) :
  m1 ⊆ m2 -> map_Forall P m2 -> map_Forall P m1.
Proof. intros Hs Hf k v Hk. apply Hf. by eapply lookup_weaken. Qed.

Lemma map_size_insert_le {K V} `{Countable K} (m : gmap K V) k v : (size (<[k := v]> m) <= S (size m))%nat.
Proof. rewrite map_size_insert. destruct (m !! k); cbn; lia. Qed.

Lemma size_list_to_set_le `{Countable K} (l : list K) : (size (list_to_set l : gset K) <= length l)%nat.
Proof.
  induction l as [|x l IH]; cbn; [by rewrite size_empty|].
  pose proof (size_union_alt {[x]} (list_to_set l : gset K)) as Hu. rewrite size_singleton in Hu.
  pose proof (subseteq_size (list_to_set l ∖ {[x]} : gset K) (list_to_set l) ltac:(set_solver)). lia.
Qed.
