(* ===== verification/Fair.v ===== *)
(** * Executions and fairness

    What the liveness theorems are about: infinite runs of a step relation, in
    which an actor that can go on, and keeps being able to, goes on at some time. *)

From S2P Require Import Prelude.

Section fair.
Context {St : Type} (step : St -> St -> Prop).

(** An infinite run: at each moment somebody takes a step, or nobody does. *)
Definition execution (run : nat -> St) : Prop := forall n, step (run n) (run (S n)) \/ run (S n) = run n.

(** Weak fairness to an actor: after any moment there is one at which it takes a
    step, or at which it could not. *)
Definition weakly_fair (act : St -> St -> Prop) (run : nat -> St) : Prop :=
  forall n, exists m, (n <= m)%nat /\ (act (run m) (run (S m)) \/ forall s, ~ act (run m) s).

(** What a run keeps from some moment on. *)
Lemma execution_keeps (run : nat -> St) (P : St -> Prop) n :
  execution run -> (forall s s', step s s' -> P s -> P s') -> P (run n) -> forall m, (n <= m)%nat -> P (run m).
Proof.
  intros Hrun Hstep Hn m Hm. induction Hm as [|m _ IH]; [done|].
  destruct (Hrun m) as [Hs|Hs]; [by eapply Hstep|]. cbn in Hs. by rewrite Hs.
Qed.

(** Progress: a rank that no step increases, and that the actor can and does
    decrease while it is not 0, is 0 at some time and from then on. *)
Lemma fair_progress (run : nat -> St) (act : St -> St -> Prop) (Inv : St -> Prop) (rank : St -> nat) n :
  execution run -> weakly_fair act run ->
  (forall m, (n <= m)%nat -> Inv (run m)) ->
  (forall s s', Inv s -> step s s' -> (rank s' <= rank s)%nat) ->
  (forall s s', Inv s -> act s s' -> (rank s' < rank s)%nat) ->
  (forall s, Inv s -> (forall s', ~ act s s') -> rank s = 0%nat) ->
  exists m, (n <= m)%nat /\ forall k, (m <= k)%nat -> rank (run k) = 0%nat.
Proof.
  intros Hrun Hfair Hinv Hmono Hact Hstuck.
  assert (Hle : forall a b, (n <= a)%nat -> (a <= b)%nat -> (rank (run b) <= rank (run a))%nat).
  { intros a b Ha Hab. induction Hab as [|b Hab IH]; [done|]. etrans; [|exact IH].
    destruct (Hrun b) as [Hs|Hs]; [apply Hmono; [apply Hinv; lia|exact Hs]|]. cbn in Hs. by rewrite Hs. }
  assert (Hzero : forall m, (n <= m)%nat -> rank (run m) = 0%nat -> forall k, (m <= k)%nat -> rank (run k) = 0%nat).
  { intros m Hm Hz k Hk. pose proof (Hle m k Hm Hk). lia. }
  assert (Hall : forall r a, (n <= a)%nat -> (rank (run a) <= r)%nat -> exists m, (n <= m)%nat /\ rank (run m) = 0%nat).
  { induction r as [|r IH]; intros a Ha Hr; [exists a; split; [done|lia]|].
    destruct (Hfair a) as (m & Hm & [Hs|Hs]).
    - apply (IH (S m)); [lia|]. pose proof (Hle a m Ha Hm). pose proof (Hact _ _ (Hinv m ltac:(lia)) Hs). lia.
    - exists m. split; [lia|]. apply Hstuck; [apply Hinv; lia|done]. }
  destruct (Hall (rank (run n)) n) as (m & Hm & Hz); [lia|lia|]. exists m. split; [done|]. by apply Hzero.
Qed.

(** A run given by its first states and what it does after them. *)
Lemma weakly_fair_quiet (run : nat -> St) (act : St -> St -> Prop) n :
  (forall m s, (n <= m)%nat -> ~ act (run m) s) -> weakly_fair act run.
Proof. intros Hq k. exists (Nat.max n k). split; [lia|]. right. intros s. apply Hq. lia. Qed.
End fair.
