(* ===== verification/GoStrings.v ===== *)
(** * Go strings

    The parts of Go's [strings], [strconv], [fmt] and [unicode/utf8] that the
    program uses, over byte strings: prefixes and searches, [Join], [Split],
    [Cut], [TrimSpace], [Fields], integer formatting and parsing, UTF-8
    decoding and [%q] quoting.  These model the standard library, so no
    definition here maps to a line of the repository. *)

From S2P Require Import Prelude.

(** ** Bytes and searches *)

Definition byte_of (a : ascii) : Z := Z.of_N (N_of_ascii a).
Definition chr (z : Z) : ascii := ascii_of_N (Z.to_N z).
Definition str1 (a : ascii) : string := String a "".

Definition slen (s : string) : Z := Z.of_nat (String.length s).

(** [strings.HasPrefix(s, p)]. *)
Definition HasPrefix (s p : string) : bool := String.prefix p s.
#[global] Arguments HasPrefix : simpl never.

(** [s[n:]] for [n <= len(s)]. *)
Fixpoint sdrop (n : nat) (s : string) : string :=
  match n, s with
  | O, _ => s
  | S n', String _ s' => sdrop n' s'
  | S _, EmptyString => ""
  end.

(** [s[:n]] for [n <= len(s)]. *)
Fixpoint stake (n : nat) (s : string) : string :=
  match n, s with
  | O, _ => ""
  | S n', String a s' => String a (stake n' s')
  | S _, EmptyString => ""
  end.

Definition TrimPrefix (s p : string) : string :=
  if HasPrefix s p then sdrop (String.length p) s else s.

(** [strings.IndexByte]: -1 when absent. *)
Fixpoint index_byte (c : ascii) (s : string) : option nat :=
  match s with
  | EmptyString => None
  | String a s' => if Ascii.eqb a c then Some O else S <$> index_byte c s'
  end.
Definition IndexByte (s : string) (c : ascii) : Z :=
  match index_byte c s with Some n => Z.of_nat n | None => -1 end.

(** [strings.LastIndexByte]: -1 when absent. *)
Fixpoint last_index_byte (c : ascii) (s : string) : option nat :=
  match s with
  | EmptyString => None
  | String a s' =>
      match last_index_byte c s' with
      | Some n => Some (S n)
      | None => if Ascii.eqb a c then Some O else None
      end
  end.
Definition LastIndexByte (s : string) (c : ascii) : Z :=
  match last_index_byte c s with Some n => Z.of_nat n | None => -1 end.

(** [strings.Contains(s, sub)]. *)
Fixpoint Contains (s sub : string) : bool :=
  HasPrefix s sub || match s with EmptyString => false | String _ s' => Contains s' sub end.

(** [strings.Join]. *)
Fixpoint Join (l : list string) (sep : string) : string :=
  match l with
  | [] => ""
  | [s] => s
  | s :: l' => s +:+ sep +:+ Join l' sep
  end.

(** [strings.Split(s, sep)] for a one-byte separator. *)
Fixpoint Split (s : string) (sep : ascii) : list string :=
  match s with
  | EmptyString => [""]
  | String a s' =>
      if Ascii.eqb a sep then "" :: Split s' sep
      else match Split s' sep with
           | w :: ws => String a w :: ws
           | [] => [str1 a]
           end
  end.

(** [strings.Cut(s, sep)] for a one-byte separator: what is before it. *)
Fixpoint Cut_before (s : string) (sep : ascii) : string :=
  match s with
  | EmptyString => ""
  | String a s' => if Ascii.eqb a sep then "" else String a (Cut_before s' sep)
  end.

(** [sort.Strings]: bytewise lexicographic order. *)
Definition sle (s t : string) : Prop := String.leb s t = true.
#[export] Instance sle_dec : RelDecision sle.
Proof. intros s t. unfold Decision, sle. destruct (String.leb s t); [by left|by right]. Defined.
Definition SortStrings (l : list string) : list string := merge_sort sle l.

Fixpoint srepeat (s : string) (n : nat) : string :=
  match n with O => "" | S n' => s +:+ srepeat s n' end.

(** ** UTF-8 *)

Definition RuneError : Z := 0xFFFD.

Definition in_range (lo hi z : Z) : bool := (lo <=? z) && (z <=? hi).

(** [utf8.DecodeRuneInString]: the rune and its width; an invalid sequence is
    [RuneError] with width 1, the empty string [RuneError] with width 0. *)
Definition DecodeRune (s : string) : Z * nat :=
  match s with
  | EmptyString => (RuneError, O)
  | String a s1 =>
      let c := byte_of a in
      let bad := (RuneError, 1%nat) in
      if c <? 0x80 then (c, 1%nat)
      else if in_range 0xC2 0xDF c then
        match s1 with
        | String b _ =>
            let d := byte_of b in
            if in_range 0x80 0xBF d
            then (Z.lor (Z.shiftl (Z.land c 0x1F) 6) (Z.land d 0x3F), 2%nat) else bad
        | _ => bad
        end
      else if in_range 0xE0 0xEF c then
        let lo := if c =? 0xE0 then 0xA0 else 0x80 in
        let hi := if c =? 0xED then 0x9F else 0xBF in
        match s1 with
        | String b (String e _) =>
            let d := byte_of b in let f := byte_of e in
            if in_range lo hi d && in_range 0x80 0xBF f
            then (Z.lor (Z.lor (Z.shiftl (Z.land c 0x0F) 12) (Z.shiftl (Z.land d 0x3F) 6))
                        (Z.land f 0x3F), 3%nat)
            else bad
        | _ => bad
        end
      else if in_range 0xF0 0xF4 c then
        let lo := if c =? 0xF0 then 0x90 else 0x80 in
        let hi := if c =? 0xF4 then 0x8F else 0xBF in
        match s1 with
        | String b (String e (String g _)) =>
            let d := byte_of b in let f := byte_of e in let h := byte_of g in
            if in_range lo hi d && in_range 0x80 0xBF f && in_range 0x80 0xBF h
            then (Z.lor (Z.lor (Z.lor (Z.shiftl (Z.land c 0x07) 18) (Z.shiftl (Z.land d 0x3F) 12))
                               (Z.shiftl (Z.land f 0x3F) 6)) (Z.land h 0x3F), 4%nat)
            else bad
        | _ => bad
        end
      else bad
  end.

(** The string cut into its runes: each with the bytes it occupies. *)
Fixpoint runes_go (fuel : nat) (s : string) : list (Z * string) :=
  match fuel, s with
  | O, _ | _, EmptyString => []
  | S fuel', _ =>
      let '(r, w) := DecodeRune s in (r, stake w s) :: runes_go fuel' (sdrop w s)
  end.
Definition runes (s : string) : list (Z * string) := runes_go (String.length s) s.

(** [unicode.IsSpace]. *)
Definition IsSpace (r : Z) : bool :=
  in_range 9 13 r || (r =? 0x20) || (r =? 0x85) || (r =? 0xA0) || (r =? 0x1680)
  || in_range 0x2000 0x200A r || (r =? 0x2028) || (r =? 0x2029) || (r =? 0x202F)
  || (r =? 0x205F) || (r =? 0x3000).

Fixpoint drop_spaces (l : list (Z * string)) : list (Z * string) :=
  match l with
  | (r, b) :: l' => if IsSpace r then drop_spaces l' else l
  | [] => []
  end.

Definition concat_runes (l : list (Z * string)) : string :=
  foldr (fun rb acc => snd rb +:+ acc) "" l.

(** [strings.TrimSpace]. *)
Definition TrimSpace (s : string) : string :=
  concat_runes (rev (drop_spaces (rev (drop_spaces (runes s))))).

(** [strings.Fields]: the maximal runs of non-space runes. *)
Fixpoint fields_go (l : list (Z * string)) (cur : option string) : list string :=
  match l with
  | [] => match cur with Some w => [w] | None => [] end
  | (r, b) :: l' =>
      if IsSpace r then
        match cur with Some w => w :: fields_go l' None | None => fields_go l' None end
      else fields_go l' (Some (match cur with Some w => w +:+ b | None => b end))
  end.
Definition Fields (s : string) : list string := fields_go (runes s) None.

(** ** Integers as text *)

Definition digit (d : Z) : ascii := chr (if d <? 10 then 48 + d else 87 + d).

(** The digits of [n] in base [b], most significant first, before [acc]. *)
Fixpoint fmt_digits (fuel : nat) (b n : Z) (acc : string) : string :=
  match fuel with
  | O => acc
  | S f =>
      let acc' := String (digit (n mod b)) acc in
      if n / b =? 0 then acc' else fmt_digits f b (n / b) acc'
  end.

(** [strconv.FormatUint(n, b)] for [2 <= b <= 16]; sixty-four digits are the
    most a 64-bit value needs in any base. *)
Definition FormatUint (n b : Z) : string := fmt_digits 64 b n "".

(** [%d], [%x] and [%o]. *)
Definition fmt_d (z : Z) : string :=
  if z <? 0 then String "-" (FormatUint (- z) 10) else FormatUint z 10.
Definition fmt_x (z : Z) : string := FormatUint z 16.
Definition fmt_o (z : Z) : string := FormatUint z 8.

(** Zero padding on the left to [n] bytes, as [%0nx] does. *)
Definition pad0 (n : nat) (s : string) : string :=
  srepeat "0" (n - String.length s) +:+ s.

Definition digit_val (a : ascii) : option Z :=
  let c := byte_of a in if in_range 48 57 c then Some (c - 48) else None.

(** [strconv.ParseUint(s, 10, 32)]: [None] is any of its errors. *)
Fixpoint parse_digits (s : string) (acc : Z) : option Z :=
  match s with
  | EmptyString => Some acc
  | String a s' =>
      d ← digit_val a;
      let acc' := acc * 10 + d in
      if acc' <? 2 ^ 32 then parse_digits s' acc' else None
  end.
Definition ParseUint32 (s : string) : option Z :=
  match s with EmptyString => None | _ => parse_digits s 0 end.

Definition FormatBool (b : bool) : string := if b then "true" else "false".

(** ** [%q]

    [strconv.IsPrint] above Latin-1 is a table of the Unicode version the Go
    release carries; the development is generic in it. *)
Class UnicodeTables := { isPrintWide : Z -> bool }.

(** A table for concrete runs. *)
Definition example_tables : UnicodeTables := {| isPrintWide := fun _ => false |}.

Definition IsPrint `{UnicodeTables} (r : Z) : bool :=
  if r <=? 0xFF then
    in_range 0x20 0x7E r || (in_range 0xA1 0xFF r && negb (r =? 0xAD))
  else isPrintWide r.

Definition quote_rune `{UnicodeTables} (r : Z) (b : string) : string :=
  if (String.length b =? 1)%nat && (r =? RuneError) then
    match b with
    | String a _ => "\x" +:+ pad0 2 (fmt_x (byte_of a))
    | _ => ""
    end
  else if (r =? 34) || (r =? 92) then String "\" b
  else if IsPrint r then b
  else if r =? 7 then "\a" else if r =? 8 then "\b" else if r =? 12 then "\f"
  else if r =? 10 then "\n" else if r =? 13 then "\r" else if r =? 9 then "\t"
  else if r =? 11 then "\v"
  else if (r <? 32) || (r =? 127) then "\x" +:+ pad0 2 (fmt_x r)
  else if r <? 0x10000 then "\u" +:+ pad0 4 (fmt_x r)
  else "\U" +:+ pad0 8 (fmt_x r).

(** [strconv.Quote], which is [%q] on a string. *)
Definition Quote `{UnicodeTables} (s : string) : string :=
  let q := str1 (chr 34) in
  q +:+ foldr (fun rb acc => quote_rune (fst rb) (snd rb) +:+ acc) "" (runes s) +:+ q.

(** ** Lemmas: append *)

Lemma sapp_nil_r s : s +:+ "" = s.
Proof. induction s as [|a s IH]; cbn; [done|by rewrite IH]. Qed.

Lemma sapp_assoc s t u : s +:+ (t +:+ u) = (s +:+ t) +:+ u.
Proof. induction s as [|a s IH]; cbn; [done|by rewrite IH]. Qed.

Lemma sapp_length s t : String.length (s +:+ t) = (String.length s + String.length t)%nat.
Proof. induction s as [|a s IH]; cbn; [done|by rewrite IH]. Qed.

Lemma slen_app s t : slen (s +:+ t) = slen s + slen t.
Proof. unfold slen. rewrite sapp_length. lia. Qed.

Lemma sapp_inj_l s t u : s +:+ t = s +:+ u -> t = u.
Proof. induction s as [|a s IH]; cbn; [done|]. intros [= ?]; auto. Qed.

Lemma sapp_inj_r s t u : s +:+ u = t +:+ u -> s = t.
Proof.
  revert t; induction s as [|a s IH]; intros [|b t]; cbn; try done.
  - intros H. apply (f_equal String.length) in H. cbn in H. rewrite sapp_length in H. lia.
  - intros H. apply (f_equal String.length) in H. cbn in H. rewrite sapp_length in H. lia.
  - intros [= -> H]. f_equal; auto.
Qed.

Lemma sdrop_app s t : sdrop (String.length s) (s +:+ t) = t.
Proof. induction s; cbn; auto. Qed.

Lemma stake_app s t : stake (String.length s) (s +:+ t) = s.
Proof. induction s as [|a s IH]; cbn; [done|by rewrite IH]. Qed.

Lemma stake_sdrop n s : stake n s +:+ sdrop n s = s.
Proof. revert s; induction n as [|n IH]; intros [|a s]; cbn; try done. by rewrite IH. Qed.

(** ** Lemmas: prefixes and containment *)

Lemma HasPrefix_spec s p : HasPrefix s p = true <-> exists t, s = p +:+ t.
Proof.
  unfold HasPrefix. revert s; induction p as [|a p IH]; intros [|b s]; cbn.
  - split; [by exists ""|done].
  - split; [by exists (String b s)|done].
  - split; [done|]. by intros [t ?].
  - destruct (Ascii.ascii_dec a b) as [->|Hab]; [|split; [done|]; intros [t ?]; congruence].
    rewrite IH. split; intros [t Ht]; exists t; congruence.
Qed.

Lemma HasPrefix_app p t : HasPrefix (p +:+ t) p = true.
Proof. apply HasPrefix_spec; eauto. Qed.

Lemma TrimPrefix_app p t : TrimPrefix (p +:+ t) p = t.
Proof. unfold TrimPrefix. by rewrite HasPrefix_app, sdrop_app. Qed.

Lemma Contains_spec s sub : Contains s sub = true <-> exists a b, s = a +:+ sub +:+ b.
Proof.
  induction s as [|c s IH]; cbn.
  - rewrite orb_false_r, HasPrefix_spec. split.
    + intros [t Ht]. by exists "", t.
    + intros ([|] & b & H); [by exists b|done].
  - rewrite orb_true_iff, HasPrefix_spec, IH. split.
    + intros [[t Ht]|(a & b & ->)]; [by exists "", t|by exists (String c a), b].
    + intros ([|d a] & b & H); cbn in H; [by left; exists b|].
      injection H as -> ->. right; eauto.
Qed.

(** ** Lemmas: bytes that do not occur *)

Fixpoint all_bytes (P : ascii -> bool) (s : string) : bool :=
  match s with EmptyString => true | String a s' => P a && all_bytes P s' end.

Definition no_byte (c : ascii) (s : string) : Prop := all_bytes (fun a => negb (Ascii.eqb a c)) s = true.

Lemma all_bytes_app P s t : all_bytes P (s +:+ t) = all_bytes P s && all_bytes P t.
Proof. induction s as [|a s IH]; cbn; [done|]. by rewrite IH, andb_assoc. Qed.

Lemma all_bytes_impl (P Q : ascii -> bool) s :
  (forall a, P a = true -> Q a = true) -> all_bytes P s = true -> all_bytes Q s = true.
Proof. intros HPQ. induction s as [|a s IH]; cbn; [done|]. intros [? ?]%andb_true_iff. by rewrite HPQ, IH. Qed.

Lemma no_byte_app c s t : no_byte c (s +:+ t) <-> no_byte c s /\ no_byte c t.
Proof. unfold no_byte. rewrite all_bytes_app. apply andb_true_iff. Qed.

Lemma index_byte_None c s : index_byte c s = None <-> no_byte c s.
Proof.
  unfold no_byte. induction s as [|a s IH]; cbn; [done|].
  destruct (Ascii.eqb a c); cbn; [done|]. rewrite fmap_None. done.
Qed.

Lemma index_byte_app c s t : no_byte c s -> index_byte c (s +:+ String c t) = Some (String.length s).
Proof.
  unfold no_byte. induction s as [|a s IH]; cbn; [by rewrite Ascii.eqb_refl|].
  destruct (Ascii.eqb a c); cbn; [done|]. intros ?. by rewrite IH.
Qed.

Lemma index_byte_Some c s n :
  index_byte c s = Some n ->
  exists t, s = stake n s +:+ String c t /\ no_byte c (stake n s) /\ String.length (stake n s) = n.
Proof.
  unfold no_byte. revert n; induction s as [|a s IH]; cbn; [done|]. intros n.
  destruct (Ascii.eqb_spec a c) as [->|Hac]; [intros [= <-]; by exists s|].
  intros (m & Hm & ->)%fmap_Some. destruct (IH _ Hm) as (t & Ht & Hn & Hl). exists t; cbn. split_and!.
  - by rewrite <- Ht.
  - rewrite Hn. apply Ascii.eqb_neq in Hac. by rewrite Hac.
  - by rewrite Hl.
Qed.

(** ** Lemmas: [Join] and [Split] *)

Lemma Join_cons2 s1 s2 l sep : Join (s1 :: s2 :: l) sep = s1 +:+ sep +:+ Join (s2 :: l) sep.
Proof. done. Qed.

Lemma Split_app c s t :
  no_byte c s -> Split (s +:+ String c t) c = s :: Split t c.
Proof.
  unfold no_byte. induction s as [|a s IH]; cbn; [by rewrite Ascii.eqb_refl|].
  destruct (Ascii.eqb a c); cbn; [done|]. intros ?. by rewrite IH.
Qed.

Lemma Split_no_byte c s : no_byte c s -> Split s c = [s].
Proof.
  unfold no_byte. induction s as [|a s IH]; cbn; [done|].
  destruct (Ascii.eqb a c); cbn; [done|]. intros ?. by rewrite IH.
Qed.

Lemma Split_Join c l :
  l <> [] -> Forall (no_byte c) l -> Split (Join l (str1 c)) c = l.
Proof.
  intros Hne Hl. induction Hl as [|s l Hs Hl IH]; [done|].
  destruct l as [|s2 l]; [by apply Split_no_byte|].
  rewrite Join_cons2.
  change (str1 c +:+ ?x) with (String c x).
  rewrite Split_app by done. f_equal. by apply IH.
Qed.

Lemma Join_inj c l1 l2 :
  l1 <> [] -> l2 <> [] -> Forall (no_byte c) l1 -> Forall (no_byte c) l2 ->
  Join l1 (str1 c) = Join l2 (str1 c) -> l1 = l2.
Proof.
  intros H1 H2 F1 F2 HJ. rewrite <- (Split_Join c l1), <- (Split_Join c l2) by done. by rewrite HJ.
Qed.

(** ** Lemmas: [sort.Strings] *)

Lemma ascii_compare_refl a : Ascii.compare a a = Eq.
Proof. apply N.compare_refl. Qed.

Lemma ascii_compare_lt_trans a b c :
  Ascii.compare a b = Lt -> Ascii.compare b c = Lt -> Ascii.compare a c = Lt.
Proof. unfold Ascii.compare. rewrite !N.compare_lt_iff. lia. Qed.

Lemma sle_trans s t u : sle s t -> sle t u -> sle s u.
Proof.
  unfold sle, String.leb. revert t u; induction s as [|a s IH]; intros [|b t] [|c u]; cbn; try done.
  destruct (Ascii.compare a b) eqn:Eab; destruct (Ascii.compare b c) eqn:Ebc; try done.
  - apply Ascii.compare_eq_iff in Eab, Ebc; subst. rewrite ascii_compare_refl. apply IH.
  - apply Ascii.compare_eq_iff in Eab; subst. by rewrite Ebc.
  - apply Ascii.compare_eq_iff in Ebc; subst. by rewrite Eab.
  - by rewrite (ascii_compare_lt_trans _ _ _ Eab Ebc).
Qed.

#[export] Instance sle_transitive : Transitive sle.
Proof. intros s t u. apply sle_trans. Qed.

#[export] Instance sle_total : Total sle.
Proof. intros s t. unfold sle. apply String.leb_total. Qed.

#[export] Instance sle_antisymm : AntiSymm (=) sle.
Proof. intros s t. apply String.leb_antisym. Qed.

Lemma SortStrings_perm l : SortStrings l ≡ₚ l.
Proof. apply merge_sort_Permutation. Qed.

(** Sorting makes the order of a Go map iteration irrelevant. *)
Lemma SortStrings_Permutation l1 l2 : l1 ≡ₚ l2 -> SortStrings l1 = SortStrings l2.
Proof.
  intros Hp. apply (StronglySorted_unique sle).
  - apply StronglySorted_merge_sort; apply _.
  - apply StronglySorted_merge_sort; apply _.
  - by rewrite !SortStrings_perm.
Qed.

(** ** Lemmas: integers as text *)

Definition undigit (a : ascii) : Z :=
  let c := byte_of a in if c <? 58 then c - 48 else c - 87.

(** The value of a digit string read left to right from [v]. *)
Fixpoint digits_value (b v : Z) (s : string) : Z :=
  match s with EmptyString => v | String a s' => digits_value b (v * b + undigit a) s' end.

Lemma byte_of_chr z : 0 <= z < 256 -> byte_of (chr z) = z.
Proof.
  intros. unfold byte_of, chr. rewrite N_ascii_embedding by lia. lia.
Qed.

Lemma undigit_digit d : 0 <= d < 16 -> undigit (digit d) = d.
Proof.
  intros. unfold undigit, digit. rewrite byte_of_chr by (case_match; lia).
  repeat case_match; bool_prop; lia.
Qed.

Lemma fmt_digits_value f b n acc :
  2 <= b <= 16 -> 0 <= n < b ^ Z.of_nat f -> (0 < f)%nat ->
  digits_value b 0 (fmt_digits f b n acc) = digits_value b n acc.
Proof.
  intros Hb. revert n acc; induction f as [|f IH]; intros n acc Hn Hf; [lia|].
  cbn [fmt_digits]. pose proof (Z.mod_pos_bound n b ltac:(lia)) as Hm.
  pose proof (Z.div_mod n b ltac:(lia)) as Hdm.
  case_match eqn:E; bool_prop; cbn [digits_value].
  - rewrite undigit_digit by lia. f_equal. lia.
  - rewrite Nat2Z.inj_succ, Z.pow_succ_r in Hn by lia.
    assert (0 <= n / b < b ^ Z.of_nat f) as Hq.
    { split; [by apply Z.div_pos; lia|]. apply Z.div_lt_upper_bound; lia. }
    destruct f as [|f]; [cbn in Hq; lia|].
    rewrite IH by (try done; lia). cbn [digits_value]. rewrite undigit_digit by lia. f_equal. lia.
Qed.

Lemma FormatUint_value n b : 2 <= b <= 16 -> is_u64 n -> digits_value b 0 (FormatUint n b) = n.
Proof.
  unfold is_u64; intros Hb Hn. unfold FormatUint. rewrite fmt_digits_value; [done|lia| |lia].
  split; [lia|]. apply Z.lt_le_trans with (2 ^ 64); [lia|]. apply Z.pow_le_mono_l; lia.
Qed.

Lemma FormatUint_inj b n m :
  2 <= b <= 16 -> is_u64 n -> is_u64 m -> FormatUint n b = FormatUint m b -> n = m.
Proof. intros Hb Hn Hm H. by rewrite <- (FormatUint_value n b), <- (FormatUint_value m b), H. Qed.

Definition is_digit (a : ascii) : bool :=
  let c := byte_of a in in_range 48 57 c || in_range 97 102 c.
Definition is_decimal (a : ascii) : bool := in_range 48 57 (byte_of a).

Lemma is_digit_digit d : 0 <= d < 16 -> is_digit (digit d) = true.
Proof.
  intros. unfold is_digit, digit, in_range. rewrite byte_of_chr by (case_match; lia).
  case_match; bool_prop; lia.
Qed.

Lemma is_decimal_digit d : 0 <= d < 10 -> is_decimal (digit d) = true.
Proof.
  intros. unfold is_decimal, digit, in_range. rewrite byte_of_chr by (case_match; lia).
  case_match; bool_prop; lia.
Qed.

Lemma fmt_digits_all (P : ascii -> bool) f b n acc :
  0 < b -> (forall d, 0 <= d < b -> P (digit d) = true) ->
  all_bytes P acc = true -> all_bytes P (fmt_digits f b n acc) = true.
Proof.
  intros Hb HP. revert n acc; induction f as [|f IH]; intros n acc Hacc; cbn [fmt_digits]; [done|].
  assert (all_bytes P (String (digit (n mod b)) acc) = true).
  { cbn. rewrite HP by (apply Z.mod_pos_bound; lia). done. }
  case_match; auto.
Qed.

Lemma FormatUint_digits n b : 0 < b <= 16 -> all_bytes is_digit (FormatUint n b) = true.
Proof. intros. apply fmt_digits_all; [lia| |done]. intros; apply is_digit_digit; lia. Qed.

Lemma FormatUint_decimal n : all_bytes is_decimal (FormatUint n 10) = true.
Proof. apply fmt_digits_all; [lia| |done]. intros; apply is_decimal_digit; lia. Qed.

Lemma fmt_digits_ne f b n acc : (0 < f)%nat -> fmt_digits f b n acc <> "".
Proof.
  revert n acc; induction f as [|f IH]; intros n acc Hf; [lia|]. cbn [fmt_digits].
  case_match; [done|]. destruct f as [|f]; [done|]. apply IH; lia.
Qed.

Lemma FormatUint_ne n b : FormatUint n b <> "".
Proof. apply fmt_digits_ne; lia. Qed.

(** A byte that is no digit does not occur in a formatted number. *)
Lemma no_byte_digits c s : is_digit c = false -> all_bytes is_digit s = true -> no_byte c s.
Proof.
  intros Hc. apply all_bytes_impl. intros a Ha. apply negb_true_iff, Ascii.eqb_neq. congruence.
Qed.

Lemma no_byte_decimal c s : is_decimal c = false -> all_bytes is_decimal s = true -> no_byte c s.
Proof.
  intros Hc. apply all_bytes_impl. intros a Ha. apply negb_true_iff, Ascii.eqb_neq. congruence.
Qed.

Lemma fmt_d_inj n m :
  - 2 ^ 64 < n < 2 ^ 64 -> - 2 ^ 64 < m < 2 ^ 64 -> fmt_d n = fmt_d m -> n = m.
Proof.
  assert (Hneg : forall k s, FormatUint k 10 = String "-" s -> False).
  { intros k s Hk. pose proof (FormatUint_decimal k) as Hd. by rewrite Hk in Hd. }
  unfold fmt_d. intros Hn Hm H. repeat case_match; bool_prop.
  - injection H as H. apply FormatUint_inj in H; unfold is_u64; lia.
  - exfalso; eauto.
  - exfalso; eauto.
  - apply FormatUint_inj in H; unfold is_u64; lia.
Qed.

Lemma digit_val_decimal a : is_decimal a = true -> digit_val a = Some (undigit a).
Proof.
  unfold is_decimal, digit_val, undigit, in_range. intros H. rewrite H. bool_prop. case_match; bool_prop; f_equal; lia.
Qed.

Lemma parse_digits_value s v n :
  all_bytes is_decimal s = true -> 0 <= v -> digits_value 10 v s = n -> n < 2 ^ 32 ->
  parse_digits s v = Some n.
Proof.
  assert (Hmono : forall s v, all_bytes is_decimal s = true -> 0 <= v -> v <= digits_value 10 v s).
  { clear. intros s; induction s as [|a s IH]; cbn; intros v H Hv; [lia|]. bool_prop.
    assert (0 <= undigit a).
    { unfold is_decimal, undigit, in_range in *. bool_prop. case_match; lia. }
    etransitivity; [|apply IH; [done|lia]]. lia. }
  revert v; induction s as [|a s IH]; cbn; intros v H Hv Heq Hn; [by subst|]. bool_prop.
  rewrite digit_val_decimal by done. cbn.
  assert (0 <= undigit a).
  { unfold is_decimal, undigit, in_range in *. bool_prop. case_match; lia. }
  pose proof (Hmono s (v * 10 + undigit a) ltac:(done) ltac:(lia)).
  case_match; bool_prop; [|lia]. apply IH; done || lia.
Qed.

(** Printing a [uint32] and parsing it back is the identity. *)
Lemma ParseUint32_FormatUint n : is_u32 n -> ParseUint32 (FormatUint n 10) = Some n.
Proof.
  unfold is_u32; intros Hn. unfold ParseUint32.
  destruct (FormatUint n 10) as [|a s] eqn:E; [by apply FormatUint_ne in E|].
  rewrite <- E. apply parse_digits_value; [apply FormatUint_decimal|lia| |lia].
  apply FormatUint_value; [lia|]. unfold is_u64; lia.
Qed.

(** ** Words of printable ASCII *)

Definition word_byte (a : ascii) : bool := in_range 33 126 (byte_of a).

Lemma runes_ascii a s : byte_of a < 128 -> runes (String a s) = (byte_of a, str1 a) :: runes s.
Proof.
  intros Ha. unfold runes. cbn [String.length runes_go DecodeRune].
  destruct (byte_of a <? 0x80) eqn:E; bool_prop; [|lia]. by destruct s.
Qed.

Lemma word_byte_not_space a : word_byte a = true -> IsSpace (byte_of a) = false.
Proof. unfold word_byte, IsSpace, in_range. intros ?. bool_prop. repeat (apply orb_false_iff; split); lia. Qed.

Lemma fields_go_word w t cur :
  all_bytes word_byte w = true -> fields_go (runes (w +:+ t)) (Some cur) = fields_go (runes t) (Some (cur +:+ w)).
Proof.
  revert cur. induction w as [|a w IH]; intros cur Hw; cbn [String.append]; [by rewrite sapp_nil_r|].
  cbn in Hw. apply andb_true_iff in Hw as [Ha Hw].
  rewrite runes_ascii by (revert Ha; unfold word_byte, in_range; intros; bool_prop; lia).
  cbn [fields_go]. rewrite (word_byte_not_space _ Ha), IH by done. by rewrite <- sapp_assoc.
Qed.

(** [strings.Fields] splits off a word that a space ends, whatever follows. *)
Lemma Fields_word w t :
  all_bytes word_byte w = true -> w <> "" -> Fields (w +:+ String " " t) = w :: Fields t.
Proof.
  destruct w as [|a w]; [done|]. intros [Ha Hw]%andb_true_iff _. unfold Fields. cbn [String.append].
  rewrite runes_ascii by (revert Ha; unfold word_byte, in_range; intros; bool_prop; lia).
  cbn [fields_go]. rewrite (word_byte_not_space _ Ha), fields_go_word by done.
  rewrite runes_ascii by done. done.
Qed.

Lemma decimal_word s : all_bytes is_decimal s = true -> all_bytes word_byte s = true.
Proof. apply all_bytes_impl. intros a. unfold is_decimal, word_byte, in_range. intros. bool_prop. lia. Qed.

(** ** Valid UTF-8

    What [encoding/json] makes of a string: each byte that is part of no valid
    sequence becomes U+FFFD, whose encoding is these three bytes. *)
Definition replacement : string := String (chr 0xEF) (String (chr 0xBF) (String (chr 0xBD) "")).
Definition to_utf8_rune (rb : Z * string) : string :=
  if (String.length (snd rb) =? 1)%nat && (fst rb =? RuneError) then replacement else snd rb.
Definition to_utf8 (s : string) : string := foldr (fun rb acc => to_utf8_rune rb +:+ acc) "" (runes s).
Definition valid_utf8 (s : string) : Prop := to_utf8 s = s.
#[export] Instance valid_utf8_dec s : Decision (valid_utf8 s) := String.string_dec (to_utf8 s) s.

Lemma to_utf8_ascii a s : byte_of a < 128 -> to_utf8 (String a s) = String a (to_utf8 s).
Proof.
  intros Ha. unfold to_utf8. rewrite runes_ascii by done. cbn [foldr]. unfold to_utf8_rune at 1. cbn [fst snd str1 String.length].
  assert ((byte_of a =? RuneError) = false) as -> by (unfold RuneError; lia). done.
Qed.

(** ASCII is valid. *)
Lemma ascii_valid s : all_bytes (fun a => byte_of a <? 128) s = true -> valid_utf8 s.
Proof.
  unfold valid_utf8. induction s as [|a s IH]; cbn [all_bytes]; [done|]. intros [Ha Hs]%andb_true_iff.
  rewrite to_utf8_ascii by lia. by rewrite IH.
Qed.
