(* ===== verification/GoPath.v ===== *)
(** * Go paths

    [path.Clean] and [path.Match] of Go's standard library, as far as the
    sensitive-file rule uses them: the lexical normal form of a path, and globs
    whose only special character is [*].  No definition here maps to a line of
    the repository. *)

From S2P Require Import Prelude GoStrings.

Definition slash : ascii := "/".

(** ** [path.Clean]

    The normal form is computed over the path's elements, the output kept as a
    stack with the last element first; [..] removes the last element unless
    there is none left to remove, where it is kept in a relative path and
    dropped in a rooted one. *)
Definition clean_elem (rooted : bool) (stack : list string) (e : string) : list string :=
  if (e ==s "") || (e ==s ".") then stack
  else if e ==s ".." then
    match stack with
    | top :: rest => if top ==s ".." then ".." :: stack else rest
    | [] => if rooted then [] else [".."]
    end
  else e :: stack.

Definition clean_elems (rooted : bool) (es : list string) : list string :=
  rev (foldl (clean_elem rooted) [] es).

Definition is_rooted (p : string) : bool := HasPrefix p "/".

Definition Clean (p : string) : string :=
  let rooted := is_rooted p in
  let out := Join (clean_elems rooted (Split p slash)) "/" in
  if rooted then "/" +:+ out else if out ==s "" then "." else out.

(** ** [path.Match] on patterns without [?], [[] and [\] *)

Fixpoint Match_ (pat s : string) : bool :=
  match pat with
  | EmptyString => s ==s ""
  | String c pat' =>
      if Ascii.eqb c "*" then
        (fix star (s : string) : bool :=
           Match_ pat' s
           || match s with
              | String a s' => negb (Ascii.eqb a slash) && star s'
              | EmptyString => false
              end) s
      else
        match s with
        | String a s' => Ascii.eqb a c && Match_ pat' s'
        | EmptyString => false
        end
  end.

(** ** Lemmas: cleaning *)

(** A path element as [Clean] leaves it in a rooted path. *)
Definition plain_elem (e : string) : Prop := e <> "" /\ e <> "." /\ e <> "..".

#[export] Instance plain_elem_dec e : Decision (plain_elem e) := ltac:(unfold plain_elem; apply _).

Lemma clean_elem_plain rooted stack e : plain_elem e -> clean_elem rooted stack e = e :: stack.
Proof.
  intros (H1 & H2 & H3). unfold clean_elem. apply String.eqb_neq in H1, H2, H3. by rewrite H1, H2, H3.
Qed.

Lemma clean_elem_skip rooted stack e : e = "" \/ e = "." -> clean_elem rooted stack e = stack.
Proof. by intros [-> | ->]. Qed.

Lemma clean_elems_plain rooted es : Forall plain_elem es -> clean_elems rooted es = es.
Proof.
  intros H. unfold clean_elems. rewrite <- (rev_involutive es) at 2. f_equal.
  assert (forall st, foldl (clean_elem rooted) st es = rev es ++ st) as Hg; [|by rewrite Hg, app_nil_r].
  induction H as [|e es He _ IH]; intros st; cbn; [done|].
  by rewrite clean_elem_plain, IH, <- app_assoc.
Qed.

Lemma clean_stack_rooted es st :
  Forall plain_elem st -> Forall (fun e => no_byte slash e) es -> Forall (no_byte slash) st ->
  Forall (fun e => plain_elem e /\ no_byte slash e) (foldl (clean_elem true) st es).
Proof.
  intros Hst Hes Hn. revert st Hst Hn. induction Hes as [|e es He _ IH]; intros st Hst Hn; cbn.
  - apply Forall_and; done.
  - assert (Forall plain_elem (clean_elem true st e) /\ Forall (no_byte slash) (clean_elem true st e)) as [H1 H2].
    { destruct (decide (e = "")) as [->|]; [done|]. destruct (decide (e = ".")) as [->|]; [done|].
      destruct (decide (e = "..")) as [->|].
      - destruct st as [|top st]; [done|]. cbn. apply Forall_cons in Hst as [Htop Hst], Hn as [? ?].
        destruct (top ==s "..") eqn:E; [|done]. bool_prop. by destruct Htop as (_ & _ & ?).
      - rewrite clean_elem_plain by (by split_and!). split; by constructor. }
    by apply IH.
Qed.

Lemma Split_sep c a b : Split (a +:+ String c b) c = Split a c ++ Split b c.
Proof.
  induction a as [|x a IH]; cbn [String.append Split]; [by rewrite Ascii.eqb_refl|].
  rewrite IH. destruct (Ascii.eqb x c); [done|].
  destruct (Split a c) as [|w ws] eqn:E; [|done].
  exfalso. destruct a as [|y a]; cbn in E; [done|]. destruct (Ascii.eqb y c); [done|]. by destruct (Split a c).
Qed.

Lemma Split_no_sep c s : Forall (no_byte c) (Split s c).
Proof.
  induction s as [|a s IH]; cbn; [by repeat constructor|].
  destruct (Ascii.eqb_spec a c) as [->|Hac]; [by constructor|].
  apply Ascii.eqb_neq in Hac.
  destruct (Split s c) as [|w ws]; repeat constructor.
  - unfold no_byte; cbn. by rewrite Hac.
  - apply Forall_cons in IH as [Hw _]. unfold no_byte; cbn. by rewrite Hac.
  - by apply Forall_cons in IH as [_ ?].
Qed.

Lemma is_rooted_cons s : is_rooted s = true <-> exists t, s = String slash t.
Proof. unfold is_rooted. rewrite HasPrefix_spec. by split; intros [t ->]; exists t. Qed.

Lemma is_rooted_app a b : is_rooted (a +:+ String slash b) = (a ==s "") || is_rooted a.
Proof.
  apply eq_true_iff_eq. rewrite orb_true_iff, String.eqb_eq, !is_rooted_cons. split.
  - intros [t Ht]. destruct a as [|x a]; [by left|]. right. injection Ht as -> _. eauto.
  - intros [->|[t ->]]; eauto.
Qed.

(** A rooted path cleans to [/] and plain elements, joined by [/]. *)
Lemma Clean_rooted_form t :
  exists es, Clean (String slash t) = "/" +:+ Join es "/" /\
    Forall (fun e => plain_elem e /\ no_byte slash e) es.
Proof.
  unfold Clean. assert (is_rooted (String slash t) = true) as -> by (apply is_rooted_cons; eauto).
  eexists; split; [done|]. unfold clean_elems. apply Forall_rev, clean_stack_rooted; [done| |done].
  apply Split_no_sep.
Qed.

Lemma Clean_elems_fix es :
  Forall (fun e => plain_elem e /\ no_byte slash e) es -> Clean ("/" +:+ Join es "/") = "/" +:+ Join es "/".
Proof.
  intros H. apply Forall_and in H as [Hp Hn]. unfold Clean.
  assert (is_rooted ("/" +:+ Join es "/") = true) as -> by (apply is_rooted_cons; by eexists).
  f_equal. change ("/" +:+ ?x) with (String slash x). cbn [Split]. rewrite Ascii.eqb_refl.
  destruct es as [|e es]; [done|]. rewrite (Split_Join slash) by done.
  change (clean_elems true ("" :: e :: es)) with (clean_elems true (e :: es)).
  by rewrite clean_elems_plain.
Qed.

Lemma Clean_idemp_rooted p : is_rooted p = true -> Clean (Clean p) = Clean p.
Proof.
  intros [t ->]%is_rooted_cons. destruct (Clean_rooted_form t) as (es & -> & H). by apply Clean_elems_fix.
Qed.

(** The elements of a path that is already clean. *)
Lemma Clean_rooted_inv p :
  is_rooted p = true -> exists es, Clean p = "/" +:+ Join es "/" /\
    Forall (fun e => plain_elem e /\ no_byte slash e) es.
Proof. intros [t ->]%is_rooted_cons. apply Clean_rooted_form. Qed.

(** *** Respellings

    The lexical ways of writing a path differently: a doubled slash, a [.]
    element, an element entered and left again. *)
Inductive respelled : string -> string -> Prop :=
  | respelled_slash a b : respelled (a +:+ "//" +:+ b) (a +:+ "/" +:+ b)
  | respelled_dot a b : respelled (a +:+ "/./" +:+ b) (a +:+ "/" +:+ b)
  | respelled_dotdot a x b :
      plain_elem x -> no_byte slash x ->
      respelled (a +:+ "/" +:+ x +:+ "/../" +:+ b) (a +:+ "/" +:+ b).

Lemma Clean_respelled p q : respelled p q -> Clean p = Clean q.
Proof.
  assert (Hgen : forall a m b, (forall r st, foldl (clean_elem r) st (Split m slash) = st) ->
    Clean (a +:+ String slash (m +:+ String slash b)) = Clean (a +:+ String slash b)).
  { intros a m b Hm. unfold Clean. rewrite !is_rooted_app, !Split_sep.
    unfold clean_elems. by rewrite !foldl_app, Hm. }
  intros [a b|a b|a x b Hx Hn].
  - apply (Hgen a "" b). done.
  - apply (Hgen a "." b). done.
  - change (Clean (a +:+ String slash (x +:+ String slash (".." +:+ String slash b))) = Clean (a +:+ String slash b)).
    replace (x +:+ String slash (".." +:+ String slash b)) with ((x +:+ String slash "..") +:+ String slash b)
      by (by rewrite <- sapp_assoc).
    apply Hgen. intros r st. rewrite Split_sep, foldl_app, (Split_no_byte _ x) by done. cbn [foldl Split].
    rewrite clean_elem_plain by done. destruct Hx as (_ & _ & Hx). apply String.eqb_neq in Hx.
    cbn. by rewrite Hx.
Qed.

Lemma Clean_respelled_star p q : rtc respelled p q -> Clean p = Clean q.
Proof. induction 1 as [|x y z Hxy _ IH]; [done|]. by rewrite (Clean_respelled _ _ Hxy). Qed.

(** ** Lemmas: globs *)

Lemma Match_literal pat s :
  all_bytes (fun a => negb (Ascii.eqb a "*")) pat = true -> Match_ pat s = (s ==s pat).
Proof.
  revert s; induction pat as [|c pat IH]; intros s H; cbn in *; [done|]. bool_prop. rewrite H.
  destruct s as [|a s]; [done|]. rewrite IH by done. cbn. by destruct (Ascii.eqb a c).
Qed.

Lemma Match_star pat s :
  Match_ (String "*" pat) s = true <->
  exists x t, s = x +:+ t /\ no_byte slash x /\ Match_ pat t = true.
Proof.
  cbn. induction s as [|a s IH].
  - rewrite orb_false_r. split; [by exists "", ""|]. by intros ([|] & [|] & ? & _ & ?).
  - rewrite orb_true_iff, andb_true_iff, IH. split.
    + intros [H|(Ha & x & t & -> & Hx & Ht)]; [by exists "", (String a s)|].
      exists (String a x), t. split_and!; [done| |done]. unfold no_byte; cbn. by rewrite Ha.
    + intros ([|b x] & t & H & Hx & Ht); cbn in H.
      * left. by subst.
      * right. injection H as -> ->. unfold no_byte in Hx; cbn in Hx. apply andb_true_iff in Hx as [Ha Hx].
        split; [done|]. by exists x, t.
Qed.

Lemma Match_app_literal pre pat s :
  all_bytes (fun a => negb (Ascii.eqb a "*")) pre = true ->
  Match_ (pre +:+ pat) s = true <-> exists t, s = pre +:+ t /\ Match_ pat t = true.
Proof.
  revert s; induction pre as [|c pre IH]; intros s H; cbn in *; [by split; [exists s|intros (t & -> & ?)]|].
  bool_prop. rewrite H. destruct s as [|a s]; [by split; [|intros (t & ? & _)]|].
  rewrite andb_true_iff, IH by done. split.
  - intros [Ha (t & -> & Ht)]. apply Ascii.eqb_eq in Ha as ->. eauto.
  - intros (t & Heq & Ht). injection Heq as -> ->. rewrite Ascii.eqb_refl. eauto.
Qed.

(** The shape the rules use: a literal, [*], a literal. *)
Lemma Match_one_star pre post s :
  all_bytes (fun a => negb (Ascii.eqb a "*")) pre = true ->
  all_bytes (fun a => negb (Ascii.eqb a "*")) post = true ->
  Match_ (pre +:+ String "*" post) s = true <->
  exists x, s = pre +:+ x +:+ post /\ no_byte slash x.
Proof.
  intros H1 H2. rewrite Match_app_literal by done. split.
  - intros (t & -> & (x & u & -> & Hx & Hu)%Match_star). rewrite Match_literal in Hu by done.
    bool_prop. subst. eauto.
  - intros (x & -> & Hx). eexists; split; [done|]. apply Match_star. exists x, post. split_and!; [done..|].
    rewrite Match_literal by done. apply String.eqb_refl.
Qed.
