(* ===== verification/GoTime.v ===== *)
(** * Go durations

    [time.Duration] (an [int64] of nanoseconds): the unit constants, rounding
    and the text form.  These model the standard library, so no definition
    here maps to a line of the repository. *)

From S2P Require Import Prelude GoStrings.

Definition Millisecond : Z := 1000000.
Definition Second : Z := 1000 * Millisecond.
Definition Minute : Z := 60 * Second.

(** Go's integer division truncates towards zero: [Z.quot]. *)

(** [time.Duration(x) / time.Millisecond] for the [uint64] difference [x] of two
    timestamps. *)
Definition millis (x : Z) : Z := Z.quot (i64 (u64 x)) Millisecond.

Definition maxDuration : Z := 2 ^ 63 - 1.
Definition minDuration : Z := - 2 ^ 63.

(** [Duration.Round(m)] for [m > 0]. *)
Definition Duration_Round (d m : Z) : Z :=
  let r := Z.rem d m in
  if d <? 0 then
    let r := - r in
    if r + r <? m then d + r
    else let d1 := i64 (d - m + r) in if d1 <? d then d1 else minDuration
  else
    if r + r <? m then d - r
    else let d1 := i64 (d + m - r) in if d <? d1 then d1 else maxDuration.

(** [fmtFrac]: the last [prec] digits of [v] as a fraction without its trailing
    zeros, before [acc]; and the digits above. *)
Fixpoint fmtFrac (prec : nat) (v : Z) (print : bool) (acc : string) : string * Z :=
  match prec with
  | O => (if print then String "." acc else acc, v)
  | S p =>
      let d := v mod 10 in
      let print := print || negb (d =? 0) in
      fmtFrac p (v / 10) print (if print then String (digit d) acc else acc)
  end.

(** The magnitude of a duration below one second, and from one second up. *)
Definition format_subsecond (u : Z) : string :=
  if u =? 0 then "0s"
  else
    let '(prec, unit) :=
      if u <? 1000 then (0%nat, "ns")
      else if u <? Millisecond then (3%nat, "µs") else (6%nat, "ms") in
    let '(frac, n) := fmtFrac prec u false unit in
    FormatUint n 10 +:+ frac.

Definition format_seconds (u : Z) : string :=
  let '(frac, s) := fmtFrac 9 u false "s" in
  let secs := FormatUint (s mod 60) 10 +:+ frac in
  let m := s / 60 in
  if m =? 0 then secs
  else
    let mins := FormatUint (m mod 60) 10 +:+ "m" +:+ secs in
    let h := m / 60 in
    if h =? 0 then mins else FormatUint h 10 +:+ "h" +:+ mins.

(** [Duration.String]. *)
Definition Duration_String (d : Z) : string :=
  let u := Z.abs d in
  (if d <? 0 then "-" else "") +:+ (if u <? Second then format_subsecond u else format_seconds u).

Example Duration_examples :
  (Duration_String <$> [0; 999; 1500; 2400000000; 3661000000000; -1100000])
  = ["0s"; "999ns"; "1.5µs"; "2.4s"; "1h1m1s"; "-1.1ms"].
Proof. reflexivity. Qed.

Example Duration_Round_examples :
  ((fun d => Duration_Round d Millisecond) <$> [1499999; 1500000; -1500000; -1499999])
  = [1000000; 2000000; -2000000; -1000000].
Proof. reflexivity. Qed.

(** ** Lemmas *)

Lemma millis_small x : 0 <= x < 2 ^ 63 -> millis x = x / Millisecond.
Proof.
  intros Hx. unfold millis. rewrite u64_small, i64_small by (unfold is_u64, is_i64; lia).
  apply Z.quot_div_nonneg; unfold Millisecond; lia.
Qed.

Lemma millis_range x : - 2 ^ 63 < millis x < 2 ^ 63.
Proof.
  unfold millis, Millisecond. pose proof (i64_range (u64 x)) as Hr. unfold is_i64 in Hr.
  pose proof (Z.quot_rem' (i64 (u64 x)) 1000000).
  pose proof (Z.rem_bound_abs (i64 (u64 x)) 1000000 ltac:(lia)). lia.
Qed.

(** [Time.Sub] of two instants in nanoseconds: the difference, saturated. *)
Definition Time_Sub (t u : Z) : Z := Z.max minDuration (Z.min maxDuration (t - u)).
