(* ===== verification/GoDate.v ===== *)
(** * Go timestamps

    [Time.UTC().Format] for the layout [2006-01-02T15:04:05.000Z] and
    [time.Parse] for [RFC3339Nano], on instants counted in nanoseconds from the
    Unix epoch, over the proleptic Gregorian calendar.  These model the standard
    library, so no definition here maps to a line of the repository. *)

From S2P Require Import Prelude GoStrings GoTime.

Definition Nanos : Z := 1000000000.
Definition DaySeconds : Z := 86400.

(** ** The calendar

    Days are counted from 1970-01-01.  Both directions work in eras of 400
    years (146097 days) that begin on 1 March of a year divisible by 400. *)

(** Year of the era and day of that year (from 1 March) of a day of the era. *)
Definition yoe_of (doe : Z) : Z := (doe - doe / 1460 + doe / 36524 - doe / 146096) / 365.
Definition doy_of (doe : Z) : Z := let yoe := yoe_of doe in doe - (365 * yoe + yoe / 4 - yoe / 100).

Definition civil_of_days (z : Z) : Z * Z * Z :=
  let z := z + 719468 in
  let era := z / 146097 in
  let doe := z mod 146097 in
  let doy := doy_of doe in
  let mp := (5 * doy + 2) / 153 in
  let d := doy - (153 * mp + 2) / 5 + 1 in
  let m := if mp <? 10 then mp + 3 else mp - 9 in
  (yoe_of doe + era * 400 + (if m <=? 2 then 1 else 0), m, d).

Definition days_of_civil (y m d : Z) : Z :=
  let y := if m <=? 2 then y - 1 else y in
  let era := y / 400 in
  let yoe := y mod 400 in
  let mp := if 2 <? m then m - 3 else m + 9 in
  let doy := (153 * mp + 2) / 5 + d - 1 in
  let doe := yoe * 365 + yoe / 4 - yoe / 100 + doy in
  era * 146097 + doe - 719468.

Definition is_leap (y : Z) : bool := (y mod 4 =? 0) && (negb (y mod 100 =? 0) || (y mod 400 =? 0)).
Definition days_in (m y : Z) : Z :=
  if m =? 2 then (if is_leap y then 29 else 28)
  else if (m =? 4) || (m =? 6) || (m =? 9) || (m =? 11) then 30 else 31.

(** ** Formatting *)

Definition pad_d (n : nat) (z : Z) : string := pad0 n (FormatUint z 10).

(** The layout [2006-01-02T15:04:05.000Z]; for years of four digits. *)
Definition FormatMillis (wall : Z) : string :=
  let secs := wall / Nanos in
  let '(y, m, d) := civil_of_days (secs / DaySeconds) in
  let s := secs mod DaySeconds in
  pad_d 4 y +:+ "-" +:+ pad_d 2 m +:+ "-" +:+ pad_d 2 d +:+ "T" +:+
  pad_d 2 (s / 3600) +:+ ":" +:+ pad_d 2 (s / 60 mod 60) +:+ ":" +:+ pad_d 2 (s mod 60) +:+ "." +:+
  pad_d 3 (wall mod Nanos / Millisecond) +:+ "Z".

(** ** Parsing

    A small parser: each step consumes a prefix or fails.  [getnum] reads two
    digits, or one when [fixed] is false and the second is no digit. *)
Definition parser (A : Type) : Type := string -> option (A * string).

Definition getnum (fixed : bool) : parser Z := fun s =>
  match s with
  | String a s1 =>
      v ← digit_val a;
      match s1 with
      | String b s2 =>
          match digit_val b with
          | Some w => Some (v * 10 + w, s2)
          | None => if fixed then None else Some (v, s1)
          end
      | EmptyString => if fixed then None else Some (v, s1)
      end
  | EmptyString => None
  end.

Definition year4 : parser Z := fun s =>
  match s with
  | String a (String b (String c (String d rest))) =>
      v ← digit_val a; w ← digit_val b; x ← digit_val c; y ← digit_val d;
      Some (v * 1000 + w * 100 + x * 10 + y, rest)
  | _ => None
  end.

Definition lit (c : ascii) (s : string) : option string :=
  match s with String a s' => if Ascii.eqb a c then Some s' else None | EmptyString => None end.

(** The digits at the front, as (value, count). *)
Fixpoint digits_front (s : string) (v n : Z) : Z * Z * string :=
  match s with
  | String a s' =>
      match digit_val a with
      | Some d => if n <? 9 then digits_front s' (v * 10 + d) (n + 1) else digits_front s' v n
      | None => (v, n, s)
      end
  | EmptyString => (v, n, s)
  end.

(** The optional fraction: nanoseconds; digits beyond the ninth are dropped. *)
Definition fraction (s : string) : Z * string :=
  match s with
  | String c s1 =>
      if Ascii.eqb c "." || Ascii.eqb c "," then
        match s1 with
        | String a _ =>
            match digit_val a with
            | Some _ => let '(v, n, rest) := digits_front s1 0 0 in (v * 10 ^ (9 - n), rest)
            | None => (0, s)
            end
        | EmptyString => (0, s)
        end
      else (0, s)
  | EmptyString => (0, s)
  end.

(** [Z] or [+hh:mm] / [-hh:mm]: seconds east of UTC. *)
Definition zone (s : string) : option (Z * string) :=
  match s with
  | String c s1 =>
      if Ascii.eqb c "Z" then Some (0, s1)
      else if Ascii.eqb c "+" || Ascii.eqb c "-" then
        '(h, s2) ← getnum true s1; s3 ← lit ":" s2; '(m, s4) ← getnum true s3;
        if (h <=? 24) && (m <=? 60)
        then Some ((if Ascii.eqb c "-" then -1 else 1) * (h * 3600 + m * 60), s4) else None
      else None
  | EmptyString => None
  end.

(** [time.Parse(time.RFC3339Nano, s)]: [None] is any of its errors. *)
Definition ParseRFC3339 (s : string) : option Z :=
  '(y, s) ← year4 s; s ← lit "-" s;
  '(m, s) ← getnum true s; s ← lit "-" s;
  '(d, s) ← getnum true s; s ← lit "T" s;
  '(hh, s) ← getnum false s; s ← lit ":" s;
  '(mi, s) ← getnum true s; s ← lit ":" s;
  '(ss, s) ← getnum true s;
  let '(ns, s) := fraction s in
  '(off, s) ← zone s;
  if (s ==s "") && in_range 1 12 m && in_range 1 (days_in m y) d && (hh <? 24) && (mi <? 60) && (ss <? 60)
  then Some ((days_of_civil y m d * DaySeconds + hh * 3600 + mi * 60 + ss - off) * Nanos + ns)
  else None.

Example parse_ex :
  ParseRFC3339 "2024-02-29T23:59:59.123Z" = Some 1709251199123000000 /\
  ParseRFC3339 "2024-02-29T23:59:59+01:00" = Some 1709247599000000000 /\
  ParseRFC3339 "2023-02-29T23:59:59Z" = None /\
  FormatMillis 1709251199123999999 = "2024-02-29T23:59:59.123Z".
Proof. repeat split; reflexivity. Qed.

(** ** Lemmas: the calendar *)

(** A check of every number below a bound. *)
Fixpoint all_below (fuel : nat) (i : Z) (P : Z -> bool) : bool :=
  match fuel with O => true | S f => P i && all_below f (i + 1) P end.

Lemma all_below_spec fuel i P k :
  all_below fuel i P = true -> i <= k < i + Z.of_nat fuel -> P k = true.
Proof.
  revert i; induction fuel as [|f IH]; intros i; cbn [all_below]; intros H Hk; [lia|].
  apply andb_true_iff in H as [H1 H2]. destruct (decide (k = i)) as [->|]; [done|]. apply (IH (i + 1)); [done|lia].
Qed.

(** The years of an era, by their first and last days: [yoe_of] is right on
    both, and monotone, hence right in between. *)
Definition year_start (y : Z) : Z := 365 * y + y / 4 - y / 100.
Definition year_last (y : Z) : Z := if y =? 399 then 146096 else year_start (y + 1) - 1.
Definition year_ok (y : Z) : bool :=
  (yoe_of (year_start y) =? y) && (yoe_of (year_last y) =? y) &&
  (year_last y - year_start y <=? if is_leap (y + 1) then 365 else 364).

Lemma years_ok : all_below 400 0 year_ok = true.
Proof. vm_compute. reflexivity. Qed.

Lemma year_spec y : 0 <= y <= 399 -> year_ok y = true.
Proof. intros Hy. apply (all_below_spec 400 0 _ _ years_ok). lia. Qed.

Lemma year_start_range y : 0 <= y <= 399 -> 365 * y <= year_start y < 146097.
Proof. intros. unfold year_start. Z.to_euclidean_division_equations. lia. Qed.

Lemma yoe_mono a b : 0 <= a <= b -> b < 146097 -> yoe_of a <= yoe_of b.
Proof. 
  intros. unfold yoe_of. apply Z.div_le_mono; [lia|]. Z.to_euclidean_division_equations. lia.
Qed.

Lemma yoe_spec doe : 0 <= doe < 146097 ->
  0 <= yoe_of doe <= 399 /\ year_start (yoe_of doe) <= doe <= year_last (yoe_of doe).
Proof.
  intros Hd. assert (Hr : 0 <= yoe_of doe <= 399).
  { pose proof (yoe_mono 0 doe ltac:(lia) ltac:(lia)) as H0. pose proof (yoe_mono doe 146096 ltac:(lia) ltac:(lia)) as H1.
    change (yoe_of 0) with 0 in H0. change (yoe_of 146096) with 399 in H1. lia. }
  split; [done|]. set (y := yoe_of doe) in *. split.
  - destruct (decide (y = 0)) as [E0|]; [rewrite E0; change (year_start 0) with 0; lia|].
    destruct (Z.le_gt_cases (year_start y) doe) as [|Hlt]; [done|exfalso].
    pose proof (year_spec (y - 1) ltac:(lia)) as Hok. unfold year_ok, year_last in Hok. bool_prop.
    destruct (y - 1 =? 399) eqn:E; bool_prop; [lia|]. replace (y - 1 + 1) with y in * by lia.
    pose proof (year_start_range y ltac:(lia)).
    pose proof (yoe_mono doe (year_start y - 1) ltac:(lia) ltac:(lia)). lia.
  - unfold year_last. destruct (y =? 399) eqn:E; bool_prop; [lia|].
    destruct (Z.le_gt_cases doe (year_start (y + 1) - 1)) as [|Hlt]; [done|exfalso].
    pose proof (year_spec (y + 1) ltac:(lia)) as Hok. unfold year_ok in Hok. bool_prop.
    pose proof (year_start_range (y + 1) ltac:(lia)).
    pose proof (yoe_mono (year_start (y + 1)) doe ltac:(lia) ltac:(lia)). lia.
Qed.

(** The days of a year from 1 March; the 366th is 29 February. *)
Definition doy_ok (doy : Z) : bool :=
  let mp := (5 * doy + 2) / 153 in
  let d := doy - (153 * mp + 2) / 5 + 1 in
  let m := if mp <? 10 then mp + 3 else mp - 9 in
  in_range 1 12 m && ((if 2 <? m then m - 3 else m + 9) =? mp) && (1 <=? d) &&
  (if m =? 2 then d <=? (if doy =? 365 then 29 else 28) else d <=? days_in m 1).

Lemma doys_ok : all_below 366 0 doy_ok = true.
Proof. vm_compute. reflexivity. Qed.

Lemma doy_spec doy : 0 <= doy <= 365 -> doy_ok doy = true.
Proof. intros Hy. apply (all_below_spec 366 0 _ _ doys_ok). lia. Qed.

(** A day of an era and the date it is. *)
Definition era_day_ok (doe : Z) : bool :=
  let yoe := yoe_of doe in
  let doy := doy_of doe in
  let mp := (5 * doy + 2) / 153 in
  let d := doy - (153 * mp + 2) / 5 + 1 in
  let m := if mp <? 10 then mp + 3 else mp - 9 in
  let y := yoe + (if m <=? 2 then 1 else 0) in
  in_range 0 399 yoe && in_range 1 12 m && in_range 1 (days_in m y) d &&
  ((if 2 <? m then m - 3 else m + 9) =? mp) &&
  (yoe * 365 + yoe / 4 - yoe / 100 + ((153 * mp + 2) / 5 + d - 1) =? doe).

Lemma era_day_spec doe : 0 <= doe < 146097 -> era_day_ok doe = true.
Proof.
  intros Hd. destruct (yoe_spec doe Hd) as [Hy [H1 H2]]. pose proof (year_spec _ Hy) as Hok.
  unfold year_ok in Hok. bool_prop.
  assert (Hdoy : doy_of doe = doe - year_start (yoe_of doe)) by reflexivity.
  unfold era_day_ok. rewrite Hdoy. set (yoe := yoe_of doe) in *. set (doy := doe - year_start yoe) in *.
  assert (Hr : 0 <= doy <= (if is_leap (yoe + 1) then 365 else 364)) by lia.
  pose proof (doy_spec doy ltac:(destruct (is_leap _); lia)) as Hm. unfold doy_ok, in_range in *.
  set (mp := (5 * doy + 2) / 153) in *. set (d := doy - (153 * mp + 2) / 5 + 1) in *.
  set (m := if mp <? 10 then mp + 3 else mp - 9) in *. bool_prop.
  repeat (apply andb_true_iff; split); try lia; try (by apply Z.leb_le; lia).
  - apply Z.leb_le. unfold days_in in *.
    destruct (m =? 2) eqn:E; bool_prop.
    + replace (m <=? 2) with true by lia. destruct (is_leap (yoe + 1)); destruct (doy =? 365) eqn:?; bool_prop; lia.
    + lia.
  - unfold d, doy, year_start. lia.
Qed.

Lemma is_leap_era y e : is_leap (y + e * 400) = is_leap y.
Proof.
  unfold is_leap. rewrite (Z.mod_add y e 400) by lia.
  replace (y + e * 400) with (y + (e * 100) * 4) at 1 by lia. rewrite Z.mod_add by lia.
  replace (y + e * 400) with (y + (e * 4) * 100) by lia. by rewrite Z.mod_add by lia.
Qed.

Lemma civil_days z :
  let '(y, m, d) := civil_of_days z in
  days_of_civil y m d = z /\ 1 <= m <= 12 /\ 1 <= d <= days_in m y.
Proof.
  unfold civil_of_days. set (w := z + 719468).
  pose proof (Z.mod_pos_bound w 146097 ltac:(lia)) as Hm. pose proof (Z.div_mod w 146097 ltac:(lia)) as Hdm.
  pose proof (era_day_spec _ Hm) as Hok. unfold era_day_ok, in_range in Hok. bool_prop.
  set (doe := w mod 146097) in *. set (yoe := yoe_of doe) in *. set (doy := doy_of doe) in *.
  set (mp := (5 * doy + 2) / 153) in *. set (d := doy - (153 * mp + 2) / 5 + 1) in *.
  set (m := if mp <? 10 then mp + 3 else mp - 9) in *. set (c := if m <=? 2 then 1 else 0) in *.
  assert (Ey : yoe + w / 146097 * 400 + c = (yoe + c) + (w / 146097) * 400) by lia.
  rewrite Ey. split_and!; try lia.
  - unfold days_of_civil.
    assert (Ey' : (if m <=? 2 then yoe + c + w / 146097 * 400 - 1 else yoe + c + w / 146097 * 400)
                = yoe + (w / 146097) * 400).
    { subst c. destruct (m <=? 2); lia. }
    rewrite Ey', Z.div_add, Z.mod_add, (Z.div_small yoe), (Z.mod_small yoe) by lia.
    replace (if 2 <? m then m - 3 else m + 9) with mp by lia. lia.
  - assert (Hd : days_in m (yoe + c + w / 146097 * 400) = days_in m (yoe + c)); [|lia].
    unfold days_in. by rewrite is_leap_era.
Qed.

(** ** Lemmas: a formatted instant parses back to its millisecond *)

Lemma fmt_digits_step f b n acc :
  fmt_digits (S f) b n acc =
  if n / b =? 0 then String (digit (n mod b)) acc else fmt_digits f b (n / b) (String (digit (n mod b)) acc).
Proof. done. Qed.

Ltac fmt_small := rewrite fmt_digits_step, (proj2 (Z.eqb_eq _ 0)) by (Z.to_euclidean_division_equations; lia).
Ltac fmt_large := rewrite fmt_digits_step, (proj2 (Z.eqb_neq _ 0)) by (Z.to_euclidean_division_equations; lia).

Lemma pad_d_2 n : 0 <= n < 100 -> pad_d 2 n = String (digit (n / 10)) (String (digit (n mod 10)) "").
Proof.
  intros Hn. unfold pad_d, FormatUint. destruct (Z.lt_ge_cases n 10).
  - fmt_small. rewrite Z.div_small by lia. done.
  - fmt_large. fmt_small. rewrite (Z.mod_small (n / 10)) by (Z.to_euclidean_division_equations; lia). done.
Qed.

Lemma pad_d_3 n : 0 <= n < 1000 ->
  pad_d 3 n = String (digit (n / 100)) (String (digit (n / 10 mod 10)) (String (digit (n mod 10)) "")).
Proof.
  intros Hn. unfold pad_d, FormatUint. replace (n / 100) with (n / 10 / 10) by (by rewrite Z.div_div by lia).
  destruct (Z.lt_ge_cases n 10); [|destruct (Z.lt_ge_cases n 100)].
  - fmt_small. rewrite (Z.div_small n 10) by lia. done.
  - fmt_large. fmt_small. rewrite (Z.div_small (n / 10) 10) by (Z.to_euclidean_division_equations; lia). done.
  - do 2 fmt_large. fmt_small.
    rewrite (Z.mod_small (n / 10 / 10)) by (Z.to_euclidean_division_equations; lia). done.
Qed.

Lemma pad_d_4 n : 0 <= n < 10000 ->
  pad_d 4 n = String (digit (n / 1000)) (String (digit (n / 100 mod 10))
    (String (digit (n / 10 mod 10)) (String (digit (n mod 10)) ""))).
Proof.
  intros Hn. unfold pad_d, FormatUint.
  replace (n / 1000) with (n / 10 / 10 / 10) by (by rewrite !Z.div_div by lia).
  replace (n / 100) with (n / 10 / 10) by (by rewrite Z.div_div by lia).
  destruct (Z.lt_ge_cases n 10); [|destruct (Z.lt_ge_cases n 100); [|destruct (Z.lt_ge_cases n 1000)]].
  - fmt_small. rewrite (Z.div_small n 10) by lia. done.
  - fmt_large. fmt_small. rewrite (Z.div_small (n / 10) 10) by (Z.to_euclidean_division_equations; lia). done.
  - do 2 fmt_large. fmt_small.
    rewrite (Z.div_small (n / 10 / 10) 10) by (Z.to_euclidean_division_equations; lia). done.
  - do 3 fmt_large. fmt_small.
    rewrite (Z.mod_small (n / 10 / 10 / 10)) by (Z.to_euclidean_division_equations; lia). done.
Qed.

Lemma digit_val_digit d : 0 <= d < 10 -> digit_val (digit d) = Some d.
Proof. intros. rewrite digit_val_decimal by (apply is_decimal_digit; lia). f_equal. apply undigit_digit. lia. Qed.

(** The digits of a number below a power of ten are digits. *)
Ltac digits := rewrite ?digit_val_digit by (Z.to_euclidean_division_equations; lia).

Lemma getnum_pad fixed n rest : 0 <= n < 100 -> getnum fixed (pad_d 2 n +:+ rest) = Some (n, rest).
Proof.
  intros Hn. rewrite pad_d_2 by done. cbn [String.append getnum]. digits. cbn -[digit]. digits. do 2 f_equal.
  pose proof (Z.div_mod n 10 ltac:(lia)). lia.
Qed.

Lemma year4_pad n rest : 0 <= n < 10000 -> year4 (pad_d 4 n +:+ rest) = Some (n, rest).
Proof.
  intros Hn. rewrite pad_d_4 by done. cbn [String.append year4]. digits. cbn -[digit]. do 2 f_equal. Z.to_euclidean_division_equations. lia.
Qed.

Lemma fraction_pad n : 0 <= n < 1000 -> fraction (String "." (pad_d 3 n +:+ "Z")) = (n * Millisecond, "Z").
Proof.
  intros Hn. rewrite pad_d_3 by done. unfold fraction. cbn [String.append Ascii.eqb orb].
  change (Ascii.eqb "." ".") with true. cbn [orb]. digits. cbn [digits_front]. digits.
  change (digit_val "Z") with (@None Z).
  assert (0 <= n / 100 < 10 /\ 0 <= n / 10 mod 10 < 10 /\ 0 <= n mod 10 < 10) as (? & ? & ?)
    by (Z.to_euclidean_division_equations; lia).
  change (0 <? 9) with true. change (0 + 1 <? 9) with true. change (0 + 1 + 1 <? 9) with true. cbn iota.
  f_equal. change (10 ^ (9 - (0 + 1 + 1 + 1))) with Millisecond. f_equal.
  Z.to_euclidean_division_equations. lia.
Qed.

(** The year of an instant, and the instant with what is finer than a
    millisecond cut off. *)
Definition year_of (wall : Z) : Z := fst (fst (civil_of_days (wall / Nanos / DaySeconds))).
Definition truncate_ms (wall : Z) : Z := wall / Millisecond * Millisecond.

Lemma lit_here c s : lit c (String c "" +:+ s) = Some s.
Proof. cbn. by rewrite Ascii.eqb_refl. Qed.

Lemma in_range_true lo hi z : lo <= z <= hi -> in_range lo hi z = true.
Proof. intros. unfold in_range. apply andb_true_iff. split; lia. Qed.

Lemma hms_split s : 0 <= s < 86400 ->
  (0 <= s / 3600 < 24 /\ 0 <= s / 60 mod 60 < 60 /\ 0 <= s mod 60 < 60)
  /\ s / 3600 * 3600 + s / 60 mod 60 * 60 + s mod 60 = s.
Proof. intros. Z.to_euclidean_division_equations. lia. Qed.

Lemma millis_split wall :
  0 <= wall mod Nanos / Millisecond < 1000
  /\ wall / Nanos * Nanos + wall mod Nanos / Millisecond * Millisecond = truncate_ms wall.
Proof. unfold truncate_ms, Nanos, Millisecond. Z.to_euclidean_division_equations. lia. Qed.

Lemma ParseRFC3339_FormatMillis wall :
  0 <= year_of wall <= 9999 -> ParseRFC3339 (FormatMillis wall) = Some (truncate_ms wall).
Proof.
  unfold year_of, FormatMillis. intros Hy. set (secs := wall / Nanos) in *.
  pose proof (civil_days (secs / DaySeconds)) as Hc.
  destruct (civil_of_days (secs / DaySeconds)) as [[y m] d] eqn:E. cbn [fst] in Hy.
  destruct Hc as (Hday & Hm & Hd).
  assert (days_in m y <= 31) by (unfold days_in; repeat case_match; lia).
  pose proof (Z.mod_pos_bound secs DaySeconds eq_refl) as Hs. pose proof (Z.div_mod secs DaySeconds ltac:(done)) as Hsec.
  destruct (hms_split _ Hs) as [(Hh & Hmi & Hss) Hhms]. destruct (millis_split wall) as [Hms Hsplit].
  set (s := secs mod DaySeconds) in *. set (ms := wall mod Nanos / Millisecond) in *. fold secs in Hsplit.
  unfold ParseRFC3339. rewrite year4_pad by lia. cbn [mbind option_bind].
  do 5 (rewrite lit_here; cbn [mbind option_bind]; rewrite getnum_pad by lia; cbn [mbind option_bind]).
  change ("." +:+ pad_d 3 ms +:+ "Z") with (String "." (pad_d 3 ms +:+ "Z")). rewrite fraction_pad by done.
  change (zone "Z") with (Some (0, "")). cbn [mbind option_bind]. change ("" ==s "") with true.
  rewrite !in_range_true by lia. rewrite !(proj2 (Z.ltb_lt _ _)) by lia. cbn [andb mbind option_bind]. f_equal.
  rewrite Hday, <- Hsplit. lia.
Qed.
