(* ===== verification/GoFloat.v ===== *)
(** * float64

    IEEE 754 double precision, computed by the Standard Library's executable
    specification of it: round to nearest, ties to even, which is what Go's
    operators do.  A conversion to an integer truncates.  These model the
    language, so no definition here maps to a line of the repository. *)

From Stdlib Require Export SpecFloat.
From S2P Require Import Prelude.

Abbreviation float64 := spec_float (only parsing).
Definition f_prec : Z := 53.
Definition f_emax : Z := 1024.

Definition f_of_int (z : Z) : float64 := binary_normalize f_prec f_emax z 0 false.
Definition f_add (x y : float64) : float64 := SFadd f_prec f_emax x y.
Definition f_mul (x y : float64) : float64 := SFmul f_prec f_emax x y.
Definition f_div (x y : float64) : float64 := SFdiv f_prec f_emax x y.

(** [x < y] and [x <= y]; false on a NaN. *)
Definition f_lt (x y : float64) : bool := SFltb x y.
Definition f_le (x y : float64) : bool := SFleb x y.

(** [int(x)] for a finite [x] in range. *)
Definition f_int (x : float64) : Z :=
  match x with
  | S754_finite s m e =>
      let a := if 0 <=? e then Z.pos m * 2 ^ e else Z.pos m / 2 ^ (- e) in if s then - a else a
  | _ => 0
  end.

Example f_thirds : f_int (f_mul (f_div (f_of_int 1) (f_of_int 3)) (f_of_int 60)) = 20.
Proof. reflexivity. Qed.

(** ** A fraction below one never rounds up past the whole

    For [0 < x < 1] and an integer [w] of at most 53 bits, [int(x * w) <= w]. *)

(** Shifting right is division, whatever bits it keeps for the rounding. *)
Lemma shr_1_m mrs : 0 <= shr_m mrs -> shr_m (shr_1 mrs) = shr_m mrs / 2 /\ 0 <= shr_m (shr_1 mrs).
Proof.
  destruct mrs as [[|[p|p|]|p] r s]; cbn [shr_1 shr_m]; intros Hm; try (by split); split; try lia.
  - rewrite Pos2Z.inj_xI. Z.to_euclidean_division_equations. lia.
  - rewrite Pos2Z.inj_xO. Z.to_euclidean_division_equations. lia.
Qed.

Lemma shr_iter_m n mrs :
  0 <= shr_m mrs ->
  shr_m (SpecFloat.iter_pos shr_1 n mrs) = shr_m mrs / 2 ^ Z.pos n /\ 0 <= shr_m (SpecFloat.iter_pos shr_1 n mrs).
Proof.
  revert mrs. induction n as [n IH|n IH|]; intros mrs Hm; cbn [SpecFloat.iter_pos]; [| |by apply shr_1_m].
  - destruct (shr_1_m _ Hm) as [E1 H1]. destruct (IH _ H1) as [E2 H2]. destruct (IH _ H2) as [E3 H3].
    split; [|done]. rewrite E3, E2, E1, !Z.div_div by lia. f_equal.
    replace (Z.pos n~1) with (1 + (Z.pos n + Z.pos n)) by lia. rewrite !Z.pow_add_r by lia. lia.
  - destruct (IH _ Hm) as [E2 H2]. destruct (IH _ H2) as [E3 H3]. split; [|done].
    rewrite E3, E2, Z.div_div by lia. f_equal.
    replace (Z.pos n~0) with (Z.pos n + Z.pos n) by lia. by rewrite Z.pow_add_r by lia.
Qed.

Lemma shr_spec mrs e n :
  0 <= shr_m mrs ->
  let '(mrs', e') := shr mrs e n in
  e' = e + Z.max n 0 /\ shr_m mrs' = shr_m mrs / 2 ^ Z.max n 0 /\ 0 <= shr_m mrs'.
Proof.
  intros Hm. destruct n as [|n|n]; cbn [shr].
  - change (Z.max 0 0) with 0. rewrite Z.add_0_r, Z.div_1_r. done.
  - rewrite Z.max_l by lia. destruct (shr_iter_m n mrs Hm) as [E1 H1]. split_and!; [done|exact E1|exact H1].
  - rewrite Z.max_r, Z.add_0_r, Z.div_1_r by lia. done.
Qed.

Lemma round_nearest_even_bounds m l : m <= round_nearest_even m l <= m + 1.
Proof. unfold round_nearest_even. destruct l as [|[]]; try lia. destruct (Z.even m); lia. Qed.

Lemma shr_record_of_loc_m m l : shr_m (shr_record_of_loc m l) = m.
Proof. by destruct l as [|[]]. Qed.

Lemma digits2_pos_le p k : Z.pos p < 2 ^ k -> Z.pos (digits2_pos p) <= k.
Proof.
  revert k. induction p as [p IH|p IH|]; intros k Hk; cbn [digits2_pos].
  1-2: destruct (Z.le_gt_cases k 0) as [Hk0|Hk0];
    [exfalso; assert (2 ^ k <= 1) by (destruct (decide (k = 0)) as [->|]; [done|rewrite Z.pow_neg_r; lia]); lia|];
    replace k with (Z.succ (k - 1)) in Hk by lia; rewrite Z.pow_succ_r in Hk by lia;
    specialize (IH (k - 1) ltac:(lia)); lia.
  destruct (Z.le_gt_cases k 0); [|lia].
  exfalso. assert (2 ^ k <= 1) by (destruct (decide (k = 0)) as [->|]; [done|rewrite Z.pow_neg_r; lia]). lia.
Qed.

(** The core of it: the product [N * 2^E], below [w], rounds to at most [w]. *)
Lemma round_below N E w :
  E < 0 -> 0 < w < 2 ^ 8 -> Z.pos N < w * 2 ^ (- E) ->
  f_int (binary_round_aux f_prec f_emax false (Z.pos N) E loc_Exact) <= w.
Proof.
  intros HE Hw HN. unfold binary_round_aux, shr_fexp.
  set (n1 := fexp f_prec f_emax (Zdigits2 (Z.pos N) + E) - E).
  assert (Hn1 : E + Z.max n1 0 < 0).
  { assert (Z.pos (digits2_pos N) <= - E + 8).
    { apply digits2_pos_le. rewrite Z.pow_add_r by lia. nia. }
    subst n1. unfold fexp, emin, f_prec, f_emax. cbn [Zdigits2]. lia. }
  pose proof (shr_spec (shr_record_of_loc (Z.pos N) loc_Exact) E n1) as H1. rewrite shr_record_of_loc_m in H1.
  destruct (shr _ E n1) as [mrs1 e1]. destruct (H1 ltac:(lia)) as (He1 & Hm1 & Hp1). clear H1.
  set (m' := round_nearest_even (shr_m mrs1) (loc_of_shr_record mrs1)).
  pose proof (round_nearest_even_bounds (shr_m mrs1) (loc_of_shr_record mrs1)) as Hb. fold m' in Hb.
  assert (Hm' : m' <= w * 2 ^ (- e1)).
  { assert (shr_m mrs1 < w * 2 ^ (- e1)); [|lia]. rewrite Hm1. apply Z.div_lt_upper_bound; [by apply Z.pow_pos_nonneg; lia|].
    replace (2 ^ Z.max n1 0 * (w * 2 ^ (- e1))) with (w * 2 ^ (- E)); [done|].
    replace (- E) with (Z.max n1 0 + - e1) by lia. rewrite Z.pow_add_r by lia. lia. }
  set (n2 := fexp f_prec f_emax (Zdigits2 m' + e1) - e1).
  pose proof (shr_spec (shr_record_of_loc m' loc_Exact) e1 n2) as H2. rewrite shr_record_of_loc_m in H2.
  destruct (shr _ e1 n2) as [mrs2 e2]. destruct (H2 ltac:(lia)) as (He2 & Hm2 & Hp2). clear H2.
  set (k := Z.max n2 0) in *. assert (Hk : 0 <= k) by lia. assert (0 < 2 ^ k) by by apply Z.pow_pos_nonneg.
  destruct (shr_m mrs2) as [|M|M]; [cbn; lia| |done]. destruct (e2 <=? f_emax - f_prec); [|cbn; lia].
  unfold f_int. assert (0 < 2 ^ (- e1)) by (apply Z.pow_pos_nonneg; lia).
  destruct (0 <=? e2) eqn:E2; bool_prop.
  - assert (HM : Z.pos M * 2 ^ k <= m') by (rewrite Hm2, Z.mul_comm; by apply Z.mul_div_le).
    assert (0 < 2 ^ e2) by (apply Z.pow_pos_nonneg; lia).
    apply (Z.mul_le_mono_pos_r _ _ (2 ^ (- e1))); [done|].
    rewrite <- Z.mul_assoc, <- Z.pow_add_r by lia. replace (e2 + - e1) with k by lia. lia.
  - rewrite Hm2, Z.div_div by (try apply Z.pow_nonzero; lia). rewrite <- Z.pow_add_r by lia.
    replace (k + - e2) with (- e1) by lia. apply Z.div_le_upper_bound; lia.
Qed.

(** The integers a column count can be, as floats. *)
Definition exact_of_int (w : Z) : bool :=
  match f_of_int w with S754_finite false m e => (e <=? 0) && (Z.pos m =? w * 2 ^ (- e)) | _ => false end
  && (f_int (f_mul (f_of_int 1) (f_of_int w)) =? w).

Lemma exact_of_int_ok w : 1 <= w < 256 -> exact_of_int w = true.
Proof.
  assert (forallb (fun n => exact_of_int (Z.of_nat n)) (seq 1 255) = true) as Hc by (vm_compute; reflexivity).
  rewrite forallb_forall in Hc. intros Hw. specialize (Hc (Z.to_nat w)). rewrite Z2Nat.id in Hc by lia.
  apply Hc, in_seq. lia.
Qed.

(** A fraction in [[0, 1]]: the tests Go's code makes, on a well-formed float. *)
Definition fraction_of_one (x : float64) : Prop :=
  valid_binary f_prec f_emax x = true /\ f_lt x (f_of_int 0) = false /\ f_lt (f_of_int 1) x = false.

Lemma canonical_bound m e : canonical_mantissa f_prec f_emax m e = true -> Z.pos m < 2 ^ 53.
Proof.
  unfold canonical_mantissa, fexp, f_prec. intros H. bool_prop.
  assert (Z.pos (digits2_pos m) <= 53) as Hd by lia.
  enough (forall p, Z.pos p < 2 ^ Z.pos (digits2_pos p)) as Hg.
  { eapply Z.lt_le_trans; [apply Hg|]. by apply Z.pow_le_mono_r. }
  clear. induction p as [p IH|p IH|]; cbn [digits2_pos]; [| |done];
    rewrite Pos2Z.inj_succ, Z.pow_succ_r by lia; lia.
Qed.

Lemma fraction_cases x :
  fraction_of_one x ->
  (exists s, x = S754_zero s) \/ x = f_of_int 1 \/ x = S754_nan \/
  exists m e, x = S754_finite false m e /\ e < 0 /\ Z.pos m < 2 ^ (- e).
Proof.
  change (f_of_int 1) with (S754_finite false 4503599627370496 (-52)). intros (Hv & H0 & H1).
  destruct x as [s|s| |s m e]; [eauto| |eauto|].
  - by destruct s.
  - destruct s; [done|]. right. cbn [valid_binary] in Hv. unfold bounded in Hv. apply andb_true_iff in Hv as [Hc _].
    apply canonical_bound in Hc. change (f_of_int 1) with (S754_finite false 4503599627370496 (-52)) in H1.
    revert H1. unfold f_lt, SFltb. cbn [SFcompare].
    destruct (Z.compare_spec (-52) e) as [<-|He|He]; [|done|].
    + change (Pos.compare_cont Eq) with Pos.compare.
      destruct (Pos.compare_spec 4503599627370496%positive m) as [<-|Hm|Hm]; [by left|done|]. intros _. right. right.
      exists m, (-52). refine (conj eq_refl (conj eq_refl _)). change (2 ^ (- -52)) with 4503599627370496. exact Hm.
    + intros _. right. right. exists m, e. refine (conj eq_refl (conj _ _)); [lia|].
      eapply Z.lt_le_trans; [exact Hc|]. apply Z.pow_le_mono_r; lia.
Qed.

Lemma f_int_nonneg m e : 0 <= f_int (S754_finite false m e).
Proof.
  cbn [f_int]. destruct (0 <=? e) eqn:E; bool_prop.
  - apply Z.mul_nonneg_nonneg; [lia|]. by apply Z.pow_nonneg.
  - apply Z.div_pos; [lia|]. apply Z.pow_pos_nonneg; lia.
Qed.

Lemma round_aux_nonneg m e : 0 <= f_int (binary_round_aux f_prec f_emax false m e loc_Exact).
Proof.
  unfold binary_round_aux. destruct (shr_fexp _ _ _ _ _) as [mrs1 e1]. destruct (shr_fexp _ _ _ _ _) as [mrs2 e2].
  destruct (shr_m mrs2); [done| |done]. destruct (e2 <=? _); [apply f_int_nonneg|done].
Qed.

Lemma int_scaled_le x w :
  fraction_of_one x -> 1 <= w < 256 -> 0 <= f_int (f_mul x (f_of_int w)) <= w.
Proof.
  intros Hx Hw. pose proof (exact_of_int_ok w Hw) as Hex. unfold exact_of_int in Hex. bool_prop.
  destruct (f_of_int w) as [| | |[] mw ew] eqn:Ew; try done. bool_prop.
  destruct (fraction_cases x Hx) as [[s ->]|[->|[->|(m & e & -> & He & Hm)]]]; [cbn; lia|lia|cbn; lia|].
  unfold f_mul. cbn [SFmul xorb]. split; [apply round_aux_nonneg|].
  apply round_below; [lia|lia|].
  replace (- (e + ew)) with (- e + - ew) by lia. rewrite Z.pow_add_r by lia.
  rewrite Pos2Z.inj_mul. assert (0 < 2 ^ (- ew)) by (apply Z.pow_pos_nonneg; lia). nia.
Qed.
