(* ===== verification/GoText.v ===== *)
(** * Text layout

    What [fmt], [strings] and conversions between strings and runes do to the
    width of a text.  These model the standard library, so no definition here
    maps to a line of the repository. *)

From S2P Require Import Prelude GoStrings.

(** [utf8.RuneCountInString], and [len([]rune(s))]. *)
Definition rune_count (s : string) : nat := length (runes s).

(** A rune converted back to a string: an invalid byte comes back as the
    replacement character. *)
Definition replacement : string := String (chr 0xEF) (String (chr 0xBF) (str1 (chr 0xBD))).
Definition rune_text (rb : Z * string) : string := if fst rb =? RuneError then replacement else snd rb.
Definition string_of_runes (l : list (Z * string)) : string := foldr (fun rb acc => rune_text rb +:+ acc) "" l.

(** [%-ns] and [%ns]: padding counts runes. *)
Definition pad_right (n : nat) (s : string) : string := s +:+ srepeat " " (n - rune_count s).
Definition pad_left (n : nat) (s : string) : string := srepeat " " (n - rune_count s) +:+ s.

(** [strings.Repeat(s, n)] for a non-negative count. *)
Definition Repeat (s : string) (n : Z) : string := srepeat s (Z.to_nat n).

(** [strings.ContainsAny(s, chars)] for ASCII [chars]. *)
Fixpoint ContainsAny (s chars : string) : bool :=
  match s with
  | EmptyString => false
  | String a s => bool_decide (is_Some (index_byte a chars)) || ContainsAny s chars
  end.

(** [strings.Count(s, "\n")] *)
Fixpoint count_newlines (s : string) : nat :=
  match s with
  | EmptyString => O
  | String a s => if Ascii.eqb a (chr 10) then S (count_newlines s) else count_newlines s
  end.

(** The newline of a format string. *)
Definition nl : string := str1 (chr 10).

(** ** Lemmas: runes of ASCII and of concatenations *)

(** Texts whose runes can be read from the left whatever follows: the string
    is cut into runes independently of its continuation. *)
Definition self_contained (s : string) : Prop := forall t, runes (s +:+ t) = runes s ++ runes t.

Lemma self_contained_app s t : self_contained s -> self_contained t -> self_contained (s +:+ t).
Proof. intros Hs Ht u. rewrite <- sapp_assoc, Hs, Ht, (Hs t). by rewrite app_assoc. Qed.

Lemma self_contained_nil : self_contained "".
Proof. by intros t. Qed.

Lemma self_contained_ascii s : all_bytes (fun a => byte_of a <? 128) s = true -> self_contained s.
Proof.
  induction s as [|a s IH]; intros Hs t; [done|]. cbn [all_bytes] in Hs. apply andb_true_iff in Hs as [Ha Hs].
  apply Z.ltb_lt in Ha. cbn [String.append]. rewrite !runes_ascii by done. by rewrite IH.
Qed.

Lemma rune_count_app s t : self_contained s -> rune_count (s +:+ t) = (rune_count s + rune_count t)%nat.
Proof. intros Hs. unfold rune_count. by rewrite Hs, length_app. Qed.

Lemma count_newlines_app s t : count_newlines (s +:+ t) = (count_newlines s + count_newlines t)%nat.
Proof. 
  induction s as [|a s IH]; cbn [count_newlines String.append]; [done|].
  rewrite IH. by destruct (Ascii.eqb a (chr 10)).
Qed.

(** ** Lemmas: cutting into runes *)

Lemma DecodeRune_width a s : (1 <= snd (DecodeRune (String a s)) <= String.length (String a s))%nat.
Proof.
  unfold DecodeRune. destruct (byte_of a <? 0x80); [cbn; lia|].
  destruct (in_range 0xC2 0xDF (byte_of a)); [destruct s as [|b s]; [cbn; lia|]; destruct (in_range _ _ _); cbn; lia|].
  destruct (in_range 0xE0 0xEF (byte_of a)).
  { destruct s as [|b [|e s]]; [cbn; lia..|]. destruct (_ && _)%bool; cbn; lia. }
  destruct (in_range 0xF0 0xF4 (byte_of a)); [|cbn; lia].
  destruct s as [|b [|e [|g s]]]; [cbn; lia..|]. destruct (_ && _)%bool; cbn; lia.
Qed.

Lemma sdrop_length n s : String.length (sdrop n s) = (String.length s - n)%nat.
Proof. revert s. induction n as [|n IH]; intros [|a s]; cbn; [done..|]. apply IH. Qed.

Lemma runes_go_enough f s : (String.length s <= f)%nat -> runes_go f s = runes s.
Proof.
  unfold runes. remember (String.length s) as n eqn:Hn. assert (String.length s <= n)%nat as Hle by lia. clear Hn.
  intros Hf. revert f s Hf Hle. induction n as [n IH] using lt_wf_ind. intros f s Hf Hle.
  destruct s as [|a s]; [by destruct f, n|]. destruct n as [|n]; [cbn in Hle; lia|]. destruct f as [|f]; [lia|].
  cbn [runes_go]. pose proof (DecodeRune_width a s) as Hw. destruct (DecodeRune (String a s)) as [r w]. cbn [snd] in Hw.
  f_equal. apply (IH n); [lia|lia|]. rewrite sdrop_length. cbn [String.length] in *. lia.
Qed.

Lemma runes_step s :
  s <> "" -> runes s = (fst (DecodeRune s), stake (snd (DecodeRune s)) s) :: runes (sdrop (snd (DecodeRune s)) s).
Proof.
  destruct s as [|a s]; [done|]. intros _. unfold runes at 1. cbn [String.length runes_go].
  pose proof (DecodeRune_width a s) as Hw. destruct (DecodeRune (String a s)) as [r w]. cbn [fst snd] in *.
  f_equal. apply runes_go_enough. rewrite sdrop_length. cbn [String.length] in *. lia.
Qed.

(** An ASCII byte ends whatever sequence comes before it. *)
Lemma in_range_ascii a lo hi : byte_of a < 128 -> 128 <= lo -> in_range lo hi (byte_of a) = false.
Proof. intros. unfold in_range. apply andb_false_iff. left. lia. Qed.

Lemma DecodeRune_ascii_tail x s a t :
  byte_of a < 128 -> DecodeRune (String x s +:+ String a t) = DecodeRune (String x s).
Proof.
  intros Ha. cbn [String.append]. unfold DecodeRune. cbv zeta.
  destruct (byte_of x <? 0x80); [done|].
  destruct (in_range 0xC2 0xDF (byte_of x)).
  { destruct s; cbn [String.append]; [|done]. by rewrite in_range_ascii by lia. }
  destruct (in_range 0xE0 0xEF (byte_of x)).
  { assert (128 <= (if byte_of x =? 0xE0 then 0xA0 else 0x80)) by (destruct (_ =? _); lia).
    destruct s as [|b [|e s]]; cbn [String.append]; [|by rewrite (in_range_ascii a 0x80), andb_false_r by lia|done].
    rewrite (in_range_ascii a) by lia. by destruct t. }
  destruct (in_range 0xF0 0xF4 (byte_of x)); [|done].
  assert (128 <= (if byte_of x =? 0xF0 then 0x90 else 0x80)) by (destruct (_ =? _); lia).
  destruct s as [|b [|e [|g s]]]; cbn [String.append]; [| | |done].
  - rewrite (in_range_ascii a) by lia. by destruct t as [|? [|? ?]].
  - rewrite (in_range_ascii a 0x80) by lia. rewrite andb_false_r. by destruct t.
  - by rewrite (in_range_ascii a 0x80), andb_false_r by lia.
Qed.

Lemma stake_sapp n s t : (n <= String.length s)%nat -> stake n (s +:+ t) = stake n s.
Proof. revert s. induction n as [|n IH]; intros [|a s] H; cbn in *; [done..|lia|]. by rewrite IH by lia. Qed.
Lemma sdrop_sapp n s t : (n <= String.length s)%nat -> sdrop n (s +:+ t) = sdrop n s +:+ t.
Proof. revert s. induction n as [|n IH]; intros [|a s] H; cbn in *; [done..|lia|]. by rewrite IH by lia. Qed.

Lemma runes_app_ascii s a t : byte_of a < 128 -> runes (s +:+ String a t) = runes s ++ runes (String a t).
Proof.
  intros Ha. remember (String.length s) as n eqn:Hn. revert s Hn.
  induction n as [n IH] using lt_wf_ind. intros [|x s] Hn; [done|].
  rewrite (runes_step (String x s +:+ String a t)) by done. rewrite DecodeRune_ascii_tail by done.
  rewrite (runes_step (String x s)) by done. pose proof (DecodeRune_width x s) as Hw.
  destruct (DecodeRune (String x s)) as [r w]. cbn [fst snd] in *.
  rewrite stake_sapp, sdrop_sapp by lia. cbn [app]. f_equal. apply (IH (n - w)%nat); [cbn in *; lia|].
  rewrite sdrop_length. cbn in *. lia.
Qed.

(** A valid rune is decoded from its own bytes, whatever follows. *)
Lemma DecodeRune_prefix a s r w t :
  DecodeRune (String a s) = (r, w) -> r <> RuneError -> DecodeRune (stake w (String a s) +:+ t) = (r, w).
Proof.
  unfold DecodeRune at 1. cbv zeta. intros H Hr.
  destruct (byte_of a <? 0x80) eqn:E1; [injection H as <- <-; cbn [stake String.append]; unfold DecodeRune; by rewrite E1|].
  destruct (in_range 0xC2 0xDF (byte_of a)) eqn:E2.
  { destruct s as [|b s]; [congruence|]. destruct (in_range 0x80 0xBF (byte_of b)) eqn:E; [|congruence].
    injection H as <- <-. cbn [stake String.append]. unfold DecodeRune. by rewrite E1, E2, E. }
  destruct (in_range 0xE0 0xEF (byte_of a)) eqn:E3.
  { destruct s as [|b [|e s]]; [congruence..|]. destruct (_ && _)%bool eqn:E; [|congruence].
    injection H as <- <-. cbn [stake String.append]. unfold DecodeRune. by rewrite E1, E2, E3, E. }
  destruct (in_range 0xF0 0xF4 (byte_of a)) eqn:E4; [|congruence].
  destruct s as [|b [|e [|g s]]]; [congruence..|]. destruct (_ && _)%bool eqn:E; [|congruence].
  injection H as <- <-. cbn [stake String.append]. unfold DecodeRune. by rewrite E1, E2, E3, E4, E.
Qed.

(** A rune whose text is cut off as that rune again. *)
Definition good_rune (rb : Z * string) : Prop :=
  forall t, runes (rune_text rb +:+ t) = (fst rb, rune_text rb) :: runes t.

Lemma runes_good s : Forall good_rune (runes s).
Proof.
  remember (String.length s) as n eqn:Hn. revert s Hn.
  induction n as [n IH] using lt_wf_ind. intros [|a s] Hn; [constructor|].
  rewrite runes_step by done. pose proof (DecodeRune_width a s) as Hw.
  destruct (DecodeRune (String a s)) as [r w] eqn:E. cbn [fst snd] in *. constructor.
  - intros t. unfold rune_text. cbn [fst snd]. destruct (r =? RuneError) eqn:Er; bool_prop.
    + subst r. rewrite runes_step by done. done.
    + pose proof (DecodeRune_prefix a s r w t E Er) as Ep. destruct w as [|w]; [lia|].
      rewrite runes_step by (by destruct s). rewrite Ep. cbn [fst snd].
      assert (Hl : String.length (stake (S w) (String a s)) = S w).
      { clear -Hw. revert Hw. generalize (String a s). intros x Hw. destruct Hw as [_ Hw]. revert x Hw.
        generalize (S w). intros m. induction m as [|m IH]; intros [|c x] Hw; cbn in *; [lia..|]. by rewrite IH by lia. }
      rewrite <- Hl at 1. rewrite stake_app. rewrite <- Hl at 2. by rewrite sdrop_app.
  - apply (IH (n - w)%nat); [cbn in *; lia|]. rewrite sdrop_length. cbn in *. lia.
Qed.

Lemma runes_string_of l t :
  Forall good_rune l -> runes (string_of_runes l +:+ t) = ((fun rb => (fst rb, rune_text rb)) <$> l) ++ runes t.
Proof.
  induction 1 as [|rb l Hr _ IH]; [done|]. cbn [string_of_runes foldr fmap list_fmap app].
  rewrite <- sapp_assoc, Hr. f_equal. exact IH.
Qed.

(** ** [strings.ToUpper]

    ASCII by its table; of other runes the upper case is Unicode's. *)
Class UnicodeUpper := { upper_rune : Z -> string }.

Definition upper_ascii (r : Z) : string := str1 (chr (if in_range 97 122 r then r - 32 else r)).
Definition ToUpper `{UnicodeUpper} (s : string) : string :=
  foldr (fun rb acc => (if fst rb <? 128 then upper_ascii (fst rb) else upper_rune (fst rb)) +:+ acc) "" (runes s).
