(* ===== verification/GoFlag.v ===== *)
(** * The standard library's [flag] package and the parsers it calls

    [flag.FlagSet.Parse] with [ContinueOnError], [strconv.ParseInt] in base 0,
    [strconv.ParseBool] and [time.ParseDuration].  [strconv.ParseFloat] is a
    parameter. *)

From S2P Require Import Prelude GoStrings GoTime GoFloat.

(** ** [strconv] *)

Definition lower (a : ascii) : Z := Z.lor (byte_of a) 32.

(** [underscoreOK] after the sign: what was seen last is the beginning, a digit
    or the base prefix, an underscore, or something else. *)
Inductive seen := Begin | Digit | Underscore | Other.

Fixpoint underscore_loop (hex : bool) (i : seen) (s : string) : bool :=
  match s with
  | EmptyString => match i with Underscore => false | _ => true end
  | String c s =>
      if is_decimal c || (hex && in_range 97 102 (lower c)) then underscore_loop hex Digit s
      else if byte_of c =? 95 then match i with Digit => underscore_loop hex Underscore s | _ => false end
      else match i with Underscore => false | _ => underscore_loop hex Other s end
  end.

(** The base prefix of a number in base 0: the base and what is left. *)
Definition base_prefix (s : string) : Z * string * bool :=
  match s with
  | String z (String b (String _ _ as rest)) =>
      if byte_of z =? 48 then
        if lower b =? 98 then (2, rest, true)
        else if lower b =? 111 then (8, rest, true)
        else if lower b =? 120 then (16, rest, true)
        else (8, String b rest, false)
      else (10, s, false)
  | String z rest => if byte_of z =? 48 then (8, rest, false) else (10, s, false)
  | EmptyString => (10, s, false)
  end.

(** [underscoreOK] looks for a prefix in two characters already. *)
Definition underscoreOK (s : string) : bool :=
  match s with
  | String z (String b rest) =>
      if (byte_of z =? 48) && ((lower b =? 98) || (lower b =? 111) || (lower b =? 120))
      then underscore_loop (lower b =? 120) Digit rest
      else underscore_loop false Begin s
  | _ => underscore_loop false Begin s
  end.

(** The value of a digit in any base up to 36. *)
Definition digit_value (a : ascii) : option Z :=
  if is_decimal a then Some (byte_of a - 48)
  else if in_range 97 122 (lower a) then Some (lower a - 97 + 10)
  else None.

(** The loop of [ParseUint]; [None] is a syntax or range error.  Its overflow
    tests are those of a 64-bit result. *)
Fixpoint parse_uint (base : Z) (s : string) (n : Z) (underscores : bool) : option (Z * bool) :=
  match s with
  | EmptyString => Some (n, underscores)
  | String c s =>
      if byte_of c =? 95 then parse_uint base s n true
      else
        d ← digit_value c;
        if d >=? base then None
        else if n >=? (2 ^ 64 - 1) / base + 1 then None
        else if n * base + d >=? 2 ^ 64 then None
        else parse_uint base s (n * base + d) underscores
  end.

(** [ParseUint(s, 0, 64)] *)
Definition ParseUint0 (s : string) : option Z :=
  if s ==s "" then None
  else
    let '(base, rest, _) := base_prefix s in
    r ← parse_uint base rest 0 false;
    let '(n, underscores) := r in
    if underscores && negb (underscoreOK s) then None else Some n.

(** [ParseInt(s, 0, 64)] *)
Definition split_sign (s : string) : bool * string :=
  match s with
  | String c rest => if byte_of c =? 45 then (true, rest) else if byte_of c =? 43 then (false, rest) else (false, s)
  | EmptyString => (false, s)
  end.
Definition ParseInt0 (s : string) : option Z :=
  let '(neg, rest) := split_sign s in
  un ← ParseUint0 rest;
  if negb neg && (un >=? 2 ^ 63) then None
  else if neg && (un >? 2 ^ 63) then None
  else Some (if neg then - un else un).

Definition ParseBool (s : string) : option bool :=
  if bool_decide (s ∈ ["1"; "t"; "T"; "true"; "TRUE"; "True"]) then Some true
  else if bool_decide (s ∈ ["0"; "f"; "F"; "false"; "FALSE"; "False"]) then Some false
  else None.

(** [strconv.ParseFloat] to 64 bits, and a text that it reads back. *)
Class FloatText := { ParseFloat : string -> option float64; FormatFloat : float64 -> string }.

(** ** [time.ParseDuration] *)

Fixpoint leadingInt (s : string) (x : Z) : option (Z * string) :=
  match s with
  | String c rest =>
      if negb (is_decimal c) then Some (x, s)
      else if x >? 2 ^ 63 / 10 then None
      else let x := x * 10 + byte_of c - 48 in if x >? 2 ^ 63 then None else leadingInt rest x
  | EmptyString => Some (x, s)
  end.

(** The digits of a fraction, the power of ten to divide them by; digits that no
    longer fit are skipped. *)
Fixpoint leadingFraction (s : string) (x : Z) (scale : float64) (overflow : bool) : Z * float64 * string :=
  match s with
  | String c rest =>
      if negb (is_decimal c) then (x, scale, s)
      else if overflow then leadingFraction rest x scale true
      else if x >? (2 ^ 63 - 1) / 10 then leadingFraction rest x scale true
      else
        let y := x * 10 + byte_of c - 48 in
        if y >? 2 ^ 63 then leadingFraction rest x scale true
        else leadingFraction rest y (f_mul scale (f_of_int 10)) false
  | EmptyString => (x, scale, s)
  end.

(** The characters before the next digit or point. *)
Fixpoint unit_length (s : string) : nat :=
  match s with
  | String c rest => if (byte_of c =? 46) || is_decimal c then O else S (unit_length rest)
  | EmptyString => O
  end.

Definition unitMap : list (string * Z) :=
  [("ns", 1); ("us", 1000); ("µs", 1000); ("μs", 1000); ("ms", Millisecond); ("s", Second); ("m", Minute); ("h", 60 * Minute)].

(** The fraction after the digits, if there is one: its digits, their scale, the
    text after it, and whether it has any. *)
Definition duration_fraction (s : string) : Z * float64 * string * bool :=
  match s with
  | String c rest =>
      if byte_of c =? 46
      then let '(f, scale, s2) := leadingFraction rest 0 (f_of_int 1) false in
           (f, scale, s2, negb (String.length s2 =? String.length rest)%nat)
      else (0, f_of_int 1, s, false)
  | EmptyString => (0, f_of_int 1, s, false)
  end.

(** The unit at the head of [s], and the total with [v] and [f/scale] of it. *)
Definition duration_unit (v f : Z) (scale : float64) (s : string) (d : Z) : option (Z * string) :=
  let i := unit_length s in
  if (i =? 0)%nat then None
  else
    unit ← assoc (stake i s) unitMap;
    if v >? 2 ^ 63 / unit then None
    else
      let v := v * unit in
      let v := if f >? 0 then v + f_int (f_mul (f_of_int f) (f_div (f_of_int unit) scale)) else v in
      if (f >? 0) && (v >? 2 ^ 63) then None
      else let d := u64 (d + v) in if d >? 2 ^ 63 then None else Some (d, sdrop i s).

(** One round of the loop: the total with a number and its unit added, and the
    text left. *)
Definition duration_term (s : string) (d : Z) : option (Z * string) :=
  let starts := match s with String c _ => (byte_of c =? 46) || is_decimal c | EmptyString => false end in
  if negb starts then None
  else
    r ← leadingInt s 0;
    let '(v, s1) := r in
    let pre := negb (String.length s1 =? String.length s)%nat in
    let '(f, scale, s2, post) := duration_fraction s1 in
    if negb pre && negb post then None else duration_unit v f scale s2 d.

Fixpoint duration_loop (fuel : nat) (s : string) (d : Z) : option Z :=
  if s ==s "" then Some d
  else
    match fuel with
    | O => None
    | S fuel => r ← duration_term s d; let '(d, s) := r in duration_loop fuel s d
    end.

(** Every round takes a character at least. *)
Definition ParseDuration (s : string) : option Z :=
  let '(neg, s) := split_sign s in
  if s ==s "0" then Some 0
  else if s ==s "" then None
  else
    d ← duration_loop (String.length s) s 0;
    if neg then Some (i64 (- i64 d)) else if d >? 2 ^ 63 - 1 then None else Some d.

Example ParseDuration_examples :
  (ParseDuration <$> ["0"; "2s"; "1.5s"; "-1m30s"; "10m"; ".5h"; "2"; "s"; "1d"; "9223372036854775808ns"; "-9223372036854775808ns"; ""])
  = [Some 0; Some 2000000000; Some 1500000000; Some (-90000000000); Some 600000000000; Some 1800000000000; None; None; None;
     None; Some (- 2 ^ 63); None].
Proof. vm_compute. reflexivity. Qed.

Example ParseInt0_examples :
  (ParseInt0 <$> ["0"; "42"; "-7"; "+7"; "0x1F"; "010"; "0b101"; "1_000"; "_1"; "1__0"; "0x"; "08"; ""; "9223372036854775808"])
  = [Some 0; Some 42; Some (-7); Some 7; Some 31; Some 8; Some 5; Some 1000; None; None; None; None; None; None].
Proof. vm_compute. reflexivity. Qed.

(** ** [flag] *)

(** A defined flag: its name, whether it is boolean, and [Value.Set]. *)
Record flag (C : Type) := mkFlag { flag_name : string; flag_bool : bool; flag_set : string -> C -> option C }.
Arguments mkFlag {C}.
Arguments flag_name {C}.
Arguments flag_bool {C}.
Arguments flag_set {C}.

Inductive flag_error :=
  | ErrHelp
  | BadFlagSyntax (s : string)
  | NotDefined (name : string)
  | NeedsArgument (name : string)
  | InvalidValue (name value : string).

Section flagset.
Context {C : Type} (formal : list (flag C)).

Definition lookup_flag (name : string) : option (flag C) := find_first (fun f => flag_name f ==s name) formal.

(** The text before the first [=] that is not the first character, and the one
    after it. *)
Fixpoint cut_equals (s : string) : string * option string :=
  match s with
  | EmptyString => ("", None)
  | String c rest =>
      if byte_of c =? 61 then ("", Some rest)
      else let '(name, value) := cut_equals rest in (String c name, value)
  end.
Definition split_name (name : string) : string * option string :=
  match name with
  | EmptyString => ("", None)
  | String c rest => let '(n, v) := cut_equals rest in (String c n, v)
  end.

Definition dash : ascii := "-".

(** What an argument is: not a flag, the end of the flags, or the text of a flag
    after its dashes. *)
Inductive argument := Positional | Terminator | FlagText (name : string).
Definition classify (s : string) : argument :=
  match s with
  | String a (String b rest) =>
      if negb (Ascii.eqb a dash) then Positional
      else if negb (Ascii.eqb b dash) then FlagText (String b rest)
      else if rest ==s "" then Terminator
      else FlagText rest
  | _ => Positional
  end.

Definition bad_name (name : string) : bool :=
  match name with EmptyString => true | String c _ => Ascii.eqb c dash || (byte_of c =? 61) end.

(** [FlagSet.Parse]: the values set and the arguments left, or the error. *)
Fixpoint Parse (args : list string) (c : C) : flag_error + (C * list string) :=
  match args with
  | [] => inr (c, [])
  | s :: rest =>
      match classify s with
      | Positional => inr (c, args)
      | Terminator => inr (c, rest)
      | FlagText text =>
          if bad_name text then inl (BadFlagSyntax s)
          else
            let '(name, value) := split_name text in
            match lookup_flag name with
            | None => inl (if (name ==s "help") || (name ==s "h") then ErrHelp else NotDefined name)
            | Some f =>
                let set v k := match flag_set f v c with None => inl (InvalidValue name v) | Some c => k c end in
                match value with
                | Some v => set v (Parse rest)
                | None =>
                    if flag_bool f then set "true" (Parse rest)
                    else
                      match rest with
                      | [] => inl (NeedsArgument name)
                      | v :: rest => set v (Parse rest)
                      end
                end
            end
      end
  end.

(** ** Lemmas *)

(** An argument that is not a flag ends the parsing: what comes after it is not
    looked at. *)
Lemma Parse_positional pos rest c : classify pos = Positional -> Parse (pos :: rest) c = inr (c, pos :: rest).
Proof. intros Hp. cbn. by rewrite Hp. Qed.

Lemma cut_equals_app name v : index_byte "=" name = None -> cut_equals (name +:+ String "=" v) = (name, Some v).
Proof.
  intros Hn%index_byte_None. unfold no_byte in Hn. induction name as [|c name IH]; [done|]. cbn in Hn |- *.
  apply andb_true_iff in Hn as [Hc Hn]. rewrite (IH Hn). destruct (byte_of c =? 61) eqn:E; [|done]. exfalso.
  bool_prop. assert (c = "="%char) as ->; [|done]. unfold byte_of in E.
  rewrite <- (ascii_N_embedding c). change 61 with (Z.of_N 61) in E. apply N2Z.inj in E. by rewrite E.
Qed.

(** A name as flags have them: not empty, without [=], not starting with a dash. *)
Definition flag_named (name : string) : bool :=
  negb (bad_name name) && bool_decide (index_byte "=" name = None).

(** [--name=value] sets the flag. *)
Lemma Parse_setting f v rest c c' :
  flag_named (flag_name f) = true -> lookup_flag (flag_name f) = Some f -> flag_set f v c = Some c' ->
  Parse (("--" +:+ flag_name f +:+ "=" +:+ v) :: rest) c = Parse rest c'.
Proof.
  intros Hn Hl Hs. unfold flag_named in Hn. apply andb_true_iff in Hn as [Hb He%bool_decide_eq_true_1].
  destruct (flag_name f) as [|a name] eqn:Ef; [done|]. apply negb_true_iff in Hb.
  cbn [Parse]. change ("--" +:+ String a name +:+ "=" +:+ v) with (String "-" (String "-" (String a (name +:+ String "=" v)))).
  change (classify (String "-" (String "-" (String a (name +:+ String "=" v))))) with (FlagText (String a (name +:+ String "=" v))).
  cbn iota. change (bad_name (String a (name +:+ String "=" v))) with (bad_name (String a name)). rewrite Hb. unfold split_name.
  rewrite cut_equals_app. { rewrite Hl. by rewrite Hs. }
  cbn in He. destruct (Ascii.eqb a "="); [done|]. by destruct (index_byte "=" name).
Qed.
End flagset.

(** ** Numbers and durations written in full are read back *)

Definition starts_with_digit (s : string) : bool := match s with String c _ => is_decimal c | EmptyString => false end.

Lemma byte_of_decimal a : is_decimal a = true -> byte_of a = 48 + undigit a /\ 0 <= undigit a < 10.
Proof.
  unfold is_decimal, undigit, in_range. intros H. bool_prop. case_match; bool_prop; lia.
Qed.

Lemma digit_value_decimal a : is_decimal a = true -> digit_value a = Some (undigit a).
Proof. intros H. unfold digit_value. rewrite H. apply byte_of_decimal in H as [Hb _]. f_equal. lia. Qed.

Lemma digits_value_ge s v : all_bytes is_decimal s = true -> 0 <= v -> v <= digits_value 10 v s.
Proof.
  revert v. induction s as [|a s IH]; cbn; intros v H Hv; [lia|]. bool_prop. apply byte_of_decimal in H as [_ Hd].
  etransitivity; [|apply IH; [done|lia]]. lia.
Qed.

Lemma parse_uint_value s v u :
  all_bytes is_decimal s = true -> 0 <= v -> digits_value 10 v s < 2 ^ 64 ->
  parse_uint 10 s v u = Some (digits_value 10 v s, u).
Proof.
  revert v. induction s as [|a s IH]; intros v H Hv Hn; [done|]. cbn [all_bytes] in H. apply andb_true_iff in H as [Ha Hs].
  cbn [parse_uint digits_value]. cbn [digits_value] in Hn. pose proof (byte_of_decimal a Ha) as [Hb Hd].
  replace (byte_of a =? 95) with false by (symmetry; apply Z.eqb_neq; lia). rewrite digit_value_decimal by done. cbn [mbind option_bind].
  pose proof (digits_value_ge s (v * 10 + undigit a) Hs ltac:(lia)) as Hge.
  rewrite !Z.geb_leb, !(proj2 (Z.leb_gt _ _)); [apply IH; [done|lia|done]|lia| |lia].
  change ((2 ^ 64 - 1) / 10 + 1) with 1844674407370955162. lia.
Qed.

Lemma fmt_digits_head f n acc :
  0 < n < 10 ^ Z.of_nat f -> exists a s, fmt_digits f 10 n acc = String a s /\ is_decimal a = true /\ undigit a <> 0.
Proof.
  revert n acc. induction f as [|f IH]; intros n acc Hn; [cbn in Hn; lia|]. cbn [fmt_digits].
  rewrite Nat2Z.inj_succ, Z.pow_succ_r in Hn by lia. destruct (n / 10 =? 0) eqn:E; bool_prop.
  - assert (Hm : 0 < n mod 10 < 10) by (Z.to_euclidean_division_equations; lia).
    eexists _, _. split_and!; [done|apply is_decimal_digit; lia|rewrite undigit_digit; lia].
  - apply IH. Z.to_euclidean_division_equations; lia.
Qed.

Lemma ParseUint0_FormatUint n : is_u64 n -> ParseUint0 (FormatUint n 10) = Some n.
Proof.
  unfold is_u64. intros Hn. unfold ParseUint0. destruct (FormatUint n 10 ==s "") eqn:E0.
  { exfalso. bool_prop. by apply (fmt_digits_ne 64 10 n "") in E0; [|lia]. }
  destruct (Z.eq_dec n 0) as [->|Hz]; [done|].
  assert (Hp : exists a s, FormatUint n 10 = String a s /\ is_decimal a = true /\ undigit a <> 0).
  { apply fmt_digits_head. change (Z.of_nat 64) with 64. lia. }
  assert (Hb : base_prefix (FormatUint n 10) = (10, FormatUint n 10, false)).
  { destruct Hp as (a & s & -> & Ha & Hd). apply byte_of_decimal in Ha as [Hb _].
    unfold base_prefix. replace (byte_of a =? 48) with false by (symmetry; apply Z.eqb_neq; lia). by destruct s as [|? []]. }
  rewrite Hb, parse_uint_value; [|apply FormatUint_decimal|lia|]; rewrite FormatUint_value by (unfold is_u64; lia); [|lia]. done.
Qed.

Lemma split_sign_fmt_d z s :
  split_sign (fmt_d z +:+ s) = (z <? 0, FormatUint (Z.abs z) 10 +:+ s).
Proof.
  unfold fmt_d. destruct (z <? 0) eqn:E; bool_prop; [by rewrite Z.abs_neq by lia|]. rewrite Z.abs_eq by lia.
  destruct (FormatUint z 10) as [|a t] eqn:Ef; [by apply (fmt_digits_ne 64 10 z "") in Ef; [|lia]|].
  pose proof (FormatUint_decimal z) as Hd. rewrite Ef in Hd. cbn in Hd. bool_prop.
  apply byte_of_decimal in H as [Hb Hr]. cbn [String.append split_sign].
  by rewrite !(proj2 (Z.eqb_neq _ _)) by lia.
Qed.

Lemma ParseInt0_fmt_d z : is_i64 z -> ParseInt0 (fmt_d z) = Some z.
Proof.
  unfold is_i64. intros Hz. unfold ParseInt0. rewrite <- (sapp_nil_r (fmt_d z)), split_sign_fmt_d, sapp_nil_r.
  rewrite ParseUint0_FormatUint by (unfold is_u64; lia). cbn [mbind option_bind]. destruct (z <? 0) eqn:E; bool_prop; cbn [negb andb].
  - rewrite Z.gtb_ltb, (proj2 (Z.ltb_ge _ _)) by lia. f_equal. lia.
  - rewrite Z.geb_leb, (proj2 (Z.leb_gt _ _)) by lia. f_equal. lia.
Qed.

Lemma leadingInt_value s v rest :
  all_bytes is_decimal s = true -> starts_with_digit rest = false -> 0 <= v -> digits_value 10 v s <= 2 ^ 63 ->
  leadingInt (s +:+ rest) v = Some (digits_value 10 v s, rest).
Proof.
  intros H Hr. revert v. induction s as [|a s IH]; intros v Hv Hn; cbn [String.append].
  { destruct rest as [|c rest]; [done|]. cbn in Hr |- *. by rewrite Hr. }
  cbn [all_bytes] in H. apply andb_true_iff in H as [Ha Hs]. cbn [leadingInt digits_value] in *. rewrite Ha. cbn [negb].
  pose proof (byte_of_decimal a Ha) as [Hb Hd]. pose proof (digits_value_ge s (v * 10 + undigit a) Hs ltac:(lia)) as Hge.
  replace (v * 10 + byte_of a - 48) with (v * 10 + undigit a) by lia.
  rewrite !Z.gtb_ltb, !(proj2 (Z.ltb_ge _ _)); [apply IH; [done|lia|done]|lia|].
  change (2 ^ 63 / 10) with 922337203685477580. lia.
Qed.

(** A duration in nanoseconds. *)
Lemma ParseDuration_ns z : is_i64 z -> ParseDuration (fmt_d z +:+ "ns") = Some z.
Proof.
  unfold is_i64. intros Hz. unfold ParseDuration. rewrite split_sign_fmt_d. set (n := Z.abs z). set (t := FormatUint n 10).
  assert (Hn : 0 <= n <= 2 ^ 63) by (unfold n; lia).
  assert (Hd : all_bytes is_decimal t = true) by apply FormatUint_decimal.
  assert (Hv : digits_value 10 0 t = n) by (apply FormatUint_value; unfold is_u64; lia).
  destruct t as [|a t'] eqn:Et; [by apply (fmt_digits_ne 64 10 n "") in Et; [|lia]|].
  assert (Ha : is_decimal a = true) by (cbn in Hd; by bool_prop).
  assert (Hlead : leadingInt (String a t' +:+ "ns") 0 = Some (n, "ns"))
    by (rewrite leadingInt_value; [by rewrite Hv|done|done|lia|lia]).
  assert (Hterm : duration_term (String a t' +:+ "ns") 0 = Some (n, "")).
  { assert (Hlen : (String.length "ns" =? String.length (String a t' +:+ "ns"))%nat = false).
    { apply Nat.eqb_neq. rewrite sapp_length. cbn. lia. }
    unfold duration_term. rewrite Hlead. cbn [mbind option_bind]. rewrite Hlen. cbn [String.append]. rewrite Ha, orb_true_r.
    change (duration_fraction "ns") with (0, f_of_int 1, "ns", false). cbn [negb andb].
    unfold duration_unit. change (unit_length "ns") with 2%nat. change (assoc (stake 2 "ns") unitMap) with (Some 1).
    change (sdrop 2 "ns") with "". change (0 >? 0) with false. cbn [Nat.eqb mbind option_bind andb].
    rewrite Z.mul_1_r, Z.add_0_l, u64_small by (unfold is_u64; lia).
    by rewrite Z.div_1_r, Z.gtb_ltb, (proj2 (Z.ltb_ge _ _)) by lia. }
  replace (String a t' +:+ "ns" ==s "0") with false.
  2:{ symmetry. apply String.eqb_neq. intros E. cbn in E. injection E as _ E. by destruct t'. }
  cbn [String.append] in *. change (String a (t' +:+ "ns") ==s "") with false. cbn iota.
  cbn [String.length duration_loop]. change (String a (t' +:+ "ns") ==s "") with false. cbn iota. rewrite Hterm. cbn [mbind option_bind].
  assert (Hend : forall f, duration_loop f "" n = Some n) by (by intros []). rewrite Hend. cbn [mbind option_bind].
  destruct (z <? 0) eqn:E; bool_prop.
  - f_equal. unfold n. destruct (Z.eq_dec z (- 2 ^ 63)) as [->|Hne]; [done|].
    rewrite (i64_small (Z.abs z)), i64_small; unfold is_i64; lia.
  - rewrite Z.gtb_ltb, (proj2 (Z.ltb_ge _ _)) by lia. f_equal. lia.
Qed.

Lemma ParseBool_FormatBool b : ParseBool (FormatBool b) = Some b.
Proof. by destruct b. Qed.

(** The fuel of [ParseDuration] is enough: a round leaves less text. *)
Lemma leadingInt_shorter s x y rest : leadingInt s x = Some (y, rest) -> (String.length rest <= String.length s)%nat.
Proof.
  revert x. induction s as [|c s IH]; intros x; cbn [leadingInt]; [by intros [= _ <-]|].
  destruct (negb (is_decimal c)); [by intros [= _ <-]|]. destruct (x >? _); [done|]. cbn zeta. destruct (_ >? 2 ^ 63); [done|].
  intros H%IH. cbn. lia.
Qed.

Lemma leadingFraction_shorter s x scale o : (String.length (snd (leadingFraction s x scale o)) <= String.length s)%nat.
Proof.
  revert x scale o. induction s as [|c s IH]; intros x scale o; cbn [leadingFraction]; [done|].
  destruct (negb (is_decimal c)); [done|]. cbn [String.length].
  repeat match goal with |- context [if ?b then _ else _] => destruct b end; (etransitivity; [apply IH|lia]).
Qed.

Lemma duration_fraction_shorter s : (String.length (snd (fst (duration_fraction s))) <= String.length s)%nat.
Proof.
  destruct s as [|c s]; [done|]. cbn [duration_fraction]. destruct (byte_of c =? 46); [|done].
  pose proof (leadingFraction_shorter s 0 (f_of_int 1) false) as Hf. destruct (leadingFraction _ _ _ _) as [[f scale] s2]. cbn in *. lia.
Qed.

Lemma duration_unit_shorter v f scale s d d' s' :
  duration_unit v f scale s d = Some (d', s') -> (String.length s' < String.length s)%nat.
Proof.
  unfold duration_unit. destruct (unit_length s) as [|i] eqn:Ei; [done|]. cbn [Nat.eqb].
  destruct (assoc _ unitMap) as [u|]; cbn [mbind option_bind]; [|done]. destruct (v >? _); [done|]. cbn zeta.
  destruct (_ && _); [done|]. destruct (_ >? 2 ^ 63); [done|]. intros [= _ <-].
  destruct s as [|c s]; [done|]. cbn [sdrop String.length]. assert (Hle : forall n t, (String.length (sdrop n t) <= String.length t)%nat).
  { intros n t. revert n. induction t as [|b t IH]; intros [|n]; cbn; auto. }
  specialize (Hle i s). lia.
Qed.

Lemma duration_term_shorter s d d' s' : duration_term s d = Some (d', s') -> (String.length s' < String.length s)%nat.
Proof.
  unfold duration_term. destruct (negb _); [done|]. destruct (leadingInt s 0) as [[v s1]|] eqn:El; cbn [mbind option_bind]; [|done].
  apply leadingInt_shorter in El. pose proof (duration_fraction_shorter s1) as Hf.
  destruct (duration_fraction s1) as [[[f scale] s2] post]. cbn [fst snd] in Hf. destruct (_ && _); [done|].
  intros Hu%duration_unit_shorter. lia.
Qed.

(** More fuel than the text has characters changes nothing. *)
Lemma duration_loop_enough fuel s d :
  (String.length s <= fuel)%nat -> duration_loop fuel s d = duration_loop (String.length s) s d.
Proof.
  revert s d. induction fuel as [fuel IH] using lt_wf_ind. intros s d Hf.
  destruct s as [|c s]; [by destruct fuel|]. destruct fuel as [|fuel]; [cbn in Hf; lia|]. cbn [String.length duration_loop].
  destruct (String c s ==s ""); [done|]. destruct (duration_term (String c s) d) as [[d' s']|] eqn:Et; cbn [mbind option_bind]; [|done].
  apply duration_term_shorter in Et. cbn [String.length] in *.
  rewrite (IH fuel), (IH (String.length s)); [done|lia|lia|lia|lia].
Qed.
