(* ===== verification/Syscalls.v ===== *)
(** * Syscall identifiers ([events/syscall.go])

    The numbering of the monitored syscalls, their names, and the
    classification predicates the rules use. *)

From S2P Require Import Prelude GoStrings.

(** [type Syscall uint32] *)
Abbreviation Syscall := Z (only parsing).

Definition SysUnknown : Syscall := 0.
Definition SysExecve : Syscall := 1.
Definition SysExecveat : Syscall := 2.
Definition SysOpenat : Syscall := 3.
Definition SysSetuid : Syscall := 4.
Definition SysSetgid : Syscall := 5.
Definition SysSetresuid : Syscall := 6.
Definition SysSetresgid : Syscall := 7.
Definition SysPtrace : Syscall := 8.
Definition SysSocket : Syscall := 9.
Definition SysConnect : Syscall := 10.
Definition SysDup2 : Syscall := 11.
Definition SysDup3 : Syscall := 12.
Definition SysCapset : Syscall := 13.

Definition syscallNames : list (Syscall * string) :=
  [ (SysUnknown, "unknown"); (SysExecve, "execve"); (SysExecveat, "execveat");
    (SysOpenat, "openat"); (SysSetuid, "setuid"); (SysSetgid, "setgid");
    (SysSetresuid, "setresuid"); (SysSetresgid, "setresgid"); (SysPtrace, "ptrace");
    (SysSocket, "socket"); (SysConnect, "connect"); (SysDup2, "dup2");
    (SysDup3, "dup3"); (SysCapset, "capset") ].

(** [itoa]: digits are written from the end of a 20-byte buffer.  [room] is
    how many bytes are left in front; writing with none left would be Go's
    index-out-of-range panic, [None]. *)
Fixpoint itoa_loop (room : nat) (v : Z) (buf : string) : option string :=
  if v >? 0 then
    match room with
    | O => None
    | S i => itoa_loop i (v / 10) (String (chr (48 + v mod 10)) buf)
    end
  else Some buf.

Definition itoa (v : Z) : option string :=
  if v =? 0 then Some "0" else itoa_loop 20 v "".

(** [Syscall.String]; [None] would be a panic inside [itoa]. *)
Definition Syscall_String_opt (s : Syscall) : option string :=
  match assoc s syscallNames with
  | Some name => Some name
  | None => n ← itoa (u64 s); Some ("unknown(" +:+ n +:+ ")")
  end.
Definition Syscall_String (s : Syscall) : string := default "" (Syscall_String_opt s).

(** [ParseSyscall] ranges over the map: [order] is the order in which the Go
    runtime happens to visit the entries. *)
Definition ParseSyscall_in (order : list (Syscall * string)) (name : string) : Syscall * bool :=
  match find_first (fun e => (snd e ==s name) && negb (fst e =? SysUnknown)) order with
  | Some (sc, _) => (sc, true)
  | None => (SysUnknown, false)
  end.
Definition ParseSyscall (name : string) : Syscall * bool := ParseSyscall_in syscallNames name.

Definition IsExecution (s : Syscall) : bool := (s =? SysExecve) || (s =? SysExecveat).

Definition IsCredentialChange (s : Syscall) : bool :=
  (s =? SysSetuid) || (s =? SysSetgid) || (s =? SysSetresuid) || (s =? SysSetresgid).

Definition IsDup (s : Syscall) : bool := (s =? SysDup2) || (s =? SysDup3).

(** ** Lemmas *)

Lemma itoa_loop_FormatUint room f v buf :
  0 < v < 10 ^ Z.of_nat room -> (room <= f)%nat ->
  itoa_loop room v buf = Some (fmt_digits f 10 v buf).
Proof.
  revert f v buf; induction room as [|room IH]; intros f v buf Hv Hf; [cbn in Hv; lia|].
  destruct f as [|f]; [lia|]. cbn [itoa_loop fmt_digits].
  pose proof (Z.mod_pos_bound v 10 ltac:(lia)) as Hm.
  assert (digit (v mod 10) = chr (48 + v mod 10)) as ->.
  { unfold digit. case_match; bool_prop; [done|lia]. }
  assert ((v >? 0) = true) as -> by (apply Z.gtb_lt; lia).
  rewrite Nat2Z.inj_succ, Z.pow_succ_r in Hv by lia.
  case_match eqn:E; bool_prop.
  - rewrite E. by destruct room.
  - assert (0 <= v / 10) by (apply Z.div_pos; lia).
    assert (v / 10 < 10 ^ Z.of_nat room) by (apply Z.div_lt_upper_bound; lia).
    apply IH; lia.
Qed.

(** The 20-byte buffer of [itoa] is enough for every [uint64]. *)
Lemma itoa_FormatUint v : is_u64 v -> itoa v = Some (FormatUint v 10).
Proof.
  unfold is_u64, itoa; intros Hv. case_match eqn:E; bool_prop; [by subst|].
  apply itoa_loop_FormatUint; [|lia]. change (10 ^ Z.of_nat 20) with 100000000000000000000. lia.
Qed.

Lemma Syscall_String_known s name : assoc s syscallNames = Some name -> Syscall_String s = name.
Proof. intros H. unfold Syscall_String, Syscall_String_opt. by rewrite H. Qed.

Lemma Syscall_String_unknown s :
  is_u32 s -> assoc s syscallNames = None ->
  Syscall_String s = "unknown(" +:+ FormatUint s 10 +:+ ")".
Proof.
  unfold is_u32; intros Hs H. unfold Syscall_String, Syscall_String_opt. rewrite H.
  rewrite u64_small by (unfold is_u64; lia). rewrite itoa_FormatUint by (unfold is_u64; lia). done.
Qed.

Lemma syscallNames_NoDup_names : NoDup syscallNames.*2.
Proof. by_compute. Qed.

Lemma syscallNames_NoDup_ids : NoDup syscallNames.*1.
Proof. by_compute. Qed.

Lemma ParseSyscall_in_sound order name sc :
  ParseSyscall_in order name = (sc, true) -> (sc, name) ∈ order /\ sc <> SysUnknown.
Proof.
  unfold ParseSyscall_in. destruct (find_first _ _) as [[sc' n']|] eqn:E; [|done].
  intros [= ->]. apply find_first_Some in E as (l1 & l2 & -> & H & _). cbn in H. bool_prop. subst.
  split; [|done]. set_solver.
Qed.

Lemma ParseSyscall_in_complete order name sc :
  NoDup order.*2 -> (sc, name) ∈ order -> sc <> SysUnknown -> ParseSyscall_in order name = (sc, true).
Proof.
  intros Hd Hin Hsc. unfold ParseSyscall_in.
  rewrite (find_first_unique _ (sc, name)); [done|done| |].
  - cbn. apply Z.eqb_neq in Hsc. by rewrite String.eqb_refl, Hsc.
  - intros [sc' n'] Hin' H. cbn in H. bool_prop. subst. f_equal. by eapply table_value_inj.
Qed.

Lemma ParseSyscall_in_false order name :
  ParseSyscall_in order name = (SysUnknown, false) <->
  forall sc, (sc, name) ∈ order -> sc = SysUnknown.
Proof.
  unfold ParseSyscall_in. destruct (find_first _ _) as [[sc' n']|] eqn:E.
  - apply find_first_Some in E as (l1 & l2 & -> & H & _). cbn in H. bool_prop. subst.
    split; [congruence|]. intros Hall. exfalso. apply H0, Hall. set_solver.
  - split; [intros _ sc Hin|done]. apply find_first_None in E. rewrite Forall_forall in E.
    apply E in Hin. cbn in Hin. rewrite String.eqb_refl in Hin. cbn in Hin. bool_prop. done.
Qed.

Lemma ParseSyscall_known sc name :
  assoc sc syscallNames = Some name -> sc <> SysUnknown -> ParseSyscall name = (sc, true).
Proof.
  intros H Hn. apply ParseSyscall_in_complete; [apply syscallNames_NoDup_names| |done].
  by apply assoc_Some_elem.
Qed.

Lemma ParseSyscall_true name sc :
  ParseSyscall name = (sc, true) ->
  assoc sc syscallNames = Some name /\ sc <> SysUnknown.
Proof.
  intros [Hin Hne]%ParseSyscall_in_sound. split; [|done].
  apply assoc_elem; [apply syscallNames_NoDup_ids|done].
Qed.

Lemma syscallNames_range s name : (s, name) ∈ syscallNames -> 0 <= s <= 13.
Proof.
  assert (Forall (fun e => 0 <= fst e <= 13) syscallNames) as H by by_compute.
  rewrite Forall_forall in H. apply (H (s, name)).
Qed.

Lemma syscallNames_total s : assoc s syscallNames = None -> ~ 1 <= s <= 13.
Proof.
  intros H Hr. apply assoc_None in H. apply H.
  assert (s ∈ [1;2;3;4;5;6;7;8;9;10;11;12;13]) by (rewrite !elem_of_cons; lia). set_solver.
Qed.

Lemma syscallNames_no_fallback s t : (s, "unknown(" +:+ t) ∉ syscallNames.
Proof.
  assert (Forall (fun e => HasPrefix (snd e) "unknown(" = false) syscallNames) as H by by_compute.
  rewrite Forall_forall in H. intros Hin%H. cbn [snd] in Hin. by rewrite HasPrefix_app in Hin.
Qed.

(** ** Properties *)

(** [ParseSyscall] is the inverse of [String] on exactly the syscalls
    this build knows: the name of a known syscall other than [SysUnknown]
    parses back to it, whatever order the runtime visits the map in, and the
    name [String] gives any other identifier (the fallback ["unknown(N)"], or
    ["unknown"] itself) is rejected. *)
Theorem ParseSyscall_String order s :
  is_u32 s -> order ≡ₚ syscallNames ->
  ParseSyscall_in order (Syscall_String s) =
    if bool_decide (1 <= s <= 13) then (s, true) else (SysUnknown, false).
Proof.
  intros Hs Hp.
  assert (Hd : NoDup order.*2) by (rewrite Hp; apply syscallNames_NoDup_names).
  destruct (assoc s syscallNames) as [name|] eqn:E.
  - rewrite (Syscall_String_known _ _ E). pose proof (assoc_Some_elem _ _ _ E) as Hin.
    case_bool_decide as Hr.
    + apply ParseSyscall_in_complete; [done|by rewrite Hp|unfold SysUnknown; lia].
    + pose proof (syscallNames_range _ _ Hin). assert (s = SysUnknown) as -> by (unfold SysUnknown; lia).
      apply ParseSyscall_in_false. intros sc Hsc. rewrite Hp in Hsc.
      eapply table_value_inj; [apply syscallNames_NoDup_names|exact Hsc|exact Hin].
  - rewrite Syscall_String_unknown by done.
    case_bool_decide as Hr; [by apply syscallNames_total in E|].
    apply ParseSyscall_in_false. intros sc Hsc. rewrite Hp in Hsc.
    exfalso. by eapply syscallNames_no_fallback.
Qed.

Lemma ParseSyscall_String_witness :
  is_u32 17 /\ ParseSyscall_in syscallNames (Syscall_String 17) = (SysUnknown, false).
Proof.
  split; [unfold is_u32; lia|].
  apply (ParseSyscall_String syscallNames 17); [unfold is_u32; lia|reflexivity].
Defined.
