(* ===== verification/Constants.v ===== *)
(** * Rendering raw syscall arguments ([events/constants.go])

    The tables and formatters that turn argument registers into text: open(2)
    and execveat flags, ptrace requests, address families, socket types,
    descriptors, ids, addresses and errnos.  An [int64] is a [Z]; [&], [&^]
    and shifts are [Z.land], [Z.ldiff] and [Z.shiftl]/[Z.shiftr] on its
    two's complement. *)

From S2P Require Import Prelude GoStrings.

(** ** open(2) flags *)

Definition oAccmode : Z := Eval cbv in oct 3.
Definition oRdonly : Z := Eval cbv in oct 0.
Definition oWronly : Z := Eval cbv in oct 1.
Definition oRdwr : Z := Eval cbv in oct 2.
Definition oCreat : Z := Eval cbv in oct 100.
Definition oExcl : Z := Eval cbv in oct 200.
Definition oNoctty : Z := Eval cbv in oct 400.
Definition oTrunc : Z := Eval cbv in oct 1000.
Definition oAppend : Z := Eval cbv in oct 2000.
Definition oNonblock : Z := Eval cbv in oct 4000.
Definition oDsync : Z := Eval cbv in oct 10000.
Definition oDirect : Z := Eval cbv in oct 40000.
Definition oLargefile : Z := Eval cbv in oct 100000.
Definition oDirectory : Z := Eval cbv in oct 200000.
Definition oNofollow : Z := Eval cbv in oct 400000.
Definition oNoatime : Z := Eval cbv in oct 1000000.
Definition oCloexec : Z := Eval cbv in oct 2000000.
Definition oPath : Z := Eval cbv in oct 10000000.
Definition oTmpfile : Z := Eval cbv in oct 20200000.

(** Ordered as in the source: most significant behaviour first. *)
Definition openFlagNames : list (Z * string) :=
  [ (oCreat, "O_CREAT"); (oExcl, "O_EXCL"); (oTrunc, "O_TRUNC"); (oAppend, "O_APPEND");
    (oNoctty, "O_NOCTTY"); (oNonblock, "O_NONBLOCK"); (oDsync, "O_DSYNC");
    (oDirect, "O_DIRECT"); (oLargefile, "O_LARGEFILE"); (oDirectory, "O_DIRECTORY");
    (oNofollow, "O_NOFOLLOW"); (oNoatime, "O_NOATIME"); (oCloexec, "O_CLOEXEC");
    (oPath, "O_PATH") ].

(** The loop over [openFlagNames]: names whose bit is set are appended and
    the bit is cleared from [remaining]. *)
Fixpoint openFlagLoop (names : list (Z * string)) (parts : list string) (remaining : Z)
    : list string * Z :=
  match names with
  | [] => (parts, remaining)
  | (bit, name) :: names' =>
      if Z.land remaining bit =? bit
      then openFlagLoop names' (parts ++ [name]) (Z.ldiff remaining bit)
      else openFlagLoop names' parts remaining
  end.

Definition accmodeName (flags : Z) : string :=
  let m := Z.land flags oAccmode in
  if m =? oRdonly then "O_RDONLY"
  else if m =? oWronly then "O_WRONLY"
  else if m =? oRdwr then "O_RDWR"
  else "O_ACCMODE_INVALID".

(** [parts] at the end of [formatOpenFlags]. *)
Definition openFlagParts (flags : Z) : list string :=
  let parts := [accmodeName flags] in
  let remaining := Z.ldiff flags oAccmode in
  let '(parts, remaining) :=
    if Z.land remaining oTmpfile =? oTmpfile
    then (parts ++ ["O_TMPFILE"], Z.ldiff remaining oTmpfile)
    else (parts, remaining) in
  let '(parts, remaining) := openFlagLoop openFlagNames parts remaining in
  if remaining =? 0 then parts else parts ++ ["0x" +:+ fmt_x (u64 remaining)].

Definition formatOpenFlags (flags : Z) : string := Join (openFlagParts flags) "|".

(** ** [*at()] descriptors and flags *)

Definition atFdcwd : Z := -100.
Definition atSymlinkNofollow : Z := 0x100.
Definition atEmptyPath : Z := 0x1000.

Definition formatDirfd (fd : Z) : string :=
  if fd =? atFdcwd then "AT_FDCWD" else fmt_d fd.

Definition execveatFlagParts (flags : Z) : list string :=
  let parts := if Z.land flags atEmptyPath =? 0 then [] else ["AT_EMPTY_PATH"] in
  let parts := if Z.land flags atSymlinkNofollow =? 0 then parts
               else parts ++ ["AT_SYMLINK_NOFOLLOW"] in
  let known := Z.lor atEmptyPath atSymlinkNofollow in
  let rest := Z.ldiff flags known in
  if rest =? 0 then parts else parts ++ ["0x" +:+ fmt_x (u64 rest)].

Definition formatExecveatFlags (flags : Z) : string :=
  if flags =? 0 then "0" else Join (execveatFlagParts flags) "|".

(** ** ptrace(2) requests *)

Definition PtraceTraceme : Z := 0.
Definition PtracePeektext : Z := 1.
Definition PtracePeekdata : Z := 2.
Definition PtracePeekuser : Z := 3.
Definition PtracePoketext : Z := 4.
Definition PtracePokedata : Z := 5.
Definition PtracePokeuser : Z := 6.
Definition PtraceCont : Z := 7.
Definition PtraceKill : Z := 8.
Definition PtraceSinglestep : Z := 9.
Definition PtraceGetregs : Z := 12.
Definition PtraceSetregs : Z := 13.
Definition PtraceGetfpregs : Z := 14.
Definition PtraceSetfpregs : Z := 15.
Definition PtraceAttach : Z := 16.
Definition PtraceDetach : Z := 17.
Definition PtraceSyscall : Z := 24.
Definition PtraceSetoptions : Z := 0x4200.
Definition PtraceGetregset : Z := 0x4204.
Definition PtraceSetregset : Z := 0x4205.
Definition PtraceSeize : Z := 0x4206.
Definition PtraceInterrupt : Z := 0x4207.
Definition PtraceListen : Z := 0x4208.

Definition ptraceRequestNames : list (Z * string) :=
  [ (PtraceTraceme, "PTRACE_TRACEME"); (PtracePeektext, "PTRACE_PEEKTEXT");
    (PtracePeekdata, "PTRACE_PEEKDATA"); (PtracePeekuser, "PTRACE_PEEKUSER");
    (PtracePoketext, "PTRACE_POKETEXT"); (PtracePokedata, "PTRACE_POKEDATA");
    (PtracePokeuser, "PTRACE_POKEUSER"); (PtraceCont, "PTRACE_CONT");
    (PtraceKill, "PTRACE_KILL"); (PtraceSinglestep, "PTRACE_SINGLESTEP");
    (PtraceGetregs, "PTRACE_GETREGS"); (PtraceSetregs, "PTRACE_SETREGS");
    (PtraceGetfpregs, "PTRACE_GETFPREGS"); (PtraceSetfpregs, "PTRACE_SETFPREGS");
    (PtraceAttach, "PTRACE_ATTACH"); (PtraceDetach, "PTRACE_DETACH");
    (PtraceSyscall, "PTRACE_SYSCALL"); (PtraceSetoptions, "PTRACE_SETOPTIONS");
    (PtraceGetregset, "PTRACE_GETREGSET"); (PtraceSetregset, "PTRACE_SETREGSET");
    (PtraceSeize, "PTRACE_SEIZE"); (PtraceInterrupt, "PTRACE_INTERRUPT");
    (PtraceListen, "PTRACE_LISTEN") ].

Definition PtraceRequestName (req : Z) : string :=
  match assoc req ptraceRequestNames with
  | Some name => name
  | None => "PTRACE_UNKNOWN(" +:+ fmt_d req +:+ ")"
  end.

Definition isPtraceMemoryOp (req : Z) : bool :=
  (req =? PtracePeektext) || (req =? PtracePeekdata) || (req =? PtracePeekuser)
  || (req =? PtracePoketext) || (req =? PtracePokedata) || (req =? PtracePokeuser).

(** ** Address families and socket types *)

Definition AFUnix : Z := 1.
Definition AFInet : Z := 2.
Definition AFInet6 : Z := 10.
Definition AFNetlink : Z := 16.
Definition AFPacket : Z := 17.

Definition addressFamilyNames : list (Z * string) :=
  [ (0, "AF_UNSPEC"); (AFUnix, "AF_UNIX"); (AFInet, "AF_INET"); (AFInet6, "AF_INET6");
    (AFNetlink, "AF_NETLINK"); (AFPacket, "AF_PACKET") ].

Definition AddressFamilyName (f : Z) : string :=
  match assoc f addressFamilyNames with
  | Some name => name
  | None => "AF_UNKNOWN(" +:+ fmt_d f +:+ ")"
  end.

Definition sockStream : Z := 1.
Definition sockDgram : Z := 2.
Definition sockRaw : Z := 3.
Definition sockSeqpacket : Z := 5.
Definition sockNonblock : Z := Eval cbv in oct 4000.
Definition sockCloexec : Z := Eval cbv in oct 2000000.

Definition socketTypeName (base : Z) : string :=
  if base =? sockStream then "SOCK_STREAM"
  else if base =? sockDgram then "SOCK_DGRAM"
  else if base =? sockRaw then "SOCK_RAW"
  else if base =? sockSeqpacket then "SOCK_SEQPACKET"
  else "SOCK_UNKNOWN(" +:+ fmt_d base +:+ ")".

Definition formatSocketType (t : Z) : string :=
  let base := Z.ldiff t (Z.lor sockNonblock sockCloexec) in
  let parts := [socketTypeName base] in
  let parts := if Z.land t sockNonblock =? 0 then parts else parts ++ ["SOCK_NONBLOCK"] in
  let parts := if Z.land t sockCloexec =? 0 then parts else parts ++ ["SOCK_CLOEXEC"] in
  Join parts "|".

(** ** Descriptors, ids, addresses, errnos *)

Definition StdFdName (fd : Z) : string :=
  if fd =? 0 then "stdin" else if fd =? 1 then "stdout" else if fd =? 2 then "stderr" else "".

Definition formatStdFd (fd : Z) : string :=
  let name := StdFdName fd in
  if negb (name ==s "") then fmt_d fd +:+ " (" +:+ name +:+ ")" else fmt_d fd.

Definition formatID (id : Z) : string := if id =? -1 then "unchanged" else fmt_d id.

Definition formatIPv4 (addr : Z) : string :=
  fmt_d (Z.land addr 0xff) +:+ "." +:+
  fmt_d (Z.land (Z.shiftr addr 8) 0xff) +:+ "." +:+
  fmt_d (Z.land (Z.shiftr addr 16) 0xff) +:+ "." +:+
  fmt_d (Z.land (Z.shiftr addr 24) 0xff).

(** [v<<8 | v>>8] on a [uint16]: the left shift drops the high byte. *)
Definition ntohs (v : Z) : Z := Z.lor (u16 (Z.shiftl v 8)) (Z.shiftr v 8).

Definition errnoNames : list (Z * string) :=
  [ (1, "EPERM"); (2, "ENOENT"); (3, "ESRCH"); (4, "EINTR"); (5, "EIO"); (9, "EBADF");
    (11, "EAGAIN"); (12, "ENOMEM"); (13, "EACCES"); (14, "EFAULT"); (16, "EBUSY");
    (17, "EEXIST"); (20, "ENOTDIR"); (21, "EISDIR"); (22, "EINVAL"); (24, "EMFILE");
    (28, "ENOSPC"); (32, "EPIPE"); (38, "ENOSYS"); (40, "ELOOP"); (97, "EAFNOSUPPORT");
    (98, "EADDRINUSE"); (99, "EADDRNOTAVAIL"); (101, "ENETUNREACH"); (103, "ECONNABORTED");
    (104, "ECONNRESET"); (110, "ETIMEDOUT"); (111, "ECONNREFUSED"); (113, "EHOSTUNREACH");
    (114, "EALREADY"); (115, "EINPROGRESS") ].

Definition errnoName (errno : Z) : string :=
  match assoc errno errnoNames with
  | Some name => name
  | None => "errno " +:+ fmt_d errno
  end.

Example formatOpenFlags_ex : formatOpenFlags (oct 2000000) = "O_RDONLY|O_CLOEXEC".
Proof. reflexivity. Qed.
Example formatOpenFlags_tmpfile : formatOpenFlags (Z.lor oTmpfile 2) = "O_RDWR|O_TMPFILE".
Proof. reflexivity. Qed.
Example formatOpenFlags_unknown : formatOpenFlags 0x40000041 = "O_WRONLY|O_CREAT|0x40000000".
Proof. reflexivity. Qed.
Example formatIPv4_ex : formatIPv4 0x0100007f = "127.0.0.1".
Proof. reflexivity. Qed.
Example ntohs_ex : ntohs 0x5c11 = 4444.
Proof. reflexivity. Qed.

(** ** Lemmas: no bit is lost *)

(** What a rendered part stands for: the bits of a known name, or the number
    of a hexadecimal remainder. *)
Definition openFlagBits : list (string * Z) :=
  [ ("O_RDONLY", oRdonly); ("O_WRONLY", oWronly); ("O_RDWR", oRdwr);
    ("O_ACCMODE_INVALID", oAccmode); ("O_TMPFILE", oTmpfile) ]
  ++ map (fun e => (snd e, fst e)) openFlagNames.

Definition openFlagValue (p : string) : Z :=
  match assoc p openFlagBits with
  | Some b => b
  | None => digits_value 16 0 (sdrop 2 p)
  end.

Fixpoint partsValue (l : list string) : Z :=
  match l with [] => 0 | p :: l' => Z.lor (openFlagValue p) (partsValue l') end.

Lemma partsValue_app l1 l2 : partsValue (l1 ++ l2) = Z.lor (partsValue l1) (partsValue l2).
Proof. induction l1 as [|p l1 IH]; cbn; [done|]. rewrite IH. by rewrite Z.lor_assoc. Qed.

Lemma partsValue_snoc l p : partsValue (l ++ [p]) = Z.lor (partsValue l) (openFlagValue p).
Proof. rewrite partsValue_app. cbn. by rewrite Z.lor_0_r. Qed.

Lemma u64_lor a b : u64 (Z.lor a b) = Z.lor (u64 a) (u64 b).
Proof. unfold u64. rewrite <- !Z.land_ones by lia. apply Z.land_lor_distr_l. Qed.

Lemma u64_idem a : u64 (u64 a) = u64 a.
Proof. apply u64_small, u64_range. Qed.

Lemma land_ldiff_split r b : Z.lor (Z.land r b) (Z.ldiff r b) = r.
Proof.
  apply Z.bits_inj'; intros n Hn. rewrite Z.lor_spec, Z.land_spec, Z.ldiff_spec.
  by destruct (Z.testbit r n), (Z.testbit b n).
Qed.

Lemma lor_split_eq p v r b : Z.land r b = v -> Z.lor (Z.lor p v) (Z.ldiff r b) = Z.lor p r.
Proof. intros <-. by rewrite <- Z.lor_assoc, land_ldiff_split. Qed.

Lemma openFlagLoop_value names parts r parts' r' :
  Forall (fun e => openFlagValue (snd e) = fst e) names ->
  openFlagLoop names parts r = (parts', r') ->
  Z.lor (partsValue parts') r' = Z.lor (partsValue parts) r.
Proof.
  intros Hn. revert parts r; induction Hn as [|[b name] names Hb Hn IH]; intros parts r; cbn.
  - by intros [= -> ->].
  - cbn in Hb. case_match eqn:E; intros H; apply IH in H; [|done]. bool_prop.
    rewrite H, partsValue_snoc, Hb. by apply lor_split_eq.
Qed.

Lemma openFlagLoop_parts (P : string -> Prop) names parts r parts' r' :
  Forall (fun e => P (snd e)) names -> Forall P parts ->
  openFlagLoop names parts r = (parts', r') -> Forall P parts'.
Proof.
  intros Hn. revert parts r; induction Hn as [|[b name] names Hb Hn IH]; intros parts r Hp; cbn.
  - by intros [= -> ->].
  - case_match; apply IH; [|done]. apply Forall_app; auto.
Qed.

Lemma openFlagNames_values : Forall (fun e => openFlagValue (snd e) = fst e) openFlagNames.
Proof. by_compute. Qed.

Lemma accmodeName_value flags : openFlagValue (accmodeName flags) = Z.land flags oAccmode.
Proof.
  assert (0 <= Z.land flags oAccmode < 4) as Hr.
  { change oAccmode with (Z.ones 2). rewrite Z.land_ones by lia. by apply Z.mod_pos_bound. }
  unfold accmodeName. repeat case_match; bool_prop; unfold oRdonly, oWronly, oRdwr in *;
    rewrite ?H, ?H0, ?H1; try reflexivity.
  assert (Z.land flags oAccmode = 3) as -> by lia. reflexivity.
Qed.

Lemma hexPart_value r : openFlagValue ("0x" +:+ fmt_x (u64 r)) = u64 r.
Proof.
  unfold openFlagValue. destruct (assoc _ _) as [b|] eqn:E.
  - apply assoc_Some_elem in E.
    assert (Forall (fun e => HasPrefix (fst e) "0x" = false) openFlagBits) as H by by_compute.
    rewrite Forall_forall in H. apply H in E. cbn [fst] in E. by rewrite HasPrefix_app in E.
  - change (sdrop 2 ("0x" +:+ fmt_x (u64 r))) with (fmt_x (u64 r)).
    apply FormatUint_value; [lia|apply u64_range].
Qed.

Lemma openFlagParts_value flags : u64 (partsValue (openFlagParts flags)) = u64 flags.
Proof.
  unfold openFlagParts.
  destruct (if Z.land (Z.ldiff flags oAccmode) oTmpfile =? oTmpfile then _ else _) as [p1 r1] eqn:E1.
  destruct (openFlagLoop openFlagNames p1 r1) as [p2 r2] eqn:E2.
  assert (H1 : Z.lor (partsValue p1) r1 = flags).
  { assert (H0 : Z.lor (partsValue [accmodeName flags]) (Z.ldiff flags oAccmode) = flags).
    { cbn. rewrite Z.lor_0_r, accmodeName_value. apply land_ldiff_split. }
    case_match eqn:E; injection E1 as <- <-; [|done]. bool_prop.
    change [accmodeName flags; "O_TMPFILE"] with ([accmodeName flags] ++ ["O_TMPFILE"]).
    rewrite partsValue_snoc. etransitivity; [|exact H0]. by apply lor_split_eq. }
  apply openFlagLoop_value in E2; [|apply openFlagNames_values].
  rewrite <- H1, <- E2. clear E1. destruct (r2 =? 0) eqn:E; bool_prop.
  - by rewrite E, Z.lor_0_r.
  - rewrite partsValue_snoc, hexPart_value, !u64_lor. by rewrite u64_idem.
Qed.

Lemma openFlagParts_no_sep flags : Forall (no_byte "|") (openFlagParts flags).
Proof.
  unfold openFlagParts.
  destruct (if Z.land (Z.ldiff flags oAccmode) oTmpfile =? oTmpfile then _ else _) as [p1 r1] eqn:E1.
  destruct (openFlagLoop openFlagNames p1 r1) as [p2 r2] eqn:E2.
  assert (Forall (no_byte "|") p1) as H1.
  { assert (no_byte "|" (accmodeName flags)) by (unfold accmodeName; repeat case_match; done).
    case_match; injection E1 as <- <-; repeat constructor; done. }
  apply (openFlagLoop_parts (no_byte "|")) in E2; [|by repeat constructor|done].
  destruct (r2 =? 0); [done|]. apply Forall_app. split; [done|]. constructor; [|done].
  apply no_byte_app. split; [done|]. apply no_byte_digits; [done|]. apply FormatUint_digits; lia.
Qed.

Lemma openFlagParts_nonempty flags : openFlagParts flags <> [].
Proof.
  intros H. unfold openFlagParts in H.
  destruct (if Z.land (Z.ldiff flags oAccmode) oTmpfile =? oTmpfile then _ else _) as [p1 r1] eqn:E1.
  destruct (openFlagLoop openFlagNames p1 r1) as [p2 r2] eqn:E2.
  assert (p2 = []) as -> by (destruct (r2 =? 0); [done|]; by apply app_nil in H as [? ?]).
  assert (forall names p r p' r', openFlagLoop names p r = (p', r') -> p' = [] -> p = []) as Hl.
  { clear. intros names; induction names as [|[b n] names IH]; cbn; intros p r p' r'.
    - by intros [= -> ->].
    - case_match; intros H0 Hp; apply IH in H0; try done. by apply app_nil in H0 as [? ?]. }
  apply Hl in E2; [|done]. subst. by destruct (_ =? oTmpfile).
Qed.

(** ** Lemmas: names with a numeric fallback *)

Section named_fallback.
Context (table : list (Z * string)) (pre post : string).
Context (Hnames : NoDup table.*2).
Context (Hpre : Forall (fun e => HasPrefix (snd e) pre = false) table).

(** The name of [z], or its decimal rendering between [pre] and [post]. *)
Definition nameOr (z : Z) : string :=
  match assoc z table with Some name => name | None => pre +:+ fmt_d z +:+ post end.

Lemma nameOr_inj z1 z2 : is_i64 z1 -> is_i64 z2 -> nameOr z1 = nameOr z2 -> z1 = z2.
Proof using Hnames Hpre.
  rewrite Forall_forall in Hpre. unfold is_i64, nameOr; intros H1 H2.
  destruct (assoc z1 table) as [n1|] eqn:E1; destruct (assoc z2 table) as [n2|] eqn:E2; intros H.
  - subst. apply assoc_Some_elem in E1, E2. by eapply table_value_inj.
  - exfalso. apply assoc_Some_elem, Hpre in E1. cbn in E1. by rewrite H, HasPrefix_app in E1.
  - exfalso. apply assoc_Some_elem, Hpre in E2. cbn in E2. by rewrite <- H, HasPrefix_app in E2.
  - apply sapp_inj_l, sapp_inj_r in H. apply fmt_d_inj in H; lia.
Qed.
End named_fallback.

Lemma PtraceRequestName_inj r1 r2 :
  is_i64 r1 -> is_i64 r2 -> PtraceRequestName r1 = PtraceRequestName r2 -> r1 = r2.
Proof.
  apply (nameOr_inj ptraceRequestNames "PTRACE_UNKNOWN(" ")"); by_compute.
Qed.

Lemma AddressFamilyName_inj f1 f2 :
  is_i64 f1 -> is_i64 f2 -> AddressFamilyName f1 = AddressFamilyName f2 -> f1 = f2.
Proof. apply (nameOr_inj addressFamilyNames "AF_UNKNOWN(" ")"); by_compute. Qed.

Lemma errnoName_inj e1 e2 : is_i64 e1 -> is_i64 e2 -> errnoName e1 = errnoName e2 -> e1 = e2.
Proof.
  intros H1 H2 H. apply (nameOr_inj errnoNames "errno " "" ltac:(by_compute) ltac:(by_compute)); [done..|].
  unfold nameOr, errnoName in *. by rewrite !sapp_nil_r.
Qed.

Lemma formatID_inj i1 i2 : is_i64 i1 -> is_i64 i2 -> formatID i1 = formatID i2 -> i1 = i2.
Proof.
  assert (forall i, fmt_d i <> "unchanged") as Hu.
  { unfold fmt_d. intros i H. case_match; [done|]. pose proof (FormatUint_decimal i) as Hd. by rewrite H in Hd. }
  unfold is_i64, formatID. intros H1 H2 H. repeat case_match; bool_prop; subst; try done.
  - symmetry in H; by apply Hu in H.
  - by apply Hu in H.
  - apply fmt_d_inj in H; lia.
Qed.

Lemma StdFdName_std fd : StdFdName fd <> "" <-> fd = 0 \/ fd = 1 \/ fd = 2.
Proof. unfold StdFdName. repeat case_match; bool_prop; subst; split; try done; lia. Qed.

Lemma ntohs_swap v : is_u16 v -> ntohs v = 256 * (v mod 256) + v / 256.
Proof.
  unfold is_u16, ntohs, u16; intros Hv.
  rewrite Z.shiftl_mul_pow2, Z.shiftr_div_pow2 by lia. change (2 ^ 16) with (256 * 256). change (2 ^ 8) with 256 in *.
  rewrite Z.mul_mod_distr_r by lia.
  assert (0 <= v / 256 < 256) by (split; [apply Z.div_pos; lia|apply Z.div_lt_upper_bound; lia]).
  pose proof (Z.add_lor_land (v mod 256 * 256) (v / 256)) as Hl.
  enough (Z.land (v mod 256 * 256) (v / 256) = 0) by lia. clear Hl.
  apply Z.bits_inj'; intros n Hn. rewrite Z.land_spec, Z.bits_0.
  change 256 with (2 ^ 8) at 2. destruct (decide (n < 8)).
  - by rewrite Z.mul_pow2_bits_low.
  - rewrite (Z.bits_above_log2 (v / 256)); [by rewrite andb_false_r|lia|].
    destruct (decide (v / 256 = 0)) as [->|]; [cbn; lia|].
    apply Z.log2_lt_pow2; [lia|]. apply Z.lt_le_trans with 256; [lia|].
    change 256 with (2 ^ 8). apply Z.pow_le_mono_r; lia.
Qed.

Lemma ntohs_involutive v : is_u16 v -> ntohs (ntohs v) = v.
Proof.
  intros Hv. assert (Hs := ntohs_swap v Hv). unfold is_u16 in *.
  pose proof (Z.mod_pos_bound v 256 ltac:(lia)). pose proof (Z.div_mod v 256 ltac:(lia)).
  assert (0 <= v / 256 < 256) by (split; [apply Z.div_pos; lia|apply Z.div_lt_upper_bound; lia]).
  rewrite ntohs_swap, Hs by (unfold is_u16; lia).
  remember (256 * (v mod 256) + v / 256) as w eqn:Hw.
  rewrite <- (Z.mod_unique w 256 (v mod 256) (v / 256)), <- (Z.div_unique w 256 (v mod 256) (v / 256)) by lia.
  lia.
Qed.

(** The four octets of an address, as [formatIPv4] extracts them. *)
Definition octets (addr : Z) : list Z :=
  [Z.land addr 0xff; Z.land (Z.shiftr addr 8) 0xff; Z.land (Z.shiftr addr 16) 0xff; Z.land (Z.shiftr addr 24) 0xff].

Lemma formatIPv4_octets addr : formatIPv4 addr = Join (fmt_d <$> octets addr) ".".
Proof. done. Qed.

Lemma octets_inj a b : is_u32 a -> is_u32 b -> octets a = octets b -> a = b.
Proof.
  unfold is_u32, octets; intros Ha Hb [= H0 H1 H2 H3].
  change 255 with (Z.ones 8) in *. rewrite !Z.land_ones, ?Z.shiftr_div_pow2 in * by lia.
  change (2 ^ 8) with 256 in *. change (2 ^ 16) with (256 * 256) in *. change (2 ^ 24) with (256 * 256 * 256) in *.
  rewrite <- !Z.div_div in * by lia.
  rewrite (Z.mod_small (a / 256 / 256 / 256)), (Z.mod_small (b / 256 / 256 / 256)) in H3
    by (split; [repeat apply Z.div_pos; lia|repeat apply Z.div_lt_upper_bound; lia]).
  pose proof (Z.div_mod a 256 ltac:(lia)). pose proof (Z.div_mod b 256 ltac:(lia)).
  pose proof (Z.div_mod (a / 256) 256 ltac:(lia)). pose proof (Z.div_mod (b / 256) 256 ltac:(lia)).
  pose proof (Z.div_mod (a / 256 / 256) 256 ltac:(lia)). pose proof (Z.div_mod (b / 256 / 256) 256 ltac:(lia)).
  lia.
Qed.

Lemma fmt_d_no_byte c z : is_decimal c = false -> c <> "-"%char -> no_byte c (fmt_d z).
Proof.
  intros Hc Hm.
  assert (forall n, no_byte c (FormatUint n 10)) by (intros; apply no_byte_decimal; [done|apply FormatUint_decimal]).
  unfold fmt_d. case_match; [|done].
  change (String "-" ?x) with (str1 "-" +:+ x). apply no_byte_app. split; [|done].
  unfold no_byte, str1, all_bytes. rewrite andb_true_r. by apply negb_true_iff, Ascii.eqb_neq.
Qed.

Lemma octets_range addr : Forall (fun o => 0 <= o < 256) (octets addr).
Proof.
  unfold octets. change 255 with (Z.ones 8). rewrite !Z.land_ones by lia.
  repeat constructor; by apply Z.mod_pos_bound.
Qed.

Lemma formatIPv4_inj a b : is_u32 a -> is_u32 b -> formatIPv4 a = formatIPv4 b -> a = b.
Proof.
  intros Ha Hb H. rewrite !formatIPv4_octets in H.
  assert (forall x, Forall (no_byte ".") (fmt_d <$> octets x)) as Hn.
  { intros x. apply Forall_fmap, Forall_true. intros z. by apply fmt_d_no_byte. }
  apply (Join_inj ".") in H; [|done..].
  apply octets_inj; [done..|].
  assert (forall x, Forall (fun o => 0 <= o < 256) (octets x)) as Hr by (intros; apply octets_range).
  pose proof (Hr a) as Ra. pose proof (Hr b) as Rb. revert H Ra Rb.
  unfold octets. cbn [fmap list_fmap]. intros [= E0 E1 E2 E3] Ra Rb.
  rewrite !Forall_cons in Ra, Rb. destruct Ra as (? & ? & ? & ? & _), Rb as (? & ? & ? & ? & _).
  apply fmt_d_inj in E0, E1, E2, E3; [|lia..]. congruence.
Qed.

(** ** Properties *)

(** Rendering openat flags loses nothing.  Every bit of the 64-bit
    register is accounted for by some part of the rendered text (a named flag,
    the access mode, or the hexadecimal remainder), so two different flag words
    never print the same. *)
Theorem formatOpenFlags_lossless f1 f2 :
  is_i64 f1 -> is_i64 f2 ->
  u64 (partsValue (Split (formatOpenFlags f1) "|")) = u64 f1 /\
  (formatOpenFlags f1 = formatOpenFlags f2 -> f1 = f2).
Proof.
  assert (Hs : forall f, Split (formatOpenFlags f) "|" = openFlagParts f).
  { intros f. apply Split_Join; [apply openFlagParts_nonempty|apply openFlagParts_no_sep]. }
  intros H1 H2. rewrite Hs. split; [apply openFlagParts_value|].
  intros H. assert (u64 f1 = u64 f2) as Hu.
  { by rewrite <- (openFlagParts_value f1), <- (openFlagParts_value f2), <- !Hs, H. }
  unfold is_i64, u64 in *. rewrite (Z.mod_eq f1), (Z.mod_eq f2) in Hu by lia. lia.
Qed.

Lemma formatOpenFlags_lossless_witness :
  formatOpenFlags (-1) = "O_ACCMODE_INVALID|O_TMPFILE|O_CREAT|O_EXCL|O_TRUNC|O_APPEND|O_NOCTTY|O_NONBLOCK|O_DSYNC|O_DIRECT|O_LARGEFILE|O_NOFOLLOW|O_NOATIME|O_CLOEXEC|O_PATH|0xffffffffff90203c" /\
  u64 (partsValue (Split (formatOpenFlags (-1)) "|")) = u64 (-1).
Proof.
  split; [vm_compute; reflexivity|].
  apply (formatOpenFlags_lossless (-1) 0); unfold is_i64; lia.
Defined.
