(* ===== verification/Events.v ===== *)
(** * Raw records, events and decoding ([events/event.go])

    [Raw] is what the collector hands over, [Event] the interpreted
    observation every later stage works on, [Decode] the pure function between
    them.  Wall-clock instants ([time.Time]) are nanoseconds since the Unix
    epoch in [Z]; [Args] is a Go map from string to string. *)

From S2P Require Import Prelude GoStrings Syscalls Constants.

(** [type Raw struct] *)
Record Raw := mkRaw {
  raw_Timestamp : Z;
  raw_PID : Z;
  raw_TGID : Z;
  raw_UID : Z;
  raw_GID : Z;
  raw_PPID : Z;
  raw_SyscallID : Z;
  raw_Ret : Z;
  raw_Arg0 : Z;
  raw_Arg1 : Z;
  raw_Arg2 : Z;
  raw_Daddr : Z;
  raw_Dport : Z;
  raw_Family : Z;
  raw_Flags : Z;
  raw_Comm : string;
  raw_Path : string;
  raw_Argv : list string
}.

(** The widths of the struct's integer fields. *)
Record wf_raw (r : Raw) : Prop := {
  wf_raw_ts : is_u64 (raw_Timestamp r);
  wf_raw_pid : is_u32 (raw_PID r);
  wf_raw_tgid : is_u32 (raw_TGID r);
  wf_raw_uid : is_u32 (raw_UID r);
  wf_raw_gid : is_u32 (raw_GID r);
  wf_raw_ppid : is_u32 (raw_PPID r);
  wf_raw_sc : is_u32 (raw_SyscallID r);
  wf_raw_ret : is_i64 (raw_Ret r);
  wf_raw_arg0 : is_i64 (raw_Arg0 r);
  wf_raw_arg1 : is_i64 (raw_Arg1 r);
  wf_raw_arg2 : is_i64 (raw_Arg2 r);
  wf_raw_daddr : is_u32 (raw_Daddr r);
  wf_raw_dport : is_u16 (raw_Dport r);
  wf_raw_family : is_u16 (raw_Family r);
  wf_raw_flags : is_u32 (raw_Flags r)
}.

Definition FlagSysExit : Z := Z.shiftl 1 0.

(** [Raw.IsExit] *)
Definition Raw_IsExit (r : Raw) : bool := negb (Z.land (raw_Flags r) FlagSysExit =? 0).

(** [type Event struct] *)
Record Event := mkEvent {
  ev_Timestamp : Z;
  ev_Wall : Z;
  ev_PID : Z;
  ev_TID : Z;
  ev_TGID : Z;
  ev_UID : Z;
  ev_GID : Z;
  ev_PPID : Z;
  ev_Comm : string;
  ev_Syscall : string;
  ev_SyscallID : Z;
  ev_Args : gmap string string;
  ev_ReturnValue : Z;
  ev_IsExit : bool;
  ev_Arg0 : Z;
  ev_Arg1 : Z;
  ev_Arg2 : Z;
  ev_Path : string;
  ev_Argv : list string;
  ev_DestIP : string;
  ev_DestPort : Z;
  ev_Family : Z
}.

(** Field assignments on an event value: [ev.Args] as a whole, and the
    destination fields [decodeArgs] fills in. *)
Definition set_Args (ev : Event) (m : gmap string string) : Event :=
  mkEvent (ev_Timestamp ev) (ev_Wall ev) (ev_PID ev) (ev_TID ev) (ev_TGID ev) (ev_UID ev)
    (ev_GID ev) (ev_PPID ev) (ev_Comm ev) (ev_Syscall ev) (ev_SyscallID ev) m
    (ev_ReturnValue ev) (ev_IsExit ev) (ev_Arg0 ev) (ev_Arg1 ev) (ev_Arg2 ev) (ev_Path ev)
    (ev_Argv ev) (ev_DestIP ev) (ev_DestPort ev) (ev_Family ev).

Definition set_Dest (ev : Event) (ip : string) (port : Z) : Event :=
  mkEvent (ev_Timestamp ev) (ev_Wall ev) (ev_PID ev) (ev_TID ev) (ev_TGID ev) (ev_UID ev)
    (ev_GID ev) (ev_PPID ev) (ev_Comm ev) (ev_Syscall ev) (ev_SyscallID ev) (ev_Args ev)
    (ev_ReturnValue ev) (ev_IsExit ev) (ev_Arg0 ev) (ev_Arg1 ev) (ev_Arg2 ev) (ev_Path ev)
    (ev_Argv ev) ip port (ev_Family ev).

(** [ev.Args[k] = v] *)
Definition put_arg (k v : string) (ev : Event) : Event := set_Args ev (<[k := v]> (ev_Args ev)).

(** [decodeArgs]: the switch on the syscall, each case writing its keys in
    the order of the source. *)
Definition decodeArgs (ev : Event) (r : Raw) : Event :=
  let sc := ev_SyscallID ev in
  let put_argv ev :=
    if (0 <? length (raw_Argv r))%nat then put_arg "argv" (Join (raw_Argv r) " ") ev else ev in
  if sc =? SysExecve then
    put_argv (put_arg "path" (raw_Path r) ev)
  else if sc =? SysExecveat then
    let ev := put_arg "path" (raw_Path r) ev in
    let ev := put_arg "dfd" (formatDirfd (raw_Arg0 r)) ev in
    let ev := put_arg "flags" (formatExecveatFlags (raw_Arg1 r)) ev in
    put_argv ev
  else if sc =? SysOpenat then
    let ev := put_arg "path" (raw_Path r) ev in
    let ev := put_arg "dfd" (formatDirfd (raw_Arg0 r)) ev in
    let ev := put_arg "flags" (formatOpenFlags (raw_Arg1 r)) ev in
    if negb (Z.land (raw_Arg1 r) oCreat =? 0) || (Z.land (raw_Arg1 r) oTmpfile =? oTmpfile)
    then put_arg "mode" ("0" +:+ fmt_o (Z.land (raw_Arg2 r) (oct 7777))) ev
    else ev
  else if sc =? SysSetuid then put_arg "target_uid" (formatID (raw_Arg0 r)) ev
  else if sc =? SysSetgid then put_arg "target_gid" (formatID (raw_Arg0 r)) ev
  else if sc =? SysSetresuid then
    put_arg "suid" (formatID (raw_Arg2 r))
      (put_arg "euid" (formatID (raw_Arg1 r)) (put_arg "ruid" (formatID (raw_Arg0 r)) ev))
  else if sc =? SysSetresgid then
    put_arg "sgid" (formatID (raw_Arg2 r))
      (put_arg "egid" (formatID (raw_Arg1 r)) (put_arg "rgid" (formatID (raw_Arg0 r)) ev))
  else if sc =? SysPtrace then
    let ev := put_arg "request" (PtraceRequestName (raw_Arg0 r)) ev in
    let ev := put_arg "target_pid" (fmt_d (raw_Arg1 r)) ev in
    if isPtraceMemoryOp (raw_Arg0 r)
    then put_arg "addr" ("0x" +:+ fmt_x (u64 (raw_Arg2 r))) ev
    else ev
  else if sc =? SysSocket then
    let ev := put_arg "family" (AddressFamilyName (u16 (raw_Arg0 r))) ev in
    let ev := put_arg "type" (formatSocketType (raw_Arg1 r)) ev in
    put_arg "protocol" (fmt_d (raw_Arg2 r)) ev
  else if sc =? SysConnect then
    let ev := put_arg "fd" (fmt_d (raw_Arg0 r)) ev in
    let ev := put_arg "family" (AddressFamilyName (raw_Family r)) ev in
    let ev := set_Dest ev (ev_DestIP ev) (ntohs (raw_Dport r)) in
    let ev := if raw_Daddr r =? 0 then ev
              else set_Dest ev (formatIPv4 (raw_Daddr r)) (ev_DestPort ev) in
    if negb (ev_DestIP ev ==s "") then
      put_arg "dest" (ev_DestIP ev +:+ ":" +:+ fmt_d (ev_DestPort ev)) ev
    else if negb (ev_DestPort ev =? 0) then put_arg "dest_port" (fmt_d (ev_DestPort ev)) ev
    else ev
  else if sc =? SysDup2 then
    put_arg "newfd" (formatStdFd (raw_Arg1 r)) (put_arg "oldfd" (fmt_d (raw_Arg0 r)) ev)
  else if sc =? SysDup3 then
    let ev := put_arg "oldfd" (fmt_d (raw_Arg0 r)) ev in
    let ev := put_arg "newfd" (formatStdFd (raw_Arg1 r)) ev in
    if negb (raw_Arg2 r =? 0) then put_arg "flags" ("0x" +:+ fmt_x (u64 (raw_Arg2 r))) ev else ev
  else ev.

(** The composite literal at the top of [Decode].  [time.Duration(r.Timestamp)]
    reinterprets the [uint64] as an [int64]. *)
Definition decodeIdentity (r : Raw) (bootTime : Z) : Event := {|
  ev_Timestamp := raw_Timestamp r;
  ev_Wall := bootTime + i64 (raw_Timestamp r);
  ev_PID := raw_TGID r;
  ev_TID := raw_PID r;
  ev_TGID := raw_TGID r;
  ev_UID := raw_UID r;
  ev_GID := raw_GID r;
  ev_PPID := raw_PPID r;
  ev_Comm := raw_Comm r;
  ev_Syscall := Syscall_String (raw_SyscallID r);
  ev_SyscallID := raw_SyscallID r;
  ev_Args := ∅;
  ev_ReturnValue := raw_Ret r;
  ev_IsExit := Raw_IsExit r;
  ev_Arg0 := raw_Arg0 r;
  ev_Arg1 := raw_Arg1 r;
  ev_Arg2 := raw_Arg2 r;
  ev_Path := raw_Path r;
  ev_Argv := raw_Argv r;
  ev_DestIP := "";
  ev_DestPort := 0;
  ev_Family := raw_Family r
|}.

Definition Decode (r : Raw) (bootTime : Z) : Event :=
  let ev := decodeIdentity r bootTime in
  if ev_IsExit ev then
    let ev := put_arg "ret" (fmt_d (raw_Ret r)) ev in
    if raw_Ret r <? 0 then put_arg "error" (errnoName (i64 (- raw_Ret r))) ev else ev
  else decodeArgs ev r.

(** [Event.IsLoopback] *)
Definition Event_IsLoopback (ev : Event) : bool :=
  HasPrefix (ev_DestIP ev) "127." || (ev_DestIP ev ==s "::1").

(** ** Lemmas: what decoding leaves alone *)

(** Everything but the argument map and the destination fields. *)
Definition sans_args (ev : Event) : Event := set_Dest (set_Args ev ∅) "" 0.

Lemma sans_args_put_arg k v ev : sans_args (put_arg k v ev) = sans_args ev.
Proof. done. Qed.

Lemma sans_args_set_Dest ev ip port : sans_args (set_Dest ev ip port) = sans_args ev.
Proof. done. Qed.

Lemma decodeArgs_frame ev r : sans_args (decodeArgs ev r) = sans_args ev.
Proof.
  unfold decodeArgs.
  repeat match goal with |- context [if ?b then _ else _] => destruct b end; done.
Qed.

Lemma Decode_frame r boot : sans_args (Decode r boot) = sans_args (decodeIdentity r boot).
Proof.
  unfold Decode. destruct (ev_IsExit _).
  - by destruct (raw_Ret r <? 0).
  - apply decodeArgs_frame.
Qed.

(** ** Lemmas: the decoded text determines the registers *)

Lemma Cut_before_no_byte c s : no_byte c s -> Cut_before s c = s.
Proof.
  unfold no_byte. induction s as [|a s IH]; cbn; [done|].
  destruct (Ascii.eqb a c); cbn; [done|]. intros ?. by rewrite IH.
Qed.

Lemma Cut_before_app c s t : no_byte c s -> Cut_before (s +:+ String c t) c = s.
Proof.
  unfold no_byte. induction s as [|a s IH]; cbn; [by rewrite Ascii.eqb_refl|].
  destruct (Ascii.eqb a c); cbn; [done|]. intros ?. by rewrite IH.
Qed.

Lemma fmt_d_inj_i64 n m : is_i64 n -> is_i64 m -> fmt_d n = fmt_d m -> n = m.
Proof. unfold is_i64; intros; apply fmt_d_inj; lia || done. Qed.

Lemma formatDirfd_inj a b : is_i64 a -> is_i64 b -> formatDirfd a = formatDirfd b -> a = b.
Proof.
  assert (forall i, fmt_d i <> "AT_FDCWD") as Hu.
  { unfold fmt_d. intros i H. case_match; [done|]. pose proof (FormatUint_decimal i) as Hd. by rewrite H in Hd. }
  unfold formatDirfd. intros Ha Hb H. repeat case_match; bool_prop; subst; try done.
  - symmetry in H; by apply Hu in H.
  - by apply Hu in H.
  - by apply fmt_d_inj_i64.
Qed.

Lemma formatStdFd_cut fd : Cut_before (formatStdFd fd) " " = fmt_d fd.
Proof.
  assert (no_byte " " (fmt_d fd)) by (by apply fmt_d_no_byte).
  unfold formatStdFd. case_match; [|by apply Cut_before_no_byte].
  change (" (" +:+ ?x) with (String " " ("(" +:+ x)). by apply Cut_before_app.
Qed.

Lemma formatStdFd_inj a b : is_i64 a -> is_i64 b -> formatStdFd a = formatStdFd b -> a = b.
Proof. intros Ha Hb H. apply fmt_d_inj_i64; [done..|]. by rewrite <- !formatStdFd_cut, H. Qed.

Lemma formatOpenFlags_inj f1 f2 :
  is_i64 f1 -> is_i64 f2 -> formatOpenFlags f1 = formatOpenFlags f2 -> f1 = f2.
Proof.
  intros H1 H2 H. unfold formatOpenFlags in H.
  apply (Join_inj "|") in H; [|by auto using openFlagParts_nonempty, openFlagParts_no_sep..].
  assert (u64 f1 = u64 f2) as Hu.
  { by rewrite <- (openFlagParts_value f1), <- (openFlagParts_value f2), H. }
  unfold is_i64, u64 in *. rewrite (Z.mod_eq f1), (Z.mod_eq f2) in Hu by lia. lia.
Qed.

Lemma u64_inj_i64 a b : is_i64 a -> is_i64 b -> u64 a = u64 b -> a = b.
Proof. unfold is_i64, u64. intros ? ? H. rewrite (Z.mod_eq a), (Z.mod_eq b) in H by lia. lia. Qed.

Lemma formatIPv4_no_colon a : no_byte ":" (formatIPv4 a).
Proof.
  unfold formatIPv4. rewrite !no_byte_app.
  split_and!; try done; by apply fmt_d_no_byte.
Qed.

Lemma formatIPv4_ne a : formatIPv4 a <> "".
Proof.
  unfold formatIPv4. intros H. apply (f_equal String.length) in H.
  rewrite !sapp_length in H. cbn in H. lia.
Qed.

Lemma dest_inj a1 p1 a2 p2 :
  is_u32 a1 -> is_u32 a2 -> is_u16 p1 -> is_u16 p2 ->
  formatIPv4 a1 +:+ ":" +:+ fmt_d p1 = formatIPv4 a2 +:+ ":" +:+ fmt_d p2 -> a1 = a2 /\ p1 = p2.
Proof.
  unfold is_u32, is_u16; intros Ha1 Ha2 Hp1 Hp2 H.
  assert (Hc : formatIPv4 a1 = formatIPv4 a2).
  { pose proof (f_equal (fun s => Cut_before s ":") H) as H0. cbn beta in H0.
    change (":" +:+ fmt_d p1) with (String ":" (fmt_d p1)) in H0.
    change (":" +:+ fmt_d p2) with (String ":" (fmt_d p2)) in H0.
    by rewrite !Cut_before_app in H0 by apply formatIPv4_no_colon. }
  split; [by apply formatIPv4_inj in Hc|].
  rewrite Hc in H. apply sapp_inj_l, (sapp_inj_l ":") in H. apply fmt_d_inj in H; lia.
Qed.

(** The fields of a raw entry record that its argument map must determine. *)
Definition rule_inputs (r : Raw) : string * list Z :=
  let sc := raw_SyscallID r in
  if sc =? SysExecve then (raw_Path r, [])
  else if sc =? SysExecveat then (raw_Path r, [raw_Arg0 r])
  else if sc =? SysOpenat then (raw_Path r, [raw_Arg0 r; raw_Arg1 r])
  else if (sc =? SysSetuid) || (sc =? SysSetgid) then ("", [raw_Arg0 r])
  else if (sc =? SysSetresuid) || (sc =? SysSetresgid) then
    ("", [raw_Arg0 r; raw_Arg1 r; raw_Arg2 r])
  else if sc =? SysPtrace then ("", [raw_Arg0 r; raw_Arg1 r])
  else if sc =? SysSocket then ("", [u16 (raw_Arg0 r); raw_Arg2 r])
  else if sc =? SysConnect then
    ("", raw_Arg0 r :: raw_Family r :: if raw_Daddr r =? 0 then [] else [raw_Daddr r; raw_Dport r])
  else if sc =? SysDup2 then ("", [raw_Arg0 r; raw_Arg1 r])
  else if sc =? SysDup3 then ("", [raw_Arg0 r; raw_Arg1 r; raw_Arg2 r])
  else ("", []).

Definition arg (k : string) (ev : Event) : option string := ev_Args ev !! k.

Lemma arg_put_eq k v ev : arg k (put_arg k v ev) = Some v.
Proof. apply lookup_insert_eq. Qed.

Lemma arg_put_ne k k' v ev : k' <> k -> arg k (put_arg k' v ev) = arg k ev.
Proof. apply lookup_insert_ne. Qed.

Lemma arg_set_Dest k ev ip port : arg k (set_Dest ev ip port) = arg k ev.
Proof. done. Qed.

Lemma arg_identity k r boot : arg k (decodeIdentity r boot) = None.
Proof. apply lookup_empty. Qed.

Lemma arg_if k (b : bool) ev1 ev2 : arg k (if b then ev1 else ev2) = if b then arg k ev1 else arg k ev2.
Proof. by destruct b. Qed.

Lemma if_same {A} (b : bool) (x : A) : (if b then x else x) = x.
Proof. by destruct b. Qed.

(** Evaluates the lookup of one key in a decoded event. *)
Ltac eval_arg H :=
  repeat first
    [ rewrite arg_put_eq in H
    | rewrite arg_put_ne in H by discriminate
    | rewrite arg_set_Dest in H
    | rewrite arg_if in H
    | rewrite arg_identity in H
    | rewrite if_same in H ];
  try (injection H as H).

Lemma ev_SyscallID_identity r boot : ev_SyscallID (decodeIdentity r boot) = raw_SyscallID r.
Proof. done. Qed.

(** Evaluates [decodeArgs] at a known syscall in [H]. *)
Ltac eval_decode H S1 S2 :=
  unfold decodeArgs in H; rewrite !ev_SyscallID_identity, S1, S2 in H;
  unfold SysExecve, SysExecveat, SysOpenat, SysSetuid, SysSetgid, SysSetresuid, SysSetresgid,
    SysPtrace, SysSocket, SysConnect, SysDup2, SysDup3 in H;
  cbn [Z.eqb Pos.eqb] in H; cbv zeta in H.

#[local] Opaque put_arg set_Dest arg decodeIdentity.

Section args_determine.
Context (r1 r2 : Raw) (b1 b2 : Z).
Context (W1 : wf_raw r1) (W2 : wf_raw r2).
Context (H : forall k, arg k (decodeArgs (decodeIdentity r1 b1) r1)
                     = arg k (decodeArgs (decodeIdentity r2 b2) r2)).

Lemma determine_exec sc :
  sc = SysExecve -> raw_SyscallID r1 = sc -> raw_SyscallID r2 = sc -> raw_Path r1 = raw_Path r2.
Proof using H.
  intros -> S1 S2. pose proof (H "path") as Hp. eval_decode Hp S1 S2. by eval_arg Hp.
Qed.

Lemma determine_execveat :
  raw_SyscallID r1 = SysExecveat -> raw_SyscallID r2 = SysExecveat ->
  raw_Path r1 = raw_Path r2 /\ raw_Arg0 r1 = raw_Arg0 r2.
Proof using H W1 W2.
  destruct W1, W2. intros S1 S2. split.
  - pose proof (H "path") as Hp. eval_decode Hp S1 S2. by eval_arg Hp.
  - pose proof (H "dfd") as Hp. eval_decode Hp S1 S2. eval_arg Hp. apply formatDirfd_inj; assumption.
Qed.

Lemma determine_openat :
  raw_SyscallID r1 = SysOpenat -> raw_SyscallID r2 = SysOpenat ->
  raw_Path r1 = raw_Path r2 /\ raw_Arg0 r1 = raw_Arg0 r2 /\ raw_Arg1 r1 = raw_Arg1 r2.
Proof using H W1 W2.
  destruct W1, W2. intros S1 S2. split_and!.
  - pose proof (H "path") as Hp. eval_decode Hp S1 S2. by eval_arg Hp.
  - pose proof (H "dfd") as Hp. eval_decode Hp S1 S2. eval_arg Hp. apply formatDirfd_inj; assumption.
  - pose proof (H "flags") as Hp. eval_decode Hp S1 S2. eval_arg Hp. apply formatOpenFlags_inj; assumption.
Qed.

Lemma determine_setid sc k :
  (sc = SysSetuid /\ k = "target_uid") \/ (sc = SysSetgid /\ k = "target_gid") ->
  raw_SyscallID r1 = sc -> raw_SyscallID r2 = sc -> raw_Arg0 r1 = raw_Arg0 r2.
Proof using H W1 W2.
  destruct W1, W2. intros [[-> ->]|[-> ->]] S1 S2;
    [pose proof (H "target_uid") as Hp|pose proof (H "target_gid") as Hp];
    eval_decode Hp S1 S2; eval_arg Hp; apply formatID_inj; assumption.
Qed.

Lemma determine_setres sc :
  sc = SysSetresuid \/ sc = SysSetresgid -> raw_SyscallID r1 = sc -> raw_SyscallID r2 = sc ->
  raw_Arg0 r1 = raw_Arg0 r2 /\ raw_Arg1 r1 = raw_Arg1 r2 /\ raw_Arg2 r1 = raw_Arg2 r2.
Proof using H W1 W2.
  destruct W1, W2. intros [-> | ->] S1 S2.
  - pose proof (H "ruid") as Hp0; pose proof (H "euid") as Hp1; pose proof (H "suid") as Hp2.
    eval_decode Hp0 S1 S2; eval_decode Hp1 S1 S2; eval_decode Hp2 S1 S2.
    eval_arg Hp0; eval_arg Hp1; eval_arg Hp2. split_and!; apply formatID_inj; assumption.
  - pose proof (H "rgid") as Hp0; pose proof (H "egid") as Hp1; pose proof (H "sgid") as Hp2.
    eval_decode Hp0 S1 S2; eval_decode Hp1 S1 S2; eval_decode Hp2 S1 S2.
    eval_arg Hp0; eval_arg Hp1; eval_arg Hp2. split_and!; apply formatID_inj; assumption.
Qed.

Lemma determine_ptrace :
  raw_SyscallID r1 = SysPtrace -> raw_SyscallID r2 = SysPtrace ->
  raw_Arg0 r1 = raw_Arg0 r2 /\ raw_Arg1 r1 = raw_Arg1 r2.
Proof using H W1 W2.
  destruct W1, W2. intros S1 S2. split.
  - pose proof (H "request") as Hp. eval_decode Hp S1 S2. eval_arg Hp. apply PtraceRequestName_inj; assumption.
  - pose proof (H "target_pid") as Hp. eval_decode Hp S1 S2. eval_arg Hp. apply fmt_d_inj_i64; assumption.
Qed.

Lemma determine_socket :
  raw_SyscallID r1 = SysSocket -> raw_SyscallID r2 = SysSocket ->
  u16 (raw_Arg0 r1) = u16 (raw_Arg0 r2) /\ raw_Arg2 r1 = raw_Arg2 r2.
Proof using H W1 W2.
  assert (forall z, is_i64 (u16 z)) as Hu.
  { intros z. unfold is_i64, u16. pose proof (Z.mod_pos_bound z (2 ^ 16) ltac:(lia)). lia. }
  destruct W1, W2. intros S1 S2. split.
  - pose proof (H "family") as Hp. eval_decode Hp S1 S2. eval_arg Hp. apply AddressFamilyName_inj; auto.
  - pose proof (H "protocol") as Hp. eval_decode Hp S1 S2. eval_arg Hp. apply fmt_d_inj_i64; assumption.
Qed.

Lemma determine_dup sc :
  sc = SysDup2 \/ sc = SysDup3 -> raw_SyscallID r1 = sc -> raw_SyscallID r2 = sc ->
  raw_Arg0 r1 = raw_Arg0 r2 /\ raw_Arg1 r1 = raw_Arg1 r2.
Proof using H W1 W2.
  destruct W1, W2. intros [-> | ->] S1 S2;
    pose proof (H "oldfd") as Hp0; pose proof (H "newfd") as Hp1;
    eval_decode Hp0 S1 S2; eval_decode Hp1 S1 S2; eval_arg Hp0; eval_arg Hp1;
    (split; [apply fmt_d_inj_i64; assumption|apply formatStdFd_inj; assumption]).
Qed.

Lemma determine_dup3_flags :
  raw_SyscallID r1 = SysDup3 -> raw_SyscallID r2 = SysDup3 -> raw_Arg2 r1 = raw_Arg2 r2.
Proof using H W1 W2.
  destruct W1, W2. intros S1 S2. pose proof (H "flags") as Hp. eval_decode Hp S1 S2. eval_arg Hp.
  destruct (Z.eqb_spec (raw_Arg2 r1) 0) as [E1|E1], (Z.eqb_spec (raw_Arg2 r2) 0) as [E2|E2];
    cbn [negb] in Hp; [congruence|discriminate..|].
  injection Hp as Hp. apply FormatUint_inj in Hp; [|lia|apply u64_range..]. apply u64_inj_i64; assumption.
Qed.
End args_determine.

#[local] Transparent put_arg set_Dest arg decodeIdentity.

(** The rendered destination of a connect entry. *)
Definition connect_dest (r : Raw) : option string :=
  if raw_Daddr r =? 0 then None
  else Some (formatIPv4 (raw_Daddr r) +:+ ":" +:+ fmt_d (ntohs (raw_Dport r))).

(** The three keys of a connect entry that carry registers. *)
Definition connect_event (r : Raw) (boot : Z) : Event :=
  let ev := put_arg "family" (AddressFamilyName (raw_Family r))
              (put_arg "fd" (fmt_d (raw_Arg0 r)) (decodeIdentity r boot)) in
  match connect_dest r with
  | Some d => put_arg "dest" d (set_Dest ev (formatIPv4 (raw_Daddr r)) (ntohs (raw_Dport r)))
  | None =>
      let ev := set_Dest ev "" (ntohs (raw_Dport r)) in
      if ntohs (raw_Dport r) =? 0 then ev
      else put_arg "dest_port" (fmt_d (ntohs (raw_Dport r))) ev
  end.

Lemma decodeArgs_connect r boot :
  raw_SyscallID r = SysConnect -> decodeArgs (decodeIdentity r boot) r = connect_event r boot.
Proof.
  intros S1. unfold decodeArgs, connect_event, connect_dest. rewrite ev_SyscallID_identity, S1.
  unfold SysExecve, SysExecveat, SysOpenat, SysSetuid, SysSetgid, SysSetresuid, SysSetresgid,
    SysPtrace, SysSocket, SysConnect. cbn [Z.eqb Pos.eqb]. cbv zeta.
  destruct (raw_Daddr r =? 0).
  - cbn [set_Dest put_arg set_Args decodeIdentity ev_DestIP ev_DestPort String.eqb negb].
    by destruct (ntohs (raw_Dport r) =? 0).
  - cbn [set_Dest put_arg set_Args decodeIdentity ev_DestIP ev_DestPort].
    destruct (String.eqb_spec (formatIPv4 (raw_Daddr r)) "") as [E|E]; [by apply formatIPv4_ne in E|].
    reflexivity.
Qed.

#[local] Opaque put_arg set_Dest arg decodeIdentity.

Lemma arg_connect r boot :
  arg "fd" (connect_event r boot) = Some (fmt_d (raw_Arg0 r)) /\
  arg "family" (connect_event r boot) = Some (AddressFamilyName (raw_Family r)) /\
  arg "dest" (connect_event r boot) = connect_dest r.
Proof.
  unfold connect_event. destruct (connect_dest r) as [d|].
  - rewrite !(arg_put_ne _ "dest"), !arg_set_Dest, arg_put_eq by discriminate.
    rewrite !(arg_put_ne _ "family"), !arg_put_eq by discriminate. auto.
  - cbv zeta. rewrite !arg_if, !(arg_put_ne _ "dest_port"), !if_same, !arg_set_Dest, arg_put_eq by discriminate.
    rewrite !(arg_put_ne _ "family"), !arg_put_eq, !(arg_put_ne _ "fd"), arg_identity by discriminate. auto.
Qed.

#[local] Transparent put_arg set_Dest arg decodeIdentity.

Lemma ntohs_range v : is_u16 v -> is_u16 (ntohs v).
Proof.
  intros Hv. rewrite ntohs_swap by done. unfold is_u16 in *.
  pose proof (Z.mod_pos_bound v 256 ltac:(lia)).
  assert (0 <= v / 256 < 256) by (split; [apply Z.div_pos; lia|apply Z.div_lt_upper_bound; lia]). lia.
Qed.

Lemma connect_dest_inj r1 r2 :
  wf_raw r1 -> wf_raw r2 -> connect_dest r1 = connect_dest r2 ->
  (if raw_Daddr r1 =? 0 then [] else [raw_Daddr r1; raw_Dport r1]) =
  (if raw_Daddr r2 =? 0 then [] else [raw_Daddr r2; raw_Dport r2]).
Proof.
  intros [] []. unfold connect_dest.
  destruct (raw_Daddr r1 =? 0), (raw_Daddr r2 =? 0); [done|discriminate..|].
  intros [= H]. apply dest_inj in H as [-> Hp]; [|auto using ntohs_range..].
  apply (f_equal ntohs) in Hp. rewrite !ntohs_involutive in Hp by assumption. by rewrite Hp.
Qed.

Lemma determine_connect r1 r2 b1 b2 :
  wf_raw r1 -> wf_raw r2 ->
  (forall k, arg k (decodeArgs (decodeIdentity r1 b1) r1) = arg k (decodeArgs (decodeIdentity r2 b2) r2)) ->
  raw_SyscallID r1 = SysConnect -> raw_SyscallID r2 = SysConnect ->
  raw_Arg0 r1 = raw_Arg0 r2 /\ raw_Family r1 = raw_Family r2 /\
  (if raw_Daddr r1 =? 0 then [] else [raw_Daddr r1; raw_Dport r1]) =
  (if raw_Daddr r2 =? 0 then [] else [raw_Daddr r2; raw_Dport r2]).
Proof.
  intros W1 W2 H S1 S2.
  pose proof (arg_connect r1 b1) as (F1 & A1 & D1). pose proof (arg_connect r2 b2) as (F2 & A2 & D2).
  rewrite <- !decodeArgs_connect in F1, A1, D1, F2, A2, D2 by assumption.
  pose proof (wf_raw_family _ W1). pose proof (wf_raw_family _ W2).
  split_and!.
  - rewrite H, F2 in F1. injection F1 as F1. symmetry.
    apply fmt_d_inj_i64; [apply W2|apply W1|assumption].
  - rewrite H, A2 in A1. injection A1 as A1. symmetry.
    apply AddressFamilyName_inj; [unfold is_u16, is_i64 in *; lia..|assumption].
  - apply connect_dest_inj; [assumption..|]. congruence.
Qed.

(** The keys [decodeArgs] can write. *)
Definition decodeKeys : list string :=
  ["path"; "argv"; "dfd"; "flags"; "mode"; "target_uid"; "target_gid"; "ruid"; "euid"; "suid";
   "rgid"; "egid"; "sgid"; "request"; "target_pid"; "addr"; "family"; "type"; "protocol"; "fd";
   "dest"; "dest_port"; "oldfd"; "newfd"].

Lemma arg_put_out k k' v ev : k' ∈ decodeKeys -> k ∉ decodeKeys -> arg k (put_arg k' v ev) = arg k ev.
Proof. intros Hin Hout. apply arg_put_ne. by intros ->. Qed.

Lemma decodeArgs_no_key k r boot :
  k ∉ decodeKeys -> arg k (decodeArgs (decodeIdentity r boot) r) = None.
Proof.
  intros Hk. destruct (decide (raw_SyscallID r = SysConnect)) as [e|ne].
  - rewrite decodeArgs_connect by done. unfold connect_event.
    destruct (connect_dest r); [|cbv zeta; rewrite arg_if];
      rewrite ?arg_put_out, ?arg_set_Dest, ?arg_put_out, arg_identity, ?if_same
        by (assumption || by_compute); done.
  - unfold decodeArgs. rewrite ev_SyscallID_identity. cbv zeta.
    repeat match goal with |- context [if raw_SyscallID r =? ?y then _ else _] =>
      destruct (Z.eqb_spec (raw_SyscallID r) y) as [e|_]; [try done|] end;
    repeat rewrite ?arg_if, ?arg_put_out, ?arg_identity, ?if_same
      by (assumption || by_compute); done.
Qed.

(** ** Properties *)

(** C40: the argument text of a decoded syscall entry determines the registers
    it came from.  Two well-formed raw entry records of the same syscall whose
    decoded [Args] agree have the same path, ids, ptrace request and target,
    descriptors, open flags, and (where an address was parsed) the same
    destination: the presentation strings are a faithful image of what the
    kernel reported. *)
Theorem Decode_args_determine r1 r2 b1 b2 :
  wf_raw r1 -> wf_raw r2 ->
  Raw_IsExit r1 = false -> Raw_IsExit r2 = false ->
  raw_SyscallID r1 = raw_SyscallID r2 ->
  ev_Args (Decode r1 b1) = ev_Args (Decode r2 b2) ->
  rule_inputs r1 = rule_inputs r2.
Proof.
  intros W1 W2 E1 E2 S H. unfold Decode in H. cbn [decodeIdentity ev_IsExit] in H. rewrite E1, E2 in H.
  assert (Hk : forall k, arg k (decodeArgs (decodeIdentity r1 b1) r1) = arg k (decodeArgs (decodeIdentity r2 b2) r2)).
  { intros k. unfold arg. by rewrite H. }
  clear H E1 E2. unfold rule_inputs. rewrite <- S.
  destruct (Z.eqb_spec (raw_SyscallID r1) SysExecve) as [e|_].
  { f_equal. eapply determine_exec; [exact Hk|done|done|congruence]. }
  destruct (Z.eqb_spec (raw_SyscallID r1) SysExecveat) as [e|_].
  { destruct (determine_execveat _ _ _ _ W1 W2 Hk) as (-> & ->); congruence. }
  destruct (Z.eqb_spec (raw_SyscallID r1) SysOpenat) as [e|_].
  { destruct (determine_openat _ _ _ _ W1 W2 Hk) as (-> & -> & ->); congruence. }
  destruct (Z.eqb_spec (raw_SyscallID r1) SysSetuid) as [e|_]; cbn [orb].
  { do 2 f_equal. eapply (determine_setid _ _ _ _ W1 W2 Hk SysSetuid); [eauto|congruence..]. }
  destruct (Z.eqb_spec (raw_SyscallID r1) SysSetgid) as [e|_].
  { do 2 f_equal. eapply (determine_setid _ _ _ _ W1 W2 Hk SysSetgid); [eauto|congruence..]. }
  destruct (Z.eqb_spec (raw_SyscallID r1) SysSetresuid) as [e|_]; cbn [orb].
  { destruct (determine_setres _ _ _ _ W1 W2 Hk SysSetresuid) as (-> & -> & ->); auto; congruence. }
  destruct (Z.eqb_spec (raw_SyscallID r1) SysSetresgid) as [e|_].
  { destruct (determine_setres _ _ _ _ W1 W2 Hk SysSetresgid) as (-> & -> & ->); auto; congruence. }
  destruct (Z.eqb_spec (raw_SyscallID r1) SysPtrace) as [e|_].
  { destruct (determine_ptrace _ _ _ _ W1 W2 Hk) as (-> & ->); congruence. }
  destruct (Z.eqb_spec (raw_SyscallID r1) SysSocket) as [e|_].
  { destruct (determine_socket _ _ _ _ W1 W2 Hk) as (-> & ->); congruence. }
  destruct (Z.eqb_spec (raw_SyscallID r1) SysConnect) as [e|_].
  { destruct (determine_connect _ _ _ _ W1 W2 Hk) as (-> & -> & ->); congruence. }
  destruct (Z.eqb_spec (raw_SyscallID r1) SysDup2) as [e|_].
  { destruct (determine_dup _ _ _ _ W1 W2 Hk SysDup2) as (-> & ->); auto; congruence. }
  destruct (Z.eqb_spec (raw_SyscallID r1) SysDup3) as [e|_]; [|done].
  destruct (determine_dup _ _ _ _ W1 W2 Hk SysDup3) as (-> & ->); [auto|congruence..|].
  rewrite (determine_dup3_flags _ _ _ _ W1 W2 Hk); congruence.
Qed.

(** A connect to 127.0.0.1:4444, and the same call to 10.13.37.9:4444. *)
Definition example_connect (daddr : Z) : Raw :=
  mkRaw 1000 42 42 1000 1000 7 SysConnect 0 3 16 0 daddr 0x5c11 AFInet 0 "nc" "" [].

Lemma Decode_args_determine_witness :
  ev_Args (Decode (example_connect 0x0100007f) 0) =
    {[ "fd" := "3"; "family" := "AF_INET"; "dest" := "127.0.0.1:4444" ]} /\
  (ev_Args (Decode (example_connect 0x0100007f) 0) = ev_Args (Decode (example_connect 0x0100007f) 5) ->
   rule_inputs (example_connect 0x0100007f) = rule_inputs (example_connect 0x0100007f)).
Proof.
  split; [vm_compute; reflexivity|]. intros H.
  assert (wf_raw (example_connect 0x0100007f))
    by (split; unfold example_connect, is_u16, is_u32, is_u64, is_i64, SysConnect, AFInet; cbn; lia).
  apply (Decode_args_determine _ _ 0 5); [assumption|assumption|reflexivity|reflexivity|reflexivity|exact H].
Defined.

(** A return probe carries no arguments.  For a record from a sys_exit
    probe, [Decode] fills in the identity fields, leaves the destination empty,
    and the argument map holds exactly ["ret"], plus ["error"] naming [-ret]
    when (and only when) the call failed; for an entry record neither key is
    ever present. *)
Theorem Decode_exit r boot :
  if Raw_IsExit r then
    Decode r boot = set_Args (decodeIdentity r boot)
      (if raw_Ret r <? 0
       then {[ "error" := errnoName (i64 (- raw_Ret r)); "ret" := fmt_d (raw_Ret r) ]}
       else {[ "ret" := fmt_d (raw_Ret r) ]})
  else ev_Args (Decode r boot) !! "ret" = None /\ ev_Args (Decode r boot) !! "error" = None.
Proof.
  unfold Decode. cbn [decodeIdentity ev_IsExit]. destruct (Raw_IsExit r).
  - by destruct (raw_Ret r <? 0).
  - split; apply (decodeArgs_no_key _ r boot); by_compute.
Qed.
