(* ===== verification/Alerts.v ===== *)
(** * Alerts ([detect/alert.go])

    Severities, ATT&CK techniques, the alert record and its constructor.

    An alert built by a rule does not own its argument map: [newAlert] stores
    the event's own map, which later rules evaluating the same event go on
    writing to.  [args_ref] keeps that aliasing: [EventArgs] is the map object
    of the event under evaluation, [OwnArgs m] a map nobody else holds. *)

From S2P Require Import Prelude GoStrings Events.

(** ** Severity *)

(** [type Severity int] *)
Abbreviation Severity := Z (only parsing).

Definition SeverityLow : Severity := 0.
Definition SeverityMedium : Severity := 1.
Definition SeverityHigh : Severity := 2.
Definition SeverityCritical : Severity := 3.

Definition severityNames : list (Severity * string) :=
  [ (SeverityLow, "LOW"); (SeverityMedium, "MEDIUM"); (SeverityHigh, "HIGH");
    (SeverityCritical, "CRITICAL") ].

Definition Severity_String (s : Severity) : string :=
  match assoc s severityNames with Some name => name | None => "UNKNOWN" end.

(** [MarshalText]; its error result is always nil. *)
Definition Severity_MarshalText (s : Severity) : string := Severity_String s.

(** [ParseSeverity] ranges over the map in the order [order]. *)
Definition ParseSeverity_in (order : list (Severity * string)) (s : string) : Severity * bool :=
  match find_first (fun e => snd e ==s s) order with
  | Some (sev, _) => (sev, true)
  | None => (SeverityLow, false)
  end.
Definition ParseSeverity (s : string) : Severity * bool := ParseSeverity_in severityNames s.

(** ** Techniques *)

Record Technique := mkTechnique { tech_ID : string; tech_Name : string }.

Definition TechAbuseElevation := mkTechnique "T1548" "Abuse Elevation Control Mechanism".
Definition TechSetuidSetgid := mkTechnique "T1548.001" "Abuse Elevation Control Mechanism: Setuid and Setgid".
Definition TechExploitPrivEsc := mkTechnique "T1068" "Exploitation for Privilege Escalation".
Definition TechCredentialDump := mkTechnique "T1003" "OS Credential Dumping".
Definition TechEtcShadow := mkTechnique "T1003.008" "OS Credential Dumping: /etc/passwd and /etc/shadow".
Definition TechProcFilesystem := mkTechnique "T1003.007" "OS Credential Dumping: Proc Filesystem".
Definition TechUnsecuredCreds := mkTechnique "T1552" "Unsecured Credentials".
Definition TechCredsInFiles := mkTechnique "T1552.001" "Unsecured Credentials: Credentials In Files".
Definition TechPrivateKeys := mkTechnique "T1552.004" "Unsecured Credentials: Private Keys".
Definition TechProcessInjection := mkTechnique "T1055" "Process Injection".
Definition TechPtraceInjection := mkTechnique "T1055.008" "Process Injection: Ptrace System Calls".
Definition TechCommandInterpreter := mkTechnique "T1059" "Command and Scripting Interpreter".
Definition TechAppLayerProtocol := mkTechnique "T1071" "Application Layer Protocol".

(** ** Alerts *)

(** [type StoryStep struct] of [detect/storyline.go], which alerts carry. *)
Record StoryStep := mkStoryStep {
  st_OffsetMS : Z;
  st_PID : Z;
  st_Comm : string;
  st_Rule : string;
  st_MitreID : string;
  st_Tactic : string;
  st_Summary : string;
  st_pivotal : bool
}.

Inductive args_ref :=
  | EventArgs
  | OwnArgs (m : gmap string string).

(** Reading an alert's arguments while [shared] is the event's map. *)
Definition deref (shared : gmap string string) (r : args_ref) : gmap string string :=
  match r with EventArgs => shared | OwnArgs m => m end.

Record Alert := mkAlert {
  al_Timestamp : Z;
  al_PID : Z;
  al_TID : Z;
  al_PPID : Z;
  al_Comm : string;
  al_UID : Z;
  al_GID : Z;
  al_Syscall : string;
  al_Args : args_ref;
  al_MitreID : string;
  al_MitreTechnique : string;
  al_Severity : Severity;
  al_Description : string;
  al_Rule : string;
  al_Storyline : string;
  al_Suppressed : Z;
  al_Story : list StoryStep
}.

Definition newAlert (ev : Event) (rule : string) (tech : Technique) (sev : Severity) (desc : string)
    : Alert := {|
  al_Timestamp := ev_Wall ev;
  al_PID := ev_PID ev;
  al_TID := ev_TID ev;
  al_PPID := ev_PPID ev;
  al_Comm := ev_Comm ev;
  al_UID := ev_UID ev;
  al_GID := ev_GID ev;
  al_Syscall := ev_Syscall ev;
  al_Args := EventArgs;
  al_MitreID := tech_ID tech;
  al_MitreTechnique := tech_Name tech;
  al_Severity := sev;
  al_Description := desc;
  al_Rule := rule;
  al_Storyline := "";
  al_Suppressed := 0;
  al_Story := []
|}.

(** Assignments through an alert pointer. *)
Definition set_Storyline (a : Alert) (id : string) : Alert :=
  mkAlert (al_Timestamp a) (al_PID a) (al_TID a) (al_PPID a) (al_Comm a) (al_UID a) (al_GID a)
    (al_Syscall a) (al_Args a) (al_MitreID a) (al_MitreTechnique a) (al_Severity a)
    (al_Description a) (al_Rule a) id (al_Suppressed a) (al_Story a).

Definition set_Suppressed (a : Alert) (n : Z) : Alert :=
  mkAlert (al_Timestamp a) (al_PID a) (al_TID a) (al_PPID a) (al_Comm a) (al_UID a) (al_GID a)
    (al_Syscall a) (al_Args a) (al_MitreID a) (al_MitreTechnique a) (al_Severity a)
    (al_Description a) (al_Rule a) (al_Storyline a) n (al_Story a).

(** What a holder of the alert sees once nothing else writes to [shared]. *)
Definition publish (shared : gmap string string) (a : Alert) : Alert :=
  mkAlert (al_Timestamp a) (al_PID a) (al_TID a) (al_PPID a) (al_Comm a) (al_UID a) (al_GID a)
    (al_Syscall a) (OwnArgs (deref shared (al_Args a))) (al_MitreID a) (al_MitreTechnique a)
    (al_Severity a) (al_Description a) (al_Rule a) (al_Storyline a) (al_Suppressed a) (al_Story a).

(** ** Lemmas *)

Lemma severityNames_NoDup : NoDup severityNames.*2.
Proof. by_compute. Qed.

Lemma severityNames_range s : 0 <= s <= 3 <-> is_Some (assoc s severityNames).
Proof.
  split.
  - intros Hs. assert (s ∈ [0;1;2;3]) as Hin by (rewrite !elem_of_cons; lia).
    set_unfold in Hin. destruct_or? Hin; subst; vm_compute; eauto; done.
  - intros [n Hn]. apply assoc_Some_elem in Hn.
    assert (Forall (fun e => 0 <= fst e <= 3) severityNames) as H by by_compute.
    rewrite Forall_forall in H. apply (H (s, n) Hn).
Qed.

(** ** Properties *)

(** Severities survive their text form.  Whatever order the runtime
    ranges over the name map in, parsing the text of a declared severity gives
    that severity back, and parsing the text of an undeclared one ("UNKNOWN")
    is rejected. *)
Theorem ParseSeverity_String order s :
  order ≡ₚ severityNames ->
  ParseSeverity_in order (Severity_String s) =
    if bool_decide (0 <= s <= 3) then (s, true) else (SeverityLow, false).
Proof.
  intros Hp. assert (Hd : NoDup order.*2) by (rewrite Hp; apply severityNames_NoDup).
  unfold ParseSeverity_in, Severity_String. case_bool_decide as Hs.
  - apply severityNames_range in Hs as [n Hn]. rewrite Hn. apply assoc_Some_elem in Hn. rewrite <- Hp in Hn.
    rewrite (find_first_unique _ (s, n)); [done|done|apply String.eqb_refl|].
    intros [s' n'] Hin H. cbn in H. bool_prop. subst. f_equal. by eapply table_value_inj.
  - destruct (assoc s severityNames) as [n|] eqn:Hn; [exfalso; apply Hs, severityNames_range; eauto|].
    destruct (find_first _ _) as [[s' n']|] eqn:E; [|done]. exfalso.
    apply find_first_Some in E as (l1 & l2 & El & H & _). cbn in H. bool_prop. subst n'.
    assert ((s', "UNKNOWN") ∈ severityNames) as Hin by (rewrite <- Hp, El; set_solver).
    assert (Forall (fun e => snd e <> "UNKNOWN") severityNames) as Hf by by_compute.
    rewrite Forall_forall in Hf. by apply (Hf _ Hin).
Qed.

Lemma ParseSeverity_String_witness :
  ParseSeverity_in (reverse severityNames) (Severity_String 2) = (2, true).
Proof. apply (ParseSeverity_String (reverse severityNames) 2). apply reverse_Permutation. Defined.
