(* ===== verification/Tracker.v ===== *)
(** * The process tracker ([detect/tracker.go])

    Bounded per-process syscall history with TTL eviction.  The Go type is a
    mutex around a map; every method holds the lock for its whole body, so each
    is one step on the state below. *)

From S2P Require Import Prelude GoStrings GoTime Syscalls Events.

Definition defaultHistoryDepth : nat := 32.
Definition defaultTTL : Z := 30 * Second.
Definition defaultSweepInterval : Z := 5 * Second.
Definition defaultMaxProcesses : nat := Z.to_nat 8192.

(** [type HistoryEntry struct] *)
Record HistoryEntry := mkHistoryEntry {
  he_Syscall : Z;
  he_Timestamp : Z;
  he_IsExit : bool;
  he_Arg0 : Z;
  he_Arg1 : Z;
  he_Ret : Z;
  he_DestIP : string;
  he_DestPort : Z
}.

(** [type ProcessHistory struct] *)
Record ProcessHistory := mkProcessHistory {
  ph_PID : Z;
  ph_Comm : string;
  ph_entries : list HistoryEntry;
  ph_lastSeen : Z
}.

(** A [*ProcessHistory] may be nil; its methods accept that. *)
Definition Entries (h : option ProcessHistory) : list HistoryEntry :=
  match h with None => [] | Some h => ph_entries h end.

(** The backwards loop of [Within]: [start] moves left while the entry before
    it is recent enough. *)
Fixpoint within_start (entries : list HistoryEntry) (cutoff : Z) (start : nat) : nat :=
  match start with
  | O => O
  | S k =>
      match entries !! k with
      | Some e => if cutoff <=? he_Timestamp e then within_start entries cutoff k else start
      | None => start
      end
  end.

Definition Within_cutoff (now window : Z) : Z :=
  let w := u64 window in if now >? w then u64 (now - w) else 0.

Definition Within (h : option ProcessHistory) (now window : Z) : list HistoryEntry :=
  match h with
  | None => []
  | Some h =>
      if (length (ph_entries h) =? 0)%nat then []
      else
        let cutoff := Within_cutoff now window in
        drop (within_start (ph_entries h) cutoff (length (ph_entries h))) (ph_entries h)
  end.

(** [type Tracker struct], without its mutex. *)
Record Tracker := mkTracker {
  tr_procs : gmap Z ProcessHistory;
  tr_depth : nat;
  tr_ttl : Z;
  tr_sweepEvery : Z;
  tr_maxProcesses : nat;
  tr_lastSweep : Z
}.

Definition NewTracker : Tracker := {|
  tr_procs := ∅;
  tr_depth := defaultHistoryDepth;
  tr_ttl := defaultTTL;
  tr_sweepEvery := defaultSweepInterval;
  tr_maxProcesses := defaultMaxProcesses;
  tr_lastSweep := 0
|}.

Definition set_procs (t : Tracker) (m : gmap Z ProcessHistory) : Tracker :=
  mkTracker m (tr_depth t) (tr_ttl t) (tr_sweepEvery t) (tr_maxProcesses t) (tr_lastSweep t).
Definition set_lastSweep (t : Tracker) (now : Z) : Tracker :=
  mkTracker (tr_procs t) (tr_depth t) (tr_ttl t) (tr_sweepEvery t) (tr_maxProcesses t) now.

Definition tracked (sc : Z) : bool :=
  (sc =? SysSocket) || (sc =? SysConnect) || (sc =? SysDup2) || (sc =? SysDup3)
  || (sc =? SysExecve) || (sc =? SysExecveat).

(** The eviction test of [Tracker.maybeSweep]'s loop. *)
Definition history_stale (now ttl : Z) (h : ProcessHistory) : bool :=
  (now >? ph_lastSeen h) && (u64 (now - ph_lastSeen h) >? ttl).

(** [Tracker.maybeSweep].  Deleting the stale entries in map-iteration order is
    filtering the map. *)
Definition Tracker_maybeSweep (t : Tracker) (now : Z) : Tracker :=
  let overCapacity := (tr_maxProcesses t <=? size (tr_procs t))%nat in
  if negb overCapacity && negb (tr_lastSweep t =? 0)
     && (u64 (now - tr_lastSweep t) <? u64 (tr_sweepEvery t))
  then t
  else
    let t := set_lastSweep t now in
    let ttl := u64 (tr_ttl t) in
    let t := set_procs t (filter (fun ph => history_stale now ttl (snd ph) = false) (tr_procs t)) in
    if (tr_maxProcesses t <=? size (tr_procs t))%nat then set_procs t ∅ else t.

Definition entry_of (ev : Event) : HistoryEntry := {|
  he_Syscall := ev_SyscallID ev;
  he_Timestamp := ev_Timestamp ev;
  he_IsExit := ev_IsExit ev;
  he_Arg0 := ev_Arg0 ev;
  he_Arg1 := ev_Arg1 ev;
  he_Ret := ev_ReturnValue ev;
  he_DestIP := ev_DestIP ev;
  he_DestPort := ev_DestPort ev
|}.

(** The trim at the end of [Record]: the oldest entries go. *)
Definition trim (depth : nat) (entries : list HistoryEntry) : list HistoryEntry :=
  if (depth <? length entries)%nat then drop (length entries - depth) entries else entries.

(** The history [Record] stores for the event's process, from what it found. *)
Definition record_history (depth : nat) (old : option ProcessHistory) (ev : Event) : ProcessHistory :=
  let h := match old with
           | Some h => h
           | None => mkProcessHistory (ev_PID ev) (ev_Comm ev) [] 0
           end in
  mkProcessHistory (ph_PID h) (ev_Comm ev) (trim depth (ph_entries h ++ [entry_of ev])) (ev_Timestamp ev).

(** [Tracker.Record] *)
Definition Record_ (t : Tracker) (ev : Event) : option ProcessHistory * Tracker :=
  if negb (tracked (ev_SyscallID ev)) then (None, t)
  else
    let t := Tracker_maybeSweep t (ev_Timestamp ev) in
    let h := record_history (tr_depth t) (tr_procs t !! ev_PID ev) ev in
    (Some h, set_procs t (<[ev_PID ev := h]> (tr_procs t))).

(** [Tracker.Forget] and [Tracker.Len] *)
Definition Forget (t : Tracker) (pid : Z) : Tracker := set_procs t (delete pid (tr_procs t)).
Definition Tracker_Len (t : Tracker) : Z := Z.of_nat (size (tr_procs t)).

(** ** Lemmas: [Within] *)

Definition he_le (a b : HistoryEntry) : Prop := he_Timestamp a <= he_Timestamp b.

Lemma within_start_spec entries cutoff n :
  (n <= length entries)%nat ->
  (within_start entries cutoff n <= n)%nat /\
  (forall i e, (within_start entries cutoff n <= i < n)%nat -> entries !! i = Some e -> cutoff <= he_Timestamp e) /\
  (forall e, (0 < within_start entries cutoff n)%nat ->
     entries !! pred (within_start entries cutoff n) = Some e -> he_Timestamp e < cutoff).
Proof.
  induction n as [|n IH]; cbn [within_start]; intros Hn; [split_and!; lia|].
  destruct (lookup_lt_is_Some_2 entries n ltac:(lia)) as [e He]. rewrite He.
  case_match eqn:E; bool_prop.
  - destruct (IH ltac:(lia)) as (H1 & H2 & H3). split_and!; [lia| |done].
    intros i e' Hi Hl. destruct (decide (i = n)) as [->|]; [congruence|]. apply (H2 i); [lia|done].
  - split_and!; [lia|lia|]. intros e' _ Hl. cbn in Hl. congruence.
Qed.

Lemma sorted_lookup_le l i j a b :
  StronglySorted he_le l -> (i <= j)%nat -> l !! i = Some a -> l !! j = Some b -> he_Timestamp a <= he_Timestamp b.
Proof.
  intros Hs. revert i j; induction Hs as [|x l Hs IH Hx]; intros i j Hij Hi Hj; [done|].
  destruct i as [|i], j as [|j]; cbn in *; simplify_eq; try lia.
  - rewrite Forall_forall in Hx. apply Hx. by eapply list_elem_of_lookup_2.
  - apply (IH i j); [lia|done|done].
Qed.

(** On a time-ordered history the loop computes the filter it is meant to. *)
Lemma within_filter entries cutoff :
  StronglySorted he_le entries ->
  drop (within_start entries cutoff (length entries)) entries =
  filter (fun e => cutoff <= he_Timestamp e) entries.
Proof.
  intros Hs. destruct (within_start_spec entries cutoff (length entries) ltac:(lia)) as (H1 & H2 & H3).
  set (n := within_start _ _ _) in *.
  rewrite <- (take_drop n entries) at 2. rewrite filter_app, filter_none, filter_all; [done| |].
  - apply Forall_lookup. intros i e Hi. rewrite lookup_drop in Hi. apply (H2 (n + i)%nat); [|done].
    apply lookup_lt_Some in Hi. lia.
  - apply Forall_lookup. intros i e Hi.
    apply lookup_take_Some in Hi as [Hi Hlt].
    destruct (lookup_lt_is_Some_2 entries (pred n) ltac:(lia)) as [b Hb].
    pose proof (H3 b ltac:(lia) Hb).
    assert (he_Timestamp e <= he_Timestamp b) by (apply (sorted_lookup_le entries i (pred n)); auto; lia). lia.
Qed.

Lemma Within_cutoff_spec now window :
  is_u64 now -> 0 <= window < 2 ^ 63 -> Within_cutoff now window = Z.max 0 (now - window).
Proof.
  unfold is_u64, Within_cutoff; intros Hn Hw. rewrite u64_small by (unfold is_u64; lia).
  destruct (Z.gtb_spec now window); [rewrite u64_small by (unfold is_u64; lia)|]; lia.
Qed.

Lemma Within_sorted h now window :
  is_u64 now -> 0 <= window < 2 ^ 63 -> StronglySorted he_le (ph_entries h) ->
  Forall (fun e => 0 <= he_Timestamp e) (ph_entries h) ->
  Within (Some h) now window = filter (fun e => now - window <= he_Timestamp e) (ph_entries h).
Proof.
  intros Hn Hw Hs Hp. unfold Within. case_match eqn:E; bool_prop.
  - by apply nil_length_inv in E as ->.
  - rewrite within_filter, Within_cutoff_spec by done.
    apply filter_ext_Forall. eapply Forall_impl; [exact Hp|]. cbn. lia.
Qed.

(** ** Lemmas: the sweep *)

Lemma trim_lastn depth l : trim depth l = lastn depth l.
Proof.
  unfold trim, lastn. case_match; bool_prop; [done|].
  by replace (length l - depth)%nat with 0%nat by lia.
Qed.

(** A sweep changes neither the parameters nor any surviving history. *)
Lemma maybeSweep_params t now :
  tr_depth (Tracker_maybeSweep t now) = tr_depth t /\
  tr_ttl (Tracker_maybeSweep t now) = tr_ttl t /\
  tr_sweepEvery (Tracker_maybeSweep t now) = tr_sweepEvery t /\
  tr_maxProcesses (Tracker_maybeSweep t now) = tr_maxProcesses t.
Proof. unfold Tracker_maybeSweep. repeat case_match; done. Qed.

Lemma maybeSweep_subset t now : tr_procs (Tracker_maybeSweep t now) ⊆ tr_procs t.
Proof.
  unfold Tracker_maybeSweep. case_match; [done|]. cbn.
  case_match; cbn; [apply map_empty_subseteq|apply map_filter_subseteq].
Qed.

(** Right after a sweep there is room for one more process. *)
Lemma maybeSweep_room t now :
  (0 < tr_maxProcesses t)%nat -> (size (tr_procs (Tracker_maybeSweep t now)) < tr_maxProcesses t)%nat.
Proof.
  intros Hm. unfold Tracker_maybeSweep. case_match eqn:E; bool_prop; [lia|]. cbn.
  case_match eqn:E2; cbn; bool_prop; [by rewrite map_size_empty|done].
Qed.

(** Under the capacity a sweep removes stale histories only. *)
Lemma maybeSweep_lookup t now pid :
  (size (tr_procs t) < tr_maxProcesses t)%nat ->
  tr_procs (Tracker_maybeSweep t now) !! pid = tr_procs t !! pid \/
  (exists h, tr_procs t !! pid = Some h /\ history_stale now (u64 (tr_ttl t)) h = true /\
     tr_procs (Tracker_maybeSweep t now) !! pid = None).
Proof.
  intros Hs. unfold Tracker_maybeSweep. case_match; [by left|]. cbn.
  set (m := filter _ (tr_procs t)).
  assert (size m <= size (tr_procs t))%nat as Hm by (apply map_subseteq_size, map_filter_subseteq).
  destruct (Nat.leb_spec (tr_maxProcesses t) (size m)); [lia|]. cbn. subst m.
  destruct (tr_procs t !! pid) as [h|] eqn:Hl.
  - destruct (history_stale now (u64 (tr_ttl t)) h) eqn:Hst.
    + right. exists h. split_and!; [done..|]. apply map_lookup_filter_None. right. intros h' Hh'. cbn. congruence.
    + left. by apply map_lookup_filter_Some.
  - left. apply map_lookup_filter_None. by left.
Qed.

Lemma record_history_length depth old ev : (length (ph_entries (record_history depth old ev)) <= depth)%nat.
Proof. cbn. rewrite trim_lastn. apply lastn_length. Qed.

(** ** Boundedness *)

(** The two memory bounds of the tracker. *)
Record tracker_bounded (t : Tracker) : Prop := {
  tb_procs : (size (tr_procs t) <= tr_maxProcesses t)%nat;
  tb_depth : map_Forall (fun _ h => (length (ph_entries h) <= tr_depth t)%nat) (tr_procs t)
}.

(** Everything a client can do to a tracker. *)
Inductive tracker_op := OpRecord (ev : Event) | OpForget (pid : Z).
Definition tracker_step (t : Tracker) (op : tracker_op) : Tracker :=
  match op with OpRecord ev => snd (Record_ t ev) | OpForget pid => Forget t pid end.
Definition tracker_run (t : Tracker) (ops : list tracker_op) : Tracker := foldl tracker_step t ops.

Lemma tracker_step_bounded t op :
  (0 < tr_maxProcesses t)%nat -> tracker_bounded t ->
  tracker_bounded (tracker_step t op) /\
  tr_maxProcesses (tracker_step t op) = tr_maxProcesses t /\ tr_depth (tracker_step t op) = tr_depth t.
Proof.
  intros Hm [Hp Hd]. destruct op as [ev|pid]; cbn [tracker_step].
  - unfold Record_. case_match; [done|]. cbn [snd].
    pose proof (maybeSweep_params t (ev_Timestamp ev)) as (E1 & _ & _ & E4).
    pose proof (maybeSweep_room t (ev_Timestamp ev) Hm) as Hr.
    pose proof (maybeSweep_subset t (ev_Timestamp ev)) as Hsub.
    split; [|cbn; by rewrite E1, E4]. split; cbn.
    + rewrite E4. pose proof (map_size_insert_le (tr_procs (Tracker_maybeSweep t (ev_Timestamp ev)))
        (ev_PID ev) (record_history (tr_depth (Tracker_maybeSweep t (ev_Timestamp ev)))
           (tr_procs (Tracker_maybeSweep t (ev_Timestamp ev)) !! ev_PID ev) ev)). lia.
    + apply map_Forall_insert_2; [apply record_history_length|]. rewrite E1. by eapply map_Forall_subseteq.
  - split; [|done]. split; cbn.
    + pose proof (map_subseteq_size _ _ (delete_subseteq (tr_procs t) pid)). lia.
    + by apply map_Forall_delete.
Qed.

(** ** What the tracker remembers *)

(** The tracked syscalls of one process in a stream of events. *)
Definition tracked_of (pid : Z) (evs : list Event) : list HistoryEntry :=
  entry_of <$> filter (fun ev => ev_PID ev = pid /\ tracked (ev_SyscallID ev) = true) evs.

Definition record_all (t : Tracker) (evs : list Event) : Tracker :=
  foldl (fun t ev => snd (Record_ t ev)) t evs.

Lemma tracked_of_snoc pid evs ev :
  tracked_of pid (evs ++ [ev]) =
  tracked_of pid evs ++
    if decide (ev_PID ev = pid /\ tracked (ev_SyscallID ev) = true) then [entry_of ev] else [].
Proof.
  unfold tracked_of. rewrite filter_app, fmap_app, filter_cons. by destruct (decide _).
Qed.

(** What history [h] holds of process [pid]'s stream: the last entries of a
    recent part of it, everything before that part having aged past the TTL. *)
Definition history_repr (depth : nat) (ttl now : Z) (stream : list HistoryEntry)
    (o : option ProcessHistory) : Prop :=
  let aged e := he_Timestamp e + ttl < now in
  match o with
  | None => Forall aged stream
  | Some h => exists old cur,
      stream = old ++ cur /\ Forall aged old /\ ph_entries h = lastn depth cur /\
      StronglySorted he_le cur /\ Forall (fun e => 0 <= he_Timestamp e <= ph_lastSeen h) cur /\
      0 <= ph_lastSeen h <= now
  end.

Record tracker_repr (evs : list Event) (now : Z) (t : Tracker) : Prop := {
  trp_dom : dom (tr_procs t) ⊆ list_to_set (ev_PID <$> evs);
  trp_hist : forall pid,
    history_repr (tr_depth t) (tr_ttl t) now (tracked_of pid evs) (tr_procs t !! pid)
}.

Lemma history_repr_mono depth ttl now now' stream o :
  now <= now' -> history_repr depth ttl now stream o -> history_repr depth ttl now' stream o.
Proof.
  intros Hn. unfold history_repr. destruct o as [h|].
  - intros (old & cur & -> & Ho & Hc & Hs & Hf & Hl). exists old, cur. split_and!; try done; try lia.
    eapply Forall_impl; [exact Ho|]. cbn; lia.
  - intros H. eapply Forall_impl; [exact H|]. cbn; lia.
Qed.

Lemma history_repr_sweep depth ttl now now' stream h :
  is_u64 now' -> 0 <= ttl < 2 ^ 63 -> now <= now' ->
  history_repr depth ttl now stream (Some h) -> history_stale now' (u64 ttl) h = true ->
  history_repr depth ttl now' stream None.
Proof.
  unfold is_u64; intros Hu Ht Hn (old & cur & -> & Ho & _ & _ & Hf & Hl) Hst.
  unfold history_stale in Hst. rewrite (u64_small ttl) in Hst by (unfold is_u64; lia).
  rewrite u64_small in Hst by (unfold is_u64; lia). apply andb_true_iff in Hst as [H1 H2].
  apply Z.gtb_lt in H1, H2. apply Forall_app; split.
  - eapply Forall_impl; [exact Ho|]. cbn; lia.
  - eapply Forall_impl; [exact Hf|]. cbn; lia.
Qed.

Lemma history_repr_record depth ttl now stream o ev :
  0 <= now <= ev_Timestamp ev -> history_repr depth ttl now stream o ->
  history_repr depth ttl (ev_Timestamp ev) (stream ++ [entry_of ev]) (Some (record_history depth o ev)).
Proof.
  intros Hn Hr. destruct o as [h|]; cbn.
  - destruct Hr as (old & cur & -> & Ho & Hc & Hs & Hf & Hl).
    exists old, (cur ++ [entry_of ev]). rewrite trim_lastn, Hc, lastn_lastn_snoc, <- app_assoc.
    split_and!; try done; try lia.
    + eapply Forall_impl; [exact Ho|]. cbn; lia.
    + apply StronglySorted_snoc; [done|]. eapply Forall_impl; [exact Hf|]. unfold he_le; cbn; lia.
    + apply Forall_app; split; [|repeat constructor; cbn; lia].
      eapply Forall_impl; [exact Hf|]. cbn; lia.
  - exists stream, [entry_of ev]. rewrite trim_lastn. split_and!; try done; try lia.
    + eapply Forall_impl; [exact Hr|]. cbn; lia.
    + repeat constructor.
    + repeat constructor; cbn; lia.
Qed.

Lemma tracker_repr_record evs now t ev :
  tracker_repr evs now t -> is_u64 (ev_Timestamp ev) -> 0 <= now <= ev_Timestamp ev ->
  0 <= tr_ttl t < 2 ^ 63 ->
  (size (list_to_set (ev_PID <$> evs) : gset Z) < tr_maxProcesses t)%nat ->
  tracker_repr (evs ++ [ev]) (ev_Timestamp ev) (snd (Record_ t ev)).
Proof.
  intros [Hdom Hh] Hu Hn Httl Hcap. unfold Record_.
  assert (Hsz : (size (tr_procs t) < tr_maxProcesses t)%nat).
  { rewrite <- size_dom. apply subseteq_size in Hdom. lia. }
  destruct (tracked (ev_SyscallID ev)) eqn:Etr; cbn [negb snd].
  - pose proof (maybeSweep_params t (ev_Timestamp ev)) as (E1 & E2 & _ & _).
    set (t1 := Tracker_maybeSweep t (ev_Timestamp ev)) in *.
    assert (Hh1 : forall pid, history_repr (tr_depth t) (tr_ttl t) (ev_Timestamp ev) (tracked_of pid evs) (tr_procs t1 !! pid)).
    { intros pid. pose proof (maybeSweep_lookup t (ev_Timestamp ev) pid Hsz) as Hsw. fold t1 in Hsw.
      destruct Hsw as [->|(h & Hl & Hst & ->)].
      - apply (history_repr_mono _ _ now); [lia|apply Hh].
      - pose proof (Hh pid) as Hp. rewrite Hl in Hp. apply (history_repr_sweep _ _ now _ _ h); [done|lia|lia|done|done]. }
    split; cbn; rewrite ?E1, ?E2.
    + rewrite fmap_app, list_to_set_app_L, dom_insert_L.
      assert (dom (tr_procs t1) ⊆ dom (tr_procs t)) by apply subseteq_dom, maybeSweep_subset. set_solver.
    + intros pid. rewrite tracked_of_snoc. destruct (decide (pid = ev_PID ev)) as [->|Hne].
      * rewrite lookup_insert_eq, decide_True by done. apply (history_repr_record _ _ (ev_Timestamp ev)); [lia|apply Hh1].
      * rewrite lookup_insert_ne, decide_False, app_nil_r by (done || (intros [? ?]; congruence)). apply Hh1.
  - split.
    + rewrite fmap_app, list_to_set_app_L. etransitivity; [exact Hdom|apply union_subseteq_l].
    + intros pid. rewrite tracked_of_snoc, decide_False, app_nil_r by (intros [? ?]; congruence).
      apply (history_repr_mono _ _ now); [lia|apply Hh].
Qed.

Lemma record_all_snoc t evs ev : record_all t (evs ++ [ev]) = snd (Record_ (record_all t evs) ev).
Proof. unfold record_all. by rewrite foldl_app. Qed.

Lemma Record_params t ev :
  tr_depth (snd (Record_ t ev)) = tr_depth t /\ tr_ttl (snd (Record_ t ev)) = tr_ttl t /\ tr_maxProcesses (snd (Record_ t ev)) = tr_maxProcesses t.
Proof.
  unfold Record_. case_match; [done|]. cbn.
  pose proof (maybeSweep_params t (ev_Timestamp ev)) as (? & ? & _ & ?). done.
Qed.

Lemma record_all_params t evs :
  tr_depth (record_all t evs) = tr_depth t /\ tr_ttl (record_all t evs) = tr_ttl t /\ tr_maxProcesses (record_all t evs) = tr_maxProcesses t.
Proof.
  induction evs as [|ev evs IH] using rev_ind; [done|]. rewrite record_all_snoc.
  destruct (Record_params (record_all t evs) ev) as (-> & -> & ->). done.
Qed.

(** A stream of events as the ring buffer delivers it: 64-bit timestamps that
    never go back. *)
Definition in_order (evs : list Event) : Prop :=
  Forall (fun ev => is_u64 (ev_Timestamp ev)) evs /\ StronglySorted (fun a b => ev_Timestamp a <= ev_Timestamp b) evs.

Definition last_time (evs : list Event) : Z :=
  match last evs with Some ev => ev_Timestamp ev | None => 0 end.

Lemma in_order_snoc evs ev :
  in_order (evs ++ [ev]) -> in_order evs /\ is_u64 (ev_Timestamp ev) /\ 0 <= last_time evs <= ev_Timestamp ev.
Proof.
  intros [Hu Hs]. apply Forall_app in Hu as [Hu He]. apply Forall_cons in He as [He _].
  apply StronglySorted_snoc_inv in Hs as [Hs1 Hs2]. split; [done|]. split; [done|].
  unfold last_time. destruct (last evs) as [a|] eqn:El; [|unfold is_u64 in He; lia].
  apply last_Some_elem_of in El. rewrite Forall_forall in Hs2, Hu.
  pose proof (Hs2 a El). pose proof (Hu a El). unfold is_u64 in *. lia.
Qed.

Lemma record_all_repr t evs :
  tr_procs t = ∅ -> 0 <= tr_ttl t < 2 ^ 63 -> in_order evs ->
  (length evs = 0%nat \/ (size (list_to_set (ev_PID <$> evs) : gset Z) < tr_maxProcesses t)%nat) ->
  tracker_repr evs (last_time evs) (record_all t evs).
Proof.
  intros Hp Httl. induction evs as [|ev evs IH] using rev_ind; intros Ho Hcap.
  - split; cbn; rewrite Hp; [set_solver|]. intros pid. rewrite lookup_empty. constructor.
  - apply in_order_snoc in Ho as (Ho & Hu & Hl). destruct Hcap as [Hcap|Hcap]; [rewrite length_app in Hcap; cbn in Hcap; lia|].
    assert (Hs : (size (list_to_set (ev_PID <$> evs) : gset Z) < tr_maxProcesses t)%nat).
    { eapply Nat.le_lt_trans; [|exact Hcap]. apply subseteq_size. rewrite fmap_app, list_to_set_app. set_solver. }
    rewrite record_all_snoc. unfold last_time at 1. rewrite last_snoc.
    destruct (record_all_params t evs) as (_ & E2 & E3).
    eapply tracker_repr_record; [apply IH; auto|done|lia|by rewrite E2|by rewrite E3].
Qed.

Lemma Within_Record_recent evs ev window :
  in_order (evs ++ [ev]) -> tracked (ev_SyscallID ev) = true ->
  (size (list_to_set (ev_PID <$> evs ++ [ev]) : gset Z) < defaultMaxProcesses)%nat ->
  0 <= window <= defaultTTL ->
  Within (fst (Record_ (record_all NewTracker evs) ev)) (ev_Timestamp ev) window =
  filter (fun e => ev_Timestamp ev - window <= he_Timestamp e)
    (lastn 32 (tracked_of (ev_PID ev) (evs ++ [ev]))).
Proof.
  intros Ho Htr Hcap Hw.
  assert (Hr : tracker_repr (evs ++ [ev]) (last_time (evs ++ [ev])) (record_all NewTracker (evs ++ [ev])))
    by (apply record_all_repr; auto; done).
  rewrite record_all_snoc in Hr. unfold last_time in Hr. rewrite last_snoc in Hr.
  destruct (Record_params (record_all NewTracker evs) ev) as (E1 & E2 & _).
  destruct (record_all_params NewTracker evs) as (E3 & E4 & _).
  apply in_order_snoc in Ho as (_ & Hu & _).
  destruct Hr as [_ Hh]. specialize (Hh (ev_PID ev)). rewrite E1, E2, E3, E4 in Hh. clear E1 E2 E3 E4.
  unfold Record_ in *. rewrite Htr in *. cbn [negb fst snd set_procs tr_procs] in *.
  rewrite lookup_insert_eq in Hh. set (h := record_history _ _ _) in *.
  destruct Hh as (old & cur & -> & Hold & Hent & Hs & Hf & _).
  assert (defaultTTL < 2 ^ 63) by (unfold defaultTTL, Second, Millisecond; lia).
  rewrite Within_sorted; [|done|lia| |].
  - rewrite Hent, lastn_app, filter_app, (filter_none _ (lastn _ old)); [done|].
    apply lastn_Forall. eapply Forall_impl; [exact Hold|]. cbn in *; lia.
  - rewrite Hent. by apply StronglySorted_drop.
  - rewrite Hent. apply lastn_Forall. eapply Forall_impl; [exact Hf|]. cbn; lia.
Qed.

(** ** Properties *)

(** The tracker never exceeds its memory bounds.  From [NewTracker], any
    sequence of [Record] and [Forget] calls with any events at all leaves at
    most [defaultMaxProcesses] processes and at most [defaultHistoryDepth]
    entries in each history. *)
Theorem tracker_always_bounded ops :
  let t := tracker_run NewTracker ops in
  Tracker_Len t <= 8192 /\ map_Forall (fun _ h => (length (Entries (Some h)) <= 32)%nat) (tr_procs t).
Proof.
  cbn zeta.
  assert (H : tracker_bounded (tracker_run NewTracker ops) /\
              tr_maxProcesses (tracker_run NewTracker ops) = defaultMaxProcesses /\
              tr_depth (tracker_run NewTracker ops) = defaultHistoryDepth).
  { induction ops as [|op ops IH] using rev_ind.
    - split; [|done]. split; [|apply map_Forall_empty].
      change (tr_procs (tracker_run NewTracker [])) with (∅ : gmap Z ProcessHistory). rewrite map_size_empty. lia.
    - unfold tracker_run in *. rewrite foldl_app. cbn [foldl]. destruct IH as (Hb & Em & Ed).
      assert (0 < tr_maxProcesses (foldl tracker_step NewTracker ops))%nat as Hpos
        by (rewrite Em; unfold defaultMaxProcesses; lia).
      destruct (tracker_step_bounded _ op Hpos Hb) as (? & -> & ->). done. }
  destruct H as ([Hp Hd] & Em & Ed). split.
  - unfold Tracker_Len. rewrite Em in Hp. unfold defaultMaxProcesses in Hp. lia.
  - by rewrite Ed in Hd.
Qed.

(** The history a rule is handed is the specification of recent activity.
    For any in-order stream ending in a tracked syscall, touching fewer
    processes than the capacity, and any window no longer than the TTL, the
    entries [Within] the window are exactly the window's share of the last 32
    tracked syscalls of that process: eviction, trimming and sweeping never
    lose or reorder an entry a sequence rule could still need. *)
Theorem Within_Record_spec evs ev window :
  in_order (evs ++ [ev]) -> tracked (ev_SyscallID ev) = true ->
  (size (list_to_set (ev_PID <$> evs ++ [ev]) : gset Z) < defaultMaxProcesses)%nat ->
  0 <= window <= defaultTTL ->
  Within (fst (Record_ (record_all NewTracker evs) ev)) (ev_Timestamp ev) window =
  filter (fun e => ev_Timestamp ev - window <= he_Timestamp e)
    (lastn 32 (tracked_of (ev_PID ev) (evs ++ [ev]))).
Proof. apply Within_Record_recent. Qed.

(** A socket, an unrelated process, a connect and an exec within the window. *)
Definition example_event (pid ts sc : Z) : Event :=
  decodeIdentity (mkRaw ts pid pid 1000 1000 1 sc 0 0 0 0 0 0 0 0 "nc" "/bin/sh" []) 0.
Definition example_stream : list Event :=
  [example_event 42 1000 SysSocket; example_event 7 2000 SysExecve; example_event 42 3000000000 SysConnect].

Lemma Within_Record_spec_witness :
  Within (fst (Record_ (record_all NewTracker example_stream) (example_event 42 4000000000 SysExecve)))
    4000000000 (2 * Second)
  = [entry_of (example_event 42 3000000000 SysConnect); entry_of (example_event 42 4000000000 SysExecve)].
Proof.
  etransitivity;
    [apply (Within_Record_spec example_stream (example_event 42 4000000000 SysExecve) (2 * Second))|].
  - split; [repeat constructor; unfold is_u64; cbn; lia|].
    repeat constructor; cbn; lia.
  - reflexivity.
  - apply Nat.le_lt_trans with (length (ev_PID <$> example_stream ++ [example_event 42 4000000000 SysExecve])).
    + apply size_list_to_set_le.
    + cbn [length app fmap list_fmap example_stream]. unfold defaultMaxProcesses. lia.
  - unfold defaultTTL, Second, Millisecond. lia.
  - vm_compute. reflexivity.
Defined.
