(* ===== verification/Dedup.v ===== *)
(** * Alert deduplication ([detect/dedup.go])

    A fixed window per key: the first alert of a window is emitted, repeats
    inside it are folded and counted.  A nil [*deduper] (dedup disabled) is
    [None]; the map of entry pointers is a map of entries, since the pointers
    never leave it. *)

From S2P Require Import Prelude GoStrings Events Alerts.

Definition maxDedupKeys : nat := Z.to_nat 16384.

(** [type dedupEntry struct] *)
Record dedupEntry := mkDedupEntry { de_firstTS : Z; de_suppressed : Z }.

(** [type deduper struct] *)
Record deduper := mkDeduper {
  dd_window : Z;
  dd_seen : gmap string dedupEntry;
  dd_lastSweep : Z;
  dd_total : Z
}.

Definition newDeduper (window : Z) : option deduper :=
  if window <=? 0 then None
  else Some {| dd_window := u64 window; dd_seen := ∅; dd_lastSweep := 0; dd_total := 0 |}.

(** The argument keys that are part of a finding's identity. *)
Definition dedupArgs : list string :=
  ["path"; "request"; "target_pid"; "target_uid"; "target_gid"; "euid"; "egid"; "chain_dest"].

(** [dedupKey]: [args] is the alert's argument map at the time of the call. *)
Definition dedupKey (args : gmap string string) (a : Alert) : string :=
  al_Rule a +:+ "|" +:+ FormatUint (al_PID a) 10 +:+ "|" +:+ al_MitreID a +:+ "|" +:+ al_Syscall a
  +:+ foldr (fun k acc =>
        match args !! k with
        | Some v => "|" +:+ k +:+ "=" +:+ v +:+ acc
        | None => acc
        end) "" dedupArgs.

Definition dedupRetain : Z := 4.

(** The test in the sweep's loop; [dedupRetain*d.window] is a [uint64]
    product. *)
Definition dedup_expired (window now : Z) (e : dedupEntry) : bool :=
  if now <=? de_firstTS e then false
  else
    let age := u64 (now - de_firstTS e) in
    ((de_suppressed e =? 0) && (age >=? window)) || (age >=? u64 (dedupRetain * window)).

(** [deduper.maybeSweep] *)
Definition dedup_maybeSweep (d : deduper) (now : Z) : deduper :=
  if negb (dd_lastSweep d =? 0) && (u64 (now - dd_lastSweep d) <? dd_window d)
     && (size (dd_seen d) <? maxDedupKeys)%nat
  then d
  else
    let seen := filter (fun ke => dedup_expired (dd_window d) now (snd ke) = false) (dd_seen d) in
    let seen := if (maxDedupKeys <=? size seen)%nat then ∅ else seen in
    mkDeduper (dd_window d) seen now (dd_total d).

(** [deduper.admit] after the sweep and the computation of [key]: the verdict,
    the fold count to stamp on the alert if there is one, the new state. *)
Definition admit_key (d : deduper) (key : string) (now : Z) : bool * option Z * deduper :=
  let put e total := mkDeduper (dd_window d) (<[key := e]> (dd_seen d)) (dd_lastSweep d) total in
  match dd_seen d !! key with
  | Some e =>
      if (de_firstTS e <=? now) && (u64 (now - de_firstTS e) <? dd_window d)
      then (false, None,
            put (mkDedupEntry (de_firstTS e) (u64 (de_suppressed e + 1))) (u64 (dd_total d + 1)))
      else (true, Some (de_suppressed e), put (mkDedupEntry now 0) (dd_total d))
  | None => (true, None, put (mkDedupEntry now 0) (dd_total d))
  end.

(** [deduper.admit] *)
Definition dedup_admit (od : option deduper) (args : gmap string string) (a : Alert) (now : Z)
    : bool * Alert * option deduper :=
  match od with
  | None => (true, a, None)
  | Some d =>
      let d := dedup_maybeSweep d now in
      let '(ok, n, d) := admit_key d (dedupKey args a) now in
      (ok, match n with Some n => set_Suppressed a n | None => a end, Some d)
  end.

(** ** Specification

    What deduplication promises, with no memory bound: per key, the time of
    the last emission and how many alerts were folded since. *)
Module DedupSpec.
Record spec := mkSpec { sp_keys : gmap string (Z * Z); sp_folded : Z }.

Definition judge (window : Z) (s : spec) (key : string) (now : Z) : bool * spec :=
  match sp_keys s !! key with
  | Some (t, n) =>
      if now - t <? window
      then (false, mkSpec (<[key := (t, n + 1)]> (sp_keys s)) (sp_folded s + 1))
      else (true, mkSpec (<[key := (now, 0)]> (sp_keys s)) (sp_folded s))
  | None => (true, mkSpec (<[key := (now, 0)]> (sp_keys s)) (sp_folded s))
  end.

Definition folded_since (s : spec) (key : string) : Z :=
  match sp_keys s !! key with Some (_, n) => n | None => 0 end.
End DedupSpec.
Import DedupSpec.

(** ** Lemmas *)

(** One entry against its specification at time [now]. *)
Definition entry_repr (window now : Z) (o : option dedupEntry) (sp : option (Z * Z)) : Prop :=
  match o, sp with
  | Some e, Some (t, n) => de_firstTS e = t /\ de_suppressed e = n /\ 0 <= t <= now /\ 0 <= n
  | None, Some (t, n) => 0 <= t /\ window <= now - t /\ (n = 0 \/ dedupRetain * window <= now - t)
  | None, None => True
  | Some _, None => False
  end.

Record dedup_repr (now : Z) (d : deduper) (s : spec) : Prop := {
  dr_keys : forall k, entry_repr (dd_window d) now (dd_seen d !! k) (sp_keys s !! k);
  dr_count : forall k t n, sp_keys s !! k = Some (t, n) -> n <= sp_folded s;
  dr_total : dd_total d = u64 (sp_folded s)
}.

Lemma entry_repr_mono window now now' o sp :
  now <= now' -> entry_repr window now o sp -> entry_repr window now' o sp.
Proof. unfold entry_repr. destruct o as [e|], sp as [[t n]|]; intuition lia. Qed.

Lemma dedup_maybeSweep_params d now :
  dd_window (dedup_maybeSweep d now) = dd_window d /\ dd_total (dedup_maybeSweep d now) = dd_total d.
Proof. unfold dedup_maybeSweep. case_match; done. Qed.

Lemma dedup_maybeSweep_subset d now : dd_seen (dedup_maybeSweep d now) ⊆ dd_seen d.
Proof.
  unfold dedup_maybeSweep. case_match; [done|]. cbn.
  case_match; [apply map_empty_subseteq|apply map_filter_subseteq].
Qed.

Lemma dedup_maybeSweep_room d now : (size (dd_seen (dedup_maybeSweep d now)) < maxDedupKeys)%nat.
Proof.
  unfold dedup_maybeSweep. case_match eqn:E.
  - apply andb_true_iff in E as [_ E]. by apply Nat.ltb_lt in E.
  - cbn. case_match eqn:E2; [rewrite map_size_empty; unfold maxDedupKeys; lia|by apply Nat.leb_gt in E2].
Qed.

(** Under the capacity a sweep removes expired keys only. *)
Lemma dedup_maybeSweep_lookup d now k :
  (size (dd_seen d) < maxDedupKeys)%nat ->
  dd_seen (dedup_maybeSweep d now) !! k = dd_seen d !! k \/
  (exists e, dd_seen d !! k = Some e /\ dedup_expired (dd_window d) now e = true /\
     dd_seen (dedup_maybeSweep d now) !! k = None).
Proof.
  intros Hs. unfold dedup_maybeSweep. case_match; [by left|]. cbn.
  set (m := filter _ (dd_seen d)).
  assert (size m <= size (dd_seen d))%nat as Hm by (apply map_subseteq_size, map_filter_subseteq).
  destruct (Nat.leb_spec maxDedupKeys (size m)); [lia|]. subst m.
  destruct (dd_seen d !! k) as [e|] eqn:Hl.
  - destruct (dedup_expired (dd_window d) now e) eqn:Hst.
    + right. exists e. split_and!; [done..|]. apply map_lookup_filter_None. right. intros e' He'. cbn. congruence.
    + left. by apply map_lookup_filter_Some.
  - left. apply map_lookup_filter_None. by left.
Qed.

Lemma entry_repr_expired window now now' e sp :
  0 < window < 2 ^ 61 -> is_u64 now' -> now <= now' ->
  entry_repr window now (Some e) sp -> dedup_expired window now' e = true ->
  entry_repr window now' None sp.
Proof.
  unfold is_u64, dedupRetain. intros Hw Hu Hn. destruct sp as [[t n]|]; [|done].
  cbn [entry_repr]. intros (<- & <- & Ht & Hn0). unfold dedup_expired, dedupRetain.
  case_match eqn:E; [done|]. bool_prop. rewrite (u64_small (4 * window)) by (unfold is_u64; lia).
  rewrite u64_small by (unfold is_u64; lia). intros [He|He]%orb_true_iff; bool_prop.
  - apply Z.geb_le in H0. lia.
  - apply Z.geb_le in He. lia.
Qed.

Lemma dedup_repr_sweep now now' d s :
  0 < dd_window d < 2 ^ 61 -> is_u64 now' -> now <= now' -> (size (dd_seen d) < maxDedupKeys)%nat ->
  dedup_repr now d s -> dedup_repr now' (dedup_maybeSweep d now') s.
Proof.
  intros Hw Hu Hn Hs [Hk Hc Ht]. destruct (dedup_maybeSweep_params d now') as [E1 E2].
  split; [|done|by rewrite E2]. intros k. rewrite E1.
  destruct (dedup_maybeSweep_lookup d now' k Hs) as [->|(e & He & Hst & ->)].
  - eapply entry_repr_mono; [exact Hn|apply Hk].
  - specialize (Hk k). rewrite He in Hk. by eapply entry_repr_expired.
Qed.

(** What the implementation stamps against what the specification counts:
    exact, except for a key that stayed silent for four windows or more. *)
Definition stamp_agrees (window now : Z) (s : spec) (key : string) (stamp : Z) : Prop :=
  stamp = folded_since s key \/
  (stamp = 0 /\ exists t n, sp_keys s !! key = Some (t, n) /\ dedupRetain * window <= now - t).

Lemma dedup_repr_put now d s key e t n folded total :
  dedup_repr now d s -> entry_repr (dd_window d) now (Some e) (Some (t, n)) ->
  n <= folded -> sp_folded s <= folded -> total = u64 folded ->
  dedup_repr now (mkDeduper (dd_window d) (<[key := e]> (dd_seen d)) (dd_lastSweep d) total)
    (mkSpec (<[key := (t, n)]> (sp_keys s)) folded).
Proof.
  intros [Hk Hc Ht] He Hn Hf ->. split; cbn [dd_window dd_seen sp_keys sp_folded dd_total]; [| |done].
  - intros k. destruct (decide (k = key)) as [->|Hne]; [by rewrite !lookup_insert_eq|].
    rewrite !lookup_insert_ne by done. apply Hk.
  - intros k t' n' H. destruct (decide (k = key)) as [->|Hne].
    + rewrite lookup_insert_eq in H. by simplify_eq.
    + rewrite lookup_insert_ne in H by done. apply Hc in H. lia.
Qed.

Lemma admit_key_sim now d s key :
  0 < dd_window d < 2 ^ 61 -> is_u64 now -> 0 <= sp_folded s < 2 ^ 64 - 1 -> dedup_repr now d s ->
  let '(ok, stamp, d') := admit_key d key now in
  let '(ok', s') := DedupSpec.judge (dd_window d) s key now in
  ok = ok' /\ dedup_repr now d' s' /\ dd_window d' = dd_window d /\
  sp_folded s' = sp_folded s + (if ok then 0 else 1) /\
  (ok = true -> stamp_agrees (dd_window d) now s key (default 0 stamp)).
Proof.
  unfold is_u64; intros Hw Hu Hf Hr. pose proof Hr as [Hk Hc Ht].
  unfold admit_key, DedupSpec.judge, stamp_agrees, folded_since.
  pose proof (Hk key) as Hkey. unfold entry_repr in Hkey.
  destruct (dd_seen d !! key) as [e|] eqn:He; destruct (sp_keys s !! key) as [[t n]|] eqn:Hs; try done.
  - destruct Hkey as (<- & Hen & Ht0 & Hn0). pose proof (Hc key _ _ Hs) as Hcn.
    rewrite (proj2 (Z.leb_le _ _)) by lia. cbn [andb]. rewrite (u64_small (now - _)) by (unfold is_u64; lia).
    destruct (now - de_firstTS e <? dd_window d) eqn:E; bool_prop.
    + split_and!; try done. rewrite (u64_small (_ + 1)) by (unfold is_u64; lia).
      apply dedup_repr_put; [done|cbn; lia|lia|lia|]. rewrite Ht, u64_small, !u64_small; unfold is_u64; rewrite ?u64_small; unfold is_u64; lia.
    + split_and!; try done; [|cbn; lia|by left]. apply dedup_repr_put; [done|cbn; lia|lia|lia|done].
  - destruct Hkey as (Ht0 & Hage & Hn). rewrite (proj2 (Z.ltb_ge _ _)) by lia.
    split_and!; try done; [|cbn; lia|naive_solver]. apply dedup_repr_put; [done|cbn; lia|lia|lia|done].
  - split_and!; try done; [|cbn; lia|by left]. apply dedup_repr_put; [done|cbn; lia|lia|lia|done].
Qed.

(** ** Runs *)

(** One call of [admit]: the alert's arguments, the alert, the event's time. *)
Record dedup_call := mkCall { call_args : gmap string string; call_alert : Alert; call_now : Z }.
Definition call_key (c : dedup_call) : string := dedupKey (call_args c) (call_alert c).

(** The verdicts of a sequence of calls, each with the fold count the alert
    ends up carrying. *)
Fixpoint dedup_run (od : option deduper) (calls : list dedup_call) : list (bool * Z) * option deduper :=
  match calls with
  | [] => ([], od)
  | c :: calls' =>
      let '(ok, a, od) := dedup_admit od (call_args c) (call_alert c) (call_now c) in
      let '(vs, od) := dedup_run od calls' in
      ((ok, al_Suppressed a) :: vs, od)
  end.

(** A sequence of verdicts against the specification started in [s]. *)
Fixpoint verdicts_agree (window : Z) (s : spec) (calls : list dedup_call) (vs : list (bool * Z)) : Prop :=
  match calls, vs with
  | [], [] => True
  | c :: calls', (ok, stamp) :: vs' =>
      let '(ok', s') := DedupSpec.judge window s (call_key c) (call_now c) in
      ok = ok' /\ (ok = true -> stamp_agrees window (call_now c) s (call_key c) stamp) /\
      verdicts_agree window s' calls' vs'
  | _, _ => False
  end.

(** Calls in event order, on freshly built alerts. *)
Definition calls_in_order (calls : list dedup_call) : Prop :=
  Forall (fun c => is_u64 (call_now c) /\ al_Suppressed (call_alert c) = 0) calls /\
  StronglySorted (fun c1 c2 => call_now c1 <= call_now c2) calls.

Lemma admit_key_dom d key now :
  dom (dd_seen (snd (admit_key d key now))) = {[ key ]} ∪ dom (dd_seen d).
Proof. unfold admit_key. repeat case_match; cbn; by rewrite dom_insert_L. Qed.

Lemma dedup_run_agrees K now d s calls :
  0 < dd_window d < 2 ^ 61 -> (size K < maxDedupKeys)%nat ->
  dom (dd_seen d) ⊆ K -> Forall (fun c => call_key c ∈ K) calls ->
  calls_in_order calls -> Forall (fun c => now <= call_now c) calls ->
  0 <= sp_folded s -> sp_folded s + Z.of_nat (length calls) < 2 ^ 64 ->
  dedup_repr now d s ->
  verdicts_agree (dd_window d) s calls (fst (dedup_run (Some d) calls)).
Proof.
  intros Hw HK. revert now d s Hw. induction calls as [|c calls IH]; intros now d s Hw Hd Hin [Hu Hs] Hnow Hf0 Hf Hr; [done|].
  apply Forall_cons in Hin as [Hck Hin], Hu as [[Hu1 Hsup] Hu], Hnow as [Hn1 Hn].
  apply StronglySorted_inv in Hs as [Hs Hs1]. cbn [length] in Hf.
  assert (Hsize : (size (dd_seen d) < maxDedupKeys)%nat).
  { rewrite <- size_dom. apply subseteq_size in Hd. lia. }
  pose proof (dedup_repr_sweep now (call_now c) d s Hw Hu1 Hn1 Hsize Hr) as Hr1.
  destruct (dedup_maybeSweep_params d (call_now c)) as [E1 _].
  pose proof (subseteq_dom _ _ (dedup_maybeSweep_subset d (call_now c))) as Hdom1.
  cbn [dedup_run dedup_admit]. fold (call_key c). set (d1 := dedup_maybeSweep d (call_now c)) in *.
  rewrite <- E1 in Hw.
  pose proof (admit_key_sim (call_now c) d1 s (call_key c) Hw Hu1 ltac:(lia) Hr1) as Hsim.
  pose proof (admit_key_dom d1 (call_key c) (call_now c)) as Hdom2.
  destruct (admit_key d1 (call_key c) (call_now c)) as [[ok stamp] d2] eqn:Ea. rewrite E1 in Hsim.
  destruct (DedupSpec.judge (dd_window d) s (call_key c) (call_now c)) as [ok' s'] eqn:Es.
  destruct Hsim as (<- & Hr2 & E2 & Hf' & Hst). cbn [snd] in Hdom2.
  destruct (dedup_run (Some d2) calls) as [vs od] eqn:Erun. cbn [fst verdicts_agree]. rewrite Es.
  split_and!; [done| |].
  - intros Hok. specialize (Hst Hok). destruct stamp as [m|]; [done|]. cbn in Hst. by rewrite Hsup.
  - rewrite <- E2. rewrite <- (f_equal fst Erun : _ = vs).
    eapply (IH (call_now c)); try done; [by rewrite E2, <- E1| | |].
    + rewrite Hdom2. set_solver.
    + rewrite Hf'. destruct ok; lia.
    + rewrite Hf'. destruct ok; lia.
Qed.

Lemma dedup_repr_init window : dedup_repr 0 (mkDeduper window ∅ 0 0) (mkSpec ∅ 0).
Proof. split; [|done|done]. intros k. cbn. by rewrite !lookup_empty. Qed.

Lemma admit_key_total d key now :
  dd_total (snd (admit_key d key now)) =
  if fst (fst (admit_key d key now)) then dd_total d else u64 (dd_total d + 1).
Proof. unfold admit_key. repeat case_match; done. Qed.

(** How many verdicts were "fold". *)
Definition folded_count (vs : list (bool * Z)) : Z :=
  Z.of_nat (length (filter (fun v => fst v = false) vs)).

Lemma dedup_run_total d calls :
  is_u64 (dd_total d) ->
  exists d', snd (dedup_run (Some d) calls) = Some d' /\
    dd_total d' = u64 (dd_total d + folded_count (fst (dedup_run (Some d) calls))) /\
    (calls <> [] -> (size (dd_seen d') <= maxDedupKeys)%nat).
Proof.
  revert d; induction calls as [|c calls IH]; intros d Hd.
  - exists d. cbn. split_and!; [done| |done]. rewrite Z.add_0_r. by rewrite u64_small.
  - cbn [dedup_run dedup_admit]. fold (call_key c).
    destruct (dedup_maybeSweep_params d (call_now c)) as [_ E2].
    pose proof (dedup_maybeSweep_room d (call_now c)) as Hroom.
    set (d1 := dedup_maybeSweep d (call_now c)) in *.
    pose proof (admit_key_total d1 (call_key c) (call_now c)) as Ht. rewrite E2 in Ht.
    pose proof (f_equal size (admit_key_dom d1 (call_key c) (call_now c))) as Hsz.
    destruct (admit_key d1 (call_key c) (call_now c)) as [[ok stamp] d2]. cbn [fst snd] in *.
    destruct (IH d2) as (d' & H1 & H2 & H3); [rewrite Ht; destruct ok; auto using u64_range|].
    destruct (dedup_run (Some d2) calls) as [vs od] eqn:Erun. cbn [fst snd] in *.
    exists d'. split_and!; [done| |].
    + rewrite H2, Ht. unfold folded_count. rewrite filter_cons. destruct ok; cbn [fst]; case_decide; try done.
      cbn [length]. rewrite Nat2Z.inj_succ. unfold u64. rewrite Zplus_mod_idemp_l. f_equal. lia.
    + intros _. destruct calls as [|c' calls]; [|by apply H3].
      cbn in Erun. injection Erun as <- <-. injection H1 as <-. rewrite <- size_dom, Hsz.
      pose proof (size_union_alt {[call_key c]} (dom (dd_seen d1))) as Hu. rewrite size_singleton in Hu.
      pose proof (subseteq_size (dom (dd_seen d1) ∖ {[call_key c]}) (dom (dd_seen d1)) ltac:(set_solver)) as Hle.
      rewrite size_dom in Hle. lia.
Qed.

(** ** Properties *)

(** C13: deduplication implements its specification.  For any positive window,
    any in-order sequence of fewer than 2^64 calls over fewer distinct keys
    than the bound, every verdict is the one of the unbounded per-key
    specification (emit the first alert of a key, and again exactly when a full
    window has passed since its last emission; fold everything else), whatever
    the sweeps dropped in between; and an alert that resurfaces carries the
    exact number of alerts folded since, or zero if the key stayed away for
    four windows or more. *)
Theorem dedup_refines_spec window calls :
  0 < window < 2 ^ 61 -> calls_in_order calls ->
  (size (list_to_set (call_key <$> calls) : gset string) < maxDedupKeys)%nat ->
  Z.of_nat (length calls) < 2 ^ 64 ->
  verdicts_agree window (mkSpec ∅ 0) calls (fst (dedup_run (newDeduper window) calls)).
Proof.
  intros Hw Ho HK Hl. unfold newDeduper. rewrite (proj2 (Z.leb_gt _ _)) by lia.
  rewrite u64_small by (unfold is_u64; lia).
  apply (dedup_run_agrees (list_to_set (call_key <$> calls)) 0 (mkDeduper window ∅ 0 0)); try done.
  - apply Forall_forall. intros c Hc. apply elem_of_list_to_set, list_elem_of_fmap. eauto.
  - eapply Forall_impl; [exact (proj1 Ho)|]. cbn. unfold is_u64. lia.
Qed.

(** Three alerts of one finding, the second inside the window, the third after
    it. *)
Definition example_finding : Alert :=
  mkAlert 0 42 42 1 "cat" 1000 1000 "openat" EventArgs "T1003.008" "" SeverityHigh ""
    "sensitive-file-access" "" 0 [].
Definition example_calls : list dedup_call :=
  [mkCall {[ "path" := "/etc/shadow" ]} example_finding 10;
   mkCall {[ "path" := "/etc/shadow" ]} example_finding 12;
   mkCall {[ "path" := "/etc/shadow" ]} example_finding 20].

Lemma dedup_refines_spec_witness :
  fst (dedup_run (newDeduper 5) example_calls) = [(true, 0); (false, 0); (true, 1)] /\
  verdicts_agree 5 (mkSpec ∅ 0) example_calls (fst (dedup_run (newDeduper 5) example_calls)).
Proof.
  split; [vm_compute; reflexivity|]. apply (dedup_refines_spec 5 example_calls).
  - lia.
  - split; repeat constructor; unfold is_u64; cbn; lia.
  - apply Nat.le_lt_trans with (length (call_key <$> example_calls)); [apply size_list_to_set_le|].
    cbn [length fmap list_fmap example_calls]. unfold maxDedupKeys. lia.
  - cbn; lia.
Defined.

(** Nothing is lost silently and memory stays bounded.  For every window
    and every sequence of calls, in any order, with any timestamps: a disabled
    deduplicator admits everything; an enabled one counts in its total exactly
    the alerts it folded (mod 2^64), and never holds more than [maxDedupKeys]
    keys after a call. *)
Theorem dedup_accounts window calls :
  match dedup_run (newDeduper window) calls with
  | (vs, None) => window <= 0 /\ Forall (fun v => fst v = true) vs
  | (vs, Some d) => 0 < window /\ dd_total d = u64 (folded_count vs) /\
      (size (dd_seen d) <= maxDedupKeys)%nat
  end.
Proof.
  unfold newDeduper. destruct (window <=? 0) eqn:E; bool_prop.
  - assert (snd (dedup_run None calls) = None /\ Forall (fun v => fst v = true) (fst (dedup_run None calls))) as [H1 H2].
    { clear E. induction calls as [|c calls IH]; [split; [done|constructor]|]. cbn.
      destruct (dedup_run None calls) as [vs od]. destruct IH as [IH1 IH2]. split; [done|]. by constructor. }
    destruct (dedup_run None calls) as [vs od]. cbn in H1. subst od. split; assumption.
  - destruct (dedup_run_total (mkDeduper (u64 window) ∅ 0 0) calls) as (d' & H1 & H2 & H3); [unfold is_u64; cbn; lia|].
    destruct (dedup_run (Some (mkDeduper (u64 window) ∅ 0 0)) calls) as [vs od] eqn:Erun.
    cbn [snd fst] in *. subst od. split_and!; [done|done|].
    destruct calls as [|c calls]; [|by apply H3]. cbn in Erun. injection Erun as <- <-.
    change (dd_seen _) with (∅ : gmap string dedupEntry). rewrite map_size_empty. lia.
Qed.
