(* ===== verification/Config.v ===== *)
(** * Configuration and rule contexts ([detect/engine.go], [detect/storyline.go])

    The engine's and the correlator's settings, what a rule is allowed to see,
    and the rule type.  A rule may write to the argument map of the event it
    judges, and that map is shared: by the context of the next rule and by
    every alert already built from the event.  [rule_Eval] therefore returns,
    beside the alert, the map as the rule left it. *)

From S2P Require Import Prelude GoStrings GoTime Syscalls Events Alerts Tracker.

(** The operating system behind [os.Stat] and [os.Getpid]: the file mode of a
    path when it can be examined, and the agent's own process id. *)
Class Host := { os_Stat : string -> option Z; os_Getpid : Z }.

Definition RuleNamePrivilegeEscalation : string := "privilege-escalation".
Definition RuleNameSensitiveFile : string := "sensitive-file-access".
Definition RuleNameProcessInjection : string := "process-injection".
Definition RuleNameReverseShell : string := "reverse-shell".
Definition RuleNameAttackChain : string := "attack-chain".

(** [type ProcLookup func(pid uint32) (ppid uint32, comm string, ok bool)] *)
Definition ProcLookup : Type := Z -> option (Z * string).

Record StorylineConfig := mkStorylineConfig {
  sc_Enabled : bool;
  sc_Threshold : Z;
  sc_Window : Z;
  sc_Lookup : option ProcLookup
}.

Definition DefaultStorylineConfig : StorylineConfig := {|
  sc_Enabled := true;
  sc_Threshold := 3;
  sc_Window := 10 * Minute;
  sc_Lookup := None
|}.

(** [type StatFunc]: of the [fs.FileInfo] only the mode is used; [None] is any
    error. *)
Definition StatFunc : Type := string -> option Z.

(** A nil [Stat] field is [None]. *)
Record Config := mkConfig {
  cfg_RevShellWindow : Z;
  cfg_DebuggerComms : list string;
  cfg_IgnoreLoopback : bool;
  cfg_IgnoreSelfProc : bool;
  cfg_Stat : option StatFunc;
  cfg_DedupWindow : Z;
  cfg_Storyline : StorylineConfig;
  cfg_SelfPID : Z
}.

Definition DefaultConfig `{Host} : Config := {|
  cfg_RevShellWindow := 2 * Second;
  cfg_DebuggerComms := ["gdb"; "gdbserver"; "strace"; "ltrace"; "lldb"; "lldb-server"];
  cfg_IgnoreLoopback := false;
  cfg_IgnoreSelfProc := false;
  cfg_Stat := Some os_Stat;
  cfg_DedupWindow := 5 * Second;
  cfg_Storyline := DefaultStorylineConfig;
  cfg_SelfPID := u32 os_Getpid
|}.

(** [c.Config.Stat(path)]; calling a nil function panics, which [NewEngine]
    rules out by installing [os.Stat]. *)
Definition stat_mode (cfg : Config) (path : string) : option Z :=
  match cfg_Stat cfg with Some f => f path | None => None end.

Record Context := mkContext {
  ctx_Event : Event;
  ctx_History : option ProcessHistory;
  ctx_Config : Config
}.

Abbreviation Args := (gmap string string) (only parsing).

Record Rule := mkRule {
  rule_Name : string;
  rule_Description : string;
  rule_Techniques : list Technique;
  rule_Eval : Context -> option Alert * Args
}.

(** What a rule that writes nothing returns. *)
Definition silent (c : Context) : option Alert * Args := (None, ev_Args (ctx_Event c)).

(** Both results of a rule are determined by its inputs: [fires c r] reads off
    whether there is an alert. *)
Definition fires (r : option Alert * Args) : bool := bool_decide (is_Some (fst r)).

Lemma fires_Some a m : fires (Some a, m) = true.
Proof. unfold fires. by rewrite bool_decide_eq_true_2. Qed.
Lemma fires_None m : fires (None, m) = false.
Proof. unfold fires. rewrite bool_decide_eq_false_2; [done|]. by intros [? ?]. Qed.
#[export] Hint Rewrite fires_Some fires_None : krnl_w.

(** ** What every rule promises the engine

    A rule is silent on return probes; leaves the event's arguments alone when
    it is silent; builds its alert with [newAlert] from the event, under its own
    name and one of its declared techniques; writes only the argument keys
    [keys]; and decides without reading the arguments. *)
Definition alert_by (r : Rule) (ev : Event) (a : Alert) : Prop :=
  exists tech sev desc, tech ∈ rule_Techniques r /\ SeverityMedium <= sev <= SeverityCritical /\
    a = newAlert ev (rule_Name r) tech sev desc.

Definition ctx_set_Args (c : Context) (m : Args) : Context :=
  mkContext (set_Args (ctx_Event c) m) (ctx_History c) (ctx_Config c).

Class LawfulRule (r : Rule) (keys : list string) := {
  lawful_exit c : ev_IsExit (ctx_Event c) = true -> fst (rule_Eval r c) = None;
  lawful_silent c : fst (rule_Eval r c) = None -> snd (rule_Eval r c) = ev_Args (ctx_Event c);
  lawful_alert c a : fst (rule_Eval r c) = Some a -> alert_by r (ctx_Event c) a;
  lawful_args c k : k ∉ keys -> snd (rule_Eval r c) !! k = ev_Args (ctx_Event c) !! k;
  lawful_blind c m : fst (rule_Eval r (ctx_set_Args c m)) = fst (rule_Eval r c)
}.

(** Proves [lawful_blind] once the rule is unfolded: both sides take the same
    branches. *)
Ltac blind_cases c :=
  destruct c as [[] ? ?]; unfold ctx_set_Args, set_Args;
  cbn [ctx_Event ctx_Config ctx_History ev_Timestamp ev_Wall ev_PID ev_TID ev_TGID ev_UID ev_GID
       ev_PPID ev_Comm ev_Syscall ev_SyscallID ev_Args ev_ReturnValue ev_IsExit ev_Arg0 ev_Arg1
       ev_Arg2 ev_Path ev_Argv ev_DestIP ev_DestPort ev_Family];
  repeat (case_match; try reflexivity).

(** The event an alert was built from shows in the alert's identity fields. *)
Lemma alert_by_identity r ev a :
  alert_by r ev a ->
  al_PID a = ev_PID ev /\ al_PPID a = ev_PPID ev /\ al_UID a = ev_UID ev /\ al_Comm a = ev_Comm ev /\
  al_Syscall a = ev_Syscall ev /\ al_Timestamp a = ev_Wall ev /\ al_Rule a = rule_Name r /\
  al_Args a = EventArgs /\ al_Suppressed a = 0 /\ al_Storyline a = "" /\ al_Story a = [].
Proof. by intros (t & s & d & _ & _ & ->). Qed.

(** A context's event after a write to its arguments. *)
Lemma set_Args_proj ev m : ev_Args (set_Args ev m) = m.
Proof. done. Qed.
