(* ===== verification/PrivEsc.v ===== *)
(** * Rule 5.1, privilege escalation ([detect/privesc.go]) *)

From S2P Require Import Prelude GoStrings GoTime Syscalls Constants Events Alerts Tracker Config.

Section privesc.
Context `{UnicodeTables}.

Definition uidUnchanged : Z := -1.

(** [procLabel] *)
Definition procLabel (ev : Event) : string :=
  Quote (ev_Comm ev) +:+ " (PID " +:+ fmt_d (ev_PID ev) +:+ ", UID " +:+ fmt_d (ev_UID ev) +:+ ")".

(** [fs.FileMode]'s bits and its [String] and [Perm] methods. *)
Definition ModeSetuid : Z := Z.shiftl 1 23.
Definition ModeSetgid : Z := Z.shiftl 1 22.
Definition FileMode_Perm (m : Z) : Z := Z.land m (oct 777).

Fixpoint mode_letters (m : Z) (bit : Z) (letters : string) (blank : string) : string :=
  match letters with
  | EmptyString => ""
  | String c rest =>
      (if negb (Z.land m (Z.shiftl 1 bit) =? 0) then str1 c else blank)
      +:+ mode_letters m (bit - 1) rest blank
  end.

Definition FileMode_String (m : Z) : string :=
  let ty := mode_letters m 31 "dalTLDpSugct?" "" in
  (if ty ==s "" then "-" else ty) +:+ mode_letters m 8 "rwxrwxrwx" "-".

(** [formatMode] *)
Definition formatMode (mode : Z) : string :=
  FileMode_String mode +:+ " (0" +:+ fmt_o (FileMode_Perm mode) +:+ ")".

Definition evalSetuid (ev : Event) : option Alert :=
  if negb (ev_Arg0 ev =? 0) then None
  else Some (newAlert ev RuleNamePrivilegeEscalation TechAbuseElevation SeverityHigh
    ("Process " +:+ procLabel ev +:+ " called setuid(0) — possible privilege escalation attempt")).

(** The loop over [targets] of [evalSetresuid] and [evalSetresgid]. *)
Definition requested_ids (targets : list (string * Z)) : list string :=
  foldl (fun requested t =>
    if snd t =? uidUnchanged then requested
    else if snd t =? 0 then requested ++ [fst t] else requested) [] targets.

Definition evalSetresuid (ev : Event) : option Alert :=
  let requested := requested_ids [("ruid", ev_Arg0 ev); ("euid", ev_Arg1 ev); ("suid", ev_Arg2 ev)] in
  if (length requested =? 0)%nat then None
  else Some (newAlert ev RuleNamePrivilegeEscalation TechAbuseElevation SeverityHigh
    ("Process " +:+ procLabel ev +:+ " called setresuid() requesting root for "
     +:+ Join requested ", " +:+ " — possible privilege escalation attempt")).

Definition evalSetgid (ev : Event) : option Alert :=
  if negb (ev_Arg0 ev =? 0) then None
  else Some (newAlert ev RuleNamePrivilegeEscalation TechAbuseElevation SeverityHigh
    ("Process " +:+ procLabel ev +:+ " called setgid(0) — possible privilege escalation attempt")).

Definition evalSetresgid (ev : Event) : option Alert :=
  let requested := requested_ids [("rgid", ev_Arg0 ev); ("egid", ev_Arg1 ev); ("sgid", ev_Arg2 ev)] in
  if (length requested =? 0)%nat then None
  else Some (newAlert ev RuleNamePrivilegeEscalation TechAbuseElevation SeverityHigh
    ("Process " +:+ procLabel ev +:+ " called setresgid() requesting group root for "
     +:+ Join requested ", " +:+ " — possible privilege escalation attempt")).

Definition evalCapset (ev : Event) : option Alert :=
  Some (newAlert ev RuleNamePrivilegeEscalation TechAbuseElevation SeverityHigh
    ("Process " +:+ procLabel ev +:+ " called capset() as a non-root user — possible capability manipulation")).

Definition suid_bits (mode : Z) : list string :=
  let bits := [] in
  let bits := if negb (Z.land mode ModeSetuid =? 0) then bits ++ ["setuid"] else bits in
  if negb (Z.land mode ModeSetgid =? 0) then bits ++ ["setgid"] else bits.

Definition evalSuidExec (c : Context) : option Alert * Args :=
  let ev := ctx_Event c in
  let path := ev_Path ev in
  if (path ==s "") || negb (HasPrefix path "/") then silent c
  else
    match stat_mode (ctx_Config c) path with
    | None => silent c
    | Some mode =>
        let bits := suid_bits mode in
        if (length bits =? 0)%nat then silent c
        else
          let ev := put_arg "file_mode" (formatMode mode) ev in
          let ev := put_arg "suid_bits" (Join bits ",") ev in
          (Some (newAlert ev RuleNamePrivilegeEscalation TechSetuidSetgid SeverityHigh
             ("Process " +:+ procLabel ev +:+ " executed " +:+ Join bits "/" +:+ " binary "
              +:+ Quote path +:+ " — possible privilege escalation via elevated executable")),
           ev_Args ev)
    end.

Definition evalPrivilegeEscalation (c : Context) : option Alert * Args :=
  let ev := ctx_Event c in
  if ev_IsExit ev then silent c
  else if ev_UID ev =? 0 then silent c
  else if ev_SyscallID ev =? SysSetuid then (evalSetuid ev, ev_Args ev)
  else if ev_SyscallID ev =? SysSetresuid then (evalSetresuid ev, ev_Args ev)
  else if ev_SyscallID ev =? SysSetgid then (evalSetgid ev, ev_Args ev)
  else if ev_SyscallID ev =? SysSetresgid then (evalSetresgid ev, ev_Args ev)
  else if ev_SyscallID ev =? SysCapset then (evalCapset ev, ev_Args ev)
  else if (ev_SyscallID ev =? SysExecve) || (ev_SyscallID ev =? SysExecveat) then evalSuidExec c
  else silent c.

Definition rulePrivilegeEscalation : Rule := {|
  rule_Name := RuleNamePrivilegeEscalation;
  rule_Description := "Non-root process attempting to acquire root identity or capabilities";
  rule_Techniques := [TechAbuseElevation; TechSetuidSetgid; TechExploitPrivEsc];
  rule_Eval := evalPrivilegeEscalation
|}.

(** ** What the rule is for *)

(** A request of root identity, stated on the event: what counts as an attempt
    for each system call. *)
Definition requests_root (cfg : Config) (ev : Event) : Prop :=
  (ev_SyscallID ev = SysSetuid \/ ev_SyscallID ev = SysSetgid) /\ ev_Arg0 ev = 0 \/
  (ev_SyscallID ev = SysSetresuid \/ ev_SyscallID ev = SysSetresgid) /\
    0 ∈ [ev_Arg0 ev; ev_Arg1 ev; ev_Arg2 ev] \/
  ev_SyscallID ev = SysCapset \/
  (ev_SyscallID ev = SysExecve \/ ev_SyscallID ev = SysExecveat) /\
    HasPrefix (ev_Path ev) "/" = true /\
    exists mode, stat_mode cfg (ev_Path ev) = Some mode /\ (Z.testbit mode 23 = true \/ Z.testbit mode 22 = true).

(** ** Lemmas *)

Lemma land_pow2_testbit m n : 0 <= n -> negb (Z.land m (Z.shiftl 1 n) =? 0) = Z.testbit m n.
Proof.
  intros Hn. rewrite Z.shiftl_1_l. apply eq_true_iff_eq. rewrite negb_true_iff, Z.eqb_neq. split.
  - intros Hl. destruct (Z.testbit m n) eqn:E; [done|]. exfalso. apply Hl, Z.bits_inj'. intros k Hk.
    rewrite Z.land_spec, Z.pow2_bits_eqb, Z.bits_0 by lia.
    destruct (Z.eqb_spec n k) as [->|]; [by rewrite E|apply andb_false_r].
  - intros Hb Hl. apply (f_equal (fun z => Z.testbit z n)) in Hl.
    rewrite Z.land_spec, Hb, Z.pow2_bits_true, Z.bits_0 in Hl; done.
Qed.

(** The ids asked for are the ones that are zero. *)
Lemma requested_ids_filter targets :
  requested_ids targets = fst <$> filter (fun t => snd t = 0) targets.
Proof.
  unfold requested_ids.
  assert (forall acc, foldl (fun requested t =>
      if snd t =? uidUnchanged then requested
      else if snd t =? 0 then requested ++ [fst t] else requested) acc targets
    = acc ++ (fst <$> filter (fun t => snd t = 0) targets)) as Hg; [|apply Hg].
  induction targets as [|t ts IH]; intros acc; cbn [foldl]; [by rewrite app_nil_r|].
  rewrite IH, filter_cons. unfold uidUnchanged.
  destruct (snd t =? -1) eqn:E1; [bool_prop; by rewrite decide_False by lia|].
  destruct (snd t =? 0) eqn:E2; bool_prop; case_decide; try lia; [|done].
  by rewrite <- app_assoc.
Qed.

Lemma requested_ids_none targets :
  (length (requested_ids targets) =? 0)%nat = false <-> 0 ∈ targets.*2.
Proof.
  rewrite requested_ids_filter, length_fmap, Nat.eqb_neq. split.
  - intros Hl. destruct (filter _ _) as [|t l] eqn:E; [done|].
    assert (t ∈ filter (fun t => snd t = 0) targets) as Ht by (rewrite E; apply list_elem_of_here).
    apply list_elem_of_filter in Ht as [Hz Ht]. apply list_elem_of_fmap. by exists t.
  - intros ([n z] & Hz & Hin)%list_elem_of_fmap Hl. cbn in Hz; subst z.
    apply length_zero_iff_nil in Hl.
    assert ((n, 0) ∈ filter (fun t => snd t = 0) targets) as Ht by (by apply list_elem_of_filter).
    rewrite Hl in Ht. by apply not_elem_of_nil in Ht.
Qed.

Lemma suid_bits_none mode :
  (length (suid_bits mode) =? 0)%nat = false <-> Z.testbit mode 23 = true \/ Z.testbit mode 22 = true.
Proof.
  unfold suid_bits, ModeSetuid, ModeSetgid. rewrite !land_pow2_testbit by lia.
  destruct (Z.testbit mode 23), (Z.testbit mode 22); cbn; naive_solver.
Qed.

(** What one branch of the rule says, as a relation between its result and the
    condition it decides. *)
Definition decides (c : Context) (P : Prop) (r : option Alert * Args) : Prop :=
  match fst r with
  | Some a => P /\ alert_by rulePrivilegeEscalation (ctx_Event c) a /\ al_Severity a = SeverityHigh
  | None => ~ P /\ snd r = ev_Args (ctx_Event c)
  end.

Lemma decides_silent c (P : Prop) : ~ P -> decides c P (silent c).
Proof. done. Qed.

Lemma alert_by_privesc ev tech desc :
  tech ∈ rule_Techniques rulePrivilegeEscalation ->
  alert_by rulePrivilegeEscalation ev (newAlert ev RuleNamePrivilegeEscalation tech SeverityHigh desc).
Proof.
  intros Ht. exists tech, SeverityHigh, desc. split_and!; [done|unfold SeverityMedium, SeverityHigh; lia|
    unfold SeverityCritical, SeverityHigh; lia|reflexivity].
Qed.

Lemma privesc_tech_abuse : TechAbuseElevation ∈ rule_Techniques rulePrivilegeEscalation.
Proof. left. Qed.
Lemma privesc_tech_suid : TechSetuidSetgid ∈ rule_Techniques rulePrivilegeEscalation.
Proof. right; left. Qed.
#[local] Hint Resolve alert_by_privesc privesc_tech_abuse privesc_tech_suid : krnl.

(** The branches that return [Some alert] or [None] by a test [b] of [P]. *)
Lemma decides_guard c (P : Prop) (b : bool) tech desc :
  (b = false <-> P) -> tech ∈ rule_Techniques rulePrivilegeEscalation ->
  decides c P (if b then None
    else Some (newAlert (ctx_Event c) RuleNamePrivilegeEscalation tech SeverityHigh desc),
    ev_Args (ctx_Event c)).
Proof.
  intros Hb Ht. destruct b; cbn.
  - split; [|done]. intros HP. by apply Hb in HP.
  - split; [by apply Hb|]. split; [by apply alert_by_privesc|done].
Qed.

Lemma decides_iff c P Q r : (P <-> Q) -> decides c P r -> decides c Q r.
Proof. unfold decides. destruct (fst r); naive_solver. Qed.

Definition suid_exec (cfg : Config) (ev : Event) : Prop :=
  HasPrefix (ev_Path ev) "/" = true /\
  exists mode, stat_mode cfg (ev_Path ev) = Some mode /\ (Z.testbit mode 23 = true \/ Z.testbit mode 22 = true).

Lemma evalSuidExec_decides c : decides c (suid_exec (ctx_Config c) (ctx_Event c)) (evalSuidExec c).
Proof.
  unfold evalSuidExec, suid_exec. set (ev := ctx_Event c).
  destruct (HasPrefix (ev_Path ev) "/") eqn:Hp; cbn [negb].
  2: { rewrite orb_true_r. apply decides_silent. by intros [? _]. }
  destruct (ev_Path ev ==s "") eqn:He; [bool_prop; by rewrite He in Hp|]. cbn [orb].
  destruct (stat_mode (ctx_Config c) (ev_Path ev)) as [mode|] eqn:Hs.
  2: { apply decides_silent. intros (_ & m & Hm & _). congruence. }
  destruct (length (suid_bits mode) =? 0)%nat eqn:Hb.
  - apply decides_silent. intros (_ & m & Hm & Hbits). injection Hm as <-.
    apply suid_bits_none in Hbits. congruence.
  - apply suid_bits_none in Hb. unfold decides; cbn [fst]. split; [eauto|].
    split; [|reflexivity]. apply (alert_by_privesc ev); auto with krnl.
Qed.

Definition privesc_attempt (c : Context) : Prop :=
  ev_IsExit (ctx_Event c) = false /\ ev_UID (ctx_Event c) <> 0 /\
  requests_root (ctx_Config c) (ctx_Event c).

Lemma evalPrivilegeEscalation_decides c : decides c (privesc_attempt c) (evalPrivilegeEscalation c).
Proof.
  unfold evalPrivilegeEscalation, privesc_attempt, requests_root. set (ev := ctx_Event c).
  destruct (ev_IsExit ev); [apply decides_silent; naive_solver|].
  destruct (ev_UID ev =? 0) eqn:Eu; [bool_prop; apply decides_silent; naive_solver|]. apply Z.eqb_neq in Eu.
  unfold SysSetuid, SysSetresuid, SysSetgid, SysSetresgid, SysCapset, SysExecve, SysExecveat.
  destruct (ev_SyscallID ev =? 4) eqn:E1; [bool_prop|].
  { apply decides_guard; [|apply privesc_tech_abuse]. rewrite negb_false_iff, Z.eqb_eq. rewrite E1. naive_solver lia. }
  destruct (ev_SyscallID ev =? 6) eqn:E2; [bool_prop|].
  { apply decides_guard; [|apply privesc_tech_abuse]. rewrite requested_ids_none. rewrite E2. naive_solver lia. }
  destruct (ev_SyscallID ev =? 5) eqn:E3; [bool_prop|].
  { apply decides_guard; [|apply privesc_tech_abuse]. rewrite negb_false_iff, Z.eqb_eq. rewrite E3. naive_solver lia. }
  destruct (ev_SyscallID ev =? 7) eqn:E4; [bool_prop|].
  { apply decides_guard; [|apply privesc_tech_abuse]. rewrite requested_ids_none. rewrite E4. naive_solver lia. }
  destruct (ev_SyscallID ev =? 13) eqn:E5; [bool_prop|].
  { apply (decides_guard c _ false); [|apply privesc_tech_abuse]. naive_solver lia. }
  destruct ((ev_SyscallID ev =? 1) || (ev_SyscallID ev =? 2)) eqn:E6.
  - eapply decides_iff; [|apply evalSuidExec_decides]. fold ev. unfold suid_exec. bool_prop.
    destruct E6; bool_prop; naive_solver lia.
  - apply decides_silent. bool_prop. intros (_ & _ & Hr). naive_solver lia.
Qed.

Lemma evalPrivilegeEscalation_args c k :
  k ∉ ["file_mode"; "suid_bits"] ->
  snd (evalPrivilegeEscalation c) !! k = ev_Args (ctx_Event c) !! k.
Proof.
  intros Hk. unfold evalPrivilegeEscalation, evalSuidExec, silent.
  repeat (case_match; try reflexivity). cbn [snd]. unfold put_arg. cbn [ev_Args set_Args].
  rewrite !lookup_insert_ne by set_solver. reflexivity.
Qed.

#[export] Instance rulePrivilegeEscalation_lawful :
  LawfulRule rulePrivilegeEscalation ["file_mode"; "suid_bits"].
Proof.
  split; cbn [rule_Eval rulePrivilegeEscalation].
  - intros c Hx. unfold evalPrivilegeEscalation. by rewrite Hx.
  - intros c Hn. pose proof (evalPrivilegeEscalation_decides c) as Hd. unfold decides in Hd.
    rewrite Hn in Hd. apply Hd.
  - intros c a Ha. pose proof (evalPrivilegeEscalation_decides c) as Hd. unfold decides in Hd.
    rewrite Ha in Hd. apply Hd.
  - apply evalPrivilegeEscalation_args.
  - intros c m. unfold evalPrivilegeEscalation, evalSuidExec, silent. blind_cases c.
Qed.

(** ** Properties *)

(** C10: the privilege-escalation rule is exact.  It alerts on an event if and
    only if the event is a system-call entry of a process that is not root and
    requests root identity: [setuid]/[setgid] of 0, a [setresuid]/[setresgid]
    with 0 among its three ids, any [capset], or the execution of an absolute
    path whose file can be examined and has the setuid or setgid bit.  The alert
    is a HIGH one about this event; when there is none the event's arguments are
    untouched. *)
Theorem privesc_exact c :
  match evalPrivilegeEscalation c with
  | (Some a, _) =>
      privesc_attempt c /\ alert_by rulePrivilegeEscalation (ctx_Event c) a /\ al_Severity a = SeverityHigh
  | (None, m) => ~ privesc_attempt c /\ m = ev_Args (ctx_Event c)
  end.
Proof.
  pose proof (evalPrivilegeEscalation_decides c) as Hd. unfold decides in Hd.
  by destruct (evalPrivilegeEscalation c) as [[a|] m].
Qed.
End privesc.
