(* ===== verification/Ptrace.v ===== *)
(** * Rule 5.3, process injection via ptrace ([detect/ptrace.go]) *)

From S2P Require Import Prelude GoStrings GoTime Syscalls Constants Events Alerts Tracker Config PrivEsc.

Section ptrace.
Context `{UnicodeTables}.

Definition injectionRequests : list (Z * string) :=
  [ (PtraceAttach, "attaching to another process");
    (PtraceSeize, "seizing another process");
    (PtracePoketext, "writing to another process's text segment");
    (PtracePokedata, "writing to another process's data segment");
    (PtracePokeuser, "writing to another process's user area");
    (PtraceSetregs, "overwriting another process's registers");
    (PtraceSetregset, "overwriting another process's registers");
    (PtraceSetfpregs, "overwriting another process's FP registers") ].

Fixpoint isKnownDebugger (comm : string) (allowlist : list string) : bool :=
  match allowlist with
  | [] => false
  | name :: rest => if comm ==s name then true else isKnownDebugger comm rest
  end.

Definition evalPtraceInjection (c : Context) : option Alert * Args :=
  let ev := ctx_Event c in
  if ev_IsExit ev || negb (ev_SyscallID ev =? SysPtrace) then silent c
  else
    match assoc (ev_Arg0 ev) injectionRequests with
    | None => silent c
    | Some action =>
        if ev_Arg1 ev =? i64 (ev_PID ev) then silent c
        else if isKnownDebugger (ev_Comm ev) (cfg_DebuggerComms (ctx_Config c)) then silent c
        else
          let ev := put_arg "action" action ev in
          (Some (newAlert ev RuleNameProcessInjection TechPtraceInjection SeverityHigh
             ("Process " +:+ procLabel ev +:+ " called ptrace(" +:+ PtraceRequestName (ev_Arg0 ev)
              +:+ ") against PID " +:+ fmt_d (ev_Arg1 ev) +:+ " — " +:+ action
              +:+ ", possible process injection")),
           ev_Args ev)
    end.

Definition rulePtraceInjection : Rule := {|
  rule_Name := RuleNameProcessInjection;
  rule_Description := "ptrace used to attach to or write into another process";
  rule_Techniques := [TechProcessInjection; TechPtraceInjection];
  rule_Eval := evalPtraceInjection
|}.

(** ** Lemmas *)

Lemma isKnownDebugger_spec comm l : isKnownDebugger comm l = true <-> comm ∈ l.
Proof.
  induction l as [|n l IH]; cbn; [split; [done|set_solver]|]. rewrite elem_of_cons, <- IH.
  destruct (String.eqb_spec comm n); naive_solver.
Qed.

(** The numbers, in [ptrace(2)], of the requests that take another process over
    or write into it: POKETEXT, POKEDATA, POKEUSER, SETREGS, SETFPREGS, ATTACH,
    SETREGSET and SEIZE. *)
Definition takeover_requests : list Z := [4; 5; 6; 13; 15; 16; 0x4205; 0x4206].

Lemma injectionRequests_takeover q : q ∈ injectionRequests.*1 <-> q ∈ takeover_requests.
Proof.
  assert (Hall : Forall (.∈ takeover_requests) injectionRequests.*1 /\ Forall (.∈ injectionRequests.*1) takeover_requests) by by_compute.
  rewrite !Forall_forall in Hall. split; intros ?; by apply Hall.
Qed.

(** A taking-over or writing request aimed at another process by something
    that is not a listed debugger. *)
Definition injection_attempt (c : Context) : Prop :=
  let ev := ctx_Event c in
  ev_IsExit ev = false /\ ev_SyscallID ev = SysPtrace /\ ev_Arg0 ev ∈ takeover_requests /\
  ev_Arg1 ev <> i64 (ev_PID ev) /\ ev_Comm ev ∉ cfg_DebuggerComms (ctx_Config c).

Lemma evalPtraceInjection_decides c :
  match fst (evalPtraceInjection c) with
  | Some a =>
      injection_attempt c /\ alert_by rulePtraceInjection (ctx_Event c) a /\ al_Severity a = SeverityHigh /\
      (exists action, (ev_Arg0 (ctx_Event c), action) ∈ injectionRequests /\
         snd (evalPtraceInjection c) = <["action" := action]> (ev_Args (ctx_Event c)))
  | None => ~ injection_attempt c /\ snd (evalPtraceInjection c) = ev_Args (ctx_Event c)
  end.
Proof.
  unfold evalPtraceInjection, injection_attempt. set (ev := ctx_Event c).
  destruct (ev_IsExit ev); [cbn; naive_solver|].
  destruct (ev_SyscallID ev =? SysPtrace) eqn:Es; bool_prop; cbn [negb orb]; [|cbn; naive_solver].
  destruct (assoc (ev_Arg0 ev) injectionRequests) as [action|] eqn:Ea.
  2: { apply assoc_None in Ea. rewrite injectionRequests_takeover in Ea. split; [tauto|done]. }
  destruct (ev_Arg1 ev =? i64 (ev_PID ev)) eqn:Ep; bool_prop; [split; [tauto|done]|].
  destruct (isKnownDebugger _ _) eqn:Ed.
  { apply isKnownDebugger_spec in Ed. split; [tauto|done]. }
  assert (ev_Comm ev ∉ cfg_DebuggerComms (ctx_Config c)) by (rewrite <- isKnownDebugger_spec; congruence).
  apply assoc_Some_elem in Ea. cbn [fst snd]. split_and!.
  - done.
  - done.
  - apply injectionRequests_takeover. by apply (list_elem_of_fmap_2 fst) in Ea.
  - done.
  - done.
  - eexists _, _, _. split_and!; [right; left|..| reflexivity]; unfold SeverityMedium, SeverityCritical, SeverityHigh; lia.
  - reflexivity.
  - exists action. split; [done|reflexivity].
Qed.

#[export] Instance rulePtraceInjection_lawful : LawfulRule rulePtraceInjection ["action"].
Proof.
  split; cbn [rule_Eval rulePtraceInjection].
  - intros c Hx. unfold evalPtraceInjection. by rewrite Hx.
  - intros c Hn. pose proof (evalPtraceInjection_decides c) as Hd. rewrite Hn in Hd. apply Hd.
  - intros c a Ha. pose proof (evalPtraceInjection_decides c) as Hd. rewrite Ha in Hd. apply Hd.
  - intros c k Hk. pose proof (evalPtraceInjection_decides c) as Hd.
    destruct (fst (evalPtraceInjection c)).
    + destruct Hd as (_ & _ & _ & action & _ & ->). by rewrite lookup_insert_ne by set_solver.
    + by destruct Hd as [_ ->].
  - intros c m. unfold evalPtraceInjection, silent. blind_cases c.
Qed.

(** ** Properties *)

(** C12: the injection rule is exact.  It alerts if and only if the event is the
    entry of a [ptrace] whose request attaches to, seizes or writes into the
    target (one of the eight [takeover_requests], the system's own numbers), the
    target is not the caller itself, and the caller's name is not one of the
    configured debuggers (compared exactly).  The alert is a HIGH one
    about this event and the only argument written is [action], the request's
    entry in the table; otherwise nothing is written. *)
Theorem ptrace_exact c :
  match evalPtraceInjection c with
  | (Some a, m) =>
      injection_attempt c /\ alert_by rulePtraceInjection (ctx_Event c) a /\ al_Severity a = SeverityHigh /\
      (exists action, (ev_Arg0 (ctx_Event c), action) ∈ injectionRequests /\
         m = <["action" := action]> (ev_Args (ctx_Event c)))
  | (None, m) => ~ injection_attempt c /\ m = ev_Args (ctx_Event c)
  end.
Proof.
  pose proof (evalPtraceInjection_decides c) as Hd.
  by destruct (evalPtraceInjection c) as [[a|] m].
Qed.
End ptrace.
