(* ===== verification/RevShell.v ===== *)
(** * Rule 5.4, the reverse-shell system-call chain ([detect/revshell.go])

    Go's [map[int64]bool] of redirected descriptors only ever holds [true], so
    it is the set of its keys; ranging over it in Go's random order cannot be
    seen, because the names are sorted before use. *)

From S2P Require Import Prelude GoStrings GoTime Syscalls Constants Events Alerts Tracker Config PrivEsc.

Definition minRedirectedFDs : nat := 2.

(** [type chainMatch struct] *)
Record chainMatch := mkChainMatch {
  cm_startTS : Z;
  cm_destIP : string;
  cm_destPort : Z;
  cm_redirected : gset Z;
  cm_fdConfirmed : bool
}.

Definition noMatch : chainMatch := mkChainMatch 0 "" 0 ∅ false.

(** [chainMatch.destination] *)
Definition destination (c : chainMatch) : string :=
  if cm_destIP c ==s "" then "" else cm_destIP c +:+ ":" +:+ fmt_d (cm_destPort c).

Definition destSuffix (dest : string) : string := if dest ==s "" then "" else " to " +:+ dest.

(** ** [findChain]

    The locals of the first loop. *)
Record scan := mkScan {
  sn_startTS : Z;
  sn_destIP : string;
  sn_destPort : Z;
  sn_socketIdx : Z;
  sn_connectIdx : Z;
  sn_socketFD : Z
}.

Definition scan_init : scan := mkScan 0 "" 0 (-1) (-1) (-1).

Definition scan_entry (i : Z) (e : HistoryEntry) (st : scan) : scan :=
  if (he_Syscall e =? SysSocket) && negb (he_IsExit e) then
    if sn_socketIdx st <? 0
    then mkScan (he_Timestamp e) (sn_destIP st) (sn_destPort st) i (sn_connectIdx st) (sn_socketFD st)
    else st
  else if (he_Syscall e =? SysSocket) && he_IsExit e then
    if (sn_socketIdx st >=? 0) && (sn_socketFD st <? 0) && (he_Ret e >=? 0)
    then mkScan (sn_startTS st) (sn_destIP st) (sn_destPort st) (sn_socketIdx st) (sn_connectIdx st) (he_Ret e)
    else st
  else if (he_Syscall e =? SysConnect) && negb (he_IsExit e) then
    if (sn_socketIdx st >=? 0) && (sn_connectIdx st <? 0)
    then mkScan (sn_startTS st) (he_DestIP e) (he_DestPort e) (sn_socketIdx st) i (sn_socketFD st)
    else st
  else st.

Fixpoint scan_loop (i : Z) (hist : list HistoryEntry) (st : scan) : scan :=
  match hist with
  | [] => st
  | e :: hist' => scan_loop (i + 1) hist' (scan_entry i e st)
  end.

(** The second loop: [redirected] and [fdConfirmed]. *)
Definition redirect_entry (socketFD : Z) (acc : gset Z * bool) (e : HistoryEntry) : gset Z * bool :=
  if negb (IsDup (he_Syscall e)) || he_IsExit e then acc
  else if StdFdName (he_Arg1 e) ==s "" then acc
  else ({[ he_Arg1 e ]} ∪ fst acc,
        if (socketFD >=? 0) && (he_Arg0 e =? socketFD) then true else snd acc).

Definition findChain (hist : list HistoryEntry) : chainMatch * bool :=
  let st := scan_loop 0 hist scan_init in
  if (sn_socketIdx st <? 0) || (sn_connectIdx st <? 0) then (noMatch, false)
  else
    let '(redirected, fdConfirmed) :=
      foldl (redirect_entry (sn_socketFD st)) (∅, false) (drop (Z.to_nat (sn_connectIdx st + 1)) hist) in
    if (size redirected <? minRedirectedFDs)%nat then (noMatch, false)
    else (mkChainMatch (sn_startTS st) (sn_destIP st) (sn_destPort st) redirected fdConfirmed, true).

Definition isLoopback (ip : string) : bool := HasPrefix ip "127." || (ip ==s "::1").

(** ** The rule *)
Section revshell.
Context `{UnicodeTables}.

(** The names of the redirected descriptors, for the order the map is ranged
    over in. *)
Definition fd_name (fd : Z) : string :=
  let name := StdFdName fd in if negb (name ==s "") then name else fmt_d fd.
Definition redirected_names (order : list Z) : list string := SortStrings (fd_name <$> order).

Definition evalReverseShell (c : Context) : option Alert * Args :=
  let ev := ctx_Event c in
  if ev_IsExit ev || negb (IsExecution (ev_SyscallID ev)) then silent c
  else
    let window := cfg_RevShellWindow (ctx_Config c) in
    let hist := Within (ctx_History c) (ev_Timestamp ev) window in
    if (length hist =? 0)%nat then silent c
    else
      let '(chain, ok) := findChain hist in
      if negb ok then silent c
      else if cfg_IgnoreLoopback (ctx_Config c) && isLoopback (cm_destIP chain) then silent c
      else
        let fds := redirected_names (elements (cm_redirected chain)) in
        let duration := fmt_d (millis (ev_Timestamp ev - cm_startTS chain)) in
        let ev := put_arg "chain_redirected" (Join fds ",") ev in
        let ev := put_arg "chain_duration_ms" duration ev in
        let ev := put_arg "chain_socket_fd_confirmed" (FormatBool (cm_fdConfirmed chain)) ev in
        let dest := destination chain in
        let ev := if negb (dest ==s "") then put_arg "chain_dest" dest ev else ev in
        (Some (newAlert ev RuleNameReverseShell TechCommandInterpreter SeverityCritical
           ("Process " +:+ procLabel ev +:+ " completed socket → connect" +:+ destSuffix dest
            +:+ " → dup2(" +:+ Join fds "," +:+ ") → execve(" +:+ Quote (ev_Path ev) +:+ ") in "
            +:+ duration +:+ "ms — reverse shell pattern")),
         ev_Args ev).

Definition ruleReverseShell : Rule := {|
  rule_Name := RuleNameReverseShell;
  rule_Description := "socket → connect → dup2(std fds) → execve sequence within one process";
  rule_Techniques := [TechCommandInterpreter; TechAppLayerProtocol];
  rule_Eval := evalReverseShell
|}.
End revshell.

(** ** The chain, declaratively *)

Definition is_socket (e : HistoryEntry) : bool := (he_Syscall e =? SysSocket) && negb (he_IsExit e).
Definition is_socket_ret (e : HistoryEntry) : bool :=
  (he_Syscall e =? SysSocket) && he_IsExit e && (0 <=? he_Ret e).
Definition is_connect (e : HistoryEntry) : bool := (he_Syscall e =? SysConnect) && negb (he_IsExit e).

(** A [dup2]/[dup3] entry onto a standard descriptor. *)
Definition is_redirect (e : HistoryEntry) : bool :=
  IsDup (he_Syscall e) && negb (he_IsExit e) && bool_decide (he_Arg1 e ∈ [0; 1; 2]).

(** The descriptor the first successful [socket] return in [h] gave. *)
Definition socket_fd (h : list HistoryEntry) : option Z := he_Ret <$> find_first is_socket_ret h.

(** [h1 ++ s :: h2 ++ k :: h3] with [s] the first socket of the history and [k]
    the first connect after it. *)
Definition chain_split (hist h1 : list HistoryEntry) (s : HistoryEntry) (h2 : list HistoryEntry)
    (k : HistoryEntry) (h3 : list HistoryEntry) : Prop :=
  hist = h1 ++ s :: h2 ++ k :: h3 /\
  Forall (fun e => is_socket e = false) h1 /\ is_socket s = true /\
  Forall (fun e => is_connect e = false) h2 /\ is_connect k = true.

(** What a match must say about the history it was found in. *)
Definition chain_in (hist : list HistoryEntry) (m : chainMatch) : Prop :=
  exists h1 s h2 k h3, chain_split hist h1 s h2 k h3 /\
    cm_startTS m = he_Timestamp s /\ cm_destIP m = he_DestIP k /\ cm_destPort m = he_DestPort k /\
    (forall fd, fd ∈ cm_redirected m <-> exists e, e ∈ h3 /\ is_redirect e = true /\ he_Arg1 e = fd) /\
    (2 <= size (cm_redirected m))%nat /\
    (cm_fdConfirmed m = true <->
     exists fd e, socket_fd (h2 ++ k :: h3) = Some fd /\ e ∈ h3 /\ is_redirect e = true /\ he_Arg0 e = fd).

(** ** Lemmas: the first loop *)

Lemma scan_loop_app i h1 h2 st :
  scan_loop i (h1 ++ h2) st = scan_loop (i + Z.of_nat (length h1)) h2 (scan_loop i h1 st).
Proof.
  revert i st; induction h1 as [|e h1 IH]; intros i st; cbn [scan_loop app length]; [f_equal; lia|].
  rewrite IH. f_equal. lia.
Qed.

(** Before the first socket nothing is recorded. *)
Lemma scan_loop_before i h st :
  Forall (fun e => is_socket e = false) h -> sn_socketIdx st < 0 -> scan_loop i h st = st.
Proof.
  intros Hh Hs. revert i; induction Hh as [|e h He _ IH]; intros i; cbn [scan_loop]; [done|].
  assert (scan_entry i e st = st) as ->; [|apply IH].
  unfold scan_entry. unfold is_socket in He. rewrite He.
  assert ((sn_socketIdx st >=? 0) = false) as -> by lia. cbn [andb]. by repeat case_match.
Qed.

(** What one field of the state does once the socket is found. *)
Definition fd_after (fd : Z) (h : list HistoryEntry) : Z :=
  if fd <? 0 then default fd (socket_fd h) else fd.

Lemma scan_entry_socketed i e st :
  0 <= sn_socketIdx st ->
  scan_entry i e st =
    mkScan (sn_startTS st)
      (if is_connect e && (sn_connectIdx st <? 0) then he_DestIP e else sn_destIP st)
      (if is_connect e && (sn_connectIdx st <? 0) then he_DestPort e else sn_destPort st)
      (sn_socketIdx st)
      (if is_connect e && (sn_connectIdx st <? 0) then i else sn_connectIdx st)
      (fd_after (sn_socketFD st) [e]).
Proof.
  intros Hs. unfold scan_entry, is_connect, fd_after, socket_fd, find_first, is_socket_ret.
  rewrite (proj2 (Z.ltb_ge _ _) Hs), (proj2 (Z.geb_le _ _) Hs).
  destruct st as [t ip port si ci fd]; cbn [sn_startTS sn_destIP sn_destPort sn_socketIdx sn_connectIdx sn_socketFD] in *.
  unfold SysSocket, SysConnect.
  destruct (Z.eqb_spec (he_Syscall e) 9) as [->|H9]; cbn [andb Z.eqb].
  - destruct (he_IsExit e); cbn [andb negb Z.eqb Pos.eqb]; [|by destruct (fd <? 0)].
    rewrite Z.geb_leb. by destruct (fd <? 0), (0 <=? he_Ret e).
  - destruct (he_Syscall e =? 10), (he_IsExit e), (ci <? 0); cbn; by destruct (fd <? 0).
Qed.

Lemma fd_after_cons fd e h : fd_after (fd_after fd [e]) h = fd_after fd (e :: h).
Proof.
  unfold fd_after, socket_fd, find_first. destruct (fd <? 0) eqn:E; [|by rewrite E].
  destruct (is_socket_ret e) eqn:Er; cbn; [|by rewrite E].
  unfold is_socket_ret in Er. bool_prop. by rewrite (proj2 (Z.ltb_ge _ _)) by done.
Qed.

(** While no connect has been seen, and after one has. *)
Lemma scan_loop_unconnected i h st :
  0 <= sn_socketIdx st -> Forall (fun e => is_connect e = false) h ->
  scan_loop i h st =
    mkScan (sn_startTS st) (sn_destIP st) (sn_destPort st) (sn_socketIdx st) (sn_connectIdx st)
      (fd_after (sn_socketFD st) h).
Proof.
  intros Hs Hh. revert i st Hs; induction Hh as [|e h He _ IH]; intros i st Hs; cbn [scan_loop].
  - destruct st; unfold fd_after; cbn. by destruct (_ <? 0).
  - rewrite scan_entry_socketed, He by done. cbn [andb]. rewrite IH by done. cbn [sn_startTS sn_destIP
      sn_destPort sn_socketIdx sn_connectIdx sn_socketFD]. by rewrite fd_after_cons.
Qed.

Lemma scan_loop_connected i h st :
  0 <= sn_socketIdx st -> 0 <= sn_connectIdx st ->
  scan_loop i h st =
    mkScan (sn_startTS st) (sn_destIP st) (sn_destPort st) (sn_socketIdx st) (sn_connectIdx st)
      (fd_after (sn_socketFD st) h).
Proof.
  intros Hs Hc. revert i st Hs Hc; induction h as [|e h IH]; intros i st Hs Hc; cbn [scan_loop].
  - destruct st; unfold fd_after; cbn. by destruct (_ <? 0).
  - rewrite scan_entry_socketed, (proj2 (Z.ltb_ge _ _) Hc), andb_false_r by done.
    rewrite IH by done. cbn [sn_startTS sn_destIP sn_destPort sn_socketIdx sn_connectIdx sn_socketFD].
    by rewrite fd_after_cons.
Qed.

(** The state after a history that contains a socket and then a connect. *)
Lemma scan_loop_split hist h1 s h2 k h3 :
  chain_split hist h1 s h2 k h3 ->
  scan_loop 0 hist scan_init =
    mkScan (he_Timestamp s) (he_DestIP k) (he_DestPort k) (Z.of_nat (length h1))
      (Z.of_nat (length h1 + S (length h2))) (default (-1) (socket_fd (h2 ++ k :: h3))).
Proof.
  intros (-> & H1 & Hs & H2 & Hk). rewrite scan_loop_app, (scan_loop_before 0 h1) by (assumption || (cbn; lia)). cbn [scan_loop].
  unfold is_socket in Hs. set (n1 := Z.of_nat (length h1)).
  assert (scan_entry (0 + n1) s scan_init = mkScan (he_Timestamp s) "" 0 n1 (-1) (-1)) as ->.
  { unfold scan_entry. rewrite Hs. cbn. done. }
  assert (0 <= n1) by lia.
  rewrite scan_loop_app, (scan_loop_unconnected _ h2) by done. cbn [sn_startTS sn_destIP sn_destPort
    sn_socketIdx sn_connectIdx sn_socketFD scan_loop].
  rewrite scan_entry_socketed, Hk by done. cbn [sn_startTS sn_destIP sn_destPort sn_socketIdx
    sn_connectIdx sn_socketFD andb Z.ltb Z.compare].
  rewrite scan_loop_connected by (cbn; lia). cbn [sn_startTS sn_destIP sn_destPort sn_socketIdx
    sn_connectIdx sn_socketFD].
  f_equal; [lia|].
  rewrite fd_after_cons. unfold fd_after at 1 2. cbn [Z.ltb Z.compare].
  unfold socket_fd. rewrite find_first_app.
  destruct (find_first is_socket_ret h2) as [r|] eqn:Er; cbn [fmap option_fmap option_map default from_option id].
  - apply find_first_Some in Er as (l1 & l2 & _ & Hr & _). unfold is_socket_ret in Hr. bool_prop.
    by rewrite (proj2 (Z.ltb_ge _ _)) by done.
  - done.
Qed.

(** ** Lemmas: the second loop *)

Definition redirects (h : list HistoryEntry) : list HistoryEntry := filter (fun e => is_redirect e = true) h.

Lemma redirects_cons e h : redirects (e :: h) = if is_redirect e then e :: redirects h else redirects h.
Proof. unfold redirects. rewrite filter_cons. destruct (is_redirect e); by case_decide. Qed.

Lemma StdFdName_ne fd : (StdFdName fd ==s "") = negb (bool_decide (fd ∈ [0; 1; 2])).
Proof.
  unfold StdFdName. case_bool_decide as Hin; cbn [negb].
  - set_unfold in Hin. destruct_or? Hin; subst; done.
  - repeat case_match; bool_prop; subst; try reflexivity; exfalso; apply Hin; set_solver.
Qed.

Lemma bool_decide_cons (x y : Z) l : bool_decide (x ∈ y :: l) = (y =? x) || bool_decide (x ∈ l).
Proof.
  apply eq_true_iff_eq. rewrite orb_true_iff, !bool_decide_eq_true, elem_of_cons, Z.eqb_eq. naive_solver.
Qed.

Lemma redirect_loop fd acc h :
  foldl (redirect_entry fd) acc h =
    (fst acc ∪ list_to_set (he_Arg1 <$> redirects h),
     snd acc || (0 <=? fd) && bool_decide (fd ∈ he_Arg0 <$> redirects h)).
Proof.
  revert acc; induction h as [|e h IH]; intros [fds ok]; cbn [foldl].
  - rewrite bool_decide_eq_false_2 by apply not_elem_of_nil. cbn. rewrite andb_false_r, orb_false_r.
    by rewrite (right_id_L ∅ (∪)).
  - rewrite IH, redirects_cons. clear IH. unfold redirect_entry.
    destruct (is_redirect e) eqn:Er.
    + unfold is_redirect in Er. apply andb_true_iff in Er as [Hd Hin].
      apply andb_true_iff in Hd as [Hd Hx]. apply negb_true_iff in Hx.
      rewrite Hd, Hx, StdFdName_ne, Hin. cbn [negb orb fst snd fmap list_fmap list_to_set foldr]. f_equal.
      * set_solver.
      * rewrite Z.geb_leb, bool_decide_cons.
        by destruct (0 <=? fd), (he_Arg0 e =? fd), ok.
    + unfold is_redirect in Er.
      destruct (IsDup (he_Syscall e)), (he_IsExit e); try reflexivity.
      rewrite StdFdName_ne. by destruct (bool_decide (he_Arg1 e ∈ [0; 1; 2])).
Qed.

(** The result of [findChain] on a history with a socket and then a connect. *)
Definition match_of (s : HistoryEntry) (h2 : list HistoryEntry) (k : HistoryEntry) (h3 : list HistoryEntry)
    : chainMatch :=
  {| cm_startTS := he_Timestamp s;
     cm_destIP := he_DestIP k;
     cm_destPort := he_DestPort k;
     cm_redirected := list_to_set (he_Arg1 <$> redirects h3);
     cm_fdConfirmed := match socket_fd (h2 ++ k :: h3) with
                       | Some fd => bool_decide (fd ∈ he_Arg0 <$> redirects h3)
                       | None => false
                       end |}.

Lemma socket_fd_nonneg h fd : socket_fd h = Some fd -> 0 <= fd.
Proof.
  unfold socket_fd. intros (e & He & ->)%fmap_Some. apply find_first_Some in He as (_ & _ & _ & Hr & _).
  unfold is_socket_ret in Hr. bool_prop. done.
Qed.

Lemma findChain_split hist h1 s h2 k h3 :
  chain_split hist h1 s h2 k h3 ->
  findChain hist =
    if (size (cm_redirected (match_of s h2 k h3)) <? minRedirectedFDs)%nat then (noMatch, false)
    else (match_of s h2 k h3, true).
Proof.
  intros Hc. unfold findChain. rewrite (scan_loop_split _ _ _ _ _ _ Hc).
  cbn [sn_startTS sn_destIP sn_destPort sn_socketIdx sn_connectIdx sn_socketFD].
  rewrite !(proj2 (Z.ltb_ge _ _)) by lia. cbn [orb].
  destruct Hc as (Hh & _). replace (drop _ hist) with h3.
  2: { rewrite Hh. replace (Z.to_nat _) with (length (h1 ++ s :: h2 ++ [k])) by (rewrite !length_app; cbn; rewrite length_app; cbn; lia).
       replace (h1 ++ s :: h2 ++ k :: h3) with ((h1 ++ s :: h2 ++ [k]) ++ h3) by (rewrite <- !app_assoc; cbn; by rewrite <- app_assoc).
       by rewrite drop_app_length. }
  rewrite redirect_loop. cbn [fst snd]. rewrite (left_id_L ∅ (∪)). cbn [cm_redirected match_of].
  destruct (_ <? _)%nat; [done|]. unfold match_of. do 2 f_equal.
  destruct (socket_fd (h2 ++ k :: h3)) as [fd|] eqn:Ef; [|done].
  apply socket_fd_nonneg in Ef. cbn [default from_option id orb]. by rewrite (proj2 (Z.leb_le _ _) Ef).
Qed.

(** Whether the anchors exist is decided by looking for them in order. *)
Lemma chain_split_or hist :
  (exists h1 s h2 k h3, chain_split hist h1 s h2 k h3) \/
  (forall h1 s h2 k h3, ~ chain_split hist h1 s h2 k h3).
Proof.
  destruct (find_first is_socket hist) as [s|] eqn:Es.
  - apply find_first_Some in Es as (h1 & h & -> & Hs & H1).
    destruct (find_first is_connect h) as [k|] eqn:Ek.
    + apply find_first_Some in Ek as (h2 & h3 & -> & Hk & H2). left. by exists h1, s, h2, k, h3.
    + right. apply find_first_None in Ek. intros h1' s' h2' k' h3' (Heq & H1' & Hs' & _ & Hk').
      assert (h = h2' ++ k' :: h3') as ->.
      { clear -Heq H1 H1' Hs Hs'. revert h1' Heq H1'; induction H1 as [|x h1 Hx _ IH]; intros [|y h1'] Heq H1'; cbn in Heq.
        - by injection Heq.
        - injection Heq as -> _. apply Forall_cons in H1' as [? _]. congruence.
        - injection Heq as -> _. congruence.
        - injection Heq as -> Heq. apply Forall_cons in H1' as [_ ?]. eauto. }
      apply Forall_app in Ek as [_ Ek]. apply Forall_cons in Ek as [? _]. congruence.
  - right. apply find_first_None in Es. intros h1 s h2 k h3 (-> & _ & Hs & _).
    apply Forall_app in Es as [_ Es]. apply Forall_cons in Es as [? _]. congruence.
Qed.

(** A history in which [findChain]'s anchors are missing. *)
Lemma findChain_no_split hist :
  (forall h1 s h2 k h3, ~ chain_split hist h1 s h2 k h3) -> findChain hist = (noMatch, false).
Proof.
  intros Hno. unfold findChain. destruct (find_first is_socket hist) as [s|] eqn:Es.
  - apply find_first_Some in Es as (h1 & h & -> & Hs & H1).
    destruct (find_first is_connect h) as [k|] eqn:Ek.
    + apply find_first_Some in Ek as (h2 & h3 & -> & Hk & H2). exfalso. eapply Hno. split_and!; eauto.
    + apply find_first_None in Ek. rewrite scan_loop_app, (scan_loop_before 0 h1) by (assumption || (cbn; lia)).
      cbn [scan_loop]. unfold is_socket in Hs. set (n1 := Z.of_nat (length h1)).
      assert (scan_entry (0 + n1) s scan_init = mkScan (he_Timestamp s) "" 0 n1 (-1) (-1)) as ->.
      { unfold scan_entry. rewrite Hs. cbn. done. }
      rewrite scan_loop_unconnected by (try assumption; cbn; lia). cbn [sn_connectIdx].
      by rewrite orb_true_r.
  - apply find_first_None in Es. by rewrite scan_loop_before by (assumption || (cbn; lia)).
Qed.

Lemma elem_of_redirects e h : e ∈ redirects h <-> e ∈ h /\ is_redirect e = true.
Proof. unfold redirects. rewrite list_elem_of_filter. tauto. Qed.

Lemma match_of_chain_in hist h1 s h2 k h3 :
  chain_split hist h1 s h2 k h3 -> (2 <= size (cm_redirected (match_of s h2 k h3)))%nat ->
  chain_in hist (match_of s h2 k h3).
Proof.
  intros Hc Hsz. exists h1, s, h2, k, h3. split_and!; [done..| |done|].
  - intros fd. cbn. rewrite elem_of_list_to_set, list_elem_of_fmap. setoid_rewrite elem_of_redirects. naive_solver.
  - cbn [cm_fdConfirmed match_of]. destruct (socket_fd _) as [fd|]; [|naive_solver].
    rewrite bool_decide_eq_true, list_elem_of_fmap. setoid_rewrite elem_of_redirects. naive_solver.
Qed.

(** A match described by [chain_in] is the one computed. *)
Lemma chain_in_match_of hist m :
  chain_in hist m -> exists h1 s h2 k h3, chain_split hist h1 s h2 k h3 /\ m = match_of s h2 k h3.
Proof.
  intros (h1 & s & h2 & k & h3 & Hc & Ht & Hip & Hp & Hr & Hsz & Hf).
  exists h1, s, h2, k, h3. split; [done|]. destruct m as [t ip p r f]; cbn in *. subst t ip p.
  unfold match_of. f_equal.
  - apply set_eq. intros fd. rewrite Hr, elem_of_list_to_set, list_elem_of_fmap.
    setoid_rewrite elem_of_redirects. naive_solver.
  - apply eq_true_iff_eq. rewrite Hf. destruct (socket_fd _) as [fd|]; [|naive_solver].
    rewrite bool_decide_eq_true, list_elem_of_fmap. setoid_rewrite elem_of_redirects. naive_solver.
Qed.

Lemma findChain_iff hist m : findChain hist = (m, true) <-> chain_in hist m.
Proof.
  split.
  - destruct (chain_split_or hist) as [(h1 & s & h2 & k & h3 & Hc)|Hno].
    + rewrite (findChain_split _ _ _ _ _ _ Hc). unfold minRedirectedFDs.
      destruct (_ <? 2)%nat eqn:E; intros H; [done|]. injection H as <-. bool_prop.
      by eapply match_of_chain_in.
    + by rewrite findChain_no_split.
  - intros H. pose proof H as (_ & _ & _ & _ & _ & _ & _ & _ & _ & _ & Hsz & _).
    apply chain_in_match_of in H as (h1 & s & h2 & k & h3 & Hc & ->).
    rewrite (findChain_split _ _ _ _ _ _ Hc). unfold minRedirectedFDs.
    by rewrite (proj2 (Nat.ltb_ge _ _)) by done.
Qed.

(** ** The results of [connect]

    A [connect] return is history the matcher never looks at. *)
Definition is_connect_ret (e : HistoryEntry) : bool := (he_Syscall e =? SysConnect) && he_IsExit e.
Definition sans_results (hist : list HistoryEntry) : list HistoryEntry := filter (fun e => is_connect_ret e = false) hist.

Lemma sans_results_cons e hist : sans_results (e :: hist) = if is_connect_ret e then sans_results hist else e :: sans_results hist.
Proof. unfold sans_results. rewrite filter_cons. by destruct (is_connect_ret e); case_decide. Qed.
Lemma sans_results_app h h' : sans_results (h ++ h') = sans_results h ++ sans_results h'.
Proof. apply filter_app. Qed.

(** Any look at a history that passes connect returns over. *)
Definition overlooks (P : HistoryEntry -> bool) : Prop := forall e, is_connect_ret e = true -> P e = false.
Lemma overlooks_kinds : overlooks is_socket /\ overlooks is_socket_ret /\ overlooks is_connect /\ overlooks is_redirect.
Proof.
  unfold overlooks, is_connect_ret, is_socket, is_socket_ret, is_connect, is_redirect.
  split_and!; intros e [->%Z.eqb_eq ->]%andb_true_iff; reflexivity.
Qed.

Lemma sans_results_Forall P h : overlooks P -> Forall (fun e => P e = false) (sans_results h) <-> Forall (fun e => P e = false) h.
Proof.
  intros HP. induction h as [|e h IH]; [done|]. rewrite sans_results_cons. destruct (is_connect_ret e) eqn:E.
  - rewrite Forall_cons, IH. split; [|tauto]. intros ?. split; [by apply HP|done].
  - by rewrite !Forall_cons, IH.
Qed.
Lemma sans_results_find P h : overlooks P -> find_first P (sans_results h) = find_first P h.
Proof.
  intros HP. unfold find_first. induction h as [|e h IH]; [done|]. rewrite sans_results_cons. destruct (is_connect_ret e) eqn:E.
  - rewrite IH. cbn. by rewrite (HP e E).
  - cbn. by rewrite IH.
Qed.
Lemma sans_results_redirects h : redirects (sans_results h) = redirects h.
Proof.
  induction h as [|e h IH]; [done|]. rewrite sans_results_cons, redirects_cons. destruct (is_connect_ret e) eqn:E.
  - by rewrite IH, (proj2 (proj2 (proj2 overlooks_kinds)) e E).
  - by rewrite redirects_cons, IH.
Qed.

(** A history cut at one of the entries that were kept. *)
Lemma sans_results_cut hist a x b :
  sans_results hist = a ++ x :: b -> exists a' b', hist = a' ++ x :: b' /\ sans_results a' = a /\ sans_results b' = b.
Proof.
  revert a. induction hist as [|e hist IH]; intros a Ha; [by destruct a|]. rewrite sans_results_cons in Ha.
  destruct (is_connect_ret e) eqn:E.
  - apply IH in Ha as (a' & b' & -> & <- & <-). exists (e :: a'), b'. by rewrite sans_results_cons, E.
  - destruct a as [|e' a]; cbn in Ha; injection Ha as -> Ha; [by exists [], hist|].
    apply IH in Ha as (a' & b' & -> & <- & <-). exists (e' :: a'), b'. by rewrite sans_results_cons, E.
Qed.

Lemma chain_split_sans hist h1 s h2 k h3 :
  chain_split hist h1 s h2 k h3 -> chain_split (sans_results hist) (sans_results h1) s (sans_results h2) k (sans_results h3).
Proof.
  destruct overlooks_kinds as (Os & _ & Oc & _). intros (-> & H1 & Hs & H2 & Hk).
  assert (is_connect_ret s = false) as Es by (destruct (is_connect_ret s) eqn:E; [|done]; by rewrite (Os s E) in Hs).
  assert (is_connect_ret k = false) as Ek by (destruct (is_connect_ret k) eqn:E; [|done]; by rewrite (Oc k E) in Hk).
  split_and!; [by rewrite sans_results_app, sans_results_cons, Es, sans_results_app, sans_results_cons, Ek
              |by apply sans_results_Forall|done|by apply sans_results_Forall|done].
Qed.

Lemma chain_split_with hist h1 s h2 k h3 :
  chain_split (sans_results hist) h1 s h2 k h3 -> exists h1 h2 h3, chain_split hist h1 s h2 k h3.
Proof.
  destruct overlooks_kinds as (Os & _ & Oc & _). intros (Heq & H1 & Hs & H2 & Hk).
  apply sans_results_cut in Heq as (h1' & b & -> & <- & Hb). apply sans_results_cut in Hb as (h2' & h3' & -> & <- & <-).
  exists h1', h2', h3'. split_and!; [done|by apply sans_results_Forall|done|by apply sans_results_Forall|done].
Qed.

(** Whether a [connect] succeeded, was refused or is still in progress makes no
    difference to a match. *)
Lemma findChain_ignores_connect_results hist : findChain (sans_results hist) = findChain hist.
Proof.
  destruct (chain_split_or hist) as [(h1 & s & h2 & k & h3 & Hc)|Hno].
  - rewrite (findChain_split _ _ _ _ _ _ Hc), (findChain_split _ _ _ _ _ _ (chain_split_sans _ _ _ _ _ _ Hc)).
    assert (match_of s (sans_results h2) k (sans_results h3) = match_of s h2 k h3) as ->; [|done].
    destruct overlooks_kinds as (_ & Or & Oc & _). destruct Hc as (_ & _ & _ & _ & Hk).
    assert (sans_results (k :: h3) = k :: sans_results h3) as Hk3.
    { rewrite sans_results_cons. destruct (is_connect_ret k) eqn:E; [|done]. by rewrite (Oc k E) in Hk. }
    unfold match_of, socket_fd. rewrite <- Hk3, <- sans_results_app, sans_results_find, sans_results_redirects by done. done.
  - rewrite (findChain_no_split hist Hno). apply findChain_no_split. intros h1 s h2 k h3 Hc.
    apply chain_split_with in Hc as (h1' & h2' & h3' & Hc). by eapply Hno.
Qed.

(** ** The rule's decision *)
Section revshell_facts.
Context `{UnicodeTables}.

(** The argument map of an alert for the match [m]. *)
Definition chain_args (ts : Z) (m : chainMatch) (args : Args) : Args :=
  let args := <["chain_redirected" := Join (redirected_names (elements (cm_redirected m))) ","]> args in
  let args := <["chain_duration_ms" := fmt_d (millis (ts - cm_startTS m))]> args in
  let args := <["chain_socket_fd_confirmed" := FormatBool (cm_fdConfirmed m)]> args in
  if destination m ==s "" then args else <["chain_dest" := destination m]> args.

(** The rule fires for the match [m] in the window's history. *)
Definition reverse_shell (c : Context) (m : chainMatch) : Prop :=
  let ev := ctx_Event c in
  ev_IsExit ev = false /\ IsExecution (ev_SyscallID ev) = true /\
  chain_in (Within (ctx_History c) (ev_Timestamp ev) (cfg_RevShellWindow (ctx_Config c))) m /\
  (cfg_IgnoreLoopback (ctx_Config c) = true -> isLoopback (cm_destIP m) = false).

Lemma chain_in_nil m : ~ chain_in [] m.
Proof. intros ([|] & ? & ? & ? & ? & (? & _) & _); done. Qed.

Lemma chain_in_unique hist m m' : chain_in hist m -> chain_in hist m' -> m = m'.
Proof. rewrite <- !findChain_iff. congruence. Qed.

(** What the rule returns is decided by [reverse_shell]. *)
Definition revshell_decided (c : Context) (r : option Alert * Args) : Prop :=
  match fst r with
  | Some a => exists m, reverse_shell c m /\ alert_by ruleReverseShell (ctx_Event c) a /\
      al_Severity a = SeverityCritical /\
      snd r = chain_args (ev_Timestamp (ctx_Event c)) m (ev_Args (ctx_Event c))
  | None => (forall m, ~ reverse_shell c m) /\ snd r = ev_Args (ctx_Event c)
  end.

Lemma revshell_silent c : (forall m, ~ reverse_shell c m) -> revshell_decided c (silent c).
Proof. done. Qed.

Lemma evalReverseShell_decided c : revshell_decided c (evalReverseShell c).
Proof.
  unfold evalReverseShell. set (ev := ctx_Event c).
  destruct (ev_IsExit ev || negb (IsExecution (ev_SyscallID ev))) eqn:Ex.
  { apply revshell_silent. intros m (H1 & H2 & _). fold ev in H1, H2. by rewrite H1, H2 in Ex. }
  bool_prop. set (hist := Within _ _ _).
  destruct (length hist =? 0)%nat eqn:El.
  { bool_prop. apply revshell_silent. intros m (_ & _ & Hm & _). fold ev hist in Hm.
    apply length_zero_iff_nil in El. rewrite El in Hm. by apply chain_in_nil in Hm. }
  destruct (findChain hist) as [chain ok] eqn:Ef. destruct ok; cbn [negb].
  2: { apply revshell_silent. intros m (_ & _ & Hm & _). fold ev hist in Hm. apply findChain_iff in Hm. congruence. }
  pose proof Ef as Hc. apply findChain_iff in Hc.
  destruct (cfg_IgnoreLoopback (ctx_Config c) && isLoopback (cm_destIP chain)) eqn:Elb.
  { bool_prop. apply revshell_silent. intros m (_ & _ & Hm & Hlb). fold ev hist in Hm.
    rewrite (chain_in_unique _ _ _ Hm Hc) in Hlb. rewrite Hlb in *; done. }
  unfold revshell_decided. cbn [fst snd]. exists chain. split_and!.
  - split_and!; [done..|]. intros Hi. by rewrite Hi in Elb.
  - eexists _, _, _. split_and!; [left|..|by destruct (destination chain ==s "")];
      unfold SeverityMedium, SeverityCritical; lia.
  - done.
  - unfold chain_args. by destruct (destination chain ==s "").
Qed.

#[export] Instance ruleReverseShell_lawful :
  LawfulRule ruleReverseShell
    ["chain_redirected"; "chain_duration_ms"; "chain_socket_fd_confirmed"; "chain_dest"].
Proof.
  split; cbn [rule_Eval ruleReverseShell].
  - intros c Hx. unfold evalReverseShell. by rewrite Hx.
  - intros c Hn. pose proof (evalReverseShell_decided c) as Hd. unfold revshell_decided in Hd.
    rewrite Hn in Hd. apply Hd.
  - intros c a Ha. pose proof (evalReverseShell_decided c) as Hd. unfold revshell_decided in Hd.
    rewrite Ha in Hd. by destruct Hd as (m & _ & Hd & _).
  - intros c k Hk. pose proof (evalReverseShell_decided c) as Hd. unfold revshell_decided in Hd.
    destruct (fst (evalReverseShell c)); [|by destruct Hd as [_ ->]].
    destruct Hd as (m & _ & _ & _ & ->). unfold chain_args.
    destruct (destination m ==s ""); rewrite !lookup_insert_ne by set_solver; reflexivity.
  - intros c m. unfold evalReverseShell, silent. blind_cases c.
Qed.

(** ** Properties *)

(** C1: [findChain] is sound and complete for the pattern it documents.  It
    reports a match exactly when the history has a first [socket], a first
    [connect] after it and, after that, redirections of at least two distinct
    standard descriptors; the match carries the socket's time, the connect's
    destination and exactly the redirected descriptors, and is confirmed exactly
    when one of those redirections duplicates the descriptor the first
    successful [socket] return gave.  The [connect] is an attempt: its result is
    not part of the pattern ([findChain_ignores_connect_results]), so a refused
    connection matches too ([example_refused]). *)
Theorem findChain_exact hist m : findChain hist = (m, true) <-> chain_in hist m.
Proof. apply findChain_iff. Qed.

(** C2: the reverse-shell rule is exact.  It alerts, as CRITICAL and about this
    event, exactly when the event is the entry of an execution, the window's
    history contains the chain, and the destination is not an ignored loopback
    one; the evidence it adds to the event's arguments is that chain's (sorted
    descriptor names, duration in milliseconds, confirmation, destination), and
    when it is silent it writes nothing.  Like [findChain] it asks for a
    [connect] attempt, whatever its result. *)
Theorem revshell_exact c :
  match evalReverseShell c with
  | (Some a, args) => exists m, reverse_shell c m /\ alert_by ruleReverseShell (ctx_Event c) a /\
      al_Severity a = SeverityCritical /\
      args = chain_args (ev_Timestamp (ctx_Event c)) m (ev_Args (ctx_Event c))
  | (None, args) => (forall m, ~ reverse_shell c m) /\ args = ev_Args (ctx_Event c)
  end.
Proof.
  pose proof (evalReverseShell_decided c) as Hd. unfold revshell_decided in Hd.
  by destruct (evalReverseShell c) as [[a|] args].
Qed.

(** C3: detection end to end.  Feed an in-order stream of events, from fewer than
    8192 processes, through the tracker, with a rule window of at most the
    tracker's retention; the rule then alerts on an execution by a process exactly
    when the last 32 tracked system calls of that very process, restricted to the
    configured window, contain the chain, and its destination is not a loopback
    address the configuration ignores.  Within those bounds neither the
    interleaving with other processes nor eviction, sweeping and trimming can hide
    or fake one.  The results of the [connect] calls play no part. *)
Theorem revshell_end_to_end evs ev cfg :
  in_order (evs ++ [ev]) -> ev_IsExit ev = false -> IsExecution (ev_SyscallID ev) = true ->
  (size (list_to_set (ev_PID <$> evs ++ [ev]) : gset Z) < defaultMaxProcesses)%nat ->
  0 <= cfg_RevShellWindow cfg <= defaultTTL ->
  fires (evalReverseShell (mkContext ev (fst (Record_ (record_all NewTracker evs) ev)) cfg)) = true <->
  exists m, chain_in (filter (fun e => ev_Timestamp ev - cfg_RevShellWindow cfg <= he_Timestamp e)
    (lastn 32 (tracked_of (ev_PID ev) (evs ++ [ev])))) m
    /\ cfg_IgnoreLoopback cfg && isLoopback (cm_destIP m) = false.
Proof.
  intros Ho Hx He Hcap Hw. set (c := mkContext _ _ _).
  assert (tracked (ev_SyscallID ev) = true) as Htr.
  { unfold IsExecution, tracked in *. apply orb_true_iff in He as [He|He]; rewrite He; by rewrite ?orb_true_r. }
  rewrite <- (Within_Record_recent evs ev (cfg_RevShellWindow cfg)) by done.
  pose proof (evalReverseShell_decided c) as Hd. unfold revshell_decided in Hd.
  destruct (evalReverseShell c) as [[a|] args]; cbn [fst snd] in Hd.
  - rewrite fires_Some. destruct Hd as (m & (_ & _ & Hm & Hlb) & _). split; [|done]. intros _. exists m. split; [exact Hm|].
    cbn in Hlb. destruct (cfg_IgnoreLoopback cfg); [by apply Hlb|done].
  - rewrite fires_None. destruct Hd as [Hd _]. split; [done|]. intros (m & Hm & Hlb). exfalso.
    apply (Hd m). split_and!; [exact Hx|exact He|exact Hm|]. cbn. intros Hi. by rewrite Hi in Hlb.
Qed.
End revshell_facts.

(** A reverse shell: socket (returning 3), connect, two redirections, exec. *)
Definition chain_event (ts sc flags ret a0 a1 : Z) : Event :=
  decodeIdentity (mkRaw (ts * Millisecond) 42 42 1000 1000 1 sc ret a0 a1 0 0 0 0 flags "nc" "/bin/sh" []) 0.
Definition example_chain : list Event :=
  [chain_event 100 SysSocket 0 0 2 1; chain_event 101 SysSocket 1 3 0 0; chain_event 102 SysConnect 0 0 3 0;
   chain_event 103 SysDup2 0 0 3 0; chain_event 104 SysDup2 0 0 3 1].
(** The same with the [connect] refused: its return carries ECONNREFUSED. *)
Definition example_refused_chain : list Event :=
  take 3 example_chain ++ [chain_event 102 SysConnect 1 (-111) 0 0] ++ drop 3 example_chain.
Definition example_exec : Event := chain_event 110 SysExecve 0 0 0 0.
Definition example_config : Config :=
  mkConfig (2 * Second) ["gdb"] false false None (5 * Second) DefaultStorylineConfig 1.

Lemma revshell_end_to_end_witness :
  exists m, chain_in (filter (fun e => ev_Timestamp example_exec - 2 * Second <= he_Timestamp e)
    (lastn 32 (tracked_of (ev_PID example_exec) (example_chain ++ [example_exec])))) m
    /\ cfg_IgnoreLoopback example_config && isLoopback (cm_destIP m) = false.
Proof.
  apply (@revshell_end_to_end example_tables example_chain example_exec example_config).
  - unfold example_chain, example_exec. cbn [app]. split.
    + repeat (apply Forall_cons_2; [split; z_compute|]). apply Forall_nil_2.
    + repeat constructor; z_compute.
  - reflexivity.
  - reflexivity.
  - apply Nat.le_lt_trans with (length (ev_PID <$> example_chain ++ [example_exec])).
    + apply size_list_to_set_le.
    + unfold example_chain, defaultMaxProcesses. rewrite length_fmap. cbn [length app]. lia.
  - split; z_compute.
  - vm_compute. reflexivity.
Defined.

Example example_refused :
  fires (@evalReverseShell example_tables
    (mkContext example_exec (fst (Record_ (record_all NewTracker example_refused_chain) example_exec)) example_config)) = true.
Proof. vm_compute. reflexivity. Qed.
