(* ===== verification/SensitiveFile.v ===== *)
(** * Rule 5.2, sensitive file access ([detect/sensitivefile.go]) *)

From S2P Require Import Prelude GoStrings GoPath GoTime Syscalls Constants Events Alerts Tracker Config PrivEsc.

(** ** Matcher constructors *)

Fixpoint exactAny (paths : list string) (p : string) : bool :=
  match paths with
  | [] => false
  | want :: rest => if p ==s want then true else exactAny rest p
  end.

Definition prefixMatch (prefix : string) (p : string) : bool :=
  HasPrefix p prefix && (slen prefix <? slen p).

Fixpoint containsAny (fragments : list string) (p : string) : bool :=
  match fragments with
  | [] => false
  | frag :: rest => if Contains p frag then true else containsAny rest p
  end.

(** [path.Match] has no error to return on patterns without [[] and [\]. *)
Definition globPath (pattern : string) (p : string) : bool := Match_ pattern p.

(** ** The watch list *)

(** [type sensitivePath struct] *)
Record sensitivePath := mkSensitivePath {
  sp_label : string;
  sp_match : string -> bool;
  sp_severity : Severity;
  sp_technique : Technique;
  sp_reason : string
}.

Definition sensitivePaths : list sensitivePath := [
  mkSensitivePath "/etc/shadow"
    (exactAny ["/etc/shadow"; "/etc/shadow-"; "/etc/gshadow"; "/etc/gshadow-"])
    SeverityHigh TechEtcShadow "password hash database";
  mkSensitivePath "/proc/<pid>/mem" (globPath "/proc/*/mem")
    SeverityHigh TechProcFilesystem "direct process memory access";
  mkSensitivePath "/proc/<pid>/maps" (globPath "/proc/*/maps")
    SeverityMedium TechProcFilesystem "process memory layout enumeration";
  mkSensitivePath "/etc/sudoers" (exactAny ["/etc/sudoers"])
    SeverityMedium TechUnsecuredCreds "sudo policy";
  mkSensitivePath "/etc/sudoers.d/*" (prefixMatch "/etc/sudoers.d/")
    SeverityMedium TechUnsecuredCreds "sudo policy fragment";
  mkSensitivePath "~/.ssh private key"
    (containsAny ["/.ssh/id_rsa"; "/.ssh/id_dsa"; "/.ssh/id_ecdsa"; "/.ssh/id_ed25519"; "/.ssh/identity"])
    SeverityMedium TechPrivateKeys "SSH private key";
  mkSensitivePath "~/.aws/credentials" (containsAny ["/.aws/credentials"])
    SeverityMedium TechCredsInFiles "cloud provider credentials";
  mkSensitivePath "~/.gnupg secret keyring" (containsAny ["/.gnupg/secring"; "/.gnupg/private-keys-v1.d/"])
    SeverityMedium TechPrivateKeys "GnuPG private keyring";
  mkSensitivePath "~/.docker/config.json" (containsAny ["/.docker/config.json"])
    SeverityMedium TechCredsInFiles "container registry credentials";
  mkSensitivePath "~/.kube/config" (containsAny ["/.kube/config"])
    SeverityMedium TechCredsInFiles "Kubernetes cluster credentials"
].

(** [procTargetPID]: [None] is the false result. *)
Definition procTargetPID (p : string) : option string :=
  if negb (HasPrefix p "/proc/") then None
  else
    let rest := TrimPrefix p "/proc/" in
    let slash := IndexByte rest slash in
    if slash <=? 0 then None else Some (stake (Z.to_nat slash) rest).

Section sensitive.
Context `{UnicodeTables}.

(** The body of the loop for the entry that matches. *)
Definition sensitive_hit (c : Context) (p : string) (sp : sensitivePath) : option Alert * Args :=
  let ev := ctx_Event c in
  let finish ev :=
    let ev := put_arg "matched_pattern" (sp_label sp) ev in
    (Some (newAlert ev RuleNameSensitiveFile (sp_technique sp) (sp_severity sp)
       ("Process " +:+ procLabel ev +:+ " opened " +:+ Quote (ev_Path ev) +:+ " (" +:+ sp_reason sp
        +:+ ") — possible credential or memory access")),
     ev_Args ev) in
  match procTargetPID p with
  | Some targetPID =>
      let self := (targetPID ==s "self") || (targetPID ==s FormatUint (ev_PID ev) 10) in
      if self then
        if cfg_IgnoreSelfProc (ctx_Config c) then silent c
        else finish (put_arg "target_pid" targetPID (put_arg "target_self" "true" ev))
      else finish (put_arg "target_pid" targetPID ev)
  | None => finish ev
  end.

Fixpoint sensitive_loop (c : Context) (p : string) (table : list sensitivePath) : option Alert * Args :=
  match table with
  | [] => silent c
  | sp :: rest => if negb (sp_match sp p) then sensitive_loop c p rest else sensitive_hit c p sp
  end.

Definition evalSensitiveFileAccess (c : Context) : option Alert * Args :=
  let ev := ctx_Event c in
  if ev_IsExit ev || negb (ev_SyscallID ev =? SysOpenat) then silent c
  else if ev_Path ev ==s "" then silent c
  else sensitive_loop c (Clean (ev_Path ev)) sensitivePaths.

Definition ruleSensitiveFileAccess : Rule := {|
  rule_Name := RuleNameSensitiveFile;
  rule_Description := "Access to credential stores, sudo configuration, private keys, or process memory";
  rule_Techniques := [TechCredentialDump; TechEtcShadow; TechProcFilesystem; TechUnsecuredCreds;
                      TechCredsInFiles; TechPrivateKeys];
  rule_Eval := evalSensitiveFileAccess
|}.
End sensitive.

(** ** What is watched, declaratively *)

Definition contains (p frag : string) : Prop := exists a b, p = a +:+ frag +:+ b.

Inductive sensitive : string -> Severity -> Technique -> Prop :=
  | sensitive_shadow p :
      p ∈ ["/etc/shadow"; "/etc/shadow-"; "/etc/gshadow"; "/etc/gshadow-"] ->
      sensitive p SeverityHigh TechEtcShadow
  | sensitive_mem x : no_byte slash x -> sensitive ("/proc/" +:+ x +:+ "/mem") SeverityHigh TechProcFilesystem
  | sensitive_maps x : no_byte slash x -> sensitive ("/proc/" +:+ x +:+ "/maps") SeverityMedium TechProcFilesystem
  | sensitive_sudoers : sensitive "/etc/sudoers" SeverityMedium TechUnsecuredCreds
  | sensitive_sudoers_d x : x <> "" -> sensitive ("/etc/sudoers.d/" +:+ x) SeverityMedium TechUnsecuredCreds
  | sensitive_key p frag :
      frag ∈ ["/.ssh/id_rsa"; "/.ssh/id_dsa"; "/.ssh/id_ecdsa"; "/.ssh/id_ed25519"; "/.ssh/identity";
              "/.gnupg/secring"; "/.gnupg/private-keys-v1.d/"] ->
      contains p frag -> sensitive p SeverityMedium TechPrivateKeys
  | sensitive_creds p frag :
      frag ∈ ["/.aws/credentials"; "/.docker/config.json"; "/.kube/config"] ->
      contains p frag -> sensitive p SeverityMedium TechCredsInFiles.

(** ** Lemmas: the matchers *)

Lemma exactAny_spec l p : exactAny l p = true <-> p ∈ l.
Proof.
  induction l as [|w l IH]; cbn; [split; [done|set_solver]|]. rewrite elem_of_cons, <- IH.
  destruct (String.eqb_spec p w); naive_solver.
Qed.

Lemma containsAny_spec l p : containsAny l p = true <-> exists frag, frag ∈ l /\ contains p frag.
Proof.
  induction l as [|f l IH]; cbn; [split; [done|set_solver]|].
  setoid_rewrite elem_of_cons. destruct (Contains p f) eqn:E.
  - apply Contains_spec in E. unfold contains. naive_solver.
  - rewrite IH. assert (~ contains p f) by (unfold contains; rewrite <- Contains_spec; congruence). naive_solver.
Qed.

Lemma prefixMatch_spec prefix p : prefixMatch prefix p = true <-> exists x, x <> "" /\ p = prefix +:+ x.
Proof.
  unfold prefixMatch. rewrite andb_true_iff, HasPrefix_spec, Z.ltb_lt. split.
  - intros [[x ->] Hl]. exists x. split; [|done]. intros ->. rewrite slen_app in Hl. change (slen "") with 0 in Hl. lia.
  - intros (x & Hx & ->). split; [eauto|]. rewrite slen_app. destruct x; [done|]. unfold slen. cbn [String.length]. lia.
Qed.

Lemma globPath_spec pre post p :
  all_bytes (fun a => negb (Ascii.eqb a "*")) pre = true ->
  all_bytes (fun a => negb (Ascii.eqb a "*")) post = true ->
  globPath (pre +:+ String "*" post) p = true <-> exists x, p = pre +:+ x +:+ post /\ no_byte slash x.
Proof. apply Match_one_star. Qed.

(** The watch list matches exactly the sensitive paths, each with its severity
    and technique. *)
Lemma sensitivePaths_sound sp p :
  sp ∈ sensitivePaths -> sp_match sp p = true -> sensitive p (sp_severity sp) (sp_technique sp).
Proof.
  assert (Hc : forall l t, containsAny l p = true ->
    (forall frag, frag ∈ l -> contains p frag -> sensitive p SeverityMedium t) -> sensitive p SeverityMedium t).
  { intros l t Hl HS. apply containsAny_spec in Hl as (frag & Hin & Hf). eauto. }
  unfold sensitivePaths. rewrite !elem_of_cons.
  intros [->|[->|[->|[->|[->|[->|[->|[->|[->|[->|Hn]]]]]]]]]] Hm;
    cbn [sp_match sp_severity sp_technique] in *.
  - apply exactAny_spec in Hm. by apply sensitive_shadow.
  - apply (globPath_spec "/proc/" "/mem") in Hm as (x & -> & Hx); [|done..]. by apply sensitive_mem.
  - apply (globPath_spec "/proc/" "/maps") in Hm as (x & -> & Hx); [|done..]. by apply sensitive_maps.
  - apply exactAny_spec, list_elem_of_singleton in Hm as ->. apply sensitive_sudoers.
  - apply prefixMatch_spec in Hm as (x & Hx & ->). by apply sensitive_sudoers_d.
  - eapply Hc; [exact Hm|]. intros frag Hf. apply sensitive_key. set_solver.
  - eapply Hc; [exact Hm|]. intros frag Hf. apply sensitive_creds. set_solver.
  - eapply Hc; [exact Hm|]. intros frag Hf. apply sensitive_key. set_solver.
  - eapply Hc; [exact Hm|]. intros frag Hf. apply sensitive_creds. set_solver.
  - eapply Hc; [exact Hm|]. intros frag Hf. apply sensitive_creds. set_solver.
  - by apply not_elem_of_nil in Hn.
Qed.

Lemma containsAny_intro l p frag : frag ∈ l -> contains p frag -> containsAny l p = true.
Proof. intros. apply containsAny_spec. eauto. Qed.

Lemma sensitivePaths_entry n sp p sev tech :
  sensitivePaths !! n = Some sp -> sp_severity sp = sev -> sp_technique sp = tech -> sp_match sp p = true ->
  exists sp, sp ∈ sensitivePaths /\ sp_match sp p = true /\ sp_severity sp = sev /\ sp_technique sp = tech.
Proof. intros Hn Hs Ht Hm. exists sp. apply list_elem_of_lookup_2 in Hn. done. Qed.

Ltac entry n := eapply (sensitivePaths_entry n); [reflexivity..|cbn [sp_match]].

Lemma sensitivePaths_complete p sev tech :
  sensitive p sev tech ->
  exists sp, sp ∈ sensitivePaths /\ sp_match sp p = true /\ sp_severity sp = sev /\ sp_technique sp = tech.
Proof.
  intros [q Hq|x Hx|x Hx| |x Hx|q frag Hin Hf|q frag Hin Hf].
  - entry 0%nat. by apply exactAny_spec.
  - entry 1%nat. apply (globPath_spec "/proc/" "/mem"); [done..|]. eauto.
  - entry 2%nat. apply (globPath_spec "/proc/" "/maps"); [done..|]. eauto.
  - entry 3%nat. done.
  - entry 4%nat. apply prefixMatch_spec. eauto.
  - rewrite !elem_of_cons in Hin.
    destruct Hin as [?|[?|[?|[?|[?|Hin]]]]];
      [entry 5%nat; eapply containsAny_intro; [|exact Hf]; set_solver..|].
    entry 7%nat; eapply containsAny_intro; [|exact Hf]; set_solver.
  - rewrite !elem_of_cons in Hin. destruct Hin as [?|[?|[?|Hin]]].
    + entry 6%nat; eapply containsAny_intro; [|exact Hf]; set_solver.
    + entry 8%nat; eapply containsAny_intro; [|exact Hf]; set_solver.
    + entry 9%nat; eapply containsAny_intro; [|exact Hf]; set_solver.
    + by apply not_elem_of_nil in Hin.
Qed.

(** ** Lemmas: the target of a [/proc] path *)

Lemma procTargetPID_spec p x :
  procTargetPID p = Some x <->
  exists rest, p = "/proc/" +:+ x +:+ "/" +:+ rest /\ x <> "" /\ no_byte slash x.
Proof.
  unfold procTargetPID. split.
  - destruct (HasPrefix p "/proc/") eqn:Hp; [|done]. cbn [negb].
    apply HasPrefix_spec in Hp as [t ->]. rewrite TrimPrefix_app. unfold IndexByte.
    destruct (index_byte slash t) as [n|] eqn:E; [|done].
    destruct (Z.of_nat n <=? 0) eqn:En; [done|]. intros [= <-]. bool_prop. rewrite Nat2Z.id.
    apply index_byte_Some in E as (u & Ht & Hn & Hl). exists u. split_and!; [by rewrite Ht at 1| |done].
    intros He. rewrite He in Hl. cbn in Hl. lia.
  - intros (rest & -> & Hx & Hn). rewrite HasPrefix_app, TrimPrefix_app. cbn [negb].
    change ("/" +:+ rest) with (String slash rest). unfold IndexByte. rewrite index_byte_app by done.
    destruct x as [|a x]; [done|]. cbn [String.length]. rewrite (proj2 (Z.leb_gt _ _)) by lia.
    rewrite Nat2Z.id. f_equal. apply (stake_app (String a x)).
Qed.

(** ** The rule's decision *)
Section sensitive_facts.
Context `{UnicodeTables}.

(** The first entry of the watch list that matches. *)
Definition first_watched (p : string) : option sensitivePath :=
  find_first (fun sp => sp_match sp p) sensitivePaths.

Lemma sensitive_loop_first c p table :
  sensitive_loop c p table =
    match find_first (fun sp => sp_match sp p) table with
    | Some sp => sensitive_hit c p sp
    | None => silent c
    end.
Proof. induction table as [|sp rest IH]; cbn; [done|]. by destruct (sp_match sp p). Qed.

Lemma first_watched_Some p sp :
  first_watched p = Some sp ->
  sensitive p (sp_severity sp) (sp_technique sp) /\ sp ∈ sensitivePaths.
Proof.
  intros Hf. apply find_first_Some in Hf as (l1 & l2 & E & Hm & _).
  assert (sp ∈ sensitivePaths) as Hin by (rewrite E; set_solver). split; [|done]. by apply sensitivePaths_sound.
Qed.

Lemma first_watched_None p sev tech : first_watched p = None -> ~ sensitive p sev tech.
Proof.
  intros Hf (sp & Hin & Hm & _)%sensitivePaths_complete. apply find_first_None in Hf.
  rewrite Forall_forall in Hf. apply Hf in Hin. congruence.
Qed.

(** The path is in the process's own [/proc] directory. *)
Definition self_proc (ev : Event) (p : string) : Prop :=
  exists x, procTargetPID p = Some x /\ (x = "self" \/ x = FormatUint (ev_PID ev) 10).

Definition sensitive_access (c : Context) : Prop :=
  let ev := ctx_Event c in
  ev_IsExit ev = false /\ ev_SyscallID ev = SysOpenat /\ ev_Path ev <> "" /\
  (exists sev tech, sensitive (Clean (ev_Path ev)) sev tech) /\
  ~ (cfg_IgnoreSelfProc (ctx_Config c) = true /\ self_proc ev (Clean (ev_Path ev))).

(** The arguments of an alert for entry [sp] on the cleaned path [p]. *)
Definition sensitive_args (ev : Event) (p : string) (sp : sensitivePath) : Args :=
  let args := ev_Args ev in
  let args := match procTargetPID p with
              | Some x =>
                  let args := if (x ==s "self") || (x ==s FormatUint (ev_PID ev) 10)
                              then <["target_self" := "true"]> args else args in
                  <["target_pid" := x]> args
              | None => args
              end in
  <["matched_pattern" := sp_label sp]> args.

Lemma sensitive_techniques sp :
  sp ∈ sensitivePaths -> sp_technique sp ∈ rule_Techniques ruleSensitiveFileAccess /\
  SeverityMedium <= sp_severity sp <= SeverityCritical.
Proof.
  unfold sensitivePaths, SeverityMedium, SeverityCritical. rewrite !elem_of_cons.
  intros [->|[->|[->|[->|[->|[->|[->|[->|[->|[->|Hn]]]]]]]]]]; cbn [sp_technique sp_severity];
    unfold SeverityHigh, SeverityMedium; [split; [cbn [rule_Techniques ruleSensitiveFileAccess]; set_solver|lia]..|].
  by apply not_elem_of_nil in Hn.
Qed.

Definition sensitive_decided (c : Context) (r : option Alert * Args) : Prop :=
  match fst r with
  | Some a => sensitive_access c /\ exists sp, first_watched (Clean (ev_Path (ctx_Event c))) = Some sp /\
      alert_by ruleSensitiveFileAccess (ctx_Event c) a /\ al_Severity a = sp_severity sp /\
      al_MitreID a = tech_ID (sp_technique sp) /\
      snd r = sensitive_args (ctx_Event c) (Clean (ev_Path (ctx_Event c))) sp
  | None => ~ sensitive_access c /\ snd r = ev_Args (ctx_Event c)
  end.

(** What the loop's body does, apart from the text of the description. *)
Lemma sensitive_hit_eq c p sp :
  sp ∈ sensitivePaths ->
  match fst (sensitive_hit c p sp) with
  | Some a => ~ (cfg_IgnoreSelfProc (ctx_Config c) = true /\ self_proc (ctx_Event c) p) /\
      alert_by ruleSensitiveFileAccess (ctx_Event c) a /\ al_Severity a = sp_severity sp /\
      al_MitreID a = tech_ID (sp_technique sp) /\
      snd (sensitive_hit c p sp) = sensitive_args (ctx_Event c) p sp
  | None => (cfg_IgnoreSelfProc (ctx_Config c) = true /\ self_proc (ctx_Event c) p) /\
      snd (sensitive_hit c p sp) = ev_Args (ctx_Event c)
  end.
Proof.
  intros [Ht Hs]%sensitive_techniques. unfold sensitive_hit, sensitive_args, self_proc, silent.
  assert (Ha : forall ev desc, alert_by ruleSensitiveFileAccess ev
      (newAlert ev RuleNameSensitiveFile (sp_technique sp) (sp_severity sp) desc)) by (intros; do 3 eexists; eauto).
  destruct (procTargetPID p) as [x|]; [|cbn [fst snd]; split_and!; [naive_solver|apply (Ha (ctx_Event c))|done..]].
  destruct ((x ==s "self") || (x ==s FormatUint (ev_PID (ctx_Event c)) 10)) eqn:Ex; bool_prop.
  - destruct (cfg_IgnoreSelfProc (ctx_Config c)); cbn [fst snd].
    + split; [|done]. split; [done|]. exists x. split; [done|]. destruct Ex; bool_prop; auto.
    + split_and!; [naive_solver|apply (Ha (ctx_Event c))|done..].
  - cbn [fst snd]. split_and!; [|apply (Ha (ctx_Event c))|done..]. intros (_ & y & [= <-] & [?|?]); congruence.
Qed.

Lemma evalSensitive_decided c : sensitive_decided c (evalSensitiveFileAccess c).
Proof.
  assert (Hsil : ~ sensitive_access c -> sensitive_decided c (silent c)) by done.
  unfold evalSensitiveFileAccess. set (ev := ctx_Event c).
  destruct (ev_IsExit ev || negb (ev_SyscallID ev =? SysOpenat)) eqn:E1.
  { apply Hsil. intros (Hx & Ho & _). fold ev in Hx, Ho. by rewrite Hx, Ho in E1. }
  destruct (ev_Path ev ==s "") eqn:E2; bool_prop; [apply Hsil; by intros (_ & _ & ? & _)|].
  set (p := Clean (ev_Path ev)). rewrite sensitive_loop_first.
  change (find_first _ _) with (first_watched p).
  destruct (first_watched p) as [sp|] eqn:Ew.
  2: { apply Hsil. intros (_ & _ & _ & (sev & tech & Hs) & _). by eapply first_watched_None in Hs. }
  destruct (first_watched_Some _ _ Ew) as [Hs Hin].
  pose proof (sensitive_hit_eq c p sp Hin) as Hh. unfold sensitive_decided. fold ev in Hh |- *. fold p.
  destruct (fst (sensitive_hit c p sp)) as [a|].
  - destruct Hh as (Hno & Ha & Hsev & Hid & Hm). split; [|exists sp; split_and!; done].
    split_and!; [done..|eauto|exact Hno].
  - destruct Hh as (Hyes & ->). split; [|done]. intros (_ & _ & _ & _ & Hno). by apply Hno.
Qed.

#[export] Instance ruleSensitiveFileAccess_lawful :
  LawfulRule ruleSensitiveFileAccess ["target_self"; "target_pid"; "matched_pattern"].
Proof.
  split; cbn [rule_Eval ruleSensitiveFileAccess].
  - intros c Hx. unfold evalSensitiveFileAccess. by rewrite Hx.
  - intros c Hn. pose proof (evalSensitive_decided c) as Hd. unfold sensitive_decided in Hd.
    rewrite Hn in Hd. apply Hd.
  - intros c a Ha. pose proof (evalSensitive_decided c) as Hd. unfold sensitive_decided in Hd.
    rewrite Ha in Hd. by destruct Hd as (_ & sp & _ & Hd & _).
  - intros c k Hk. pose proof (evalSensitive_decided c) as Hd. unfold sensitive_decided in Hd.
    destruct (fst (evalSensitiveFileAccess c)); [|by destruct Hd as [_ ->]].
    destruct Hd as (_ & sp & _ & _ & _ & _ & ->). unfold sensitive_args.
    rewrite lookup_insert_ne by set_solver. destruct (procTargetPID _); [|done].
    rewrite lookup_insert_ne by set_solver. destruct (_ || _); [|done]. by rewrite lookup_insert_ne by set_solver.
  - intros c m. unfold evalSensitiveFileAccess. rewrite !sensitive_loop_first.
    unfold sensitive_hit, silent. blind_cases c.
Qed.

(** ** Properties *)

(** C4: the sensitive-file rule is exact.  It alerts exactly on the entry of an
    [openat] with a non-empty path whose lexical normal form is sensitive —
    a shadow file, [/proc/<x>/mem] or [/proc/<x>/maps], the sudo policy or a
    fragment of it, or a path containing a watched key or credential file name —
    unless the path is in the caller's own [/proc] directory and such accesses
    are configured away.  The alert carries the severity, technique and label of
    the first matching entry of the watch list, and the [/proc] target; when
    silent the rule writes nothing. *)
Theorem sensitive_exact c :
  match evalSensitiveFileAccess c with
  | (Some a, args) => sensitive_access c /\
      exists sp, first_watched (Clean (ev_Path (ctx_Event c))) = Some sp /\
        alert_by ruleSensitiveFileAccess (ctx_Event c) a /\ al_Severity a = sp_severity sp /\
        al_MitreID a = tech_ID (sp_technique sp) /\
        args = sensitive_args (ctx_Event c) (Clean (ev_Path (ctx_Event c))) sp
  | (None, args) => ~ sensitive_access c /\ args = ev_Args (ctx_Event c)
  end.
Proof.
  pose proof (evalSensitive_decided c) as Hd. unfold sensitive_decided in Hd.
  by destruct (evalSensitiveFileAccess c) as [[a|] args].
Qed.

(** *** Respelling the path *)

Definition set_Path (ev : Event) (p : string) : Event :=
  mkEvent (ev_Timestamp ev) (ev_Wall ev) (ev_PID ev) (ev_TID ev) (ev_TGID ev) (ev_UID ev) (ev_GID ev)
    (ev_PPID ev) (ev_Comm ev) (ev_Syscall ev) (ev_SyscallID ev) (ev_Args ev) (ev_ReturnValue ev)
    (ev_IsExit ev) (ev_Arg0 ev) (ev_Arg1 ev) (ev_Arg2 ev) p (ev_Argv ev) (ev_DestIP ev) (ev_DestPort ev)
    (ev_Family ev).

Definition opens (c : Context) (p : string) : Context :=
  mkContext (set_Path (ctx_Event c) p) (ctx_History c) (ctx_Config c).

(** A rule's verdict: everything but the text of the description, which quotes
    the path as the caller wrote it. *)
Definition verdict (r : option Alert * Args) : option (Severity * string * string) * Args :=
  ((fun a => (al_Severity a, al_MitreID a, al_Rule a)) <$> fst r, snd r).

Lemma respelled_empty p q : rtc respelled p q -> (p ==s "") = (q ==s "").
Proof.
  induction 1 as [|p q r Hpq _ IH]; [done|]. rewrite <- IH.
  assert (Hne : forall a x b, (a +:+ String x b ==s "") = false) by (intros [|] ? ?; done).
  destruct Hpq; cbn [String.append]; by rewrite !Hne.
Qed.

Lemma sensitive_hit_path c p q sp :
  verdict (sensitive_hit (opens c p) (Clean p) sp) = verdict (sensitive_hit (opens c q) (Clean p) sp).
Proof.
  unfold sensitive_hit. destruct (procTargetPID (Clean p)) as [x|]; [|reflexivity].
  unfold opens. cbn [ctx_Event ctx_Config].
  change (ev_PID (set_Path (ctx_Event c) q)) with (ev_PID (set_Path (ctx_Event c) p)).
  destruct ((x ==s "self") || _); [|reflexivity].
  destruct (cfg_IgnoreSelfProc (ctx_Config c)); reflexivity.
Qed.

(** C5: lexical respellings do not evade the rule.  However a path is rewritten
    by doubling slashes, inserting [.] elements, or entering and leaving a
    directory, any number of times, in any places, the open is judged the same:
    same decision, same severity and technique, same arguments. *)
Theorem respelling_no_evasion c p q :
  rtc respelled p q ->
  verdict (evalSensitiveFileAccess (opens c p)) = verdict (evalSensitiveFileAccess (opens c q)).
Proof.
  intros Hpq. unfold evalSensitiveFileAccess.
  change (ev_Path (ctx_Event (opens c p))) with p. change (ev_Path (ctx_Event (opens c q))) with q.
  change (ev_IsExit (ctx_Event (opens c q))) with (ev_IsExit (ctx_Event (opens c p))).
  change (ev_SyscallID (ctx_Event (opens c q))) with (ev_SyscallID (ctx_Event (opens c p))).
  rewrite <- (respelled_empty p q), <- (Clean_respelled_star p q), !sensitive_loop_first by done.
  destruct (_ || _); [done|]. destruct (p ==s ""); [done|].
  destruct (find_first _ _) as [sp|]; [|done]. apply sensitive_hit_path.
Qed.
End sensitive_facts.

Definition example_open (path : string) (ignore_self : bool) : Context :=
  mkContext (decodeIdentity (mkRaw 5 42 42 1000 1000 1 SysOpenat 0 0 0 0 0 0 0 0 "cat" path []) 0) None
    (mkConfig (2 * Second) [] false ignore_self None 0 DefaultStorylineConfig 1).

#[local] Existing Instance example_tables.

Lemma respelling_no_evasion_witness :
  verdict (evalSensitiveFileAccess (opens (example_open "" false) "/etc//./x/../shadow"))
  = verdict (evalSensitiveFileAccess (opens (example_open "" false) "/etc/shadow"))
  /\ fires (evalSensitiveFileAccess (opens (example_open "" false) "/etc/shadow")) = true.
Proof.
  split; [|vm_compute; reflexivity].
  apply (respelling_no_evasion (example_open "" false) "/etc//./x/../shadow" "/etc/shadow").
  apply rtc_l with "/etc/./x/../shadow"; [exact (respelled_slash "/etc" "./x/../shadow")|].
  apply rtc_l with "/etc/x/../shadow"; [exact (respelled_dot "/etc" "x/../shadow")|].
  apply rtc_l with "/etc/shadow"; [|apply rtc_refl].
  apply (respelled_dotdot "/etc" "x" "shadow"); [|reflexivity]. split_and!; discriminate.
Defined.

(** *** Two limits of the watch list *)

(** Ignoring a process's own [/proc] entry also ignores the credential files it
    opens through its own [/proc/self/root]. *)
Lemma ignore_self_proc_hides_keys :
  fires (evalSensitiveFileAccess (example_open "/home/a/.ssh/id_rsa" true)) = true /\
  fires (evalSensitiveFileAccess (example_open "/proc/self/root/home/a/.ssh/id_rsa" true)) = false.
Proof. split; vm_compute; reflexivity. Qed.

(** The fragments are anchored on the left only: they match halfway through the
    last element. *)
Lemma fragments_match_longer_names :
  fires (evalSensitiveFileAccess (example_open "/home/a/.kube/configs/readme.txt" false)) = true /\
  fires (evalSensitiveFileAccess (example_open "/home/a/.ssh/id_rsa.pub" false)) = true.
Proof. split; vm_compute; reflexivity. Qed.
