(* ===== verification/Storyline.v ===== *)
(** * Storylines: correlating alerts into attack chains ([detect/storyline.go])

    The correlator's maps hold pointers: two processes of one story share one
    [*storyline], and merging redirects pointers.  The model keeps that: a heap
    of storylines [co_heap] under addresses, [co_byPID] from processes to
    addresses, and the next free address.  [*procNode] pointers never leave the
    lineage map, so that map holds the nodes themselves.

    A nil [*Correlator] (correlation disabled) is [None] in the functions that
    mirror its nil-safe methods. *)

From S2P Require Import Prelude GoStrings GoTime Syscalls Events Alerts Tracker Config.

(** ** Tactics *)

Record Tactic := mkTactic { tac_ID : string; tac_Name : string }.
#[export] Instance Tactic_eq_dec : EqDecision Tactic.
Proof. solve_decision. Defined.

Definition TacticExecution := mkTactic "TA0002" "Execution".
Definition TacticPrivEsc := mkTactic "TA0004" "Privilege Escalation".
Definition TacticDefenseEvasion := mkTactic "TA0005" "Defense Evasion".
Definition TacticCredentialAccess := mkTactic "TA0006" "Credential Access".
Definition TacticCommandControl := mkTactic "TA0011" "Command and Control".

Definition tacticsByTechnique : list (string * Tactic) :=
  [ ("T1548", TacticPrivEsc); ("T1068", TacticPrivEsc); ("T1003", TacticCredentialAccess);
    ("T1552", TacticCredentialAccess); ("T1055", TacticDefenseEvasion); ("T1059", TacticExecution);
    ("T1071", TacticCommandControl) ].

Definition TacticsFor (a : Alert) : list Tactic :=
  let parent := Cut_before (al_MitreID a) "." in
  let out := match assoc parent tacticsByTechnique with Some t => [t] | None => [] end in
  if al_Rule a ==s RuleNameReverseShell then out ++ [TacticCommandControl] else out.

(** ** State *)

Definition sessionBoundaries : list string :=
  [ "systemd"; "init"; "sshd"; "sshd-session"; "login"; "containerd-shim"; "containerd-shim-runc-v2";
    "conmon"; "runc"; "cron"; "crond"; "tmux: server"; "screen"; "kthreadd" ].
Definition is_boundary (comm : string) : bool := bool_decide (comm ∈ sessionBoundaries).

Definition maxAncestry : nat := 16.
Definition maxStorySteps : nat := 24.
Definition maxLineage : nat := Z.to_nat (Z.shiftl 1 16).
Definition lineageSweepEvery : Z := 30 * Second.

Record procNode := mkProcNode { pn_ppid : Z; pn_comm : string; pn_lastSeen : Z }.

(** [type storyline struct] *)
Record storyline := mkStoryline {
  sl_id : string;
  sl_root : Z;
  sl_rootComm : string;
  sl_members : gset Z;
  sl_tactics : list Tactic;
  sl_techniques : list string;
  sl_procs : list string;
  sl_steps : list StoryStep;
  sl_alerts : Z;
  sl_firstTS : Z;
  sl_lastTS : Z;
  sl_reportedN : Z
}.

(** [type Correlator struct] *)
Record Correlator := mkCorrelator {
  co_cfg : StorylineConfig;
  co_lineage : gmap Z procNode;
  co_byPID : gmap Z nat;
  co_heap : gmap nat storyline;
  co_next : nat;
  co_seq : Z;
  co_lastSweep : Z;
  co_chains : Z
}.

Definition set_lineage (c : Correlator) (m : gmap Z procNode) : Correlator :=
  mkCorrelator (co_cfg c) m (co_byPID c) (co_heap c) (co_next c) (co_seq c) (co_lastSweep c) (co_chains c).
Definition set_byPID (c : Correlator) (m : gmap Z nat) : Correlator :=
  mkCorrelator (co_cfg c) (co_lineage c) m (co_heap c) (co_next c) (co_seq c) (co_lastSweep c) (co_chains c).

(** Writing through a story pointer, and allocating a story. *)
Definition store (c : Correlator) (p : nat) (s : storyline) : Correlator :=
  mkCorrelator (co_cfg c) (co_lineage c) (co_byPID c) (<[p := s]> (co_heap c)) (co_next c) (co_seq c)
    (co_lastSweep c) (co_chains c).
Definition alloc (c : Correlator) (s : storyline) : nat * Correlator :=
  (co_next c,
   mkCorrelator (co_cfg c) (co_lineage c) (co_byPID c) (<[co_next c := s]> (co_heap c)) (S (co_next c))
     (co_seq c) (co_lastSweep c) (co_chains c)).

(** A story read through a pointer; the pointers the correlator holds are all
    allocated ([heap_ok] below), so the default is never seen. *)
Definition nil_story : storyline := mkStoryline "" 0 "" ∅ [] [] [] [] 0 0 0 0.
Definition load (c : Correlator) (p : nat) : storyline := default nil_story (co_heap c !! p).

(** [NewCorrelator] *)
Definition NewCorrelator (cfg : StorylineConfig) : option Correlator :=
  if negb (sc_Enabled cfg) then None
  else
    let cfg := if sc_Threshold cfg <? 2
               then mkStorylineConfig (sc_Enabled cfg) 2 (sc_Window cfg) (sc_Lookup cfg) else cfg in
    let cfg := if sc_Window cfg <=? 0
               then mkStorylineConfig (sc_Enabled cfg) (sc_Threshold cfg) (sc_Window DefaultStorylineConfig)
                      (sc_Lookup cfg)
               else cfg in
    Some (mkCorrelator cfg ∅ ∅ ∅ 0 0 0 0).

(** ** Steps *)

(** The index of the first step that is not pivotal. *)
Fixpoint first_filler (steps : list StoryStep) : option nat :=
  match steps with
  | [] => None
  | st :: rest => if st_pivotal st then S <$> first_filler rest else Some 0%nat
  end.

(** [storyline.addStep], on the [steps] field. *)
Definition addStep (steps : list StoryStep) (st : StoryStep) : list StoryStep :=
  if (maxStorySteps <=? length steps)%nat then
    match first_filler steps with
    | Some evict => delete evict steps ++ [st]
    | None => if negb (st_pivotal st) then steps else delete 0%nat steps ++ [st]
    end
  else steps ++ [st].

Definition hasTactic (tactics : list Tactic) (t : Tactic) : bool := bool_decide (t ∈ tactics).

Definition appendUnique (l : list string) (v : string) : list string :=
  if bool_decide (v ∈ l) then l else l ++ [v].

(** Adding the tactics a list does not have yet: the loops of [Correlate] and
    [merge]. *)
Definition addTactics (tactics ts : list Tactic) : list Tactic :=
  foldl (fun acc t => if hasTactic acc t then acc else acc ++ [t]) tactics ts.

Definition tacticNames (ts : list Tactic) : string := Join (tac_Name <$> ts) " + ".

(** [stepSummary], on an alert whose argument map is [args]; a missing key
    reads as the empty string. *)
Definition arg_of (args : gmap string string) (k : string) : string := default "" (args !! k).

Definition stepSummary (args : gmap string string) (a : Alert) : string :=
  if al_Rule a ==s RuleNameReverseShell then
    let d := arg_of args "chain_dest" in
    if negb (d ==s "") then "reverse shell to " +:+ d else "reverse shell"
  else if al_Rule a ==s RuleNameProcessInjection then
    "ptrace " +:+ arg_of args "request" +:+ " → pid " +:+ arg_of args "target_pid"
  else
    let p := arg_of args "path" in
    if negb (p ==s "") then al_Syscall a +:+ " " +:+ p
    else
      match args !! "target_uid", args !! "target_gid" with
      | Some v, _ => al_Syscall a +:+ "(" +:+ v +:+ ")"
      | None, Some v => al_Syscall a +:+ "(" +:+ v +:+ ")"
      | None, None =>
          match args !! "ruid" with
          | Some v => al_Syscall a +:+ "(" +:+ v +:+ "," +:+ arg_of args "euid" +:+ "," +:+ arg_of args "suid" +:+ ")"
          | None =>
              match args !! "rgid" with
              | Some v => al_Syscall a +:+ "(" +:+ v +:+ "," +:+ arg_of args "egid" +:+ "," +:+ arg_of args "sgid" +:+ ")"
              | None => al_Syscall a
              end
          end
      end.

(** ** Lineage *)

(** A timestamp is outside a story's or a node's window. *)
Definition idle (now last window : Z) : bool := (last <? now) && (window <? u64 (now - last)).

(** [Correlator.maybeSweep] *)
Definition correlator_maybeSweep (c : Correlator) (now : Z) : Correlator :=
  if negb (co_lastSweep c =? 0) && (u64 (now - co_lastSweep c) <? u64 lineageSweepEvery)
     && (size (co_lineage c) <? maxLineage)%nat
  then c
  else
    let window := u64 (sc_Window (co_cfg c)) in
    let byPID := filter (fun ps => idle now (sl_lastTS (load c (snd ps))) window = false) (co_byPID c) in
    let lineage := filter (fun pn => byPID !! fst pn <> None \/ idle now (pn_lastSeen (snd pn)) window = false)
                     (co_lineage c) in
    let lineage := if (maxLineage <=? size lineage)%nat then ∅ else lineage in
    mkCorrelator (co_cfg c) lineage byPID (co_heap c) (co_next c) (co_seq c) now (co_chains c).

(** [Correlator.Observe] *)
Definition observe (c : Correlator) (ev : Event) : Correlator :=
  if ev_PID ev =? 0 then c
  else
    let c := correlator_maybeSweep c (ev_Timestamp ev) in
    set_lineage c (<[ev_PID ev := mkProcNode (ev_PPID ev) (ev_Comm ev) (ev_Timestamp ev)]> (co_lineage c)).
Definition Observe (oc : option Correlator) (ev : Event) : option Correlator :=
  c ← oc; Some (observe c ev).

(** [Correlator.node] *)
Definition node (c : Correlator) (pid now : Z) : option procNode * Correlator :=
  match co_lineage c !! pid with
  | Some n => (Some n, c)
  | None =>
      match sc_Lookup (co_cfg c) with
      | None => (None, c)
      | Some lookup =>
          match lookup pid with
          | None => (None, c)
          | Some (ppid, comm) =>
              let n := mkProcNode ppid comm now in
              (Some n, set_lineage c (<[pid := n]> (co_lineage c)))
          end
      end
  end.

(** The loop of [Correlator.ancestry]; [None] is running out of fuel, which
    [ancestry_total] excludes. *)
Fixpoint ancestry_loop (fuel : nat) (c : Correlator) (now : Z) (chain : list Z) (seen : gset Z) (cur : Z)
    : option (list Z * Correlator) :=
  if (length chain <? maxAncestry)%nat then
    match fuel with
    | O => None
    | S fuel =>
        if (cur <=? 2) || bool_decide (cur ∈ seen) then Some (chain, c)
        else
          let '(n, c) := node c cur now in
          if match n with Some n => is_boundary (pn_comm n) | None => false end then Some (chain, c)
          else
            let chain := chain ++ [cur] in
            let seen := {[ cur ]} ∪ seen in
            match n with
            | None => Some (chain, c)
            | Some n => ancestry_loop fuel c now chain seen (pn_ppid n)
            end
    end
  else Some (chain, c).

Definition ancestry_opt (c : Correlator) (pid ppid now : Z) : option (list Z * Correlator) :=
  ancestry_loop maxAncestry c now [pid] {[ pid ]} ppid.
Definition ancestry (c : Correlator) (pid ppid now : Z) : list Z * Correlator :=
  default ([pid], c) (ancestry_opt c pid ppid now).

(** [Correlator.commOf] *)
Definition commOf (c : Correlator) (pid : Z) : string :=
  match co_lineage c !! pid with Some n => pn_comm n | None => "?" end.

(** ** Filing *)

(** [sort.SliceStable] by offset: insertion that stays behind its equals. *)
Fixpoint stable_insert (st : StoryStep) (l : list StoryStep) : list StoryStep :=
  match l with
  | [] => [st]
  | st' :: l' => if st_OffsetMS st' <=? st_OffsetMS st then st' :: stable_insert st l' else st :: l
  end.
Definition stable_sort (l : list StoryStep) : list StoryStep := foldl (fun acc st => stable_insert st acc) [] l.

Definition shift_step (shift : Z) (st : StoryStep) : StoryStep :=
  mkStoryStep (i64 (st_OffsetMS st + shift)) (st_PID st) (st_Comm st) (st_Rule st) (st_MitreID st)
    (st_Tactic st) (st_Summary st) (st_pivotal st).

(** What [merge] makes of the two stories. *)
Definition merge_story (dst src : storyline) : storyline :=
  let shift := millis (sl_firstTS src - sl_firstTS dst) in
  let merged := stable_sort (sl_steps dst ++ (shift_step shift <$> sl_steps src)) in
  {| sl_id := sl_id dst; sl_root := sl_root dst; sl_rootComm := sl_rootComm dst;
     sl_members := sl_members dst ∪ sl_members src;
     sl_tactics := addTactics (sl_tactics dst) (sl_tactics src);
     sl_techniques := foldl appendUnique (sl_techniques dst) (sl_techniques src);
     sl_procs := foldl appendUnique (sl_procs dst) (sl_procs src);
     sl_steps := foldl addStep [] merged;
     sl_alerts := i64 (sl_alerts dst + sl_alerts src);
     sl_firstTS := sl_firstTS dst;
     sl_lastTS := if sl_lastTS dst <? sl_lastTS src then sl_lastTS src else sl_lastTS dst;
     sl_reportedN := if sl_reportedN dst <? sl_reportedN src then sl_reportedN src else sl_reportedN dst |}.

(** Every process of [pids] now points to [p]. *)
Definition redirect (m : gmap Z nat) (pids : gset Z) (p : nat) : gmap Z nat :=
  set_fold (fun pid m => <[pid := p]> m) m pids.

(** [Correlator.merge] *)
Definition merge (c : Correlator) (dst src : nat) : Correlator :=
  let s := load c src in
  store (set_byPID c (redirect (co_byPID c) (sl_members s) dst)) dst (merge_story (load c dst) s).

(** [containsStory]: pointers are compared. *)
Definition containsStory (l : list nat) (s : nat) : bool := bool_decide (s ∈ l).

(** The stories [storyFor] finds for the chain, in chain order. *)
Fixpoint found_stories (c : Correlator) (now window : Z) (chain : list Z) (found : list nat) : list nat :=
  match chain with
  | [] => found
  | pid :: chain' =>
      let found :=
        match co_byPID c !! pid with
        | None => found
        | Some p =>
            if idle now (sl_lastTS (load c p)) window then found
            else if containsStory found p then found else found ++ [p]
        end in
      found_stories c now window chain' found
  end.

(** The loop that lets the oldest story absorb the rest. *)
Fixpoint absorb (c : Correlator) (s : nat) (others : list nat) : nat * Correlator :=
  match others with
  | [] => (s, c)
  | other :: rest =>
      let '(s, other) := if sl_firstTS (load c other) <? sl_firstTS (load c s) then (other, s) else (s, other) in
      absorb (merge c s other) s rest
  end.

(** [chain[len(chain)-1]]; a chain is never empty. *)
Definition top_of (chain : list Z) : Z := List.last chain 0.

(** Opening a new story for the chain. *)
Definition open_story (c : Correlator) (chain : list Z) (now : Z) : nat * Correlator :=
  let seq := u64 (co_seq c + 1) in
  let top := top_of chain in
  alloc (mkCorrelator (co_cfg c) (co_lineage c) (co_byPID c) (co_heap c) (co_next c) seq (co_lastSweep c) (co_chains c))
    (mkStoryline ("ks-" +:+ fmt_d top +:+ "-" +:+ fmt_d seq) top (commOf c top) ∅ [] [] [] [] 0 now 0 0).

Definition set_members_root (s : storyline) (members : gset Z) (root : Z) (rootComm : string) : storyline :=
  mkStoryline (sl_id s) root rootComm members (sl_tactics s) (sl_techniques s) (sl_procs s) (sl_steps s)
    (sl_alerts s) (sl_firstTS s) (sl_lastTS s) (sl_reportedN s).

(** The end of [storyFor]: the chain joins the story, and its top becomes the
    root if the old root is in the chain below it. *)
Definition join_chain (c : Correlator) (p : nat) (chain : list Z) : Correlator :=
  let s := load c p in
  let c := set_byPID c (redirect (co_byPID c) (list_to_set chain) p) in
  let members := sl_members s ∪ list_to_set chain in
  let top := top_of chain in
  if negb (top =? sl_root s) && bool_decide (sl_root s ∈ chain)
  then store c p (set_members_root s members top (commOf c top))
  else store c p (set_members_root s members (sl_root s) (sl_rootComm s)).

(** [Correlator.storyFor] *)
Definition storyFor (c : Correlator) (chain : list Z) (now : Z) : nat * Correlator :=
  let window := u64 (sc_Window (co_cfg c)) in
  let '(p, c) :=
    match found_stories c now window chain [] with
    | [] => open_story c chain now
    | s :: others => absorb c s others
    end in
  (p, join_chain c p chain).

(** [Correlator.chainAlert] *)
Definition chainAlert (trigger : Alert) (s : storyline) : Alert :=
  let names := tac_Name <$> sl_tactics s in
  let ids := tac_ID <$> sl_tactics s in
  let span := i64 (u64 (sl_lastTS s - sl_firstTS s)) in
  let root := sl_rootComm s +:+ "[" +:+ fmt_d (sl_root s) +:+ "]" in
  {| al_Timestamp := al_Timestamp trigger; al_PID := al_PID trigger; al_TID := al_TID trigger;
     al_PPID := al_PPID trigger; al_Comm := al_Comm trigger; al_UID := al_UID trigger;
     al_GID := al_GID trigger; al_Syscall := al_Syscall trigger;
     al_Args := OwnArgs (list_to_map
       [ ("tactics", Join names " → "); ("tactic_ids", Join ids ",");
         ("techniques", Join (sl_techniques s) ","); ("processes", Join (sl_procs s) ",");
         ("root", root); ("alert_count", fmt_d (sl_alerts s));
         ("span_ms", fmt_d (Z.quot span Millisecond)) ]);
     al_MitreID := Join (sl_techniques s) ",";
     al_MitreTechnique := "Multi-stage attack: " +:+ Join names ", ";
     al_Severity := SeverityCritical;
     al_Description := "Multi-stage attack in the process tree of " +:+ root +:+ ": " +:+ Join names " → "
       +:+ " (" +:+ fmt_d (Z.of_nat (length (sl_tactics s))) +:+ " tactics, " +:+ fmt_d (sl_alerts s)
       +:+ " alerts, " +:+ fmt_d (Z.of_nat (length (sl_procs s))) +:+ " processes, "
       +:+ Duration_String (Duration_Round span Millisecond) +:+ ")";
     al_Rule := RuleNameAttackChain;
     al_Storyline := sl_id s;
     al_Suppressed := 0;
     al_Story := sl_steps s |}.

(** What filing alert [a], whose arguments are [args], does to its story. *)
Definition file_alert (s : storyline) (args : gmap string string) (a : Alert) (now : Z) : storyline :=
  let newTactic := negb (forallb (hasTactic (sl_tactics s)) (TacticsFor a)) in
  {| sl_id := sl_id s; sl_root := sl_root s; sl_rootComm := sl_rootComm s; sl_members := sl_members s;
     sl_tactics := addTactics (sl_tactics s) (TacticsFor a);
     sl_techniques := appendUnique (sl_techniques s) (al_MitreID a);
     sl_procs := appendUnique (sl_procs s) (al_Comm a +:+ "[" +:+ fmt_d (al_PID a) +:+ "]");
     sl_steps := addStep (sl_steps s)
       (mkStoryStep (millis (now - sl_firstTS s)) (al_PID a) (al_Comm a) (al_Rule a) (al_MitreID a)
          (tacticNames (TacticsFor a)) (stepSummary args a) newTactic);
     sl_alerts := i64 (sl_alerts s + 1);
     sl_firstTS := sl_firstTS s;
     sl_lastTS := now;
     sl_reportedN := sl_reportedN s |}.

Definition set_reportedN (s : storyline) (n : Z) : storyline :=
  mkStoryline (sl_id s) (sl_root s) (sl_rootComm s) (sl_members s) (sl_tactics s) (sl_techniques s)
    (sl_procs s) (sl_steps s) (sl_alerts s) (sl_firstTS s) (sl_lastTS s) n.

(** The test before an attack-chain alert is raised, on the story [s] before
    the alert [a] was filed and [s'] after. *)
Definition raises (threshold : Z) (s s' : storyline) (a : Alert) : bool :=
  let n := Z.of_nat (length (sl_tactics s')) in
  negb (forallb (hasTactic (sl_tactics s)) (TacticsFor a)) && (threshold <=? n) && (sl_reportedN s' <? n).

(** [Correlator.Correlate]: the attack-chain alert if there is one, the alert
    with its storyline stamped, the new state. *)
Definition correlate (c : Correlator) (ev : Event) (args : gmap string string) (a : Alert)
    : option Alert * Alert * Correlator :=
  let now := ev_Timestamp ev in
  let '(chain, c) := ancestry c (ev_PID ev) (ev_PPID ev) now in
  let '(p, c) := storyFor c chain now in
  let s := load c p in
  let a := set_Storyline a (sl_id s) in
  let s' := file_alert s args a now in
  if raises (sc_Threshold (co_cfg c)) s s' a then
    let s' := set_reportedN s' (Z.of_nat (length (sl_tactics s'))) in
    let c := store c p s' in
    (Some (chainAlert a s'), a,
     mkCorrelator (co_cfg c) (co_lineage c) (co_byPID c) (co_heap c) (co_next c) (co_seq c) (co_lastSweep c)
       (u64 (co_chains c + 1)))
  else (None, a, store c p s').

Definition Correlate (oc : option Correlator) (ev : Event) (args : gmap string string) (a : Alert)
    : option Alert * Alert * option Correlator :=
  match oc with
  | None => (None, a, None)
  | Some c => let '(chain, a, c) := correlate c ev args a in (chain, a, Some c)
  end.

(** [Correlator.Storylines] and [Correlator.Chains] *)
Definition Storylines (oc : option Correlator) : Z :=
  match oc with
  | None => 0
  | Some c => Z.of_nat (size (list_to_set (snd <$> map_to_list (co_byPID c)) : gset nat))
  end.
Definition Chains (oc : option Correlator) : Z :=
  match oc with None => 0 | Some c => co_chains c end.

(** ** Lemmas: pieces *)

Lemma redirect_lookup_in m pids p k : k ∈ pids -> redirect m pids p !! k = Some p.
Proof.
  unfold redirect. apply (set_fold_ind_L (fun (r : gmap Z nat) (X : gset Z) => k ∈ X -> (r !! k = Some p))); [set_solver|].
  intros x X r Hx IH Hk. destruct (decide (x = k)) as [->|Hne]; [by rewrite lookup_insert_eq|].
  rewrite lookup_insert_ne by done. apply IH. set_solver.
Qed.

Lemma redirect_lookup_out m pids p k : k ∉ pids -> redirect m pids p !! k = m !! k.
Proof.
  unfold redirect. apply (set_fold_ind_L (fun (r : gmap Z nat) (X : gset Z) => k ∉ X -> (r !! k = m !! k))); [done|].
  intros x X r Hx IH Hk. rewrite lookup_insert_ne by set_solver. apply IH. set_solver.
Qed.

Lemma redirect_lookup_Some m pids p k q :
  (redirect m pids p !! k = Some q) <->
  ((k ∈ pids) /\ q = p) \/ ((k ∉ pids) /\ m !! k = Some q).
Proof.
  destruct (decide (k ∈ pids)).
  - rewrite redirect_lookup_in by done. naive_solver.
  - rewrite redirect_lookup_out by done. naive_solver.
Qed.

(** [addTactics] keeps a list of distinct tactics one, as a prefix, and gains
    exactly the tactics added. *)
Lemma addTactics_spec ts tactics :
  NoDup tactics ->
  NoDup (addTactics tactics ts) /\ tactics `prefix_of` addTactics tactics ts /\
  (forall t, t ∈ addTactics tactics ts <-> t ∈ tactics \/ t ∈ ts).
Proof.
  revert tactics; induction ts as [|t ts IH]; intros l Hl.
  - cbn. split_and!; [done|done|]. intros t. split; [by left|]. by intros [?|?%not_elem_of_nil].
  - change (addTactics l (t :: ts)) with (addTactics (if hasTactic l t then l else l ++ [t]) ts).
    unfold hasTactic. case_bool_decide as Ht.
    + destruct (IH l Hl) as (H1 & H2 & H3). split_and!; [done|done|]. intros x.
      rewrite H3, elem_of_cons. naive_solver.
    + destruct (IH (l ++ [t])) as (H1 & H2 & H3).
      { apply NoDup_app. split_and!; [done| |apply NoDup_singleton]. intros x Hx. set_solver. }
      split_and!; [done| |].
      * etransitivity; [by apply prefix_app_r|exact H2].
      * intros x. rewrite H3, elem_of_app, elem_of_cons. set_solver.
Qed.

Lemma appendUnique_NoDup l v : NoDup l -> NoDup (appendUnique l v).
Proof.
  intros Hl. unfold appendUnique. case_bool_decide as Hv; [done|].
  apply NoDup_app. split_and!; [done| |apply NoDup_singleton]. set_solver.
Qed.

Lemma foldl_appendUnique_NoDup vs l : NoDup l -> NoDup (foldl appendUnique l vs).
Proof. revert l; induction vs as [|v vs IH]; intros l Hl; cbn; [done|]. by apply IH, appendUnique_NoDup. Qed.

Lemma first_filler_Some steps i :
  first_filler steps = Some i -> exists st, steps !! i = Some st /\ st_pivotal st = false /\
    Forall (fun st => st_pivotal st = true) (take i steps).
Proof.
  revert i; induction steps as [|st steps IH]; cbn; [done|]. intros i.
  destruct (st_pivotal st) eqn:E; [|intros [= <-]; by exists st].
  intros (j & Hj & ->)%fmap_Some. destruct (IH j Hj) as (st' & H1 & H2 & H3).
  exists st'. cbn. split_and!; [done|done|by constructor].
Qed.

Lemma first_filler_None steps : first_filler steps = None <-> Forall (fun st => st_pivotal st = true) steps.
Proof.
  induction steps as [|st steps IH]; cbn; [done|]. rewrite Forall_cons, <- IH.
  destruct (st_pivotal st); [|naive_solver]. rewrite fmap_None. naive_solver.
Qed.

Lemma addStep_length steps st :
  (length steps <= maxStorySteps)%nat -> (length (addStep steps st) <= maxStorySteps)%nat.
Proof.
  intros Hl. unfold addStep. destruct (maxStorySteps <=? length steps)%nat eqn:E; bool_prop.
  - destruct (first_filler steps) as [i|] eqn:Ef.
    + apply first_filler_Some in Ef as (x & Hx & _). rewrite length_app, length_delete by eauto.
      pose proof (lookup_lt_Some _ _ _ Hx). cbn [length]. lia.
    + destruct (st_pivotal st); cbn [negb]; [|done].
      destruct steps as [|x steps]; [cbn in E; unfold maxStorySteps in E; lia|].
      rewrite length_app. cbn in *. lia.
  - rewrite length_app. cbn [length]. lia.
Qed.

Lemma foldl_addStep_length sts steps :
  (length steps <= maxStorySteps)%nat -> (length (foldl addStep steps sts) <= maxStorySteps)%nat.
Proof. revert steps; induction sts as [|st sts IH]; intros steps Hl; cbn; [done|]. by apply IH, addStep_length. Qed.

(** ** Lemmas: ancestry *)

Lemma ancestry_loop_total fuel c now chain seen cur :
  (maxAncestry <= fuel + length chain)%nat -> is_Some (ancestry_loop fuel c now chain seen cur).
Proof.
  revert c chain seen cur; induction fuel as [|fuel IH]; intros c chain seen cur Hf; cbn [ancestry_loop].
  - destruct (length chain <? maxAncestry)%nat eqn:E; bool_prop; [lia|eauto].
  - destruct (length chain <? maxAncestry)%nat; [|eauto].
    destruct (_ || _); [eauto|]. destruct (node c cur now) as [n c']. destruct (match n with Some _ => _ | None => _ end); [eauto|].
    destruct n as [n|]; [|eauto]. apply IH. rewrite length_app. cbn [length]. lia.
Qed.

(** The lookup and the lineage agree on what [node] reports, and a lookup's
    answer is cached. *)
Definition known (c : Correlator) (pid : Z) : option (Z * string) :=
  match co_lineage c !! pid with
  | Some n => Some (pn_ppid n, pn_comm n)
  | None => lookup ← sc_Lookup (co_cfg c); lookup pid
  end.

(** Two states that differ at most in cached lookups. *)
Definition lineage_grown (c c' : Correlator) : Prop :=
  co_cfg c' = co_cfg c /\ co_byPID c' = co_byPID c /\ co_heap c' = co_heap c /\ co_next c' = co_next c /\
  co_seq c' = co_seq c /\ co_lastSweep c' = co_lastSweep c /\ co_chains c' = co_chains c /\
  co_lineage c ⊆ co_lineage c' /\ (forall pid, known c' pid = known c pid).

#[export] Instance lineage_grown_refl : Reflexive lineage_grown.
Proof. intros c. unfold lineage_grown. split_and!; done. Qed.

#[export] Instance lineage_grown_trans : Transitive lineage_grown.
Proof.
  intros c1 c2 c3 (A1 & A2 & A3 & A4 & A5 & A6 & A7 & A8 & A9) (B1 & B2 & B3 & B4 & B5 & B6 & B7 & B8 & B9).
  unfold lineage_grown. rewrite B1, B2, B3, B4, B5, B6, B7. split_and!; try assumption.
  - by etransitivity.
  - intros pid. by rewrite B9, A9.
Qed.

Lemma node_spec c pid now :
  (match fst (node c pid now) with Some n => Some (pn_ppid n, pn_comm n) | None => None end) = known c pid /\
  lineage_grown c (snd (node c pid now)).
Proof.
  unfold node, known. destruct (co_lineage c !! pid) as [n|] eqn:El; [by split|].
  destruct (sc_Lookup (co_cfg c)) as [lookup|] eqn:Elk; [|by split]. cbn.
  destruct (lookup pid) as [[ppid comm]|] eqn:Ep; [|by split]. cbn. split; [done|].
  split_and!; try done; cbn.
  - by apply insert_subseteq.
  - intros q. unfold known. cbn. destruct (decide (q = pid)) as [->|].
    + by rewrite lookup_insert_eq, El, Elk.
    + by rewrite lookup_insert_ne.
Qed.

(** *** The ancestry, declaratively

    [climbs K cur l]: [l] lists processes met going up from [cur] by the
    parentage [K], none of them a kernel process or a session boundary. *)
Section climb.
Context (K : Z -> option (Z * string)).

Definition boundary_in (pid : Z) : bool :=
  match K pid with Some (_, comm) => is_boundary comm | None => false end.

Fixpoint climbs (cur : Z) (l : list Z) : Prop :=
  match l with
  | [] => True
  | x :: l' => x = cur /\ 2 < x /\ boundary_in x = false /\
      match K x with Some (parent, _) => climbs parent l' | None => l' = [] end
  end.

(** Where the climb stands after [l]: the next process up, if it is known. *)
Fixpoint next_up (cur : Z) (l : list Z) : option Z :=
  match l with
  | [] => Some cur
  | x :: l' => match K x with Some (parent, _) => next_up parent l' | None => None end
  end.

(** The climb cannot go on from the chain [pid :: l]. *)
Definition stops (ppid : Z) (pid : Z) (l : list Z) : Prop :=
  match next_up ppid l with
  | None => True
  | Some next => next <= 2 \/ next ∈ pid :: l \/ boundary_in next = true
  end.

(** The chain [pid :: l] is the ancestry of [pid] below its session. *)
Definition is_ancestry (pid ppid : Z) (chain : list Z) : Prop :=
  exists l, chain = pid :: l /\ climbs ppid l /\ NoDup chain /\ (length chain <= 16)%nat /\
    (length chain = 16%nat \/ stops ppid pid l).

Lemma climbs_snoc cur l x :
  climbs cur l -> next_up cur l = Some x -> 2 < x -> boundary_in x = false -> climbs cur (l ++ [x]).
Proof.
  revert cur; induction l as [|y l IH]; cbn; intros cur Hc Hn Hx Hb.
  - injection Hn as ->. split_and!; try done. by destruct (K x) as [[? ?]|].
  - destruct Hc as (-> & Hy & Hyb & Hc). split_and!; try done. destruct (K cur) as [[p cm]|]; [|done]. by apply IH.
Qed.

Lemma next_up_snoc cur l x :
  next_up cur l = Some x -> next_up cur (l ++ [x]) = fst <$> K x.
Proof.
  revert cur; induction l as [|y l IH]; cbn; intros cur Hn.
  - injection Hn as ->. by destruct (K x) as [[? ?]|].
  - destruct (K y) as [[p cm]|]; [|done]. by apply IH.
Qed.
End climb.

Lemma climbs_ext K K' cur l : (forall x, K x = K' x) -> climbs K cur l -> climbs K' cur l.
Proof.
  intros HK. revert cur; induction l as [|x l IH]; cbn; [done|]. intros cur (-> & Hx & Hb & Hc).
  unfold boundary_in in *. rewrite <- HK. split_and!; try done. destruct (K cur) as [[p cm]|]; auto.
Qed.

(** The loop extends a climb to a complete one. *)
Lemma ancestry_loop_spec K fuel c now pid ppid l cur chain' c' :
  (forall q, known c q = K q) ->
  climbs K ppid l -> next_up K ppid l = Some cur -> NoDup (pid :: l) -> (length (pid :: l) <= 16)%nat ->
  ancestry_loop fuel c now (pid :: l) (list_to_set (pid :: l)) cur = Some (chain', c') ->
  is_ancestry K pid ppid chain' /\ lineage_grown c c'.
Proof.
  revert c l cur; induction fuel as [|fuel IH]; intros c l cur HK Hc Hn Hd Hl; cbn [ancestry_loop].
  - destruct (length (pid :: l) <? maxAncestry)%nat eqn:E; bool_prop; [done|]. unfold maxAncestry in E.
    intros [= <- <-]. split; [|done]. exists l. split_and!; try done. left. lia.
  - destruct (length (pid :: l) <? maxAncestry)%nat eqn:E; bool_prop; unfold maxAncestry in E.
    2: { intros [= <- <-]. split; [|done]. exists l. split_and!; try done. left. lia. }
    destruct ((cur <=? 2) || bool_decide (cur ∈ (list_to_set (pid :: l) : gset Z))) eqn:Es.
    { intros [= <- <-]. split; [|done]. exists l. split_and!; try done. right. unfold stops. rewrite Hn.
      bool_prop. destruct Es as [Es|Es]; bool_prop; [by left|]. right; left. by apply elem_of_list_to_set in Es. }
    apply orb_false_iff in Es as [E2 Eseen]. apply Z.leb_gt in E2. apply bool_decide_eq_false_1 in Eseen.
    rewrite elem_of_list_to_set in Eseen.
    destruct (node_spec c cur now) as [Hk Hg]. rewrite HK in Hk.
    destruct (node c cur now) as [n c1]. cbn [fst snd] in Hk, Hg.
    assert (Hb : match n with Some n => is_boundary (pn_comm n) | None => false end = boundary_in K cur).
    { unfold boundary_in. rewrite <- Hk. by destruct n. }
    rewrite Hb. destruct (boundary_in K cur) eqn:Eb.
    { intros [= <- <-]. split; [|done]. exists l. split_and!; try done. right. unfold stops. rewrite Hn. tauto. }
    assert (Hd' : NoDup ((pid :: l) ++ [cur])).
    { apply NoDup_app. split_and!; [done| |apply NoDup_singleton]. set_solver. }
    assert (Hl' : (length (pid :: l ++ [cur]) <= 16)%nat) by (rewrite app_comm_cons, length_app; cbn [length] in *; lia).
    pose proof (climbs_snoc K ppid l cur Hc Hn E2 Eb) as Hc'.
    pose proof (next_up_snoc K ppid l cur Hn) as Hn'. rewrite <- Hk in Hn'.
    destruct n as [n|]; cbn in Hn'.
    + intros H. replace ({[cur]} ∪ list_to_set (pid :: l) : gset Z) with (list_to_set (pid :: l ++ [cur]) : gset Z) in H
        by (cbn; rewrite list_to_set_app_L; set_solver).
      apply IH in H as [H1 H2]; try done; [split; [done|by etransitivity]|].
      intros q. rewrite <- HK. apply Hg.
    + intros [= <- <-]. split; [|done]. exists (l ++ [cur]). split_and!; try done. right. unfold stops. by rewrite Hn'.
Qed.

Lemma ancestry_spec c pid ppid now :
  is_ancestry (known c) pid ppid (fst (ancestry c pid ppid now)) /\
  lineage_grown c (snd (ancestry c pid ppid now)).
Proof.
  unfold ancestry, ancestry_opt.
  destruct (ancestry_loop_total maxAncestry c now [pid] {[pid]} ppid) as [[chain c'] He]; [unfold maxAncestry; lia|].
  rewrite He. cbn [default from_option id fst snd].
  replace ({[pid]} : gset Z) with (list_to_set [pid] : gset Z) in He
    by (cbn [list_to_set foldr]; by rewrite (right_id_L ∅ (∪))).
  apply (ancestry_loop_spec (known c)) with (ppid := ppid) in He; [exact He|done|done|done| |cbn [length]; lia].
  apply NoDup_singleton.
Qed.

Lemma filter_delete_false (P : StoryStep -> Prop) `{forall x, Decision (P x)} (i : nat) (l : list StoryStep) x :
  l !! i = Some x -> ~ P x -> filter P (delete i l) = filter P l.
Proof.
  revert i; induction l as [|y l IH]; intros [|i] Hi Hx; cbn in Hi; try done.
  - injection Hi as ->. change (delete 0%nat (x :: l)) with l. rewrite filter_cons. by case_decide.
  - change (delete (S i) (y :: l)) with (y :: delete i l). rewrite !filter_cons, (IH i Hi Hx). done.
Qed.

(** ** Properties *)

(** C9: the ancestry of a process is its parentage below the session.  For any
    state, however the parentage was learned, and even if it is cyclic or
    adversarial: [ancestry] terminates; it starts with the process, goes up from
    parent to parent without repetition through at most 16 processes, none of
    them, the first apart, a kernel process or a session boundary; it stops only
    at the limit, at a kernel process, a boundary or a repetition, or where the
    parentage is unknown; and it leaves what is known about processes as it
    was. *)
Theorem ancestry_exact c pid ppid now :
  is_Some (ancestry_opt c pid ppid now) /\
  is_ancestry (known c) pid ppid (fst (ancestry c pid ppid now)) /\
  lineage_grown c (snd (ancestry c pid ppid now)).
Proof.
  split; [|apply ancestry_spec]. apply ancestry_loop_total. unfold maxAncestry. lia.
Qed.

(** A story keeps its turning points.  While fewer than 24 of the steps
    introduced a tactic, adding a step evicts none of those, keeps their order,
    and keeps the new step as the last one; and the story never has more than 24
    steps. *)
Theorem addStep_keeps_pivotal steps st :
  (length (filter (fun s => st_pivotal s = true) steps) < maxStorySteps)%nat -> (length steps <= maxStorySteps)%nat ->
  filter (fun s => st_pivotal s = true) (addStep steps st)
    = filter (fun s => st_pivotal s = true) steps ++ (if st_pivotal st then [st] else []) /\
  last (addStep steps st) = Some st /\ (length (addStep steps st) <= maxStorySteps)%nat.
Proof.
  intros Hp Hl. split; [|split; [|by apply addStep_length]].
  - assert (Hst : filter (fun s => st_pivotal s = true) [st] = if st_pivotal st then [st] else [])
      by (rewrite filter_cons; destruct (st_pivotal st); by case_decide).
    unfold addStep. destruct (maxStorySteps <=? length steps)%nat eqn:E; bool_prop.
    + destruct (first_filler steps) as [i|] eqn:Ef.
      * apply first_filler_Some in Ef as (x & Hx & Hpx & _). rewrite filter_app, Hst. f_equal.
        eapply filter_delete_false; [exact Hx|congruence].
      * apply first_filler_None in Ef. rewrite (filter_all _ _ Ef) in Hp. lia.
    + by rewrite filter_app, Hst.
  - unfold addStep. destruct (maxStorySteps <=? length steps)%nat eqn:E; bool_prop; [|apply last_snoc].
    destruct (first_filler steps) as [i|] eqn:Ef; [apply last_snoc|].
    apply first_filler_None in Ef. rewrite (filter_all _ _ Ef) in Hp. lia.
Qed.

Definition example_step (pivotal : bool) : StoryStep := mkStoryStep 0 1 "" "" "" "" "" pivotal.

Lemma addStep_keeps_pivotal_witness :
  let steps := example_step true :: repeat (example_step false) 23 in
  filter (fun s => st_pivotal s = true) (addStep steps (example_step true)) = [example_step true; example_step true].
Proof.
  etransitivity; [apply (addStep_keeps_pivotal (example_step true :: repeat (example_step false) 23) (example_step true))|];
    vm_compute; [lia|lia|reflexivity].
Defined.
