(* ===== verification/StoryFacts.v ===== *)
(** * What the correlator guarantees ([detect/storyline.go])

    The invariant of every reachable correlator state, the union-find behaviour
    of [storyFor], and when attack-chain alerts are raised. *)

From S2P Require Import Prelude GoStrings GoTime Syscalls Events Alerts Tracker Config Storyline.

(** ** The invariant *)

Definition allTactics : list Tactic :=
  [TacticExecution; TacticPrivEsc; TacticDefenseEvasion; TacticCredentialAccess; TacticCommandControl].

Record story_ok (s : storyline) : Prop := {
  so_tactics : NoDup (sl_tactics s);
  so_known : sl_tactics s ⊆ allTactics;
  so_techniques : NoDup (sl_techniques s);
  so_procs : NoDup (sl_procs s);
  so_steps : (length (sl_steps s) <= maxStorySteps)%nat;
  so_reported : 0 <= sl_reportedN s <= Z.of_nat (length (sl_tactics s))
}.

(** Pointers are allocated, stories are well formed, and a process points to a
    story only if it is one of its members. *)
Record heap_ok (c : Correlator) : Prop := {
  ho_member pid p : co_byPID c !! pid = Some p -> exists s, co_heap c !! p = Some s /\ pid ∈ sl_members s;
  ho_fresh p s : co_heap c !! p = Some s -> (p < co_next c)%nat;
  ho_story p s : co_heap c !! p = Some s -> story_ok s
}.

Lemma load_Some c p s : co_heap c !! p = Some s -> load c p = s.
Proof. unfold load. by intros ->. Qed.

Lemma nil_story_ok : story_ok nil_story.
Proof. split; cbn; try apply NoDup_nil_2; try (unfold maxStorySteps; lia); try lia. set_solver. Qed.

Lemma load_ok c p : heap_ok c -> story_ok (load c p).
Proof.
  intros [_ _ Hs]. unfold load. destruct (co_heap c !! p) eqn:E; cbn; [eauto|apply nil_story_ok].
Qed.

(** The five tactics bound every story. *)
Lemma story_ok_bound s : story_ok s -> (length (sl_tactics s) <= 5)%nat.
Proof. intros [Hd Hk _ _ _ _]. by apply (submseteq_length _ allTactics), NoDup_submseteq. Qed.

Lemma TacticsFor_known a : TacticsFor a ⊆ allTactics.
Proof.
  assert (Forall (fun e => snd e ∈ allTactics) tacticsByTechnique) as Hall by by_compute.
  unfold TacticsFor. intros t Ht.
  assert (t ∈ match assoc (Cut_before (al_MitreID a) ".") tacticsByTechnique with Some t => [t] | None => [] end
          \/ t = TacticCommandControl) as [H1| ->].
  { destruct (al_Rule a ==s RuleNameReverseShell); [|by left]. apply elem_of_app in Ht as [?|?]; [by left|].
    right. by apply list_elem_of_singleton. }
  - destruct (assoc _ _) as [t'|] eqn:E; [|by apply not_elem_of_nil in H1].
    apply list_elem_of_singleton in H1 as ->. apply assoc_Some_elem in E.
    rewrite Forall_forall in Hall. apply (Hall _ E).
  - unfold allTactics. set_solver.
Qed.

Lemma merge_story_ok dst src : story_ok dst -> story_ok src -> story_ok (merge_story dst src).
Proof.
  intros Hd Hs. destruct (addTactics_spec (sl_tactics src) (sl_tactics dst) (so_tactics _ Hd)) as (H1 & H2 & H3).
  split; cbn [merge_story sl_tactics sl_techniques sl_procs sl_steps sl_reportedN].
  - done.
  - intros t [?|?]%H3; [by apply (so_known _ Hd)|by apply (so_known _ Hs)].
  - apply foldl_appendUnique_NoDup, Hd.
  - apply foldl_appendUnique_NoDup, Hd.
  - apply foldl_addStep_length. cbn. lia.
  - assert (length (sl_tactics src) <= length (addTactics (sl_tactics dst) (sl_tactics src)))%nat.
    { apply submseteq_length, NoDup_submseteq; [apply Hs|]. intros t Ht. apply H3. by right. }
    apply prefix_length in H2. pose proof (so_reported _ Hd). pose proof (so_reported _ Hs).
    destruct (_ <? _); lia.
Qed.

Lemma file_alert_ok s args a now : story_ok s -> story_ok (file_alert s args a now).
Proof.
  intros Hs. destruct (addTactics_spec (TacticsFor a) (sl_tactics s) (so_tactics _ Hs)) as (H1 & H2 & H3).
  split; cbn [file_alert sl_tactics sl_techniques sl_procs sl_steps sl_reportedN].
  - done.
  - intros t [?|?]%H3; [by apply (so_known _ Hs)|by eapply TacticsFor_known].
  - apply appendUnique_NoDup, Hs.
  - apply appendUnique_NoDup, Hs.
  - apply addStep_length, Hs.
  - apply prefix_length in H2. pose proof (so_reported _ Hs). lia.
Qed.

Lemma set_reportedN_ok s : story_ok s -> story_ok (set_reportedN s (Z.of_nat (length (sl_tactics s)))).
Proof. intros []. split; cbn; try done. lia. Qed.

Lemma set_members_root_ok s m r rc : story_ok s -> story_ok (set_members_root s m r rc).
Proof. by intros []. Qed.

(** Writing a story whose members only grow keeps the invariant. *)
Lemma store_ok c p s :
  heap_ok c -> is_Some (co_heap c !! p) -> story_ok s -> sl_members (load c p) ⊆ sl_members s ->
  heap_ok (store c p s).
Proof.
  intros [Hm Hf Hs] [s0 Hp] Hok Hsub. split; cbn.
  - intros pid q Hq. destruct (Hm _ _ Hq) as (t & Ht & Hin). destruct (decide (q = p)) as [->|Hne].
    + rewrite lookup_insert_eq. exists s. split; [done|]. apply Hsub. by rewrite (load_Some _ _ _ Ht).
    + rewrite lookup_insert_ne by done. eauto.
  - intros q t. destruct (decide (q = p)) as [->|Hne].
    + intros _. eauto.
    + rewrite lookup_insert_ne by done. eauto.
  - intros q t. destruct (decide (q = p)) as [->|Hne].
    + rewrite lookup_insert_eq. by intros [= <-].
    + rewrite lookup_insert_ne by done. eauto.
Qed.

(** Pointing processes to a story that lists them. *)
Lemma redirect_ok c pids p :
  heap_ok c -> is_Some (co_heap c !! p) -> pids ⊆ sl_members (load c p) ->
  heap_ok (set_byPID c (redirect (co_byPID c) pids p)).
Proof.
  intros [Hm Hf Hs] [s0 Hp] Hsub. split; [|done..]. cbn.
  intros pid q [[Hin ->]|[_ Hq]]%redirect_lookup_Some; [|eauto].
  exists s0. split; [done|]. rewrite (load_Some _ _ _ Hp) in Hsub. by apply Hsub.
Qed.

Lemma store_redirect_comm c p s pids q :
  store (set_byPID c (redirect (co_byPID c) pids q)) p s
  = set_byPID (store c p s) (redirect (co_byPID (store c p s)) pids q).
Proof. done. Qed.

Lemma load_store c p s : load (store c p s) p = s.
Proof. unfold load, store. cbn. by rewrite lookup_insert_eq. Qed.

Lemma load_store_ne c p q s : p <> q -> load (store c p s) q = load c q.
Proof. intros. unfold load, store. cbn. by rewrite lookup_insert_ne. Qed.

Lemma store_is_Some c p s q : is_Some (co_heap c !! q) -> is_Some (co_heap (store c p s) !! q).
Proof. intros H. cbn. destruct (decide (p = q)) as [->|]; [rewrite lookup_insert_eq|rewrite lookup_insert_ne by done]; eauto. Qed.

Lemma merge_ok c dst src :
  heap_ok c -> is_Some (co_heap c !! dst) -> heap_ok (merge c dst src).
Proof.
  intros Hc Hd. unfold merge. rewrite store_redirect_comm. apply redirect_ok.
  - apply store_ok; [done|done|by apply merge_story_ok; apply load_ok|apply union_subseteq_l].
  - cbn. rewrite lookup_insert_eq. eauto.
  - rewrite load_store. apply union_subseteq_r.
Qed.

Lemma merge_is_Some c dst src q : is_Some (co_heap c !! q) -> is_Some (co_heap (merge c dst src) !! q).
Proof. apply (store_is_Some (set_byPID c _)). Qed.

(** The stories found are among the ones processes of the chain point to. *)
Lemma found_stories_elem c now window chain found p :
  p ∈ found_stories c now window chain found <->
  p ∈ found \/ exists pid, pid ∈ chain /\ co_byPID c !! pid = Some p /\ idle now (sl_lastTS (load c p)) window = false.
Proof.
  revert found; induction chain as [|pid chain IH]; intros found; cbn [found_stories].
  - split; [by left|]. intros [?|(pid & Hn & _)]; [done|]. by apply not_elem_of_nil in Hn.
  - rewrite IH. clear IH. set (found' := match co_byPID c !! pid with Some _ => _ | None => _ end).
    assert (Hf : p ∈ found' <-> p ∈ found \/
      (co_byPID c !! pid = Some p /\ idle now (sl_lastTS (load c p)) window = false)).
    { subst found'. destruct (co_byPID c !! pid) as [q|] eqn:Eq; [|split; [by left|by intros [?|[? ?]]]].
      destruct (idle now (sl_lastTS (load c q)) window) eqn:Ei.
      - split; [by left|]. intros [?|[[= ->] ?]]; [done|congruence].
      - unfold containsStory. case_bool_decide as Hq; rewrite ?elem_of_app, ?list_elem_of_singleton.
        + split; [by left|]. by intros [?|[[= ->] ?]].
        + split; [intros [?| ->]; auto|]. intros [?|[[= ->] ?]]; auto. }
    rewrite Hf. split.
    + intros [[?|[H1 H2]]|(x & Hx & H1)]; [by left|right; exists pid; split_and!; [left|done..]|].
      right. exists x. split; [by right|done].
    + intros [?|(x & [->|Hx]%elem_of_cons & H1 & H2)]; [by left; left|by left; right|]. right. by exists x.
Qed.

Lemma found_stories_NoDup c now window chain found :
  NoDup found -> NoDup (found_stories c now window chain found).
Proof.
  revert found; induction chain as [|pid chain IH]; intros found Hf; cbn [found_stories]; [done|].
  apply IH. destruct (co_byPID c !! pid) as [q|]; [|done]. destruct (idle _ _ _); [done|].
  unfold containsStory. case_bool_decide as Hq; [done|]. apply NoDup_app. split_and!; [done| |apply NoDup_singleton]. set_solver.
Qed.

Lemma absorb_ok c s others :
  heap_ok c -> Forall (fun p => is_Some (co_heap c !! p)) (s :: others) ->
  heap_ok (snd (absorb c s others)) /\ is_Some (co_heap (snd (absorb c s others)) !! fst (absorb c s others)).
Proof.
  revert c s; induction others as [|o others IH]; intros c s Hc Hf; cbn [absorb].
  - apply Forall_cons in Hf as [Hs _]. done.
  - apply Forall_cons in Hf as [Hs Hf]. apply Forall_cons in Hf as [Ho Hf].
    assert (Hf' : forall d r, Forall (fun p => is_Some (co_heap (merge c d r) !! p)) others).
    { intros d r. eapply Forall_impl; [exact Hf|]. intros q. apply merge_is_Some. }
    destruct (_ <? _); apply IH; try (by apply merge_ok); apply Forall_cons; split; auto using merge_is_Some.
Qed.

Lemma open_story_ok c chain now :
  heap_ok c -> heap_ok (snd (open_story c chain now)) /\
  is_Some (co_heap (snd (open_story c chain now)) !! fst (open_story c chain now)).
Proof.
  intros [Hm Hf Hs]. cbn. rewrite lookup_insert_eq. split; [|eauto].
  assert (Hlt : forall p s, co_heap c !! p = Some s -> p <> co_next c).
  { intros p s Hp. apply Hf in Hp. lia. }
  split; cbn.
  - intros pid p Hp. destruct (Hm _ _ Hp) as (s & Hh & Hin). exists s. rewrite lookup_insert_ne; [done|].
    by apply not_eq_sym, (Hlt _ _ Hh).
  - intros p s. destruct (decide (p = co_next c)) as [->|Hne]; [lia|]. rewrite lookup_insert_ne by done.
    intros Hp. apply Hf in Hp. lia.
  - intros p s. destruct (decide (p = co_next c)) as [->|Hne].
    + rewrite lookup_insert_eq. intros [= <-]. apply (set_members_root_ok nil_story _ _ _ nil_story_ok) || (split; cbn; try apply NoDup_nil_2; try lia; set_solver).
    + rewrite lookup_insert_ne by done. apply Hs.
Qed.

Lemma join_chain_ok c p chain :
  heap_ok c -> is_Some (co_heap c !! p) ->
  heap_ok (join_chain c p chain) /\ is_Some (co_heap (join_chain c p chain) !! p).
Proof.
  intros Hc Hp. unfold join_chain.
  assert (Hgen : forall r rc, heap_ok (store (set_byPID c (redirect (co_byPID c) (list_to_set chain) p)) p
      (set_members_root (load c p) (sl_members (load c p) ∪ list_to_set chain) r rc))).
  { intros r rc. rewrite store_redirect_comm. apply redirect_ok.
    - apply store_ok; [done|done|by apply set_members_root_ok, load_ok|apply union_subseteq_l].
    - cbn. rewrite lookup_insert_eq. eauto.
    - rewrite load_store. apply union_subseteq_r. }
  destruct (_ && _); (split; [apply Hgen|cbn; rewrite lookup_insert_eq; eauto]).
Qed.

Lemma found_allocated c now window chain :
  heap_ok c -> Forall (fun p => is_Some (co_heap c !! p)) (found_stories c now window chain []).
Proof.
  intros Hc. apply Forall_forall. intros p [Hn|(pid & _ & Hp & _)]%found_stories_elem.
  - by apply not_elem_of_nil in Hn.
  - destruct (ho_member c Hc _ _ Hp) as (t & Ht & _). eauto.
Qed.

Lemma storyFor_ok c chain now :
  heap_ok c -> heap_ok (snd (storyFor c chain now)) /\
  is_Some (co_heap (snd (storyFor c chain now)) !! fst (storyFor c chain now)).
Proof.
  intros Hc. unfold storyFor.
  destruct (found_stories c now (u64 (sc_Window (co_cfg c))) chain []) as [|s others] eqn:Ef.
  - destruct (open_story_ok c chain now Hc) as [H1 H2]. destruct (open_story c chain now) as [p c'].
    cbn [fst snd] in *. by apply join_chain_ok.
  - assert (Forall (fun p => is_Some (co_heap c !! p)) (s :: others)) as Hall by (rewrite <- Ef; by apply found_allocated).
    destruct (absorb_ok c s others Hc Hall) as [H1 H2]. destruct (absorb c s others) as [p c'].
    cbn [fst snd] in *. by apply join_chain_ok.
Qed.

(** ** Absorbing stories *)

(** A story whose members all point to it. *)
Definition owns (c : Correlator) (p : nat) : Prop :=
  forall pid, pid ∈ sl_members (load c p) -> co_byPID c !! pid = Some p.

(** Everything but the stories and who points to them is the same. *)
Definition same_frame (c c' : Correlator) : Prop :=
  co_cfg c' = co_cfg c /\ co_lineage c' = co_lineage c /\ co_lastSweep c' = co_lastSweep c /\ co_chains c' = co_chains c.

#[export] Instance same_frame_refl : Reflexive same_frame.
Proof. done. Qed.
#[export] Instance same_frame_trans : Transitive same_frame.
Proof. intros a b c (?&?&?&?) (?&?&?&?). unfold same_frame. split_and!; congruence. Qed.

(** The stories [l] of [c] have become the story [p] of [c']. *)
Record absorbed (c : Correlator) (l : list nat) (p : nat) (c' : Correlator) : Prop := {
  ab_in : p ∈ l;
  ab_oldest o : o ∈ l -> sl_firstTS (load c p) <= sl_firstTS (load c o);
  ab_first : sl_firstTS (load c' p) = sl_firstTS (load c p);
  ab_id : sl_id (load c' p) = sl_id (load c p);
  ab_members pid : pid ∈ sl_members (load c' p) <-> exists o, o ∈ l /\ pid ∈ sl_members (load c o);
  ab_tactics t : t ∈ sl_tactics (load c' p) <-> exists o, o ∈ l /\ t ∈ sl_tactics (load c o);
  ab_last o : o ∈ l -> sl_lastTS (load c o) <= sl_lastTS (load c' p);
  ab_last_ex : exists o, o ∈ l /\ sl_lastTS (load c' p) = sl_lastTS (load c o);
  ab_reported o : o ∈ l -> sl_reportedN (load c o) <= sl_reportedN (load c' p);
  ab_owns : owns c' p;
  ab_byPID pid : pid ∉ sl_members (load c' p) -> co_byPID c' !! pid = co_byPID c !! pid;
  ab_heap o : o ∉ l -> co_heap c' !! o = co_heap c !! o;
  ab_next : co_next c' = co_next c;
  ab_frame : same_frame c c'
}.

Lemma load_heap c c' o : co_heap c' !! o = co_heap c !! o -> load c' o = load c o.
Proof. unfold load. by intros ->. Qed.

Lemma merge_tactics dst src t :
  story_ok dst -> t ∈ sl_tactics (merge_story dst src) <-> t ∈ sl_tactics dst \/ t ∈ sl_tactics src.
Proof.
  intros Hd. destruct (addTactics_spec (sl_tactics src) (sl_tactics dst) (so_tactics _ Hd)) as (_ & _ & H).
  apply H.
Qed.

Lemma merge_load c dst src : load (merge c dst src) dst = merge_story (load c dst) (load c src).
Proof. unfold merge. by rewrite load_store. Qed.

Lemma merge_load_ne c dst src o : o <> dst -> load (merge c dst src) o = load c o.
Proof. intros. unfold merge. by rewrite load_store_ne. Qed.

Lemma merge_heap_ne c dst src o : o <> dst -> co_heap (merge c dst src) !! o = co_heap c !! o.
Proof. intros. cbn. by rewrite lookup_insert_ne. Qed.

(** Merging two stories that own their members gives one that does, and takes
    nothing from a third. *)
Lemma merge_owns c dst src : owns c dst -> owns (merge c dst src) dst.
Proof.
  intros Hd pid. rewrite merge_load. cbn [merge_story sl_members merge store set_byPID co_byPID]. intros Hin.
  destruct (decide (pid ∈ sl_members (load c src))).
  - by rewrite redirect_lookup_in.
  - rewrite redirect_lookup_out by done. apply elem_of_union in Hin as [?|?]; [by apply Hd|done].
Qed.

Lemma merge_owns_other c dst src o :
  o <> dst -> o <> src -> owns c src -> owns c o -> owns (merge c dst src) o.
Proof.
  intros Hd Hs Hos Ho pid. rewrite merge_load_ne by done. intros Hin.
  cbn [merge store set_byPID co_byPID]. rewrite redirect_lookup_out; [by apply Ho|].
  intros Hin'. apply Ho in Hin. apply Hos in Hin'. congruence.
Qed.

(** One step of the loop: [d] of the pair survives, [r] is folded into it. *)
Lemma absorbed_pair c d r :
  heap_ok c -> d <> r -> owns c d -> owns c r -> sl_firstTS (load c d) <= sl_firstTS (load c r) ->
  absorbed c [d; r] d (merge c d r).
Proof.
  intros Hc Hne Hd Hr Hle.
  assert (Hpair : forall (P : nat -> Prop), (exists o, o ∈ [d; r] /\ P o) <-> P d \/ P r).
  { intros P. setoid_rewrite elem_of_cons. setoid_rewrite list_elem_of_singleton. naive_solver. }
  split.
  - left.
  - intros o [->| ->%list_elem_of_singleton]%elem_of_cons; lia.
  - by rewrite merge_load.
  - by rewrite merge_load.
  - intros pid. rewrite merge_load, Hpair. cbn [merge_story sl_members]. by rewrite elem_of_union.
  - intros t. rewrite merge_load, Hpair. by apply merge_tactics, load_ok.
  - intros o Ho. rewrite merge_load. cbn [merge_story sl_lastTS].
    destruct (sl_lastTS (load c d) <? sl_lastTS (load c r)) eqn:E; bool_prop;
      apply elem_of_cons in Ho as [->| ->%list_elem_of_singleton]; lia.
  - rewrite merge_load. apply Hpair. cbn [merge_story sl_lastTS]. destruct (_ <? _); auto.
  - intros o Ho. rewrite merge_load. cbn [merge_story sl_reportedN].
    destruct (sl_reportedN (load c d) <? sl_reportedN (load c r)) eqn:E; bool_prop;
      apply elem_of_cons in Ho as [->| ->%list_elem_of_singleton]; lia.
  - by apply merge_owns.
  - intros pid. rewrite merge_load. cbn [merge_story sl_members merge store set_byPID co_byPID]. intros Hn.
    apply redirect_lookup_out. intros Hin. apply Hn, elem_of_union. by right.
  - intros o Ho. apply merge_heap_ne. intros ->. apply Ho. left.
  - done.
  - done.
Qed.

Lemma absorbed_perm c l l' p c' : l ≡ₚ l' -> absorbed c l p c' -> absorbed c l' p c'.
Proof.
  intros Hp []. split; try done.
  - by rewrite <- Hp.
  - intros o Ho. apply ab_oldest0. by rewrite Hp.
  - intros pid. rewrite ab_members0. by setoid_rewrite Hp.
  - intros t. rewrite ab_tactics0. by setoid_rewrite Hp.
  - intros o Ho. apply ab_last0. by rewrite Hp.
  - destruct ab_last_ex0 as (o & Ho & ?). exists o. by rewrite <- Hp.
  - intros o Ho. apply ab_reported0. by rewrite Hp.
  - intros o Ho. apply ab_heap0. by rewrite Hp.
Qed.

(** Absorbing in two stages: first [l] into [p], then [p] and [l'] into [p']. *)
Section two_stages.
Context (c c' c'' : Correlator) (l l' : list nat) (p p' : nat).
Context (A : absorbed c l p c') (B : absorbed c' (p :: l') p' c'') (Hdis : forall o, o ∈ l' -> o ∉ l).

Lemma stage_load o : o ∈ l' -> load c' o = load c o.
Proof. intros Ho. apply load_heap, (ab_heap _ _ _ _ A). by apply Hdis. Qed.

Lemma stage_exists (P Q : nat -> Prop) :
  (P p <-> exists o, o ∈ l /\ Q o) -> (forall o, o ∈ l' -> P o <-> Q o) ->
  (exists o, o ∈ p :: l' /\ P o) <-> exists o, o ∈ l ++ l' /\ Q o.
Proof.
  intros H1 H2. split.
  - intros (o & [->|Ho]%elem_of_cons & HP).
    + apply H1 in HP as (o & Ho & HQ). exists o. split; [apply elem_of_app; by left|done].
    + exists o. split; [apply elem_of_app; by right|by apply H2].
  - intros (o & [Ho|Ho]%elem_of_app & HQ).
    + exists p. split; [left|]. apply H1. eauto.
    + exists o. split; [by right|by apply H2].
Qed.

(** The story that survives was the same before the first stage. *)
Lemma stage_survivor :
  p' ∈ l ++ l' /\ sl_firstTS (load c' p') = sl_firstTS (load c p') /\ sl_id (load c' p') = sl_id (load c p').
Proof.
  pose proof (ab_in _ _ _ _ B) as [->|Hin]%elem_of_cons; rewrite elem_of_app.
  - split; [left|split]; apply A.
  - rewrite stage_load by done. auto.
Qed.

(** What the survivor bounds in each stage it bounds in both. *)
Lemma stage_bound (f : storyline -> Z) :
  (forall o, o ∈ l -> f (load c o) <= f (load c' p)) -> (forall o, o ∈ p :: l' -> f (load c' o) <= f (load c'' p')) ->
  forall o, o ∈ l ++ l' -> f (load c o) <= f (load c'' p').
Proof.
  intros HA HB o [Ho|Ho]%elem_of_app.
  - etransitivity; [by apply HA|]. apply HB. left.
  - rewrite <- stage_load by done. apply HB. by right.
Qed.

Lemma stage_oldest o : o ∈ l ++ l' -> sl_firstTS (load c p') <= sl_firstTS (load c o).
Proof.
  destruct stage_survivor as (_ & <- & _). intros [Ho|Ho]%elem_of_app.
  - transitivity (sl_firstTS (load c p)); [|by apply A]. rewrite <- (ab_first _ _ _ _ A). apply (ab_oldest _ _ _ _ B). left.
  - rewrite <- (stage_load o) by done. apply (ab_oldest _ _ _ _ B). by right.
Qed.

Lemma absorbed_trans : absorbed c (l ++ l') p' c''.
Proof.
  destruct stage_survivor as (Hin & Hf & Hid). split.
  - done.
  - apply stage_oldest.
  - by rewrite (ab_first _ _ _ _ B).
  - by rewrite (ab_id _ _ _ _ B).
  - intros pid. rewrite (ab_members _ _ _ _ B). apply stage_exists; [apply A|]. intros o Ho. by rewrite stage_load.
  - intros t. rewrite (ab_tactics _ _ _ _ B). apply stage_exists; [apply A|]. intros o Ho. by rewrite stage_load.
  - apply stage_bound; [apply A|apply B].
  - pose proof (ab_last_ex _ _ _ _ B) as (o & [->|Ho]%elem_of_cons & ->).
    + pose proof (ab_last_ex _ _ _ _ A) as (o & Ho & ->). exists o. split; [apply elem_of_app; by left|done].
    + exists o. rewrite stage_load by done. split; [apply elem_of_app; by right|done].
  - apply stage_bound; [apply A|apply B].
  - apply B.
  - intros pid Hn. rewrite (ab_byPID _ _ _ _ B) by done. apply (ab_byPID _ _ _ _ A). intros Hm.
    apply Hn, (ab_members _ _ _ _ B). exists p. split; [left|done].
  - intros o Ho. rewrite elem_of_app in Ho. rewrite (ab_heap _ _ _ _ B), (ab_heap _ _ _ _ A); [done|tauto|].
    intros [->|?]%elem_of_cons; [|tauto]. apply Ho. left. apply A.
  - by rewrite (ab_next _ _ _ _ B), (ab_next _ _ _ _ A).
  - etransitivity; [apply A|apply B].
Qed.
End two_stages.

Lemma absorb_absorbed c s others :
  heap_ok c -> NoDup (s :: others) -> Forall (fun p => is_Some (co_heap c !! p) /\ owns c p) (s :: others) ->
  absorbed c (s :: others) (fst (absorb c s others)) (snd (absorb c s others)).
Proof.
  revert c s; induction others as [|o others IH]; intros c s Hc Hd Hf; cbn [absorb].
  - apply Forall_cons in Hf as [[Hs Ho] _]. cbn [fst snd].
    split; try done; try (by left); try (intros o' ->%list_elem_of_singleton; lia).
    + intros pid. setoid_rewrite list_elem_of_singleton. naive_solver.
    + intros t. setoid_rewrite list_elem_of_singleton. naive_solver.
    + exists s. split; [left|done].
  - apply Forall_cons in Hf as [[Hs Hos] Hf]. apply Forall_cons in Hf as [[Ho Hoo] Hf].
    apply NoDup_cons in Hd as [Hns Hd]. apply NoDup_cons in Hd as [Hno Hd]. apply not_elem_of_cons in Hns as [Hne Hns].
    assert (Hgo : forall d r, [d; r] ≡ₚ [s; o] -> sl_firstTS (load c d) <= sl_firstTS (load c r) ->
      absorbed c (s :: o :: others) (fst (absorb (merge c d r) d others)) (snd (absorb (merge c d r) d others))).
    { intros d r Hp Hle. assert ((d = s /\ r = o) \/ (d = o /\ r = s)) as Hdr.
      { pose proof (Permutation_length_2_inv (Permutation_sym Hp)) as [[= -> ->]|[= -> ->]]; auto. }
      assert (Hpre : d <> r /\ owns c d /\ owns c r /\ is_Some (co_heap c !! d) /\ (d ∉ others) /\ (r ∉ others))
        by (destruct Hdr as [[-> ->]|[-> ->]]; split_and!; auto).
      destruct Hpre as (Hdr' & Hod & Hor & Hsd & Hnd & Hnr).
      apply (absorbed_perm _ ([d; r] ++ others)); [by rewrite Hp|].
      eapply absorbed_trans; [by apply absorbed_pair|apply IH|].
      - by apply merge_ok.
      - by apply NoDup_cons.
      - apply Forall_cons; split.
        + split; [by apply merge_is_Some|by apply merge_owns].
        + rewrite Forall_forall in Hf |- *. intros x Hx. destruct (Hf x Hx) as [H1 H2].
          split; [by apply merge_is_Some|]. apply merge_owns_other; [| |done..]; by intros ->.
      - intros x Hx [->| ->%list_elem_of_singleton]%elem_of_cons; done. }
    destruct (sl_firstTS (load c o) <? sl_firstTS (load c s)) eqn:E; bool_prop.
    + apply Hgo; [apply Permutation_swap|lia].
    + by apply Hgo.
Qed.

(** ** Filing a chain *)

Definition window_of (c : Correlator) : Z := u64 (sc_Window (co_cfg c)).

(** The open story of a process at time [now]. *)
Definition story_of (c : Correlator) (now pid : Z) : option nat :=
  p ← co_byPID c !! pid;
  if idle now (sl_lastTS (load c p)) (window_of c) then None else Some p.

Lemma story_of_Some c now pid p :
  story_of c now pid = Some p <->
  co_byPID c !! pid = Some p /\ idle now (sl_lastTS (load c p)) (window_of c) = false.
Proof.
  unfold story_of. destruct (co_byPID c !! pid) as [q|]; cbn; [|split; [done|by intros [? _]]].
  destruct (idle now (sl_lastTS (load c q)) (window_of c)) eqn:E.
  - split; [done|]. intros [[= ->] ?]. congruence.
  - split; [by intros [= ->]|by intros [? _]].
Qed.

(** The open stories a chain meets. *)
Definition met (c : Correlator) (now : Z) (chain : list Z) : list nat :=
  found_stories c now (window_of c) chain [].

Lemma elem_of_met c now chain p :
  p ∈ met c now chain <-> exists x, x ∈ chain /\ story_of c now x = Some p.
Proof.
  unfold met. rewrite found_stories_elem. setoid_rewrite story_of_Some. split.
  - intros [Hn|?]; [by apply not_elem_of_nil in Hn|done].
  - by right.
Qed.

Section since.
(** No story is older than [lo]: the time of the first alert. *)
Context (lo : Z) (lo_pos : 0 <= lo).

Definition times_ok (now : Z) (s : storyline) : Prop :=
  lo <= sl_firstTS s <= sl_lastTS s /\ sl_lastTS s <= now.

(** The invariant under a clock that does not run backwards: besides [heap_ok],
    every open story owns its members, and no story is ahead of the clock. *)
Record partition_ok (c : Correlator) (now : Z) : Prop := {
  po_heap : heap_ok c;
  po_owns pid p : story_of c now pid = Some p -> owns c p;
  po_time : map_Forall (fun _ => times_ok now) (co_heap c)
}.

Lemma idle_mono now now' last window :
  0 <= last <= now -> now <= now' -> is_u64 now' -> idle now last window = true -> idle now' last window = true.
Proof.
  unfold is_u64, idle. intros Hl Hn Hu H. bool_prop. apply andb_true_iff. rewrite !Z.ltb_lt.
  rewrite !u64_small in * by (unfold is_u64; lia). lia.
Qed.

Lemma partition_ok_mono c now now' :
  now <= now' -> is_u64 now' -> partition_ok c now -> partition_ok c now'.
Proof.
  intros Hn Hu [Hh Ho Ht]. split; [done| |].
  - intros pid p [Hp Hi]%story_of_Some. apply (Ho pid). apply story_of_Some. split; [done|].
    destruct (idle now _ _) eqn:E; [|done]. destruct (ho_member c Hh _ _ Hp) as (s & Hs & _).
    rewrite (load_Some _ _ _ Hs) in *. pose proof (Ht _ _ Hs) as [].
    rewrite (idle_mono now now') in Hi; try done; lia.
  - intros p s Hs. pose proof (Ht _ _ Hs) as []. unfold times_ok. lia.
Qed.

(** What [storyFor] has done when it returns [p]. *)
Record filed (c : Correlator) (now : Z) (chain : list Z) (p : nat) (c' : Correlator) : Prop := {
  fi_members pid : pid ∈ sl_members (load c' p) <->
    pid ∈ chain \/ exists o, o ∈ met c now chain /\ pid ∈ sl_members (load c o);
  fi_byPID pid : co_byPID c' !! pid =
    if decide (pid ∈ sl_members (load c' p)) then Some p else co_byPID c !! pid;
  fi_heap o : o <> p -> o ∉ met c now chain -> co_heap c' !! o = co_heap c !! o;
  fi_story : is_Some (co_heap c' !! p);
  fi_new : met c now chain = [] ->
    p = co_next c /\ sl_firstTS (load c' p) = now /\ sl_tactics (load c' p) = [] /\ sl_reportedN (load c' p) = 0;
  fi_old : met c now chain <> [] ->
    p ∈ met c now chain /\ sl_id (load c' p) = sl_id (load c p) /\ sl_firstTS (load c' p) = sl_firstTS (load c p) /\
    (forall o, o ∈ met c now chain -> sl_firstTS (load c p) <= sl_firstTS (load c o)) /\
    (forall t, t ∈ sl_tactics (load c' p) <-> exists o, o ∈ met c now chain /\ t ∈ sl_tactics (load c o)) /\
    (forall o, o ∈ met c now chain -> sl_reportedN (load c o) <= sl_reportedN (load c' p));
  fi_time : map_Forall (fun _ => times_ok now) (co_heap c) ->
    forall o s, o <> p -> co_heap c' !! o = Some s -> times_ok now s;
  fi_frame : same_frame c c'
}.

Lemma join_chain_load c p chain :
  exists r rc, load (join_chain c p chain) p
    = set_members_root (load c p) (sl_members (load c p) ∪ list_to_set chain) r rc.
Proof. unfold join_chain. destruct (_ && _); eexists _, _; apply load_store. Qed.

Lemma join_chain_byPID c p chain pid :
  co_byPID (join_chain c p chain) !! pid = redirect (co_byPID c) (list_to_set chain) p !! pid.
Proof. unfold join_chain. by destruct (_ && _). Qed.

Lemma join_chain_heap c p chain o : o <> p -> co_heap (join_chain c p chain) !! o = co_heap c !! o.
Proof. intros. unfold join_chain. destruct (_ && _); cbn; by rewrite lookup_insert_ne. Qed.

Lemma join_chain_frame c p chain : same_frame c (join_chain c p chain).
Proof. unfold join_chain. by destruct (_ && _). Qed.

Lemma join_chain_members c p chain pid :
  pid ∈ sl_members (load (join_chain c p chain) p) <-> pid ∈ chain \/ pid ∈ sl_members (load c p).
Proof.
  destruct (join_chain_load c p chain) as (r & rc & ->). cbn [set_members_root sl_members].
  rewrite elem_of_union, elem_of_list_to_set. tauto.
Qed.

Lemma merge_time now c d r :
  is_Some (co_heap c !! d) -> is_Some (co_heap c !! r) -> map_Forall (fun _ => times_ok now) (co_heap c) ->
  map_Forall (fun _ => times_ok now) (co_heap (merge c d r)).
Proof.
  intros [sd Hd] [sr Hr] Ht. unfold merge. cbn [co_heap store set_byPID]. apply map_Forall_insert_2; [|done].
  rewrite (load_Some _ _ _ Hd), (load_Some _ _ _ Hr). pose proof (Ht _ _ Hd) as []. pose proof (Ht _ _ Hr) as [].
  unfold times_ok. cbn [merge_story sl_firstTS sl_lastTS].
  destruct (sl_lastTS sd <? sl_lastTS sr) eqn:E; bool_prop; lia.
Qed.

Lemma absorb_time now c s others :
  Forall (fun p => is_Some (co_heap c !! p)) (s :: others) -> map_Forall (fun _ => times_ok now) (co_heap c) ->
  map_Forall (fun _ => times_ok now) (co_heap (snd (absorb c s others))).
Proof.
  revert c s; induction others as [|o others IH]; intros c s Hf Ht; cbn [absorb]; [done|].
  apply Forall_cons in Hf as [Hs Hf]. apply Forall_cons in Hf as [Ho Hf].
  assert (Hf' : forall d r, Forall (fun p => is_Some (co_heap (merge c d r) !! p)) others).
  { intros d r. eapply Forall_impl; [exact Hf|]. intros q. apply merge_is_Some. }
  destruct (_ <? _); apply IH; try (by apply merge_time); apply Forall_cons; split; auto using merge_is_Some.
Qed.

Lemma open_story_new c chain now :
  let p := fst (open_story c chain now) in let c1 := snd (open_story c chain now) in
  p = co_next c /\ sl_members (load c1 p) = ∅ /\
  (sl_firstTS (load c1 p) = now /\ sl_tactics (load c1 p) = [] /\ sl_reportedN (load c1 p) = 0) /\
  co_byPID c1 = co_byPID c /\ (forall o, o <> p -> co_heap c1 !! o = co_heap c !! o) /\ same_frame c c1.
Proof.
  cbn. assert (forall c' s m, co_heap c' = <[co_next c := s]> m -> load c' (co_next c) = s) as Hl.
  { intros c' s m Hc'. unfold load. by rewrite Hc', lookup_insert_eq. }
  split_and!; try done; try (by erewrite Hl by reflexivity). intros o Ho. by rewrite lookup_insert_ne.
Qed.

(** Filing when the chain meets no story: a new one is opened. *)
Lemma open_filed c now chain :
  met c now chain = [] -> is_Some (co_heap (join_chain (snd (open_story c chain now)) (fst (open_story c chain now)) chain)
    !! fst (open_story c chain now)) ->
  filed c now chain (fst (open_story c chain now)) (join_chain (snd (open_story c chain now)) (fst (open_story c chain now)) chain).
Proof.
  intros Em Hst. destruct (open_story_new c chain now) as (Hp & Hl1 & Hlf & Hby & Hhp & Hfr).
  destruct (open_story c chain now) as [p c1]. cbn [fst snd] in *.
  destruct (join_chain_load c1 p chain) as (r & rc & Hl).
  split; rewrite ?Em; try done.
  - intros pid. rewrite join_chain_members, Hl1. split; [|by intros [?|(o & Hn%not_elem_of_nil & _)]; [left|]].
    intros [?|?%not_elem_of_empty]; [by left|done].
  - intros pid. rewrite join_chain_byPID. case_decide as Hin; rewrite join_chain_members, Hl1 in Hin.
    + destruct Hin as [Hin|?%not_elem_of_empty]; [|done]. apply redirect_lookup_in. by apply elem_of_list_to_set.
    + rewrite redirect_lookup_out; [by rewrite Hby|]. rewrite elem_of_list_to_set. tauto.
  - intros o Hne _. rewrite join_chain_heap by done. by apply Hhp.
  - intros _. rewrite Hl. split; [done|]. exact Hlf.
  - intros Htm o s Hne. rewrite join_chain_heap, Hhp by done. apply Htm.
  - etransitivity; [exact Hfr|apply join_chain_frame].
Qed.

(** Filing when it meets some: the oldest absorbs the others. *)
Lemma absorb_filed c now chain s others :
  met c now chain = s :: others -> absorbed c (s :: others) (fst (absorb c s others)) (snd (absorb c s others)) ->
  Forall (fun p => is_Some (co_heap c !! p)) (s :: others) ->
  is_Some (co_heap (join_chain (snd (absorb c s others)) (fst (absorb c s others)) chain) !! fst (absorb c s others)) ->
  filed c now chain (fst (absorb c s others)) (join_chain (snd (absorb c s others)) (fst (absorb c s others)) chain).
Proof.
  intros Em A Hall Hst. pose proof (absorb_time now c s others Hall) as Atm.
  destruct (absorb c s others) as [p c1]. cbn [fst snd] in *.
  destruct (join_chain_load c1 p chain) as (r & rc & Hl).
  split; rewrite ?Em; try done.
  - intros pid. rewrite join_chain_members. by rewrite (ab_members _ _ _ _ A).
  - intros pid. rewrite join_chain_byPID. case_decide as Hin; rewrite join_chain_members in Hin.
    + destruct (decide (pid ∈ chain)) as [Hc|Hc]; [apply redirect_lookup_in; by apply elem_of_list_to_set|].
      destruct Hin as [?|Hin]; [done|]. rewrite redirect_lookup_out by (by rewrite elem_of_list_to_set).
      by apply (ab_owns _ _ _ _ A).
    + rewrite redirect_lookup_out by (rewrite elem_of_list_to_set; tauto). apply (ab_byPID _ _ _ _ A). tauto.
  - intros o Hne Hn. rewrite join_chain_heap by done. by apply (ab_heap _ _ _ _ A).
  - intros _. rewrite Hl. cbn [set_members_root sl_id sl_firstTS sl_tactics sl_reportedN].
    split_and!; apply A.
  - intros Htm o t Hne. rewrite join_chain_heap by done. by apply Atm.
  - etransitivity; [apply A|apply join_chain_frame].
Qed.

Lemma storyFor_filed c now chain :
  partition_ok c now -> filed c now chain (fst (storyFor c chain now)) (snd (storyFor c chain now)).
Proof.
  intros [Hh Ho Ht]. destruct (storyFor_ok c chain now Hh) as [_ Hst]. revert Hst.
  unfold storyFor. fold (window_of c). fold (met c now chain). destruct (met c now chain) as [|s others] eqn:Em.
  - pose proof (open_filed c now chain Em) as Hf. destruct (open_story c chain now). exact Hf.
  - assert (Hall : Forall (fun p => is_Some (co_heap c !! p) /\ owns c p) (s :: others)).
    { rewrite <- Em. apply Forall_forall. intros p (x & _ & Hx)%elem_of_met. split; [|by eapply Ho].
      apply story_of_Some in Hx as [Hx _]. destruct (ho_member c Hh _ _ Hx) as (t & Ht' & _). eauto. }
    assert (Hnd : NoDup (s :: others)) by (rewrite <- Em; apply found_stories_NoDup, NoDup_nil_2).
    pose proof (absorb_filed c now chain s others Em (absorb_absorbed c s others Hh Hnd Hall)
      (Forall_impl _ _ _ Hall (fun _ H => proj1 H))) as Hf.
    destruct (absorb c s others). exact Hf.
Qed.

(** ** Correlating an alert *)

(** Cached lookups do not change who belongs to which story. *)
Lemma lineage_grown_stories c c' :
  lineage_grown c c' ->
  (forall p, load c' p = load c p) /\ (forall now pid, story_of c' now pid = story_of c now pid) /\
  (forall now chain, met c' now chain = met c now chain) /\
  (forall p, owns c' p <-> owns c p).
Proof.
  intros (E1 & E2 & E3 & _). assert (Hl : forall p, load c' p = load c p) by (intros; unfold load; by rewrite E3).
  assert (Hf : forall now w chain found, found_stories c' now w chain found = found_stories c now w chain found).
  { intros now w chain. induction chain as [|pid chain IH]; intros found; cbn; [done|].
    rewrite E2, IH. destruct (co_byPID c !! pid); [|done]. by rewrite Hl. }
  split_and!.
  - done.
  - intros now pid. unfold story_of, window_of. rewrite E1, E2. destruct (co_byPID c !! pid); cbn; [by rewrite Hl|done].
  - intros now chain. unfold met, window_of. by rewrite E1, Hf.
  - intros p. unfold owns. by rewrite Hl, E2.
Qed.

Lemma lineage_grown_partition c c' now : lineage_grown c c' -> partition_ok c now -> partition_ok c' now.
Proof.
  intros Hg [[H1 H2 H3] Ho Ht]. destruct (lineage_grown_stories c c' Hg) as (Hl & Hs & _ & Hw).
  destruct Hg as (E1 & E2 & E3 & E4 & _). split; [split|..].
  - by rewrite E2, E3.
  - by rewrite E3, E4.
  - by rewrite E3.
  - intros pid p. rewrite Hs, Hw. apply Ho.
  - by rewrite E3.
Qed.

(** The story as the alert leaves it. *)
Definition told (c : Correlator) (s : storyline) (args : gmap string string) (a : Alert) (now : Z) : storyline :=
  let s' := file_alert s args (set_Storyline a (sl_id s)) now in
  if raises (sc_Threshold (co_cfg c)) s s' a
  then set_reportedN s' (Z.of_nat (length (sl_tactics s'))) else s'.

(** One [Correlate]: the chain's story [p], the state [c1] that [storyFor]
    leaves, the state [c'] and results of the whole. *)
Record correlated (c : Correlator) (ev : Event) (args : gmap string string) (a : Alert)
    (r : option Alert) (a' : Alert) (c' : Correlator) (chain : list Z) (p : nat) (c1 : Correlator) : Prop := {
  cr_ancestry : is_ancestry (known c) (ev_PID ev) (ev_PPID ev) chain;
  cr_chain : chain = fst (ancestry c (ev_PID ev) (ev_PPID ev) (ev_Timestamp ev));
  cr_filed : filed (snd (ancestry c (ev_PID ev) (ev_PPID ev) (ev_Timestamp ev))) (ev_Timestamp ev) chain p c1;
  cr_story : load c' p = told c (load c1 p) args a (ev_Timestamp ev);
  cr_byPID : co_byPID c' = co_byPID c1;
  cr_heap o : o <> p -> co_heap c' !! o = co_heap c1 !! o;
  cr_ok : heap_ok c -> heap_ok c';
  cr_story_ok : heap_ok c -> story_ok (load c1 p);
  cr_cfg : co_cfg c' = co_cfg c;
  cr_stamp : a' = set_Storyline a (sl_id (load c1 p));
  cr_result : r = if raises (sc_Threshold (co_cfg c)) (load c1 p)
                       (file_alert (load c1 p) args a' (ev_Timestamp ev)) a
                  then Some (chainAlert a' (load c' p)) else None
}.

Lemma told_fields c s args a now :
  sl_id (told c s args a now) = sl_id s /\ sl_members (told c s args a now) = sl_members s /\
  sl_firstTS (told c s args a now) = sl_firstTS s /\ sl_lastTS (told c s args a now) = now /\
  sl_tactics (told c s args a now) = addTactics (sl_tactics s) (TacticsFor a).
Proof. unfold told. by destruct (raises _ _ _ _). Qed.

Lemma told_ok c s args a now : story_ok s -> story_ok (told c s args a now).
Proof.
  intros Hs. unfold told. destruct (raises _ _ _ _); [apply set_reportedN_ok|]; by apply file_alert_ok.
Qed.

Lemma heap_ok_chains c n :
  heap_ok c ->
  heap_ok (mkCorrelator (co_cfg c) (co_lineage c) (co_byPID c) (co_heap c) (co_next c) (co_seq c) (co_lastSweep c) n).
Proof. by intros [? ? ?]. Qed.

Lemma heap_ok_grown c c' : lineage_grown c c' -> heap_ok c -> heap_ok c'.
Proof.
  intros (_ & E2 & E3 & E4 & _) [H1 H2 H3]. split; rewrite ?E2, ?E3, ?E4; done.
Qed.

(** [storyFor] keeps the configuration even without the clock. *)
Lemma absorb_cfg c s others : co_cfg (snd (absorb c s others)) = co_cfg c.
Proof.
  revert c s; induction others as [|o others IH]; intros c s; cbn [absorb]; [done|].
  destruct (_ <? _); by rewrite IH.
Qed.

Lemma storyFor_cfg c chain now : co_cfg (snd (storyFor c chain now)) = co_cfg c.
Proof.
  unfold storyFor. destruct (found_stories _ _ _ _ _) as [|s others].
  - cbn. unfold join_chain. by destruct (_ && _).
  - pose proof (absorb_cfg c s others) as E. destruct (absorb c s others) as [p c']. cbn [snd] in *.
    rewrite <- E. unfold join_chain. by destruct (_ && _).
Qed.

Lemma correlate_correlated c ev args a now :
  partition_ok c now -> now <= ev_Timestamp ev -> is_u64 (ev_Timestamp ev) ->
  exists chain p c1,
    correlated c ev args a (fst (fst (correlate c ev args a))) (snd (fst (correlate c ev args a)))
      (snd (correlate c ev args a)) chain p c1.
Proof.
  intros Hp Hn Hu. apply (partition_ok_mono _ _ _ Hn Hu) in Hp. unfold correlate.
  destruct (ancestry_spec c (ev_PID ev) (ev_PPID ev) (ev_Timestamp ev)) as [Hanc Hg].
  destruct (ancestry c (ev_PID ev) (ev_PPID ev) (ev_Timestamp ev)) as [chain c0] eqn:Ea. cbn [fst snd] in Hanc, Hg.
  pose proof (storyFor_filed c0 (ev_Timestamp ev) chain (lineage_grown_partition _ _ _ Hg Hp)) as Hf.
  pose proof (storyFor_ok c0 chain (ev_Timestamp ev)) as Hok.
  pose proof (storyFor_cfg c0 chain (ev_Timestamp ev)) as Hcfg.
  destruct (storyFor c0 chain (ev_Timestamp ev)) as [p c1]. cbn [fst snd] in Hf, Hok, Hcfg.
  assert (Hcfg' : co_cfg c1 = co_cfg c) by (rewrite Hcfg; apply Hg).
  exists chain, p, c1. rewrite Hcfg'.
  assert (Hh : heap_ok c -> forall s', story_ok s' -> sl_members s' = sl_members (load c1 p) -> heap_ok (store c1 p s')).
  { intros Hc s' Hs Hm. destruct (Hok (heap_ok_grown _ _ Hg Hc)). apply store_ok; [done..|by rewrite Hm]. }
  assert (Ht : forall s', load (store c1 p s') p = s') by (intros; apply load_store).
  assert (Hraise : raises (sc_Threshold (co_cfg c)) (load c1 p)
      (file_alert (load c1 p) args (set_Storyline a (sl_id (load c1 p))) (ev_Timestamp ev))
      (set_Storyline a (sl_id (load c1 p)))
    = raises (sc_Threshold (co_cfg c)) (load c1 p)
      (file_alert (load c1 p) args (set_Storyline a (sl_id (load c1 p))) (ev_Timestamp ev)) a) by done.
  rewrite Hraise.
  assert (Hs1 : heap_ok c -> story_ok (load c1 p)) by (intros Hc; apply load_ok, Hok, (heap_ok_grown _ _ Hg Hc)).
  destruct (raises _ _ _ a) eqn:Er; cbn [fst snd]; split; try done; try (by rewrite Ea).
  - etransitivity; [apply Ht|]. unfold told. by rewrite Er.
  - intros o Ho. cbn. by rewrite lookup_insert_ne.
  - intros Hc. apply (heap_ok_chains (store c1 p _)), Hh; [done| |done]. apply set_reportedN_ok, file_alert_ok, load_ok.
    apply Hok. by eapply heap_ok_grown.
  - rewrite Er. do 2 f_equal. symmetry. apply Ht.
  - etransitivity; [apply Ht|]. unfold told. by rewrite Er.
  - intros o Ho. cbn. by rewrite lookup_insert_ne.
  - intros Hc. apply Hh; [done| |done]. apply file_alert_ok, load_ok. apply Hok. by eapply heap_ok_grown.
  - by rewrite Er.
Qed.

(** The pids an alert's chain pulls into one story: the chain itself and every
    member of an open story it meets. *)
Definition pulled_in (c : Correlator) (now : Z) (chain : list Z) (pid : Z) : Prop :=
  pid ∈ chain \/ exists o, o ∈ met c now chain /\ story_of c now pid = Some o.

Lemma pulled_in_members c0 now chain p c1 pid :
  partition_ok c0 now -> filed c0 now chain p c1 ->
  pid ∈ sl_members (load c1 p) <-> pulled_in c0 now chain pid.
Proof.
  intros [Hh Ho Ht] F. rewrite (fi_members _ _ _ _ _ F). unfold pulled_in.
  split; (intros [?|(o & Hm & Hp)]; [by left|right; exists o; split; [done|]]).
  - apply elem_of_met in Hm as (x & _ & Hx). pose proof (Ho _ _ Hx _ Hp) as Hb.
    apply story_of_Some in Hx as [_ Hi]. by apply story_of_Some.
  - apply story_of_Some in Hp as [Hp _]. destruct (ho_member c0 Hh _ _ Hp) as (s & Hs & Hin).
    by rewrite (load_Some _ _ _ Hs).
Qed.

(** A process that is not pulled in keeps its story, and the story is none of
    the ones touched. *)
Lemma not_pulled_in c0 now chain p c1 pid o :
  partition_ok c0 now -> filed c0 now chain p c1 -> ~ pulled_in c0 now chain pid ->
  co_byPID c0 !! pid = Some o -> o <> p /\ o ∉ met c0 now chain.
Proof.
  intros Hp F Hn Hb. pose proof Hp as [Hh Ho Ht].
  rewrite <- (pulled_in_members _ _ _ _ _ _ Hp F), (fi_members _ _ _ _ _ F) in Hn.
  destruct (ho_member c0 Hh _ _ Hb) as (s & Hs & Hin).
  assert (Hm : o ∉ met c0 now chain).
  { intros Hm. apply Hn. right. exists o. by rewrite (load_Some _ _ _ Hs). }
  split; [|done]. intros ->. destruct (met c0 now chain) as [|x l] eqn:Em.
  - destruct (fi_new _ _ _ _ _ F Em) as [-> _]. apply (ho_fresh c0 Hh) in Hs. lia.
  - apply Hm. rewrite <- Em. apply (fi_old _ _ _ _ _ F). by rewrite Em.
Qed.

Lemma idle_now now window : idle now now window = false.
Proof. unfold idle. by rewrite Z.ltb_irrefl. Qed.

Lemma correlated_story_of c0 c ev args a r a' c' chain p c1 pid :
  let now := ev_Timestamp ev in
  c0 = snd (ancestry c (ev_PID ev) (ev_PPID ev) now) -> partition_ok c0 now ->
  correlated c ev args a r a' c' chain p c1 ->
  (pulled_in c0 now chain pid -> story_of c' now pid = Some p) /\
  (~ pulled_in c0 now chain pid -> story_of c' now pid = story_of c0 now pid).
Proof.
  intros now E0 Hp R. pose proof (cr_filed _ _ _ _ _ _ _ _ _ _ R) as F. fold now in F. rewrite <- E0 in F.
  assert (Hby : co_byPID c' !! pid = if decide (pid ∈ sl_members (load c1 p)) then Some p else co_byPID c0 !! pid).
  { rewrite (cr_byPID _ _ _ _ _ _ _ _ _ _ R). apply F. }
  split.
  - intros Hin. apply (pulled_in_members _ _ _ _ _ _ Hp F) in Hin. rewrite decide_True in Hby by done.
    apply story_of_Some. split; [done|]. rewrite (cr_story _ _ _ _ _ _ _ _ _ _ R).
    destruct (told_fields c (load c1 p) args a (ev_Timestamp ev)) as (_ & _ & _ & -> & _). apply idle_now.
  - intros Hn. rewrite decide_False in Hby by (by rewrite (pulled_in_members _ _ _ _ _ _ Hp F)).
    unfold story_of. rewrite Hby. destruct (co_byPID c0 !! pid) as [o|] eqn:Eb; cbn; [|done].
    destruct (not_pulled_in _ _ _ _ _ _ _ Hp F Hn Eb) as [Hne Hm].
    assert (Hl : load c' o = load c0 o).
    { apply load_heap. rewrite (cr_heap _ _ _ _ _ _ _ _ _ _ R) by done. by apply F. }
    assert (Hw : window_of c' = window_of c0).
    { unfold window_of. rewrite (cr_cfg _ _ _ _ _ _ _ _ _ _ R), E0. f_equal. f_equal. symmetry.
      apply (proj2 (ancestry_spec c _ _ _)). }
    by rewrite Hl, Hw.
Qed.

Lemma correlated_partition c0 c ev args a r a' c' chain p c1 :
  let now := ev_Timestamp ev in
  c0 = snd (ancestry c (ev_PID ev) (ev_PPID ev) now) -> partition_ok c0 now -> lo <= now -> heap_ok c' ->
  correlated c ev args a r a' c' chain p c1 -> partition_ok c' now.
Proof.
  intros now E0 Hp Hpos Hh' R. pose proof (cr_filed _ _ _ _ _ _ _ _ _ _ R) as F. fold now in F. rewrite <- E0 in F.
  pose proof Hp as [Hh Ho Ht].
  assert (Hby : forall x, co_byPID c' !! x = if decide (x ∈ sl_members (load c1 p)) then Some p else co_byPID c0 !! x).
  { intros x. rewrite (cr_byPID _ _ _ _ _ _ _ _ _ _ R). apply F. }
  destruct (told_fields c (load c1 p) args a now) as (Hid & Hmem & Hfst & Hlst & _).
  pose proof (cr_story _ _ _ _ _ _ _ _ _ _ R) as Hst. fold now in Hst.
  split; [done| |].
  - intros pid o Hs. destruct (decide (o = p)) as [->|Hne].
    + intros x. rewrite Hst, Hmem, Hby. intros Hx. by rewrite decide_True.
    + destruct (correlated_story_of c0 c ev args a r a' c' chain p c1 pid E0 Hp R) as [Hin Hout]. fold now in Hin, Hout.
      assert (Hn : ~ pulled_in c0 now chain pid) by (intros H; specialize (Hin H); congruence).
      rewrite Hout in Hs by done. pose proof Hs as [Hb Hi]%story_of_Some.
      destruct (not_pulled_in _ _ _ _ _ _ _ Hp F Hn Hb) as [_ Hm].
      assert (Hl : load c' o = load c0 o).
      { apply load_heap. rewrite (cr_heap _ _ _ _ _ _ _ _ _ _ R) by done. by apply F. }
      intros x. rewrite Hl. intros Hx. apply (Ho _ _ Hs) in Hx. rewrite Hby.
      rewrite decide_False; [done|]. rewrite (pulled_in_members _ _ _ _ _ _ Hp F).
      assert (Hsx : story_of c0 now x = Some o) by (by apply story_of_Some).
      intros [Hc|(o' & Hm' & Hs')]; [apply Hm, elem_of_met; eauto|]. rewrite Hsx in Hs'. injection Hs' as ->. done.
  - intros o s Hs. destruct (decide (o = p)) as [->|Hne].
    + apply load_Some in Hs. rewrite <- Hs, Hst. unfold times_ok. rewrite Hfst, Hlst.
      destruct (decide (met c0 now chain = [])) as [Em|Em].
      * destruct (fi_new _ _ _ _ _ F Em) as (_ & -> & _). lia.
      * destruct (fi_old _ _ _ _ _ F Em) as (Hin & _ & -> & _). apply elem_of_met in Hin as (x & _ & Hx).
        apply story_of_Some in Hx as [Hx _]. destruct (ho_member c0 Hh _ _ Hx) as (t & Htp & _).
        rewrite (load_Some _ _ _ Htp). pose proof (Ht _ _ Htp) as []. lia.
    + rewrite (cr_heap _ _ _ _ _ _ _ _ _ _ R) in Hs by done. by eapply (fi_time _ _ _ _ _ F).
Qed.

(** The sweep and a lineage update only forget idle stories. *)
Lemma sweep_ok c now : heap_ok c -> heap_ok (correlator_maybeSweep c now).
Proof.
  intros [H1 H2 H3]. unfold correlator_maybeSweep. destruct (_ && _); [done|]. split; cbn; [|done..].
  intros pid p [Hp _]%map_lookup_filter_Some. eauto.
Qed.

Lemma observe_ok c ev : heap_ok c -> heap_ok (observe c ev).
Proof.
  intros Hc. unfold observe. destruct (_ =? _); [done|].
  destruct (sweep_ok c (ev_Timestamp ev) Hc) as [H1 H2 H3]. by split.
Qed.

Lemma sweep_story_of c now pid : story_of (correlator_maybeSweep c now) now pid = story_of c now pid.
Proof.
  unfold correlator_maybeSweep. destruct (_ && _); [done|].
  unfold story_of. cbn [co_byPID co_heap co_cfg load window_of].
  change (window_of (mkCorrelator _ _ _ _ _ _ _ _)) with (window_of c).
  destruct (co_byPID c !! pid) as [p|] eqn:Ep.
  - destruct (idle now (sl_lastTS (load c p)) (u64 (sc_Window (co_cfg c)))) eqn:Ei.
    + rewrite map_lookup_filter_None_2 by (right; intros x Hx; rewrite Ep in Hx; injection Hx as <-; cbn; congruence).
      cbn. unfold window_of. by rewrite Ei.
    + rewrite (map_lookup_filter_Some_2 _ _ _ p) by done. done.
  - rewrite map_lookup_filter_None_2 by (by left). done.
Qed.

Lemma observe_story_of c ev pid :
  story_of (observe c ev) (ev_Timestamp ev) pid = story_of c (ev_Timestamp ev) pid.
Proof. unfold observe. destruct (_ =? _); [done|]. apply (sweep_story_of c (ev_Timestamp ev)). Qed.

Lemma observe_heap c ev : co_heap (observe c ev) = co_heap c /\ co_cfg (observe c ev) = co_cfg c.
Proof. unfold observe, correlator_maybeSweep. destruct (_ =? _); [done|]. by destruct (_ && _). Qed.

Lemma observe_partition c ev now :
  partition_ok c now -> now <= ev_Timestamp ev -> is_u64 (ev_Timestamp ev) -> partition_ok (observe c ev) (ev_Timestamp ev).
Proof.
  intros Hp Hn Hu. apply (partition_ok_mono _ _ _ Hn Hu) in Hp as [Hh Ho Ht]. split.
  - by apply observe_ok.
  - intros pid p Hs. pose proof Hs as Hs'. rewrite observe_story_of in Hs'. intros x Hx.
    rewrite (load_heap _ _ _ (f_equal (fun h => h !! p) (proj1 (observe_heap c ev)))) in Hx.
    pose proof (Ho _ _ Hs' _ Hx) as Hbx. pose proof Hs' as [_ Hi]%story_of_Some.
    assert (story_of (observe c ev) (ev_Timestamp ev) x = Some p) as Hsx
      by (rewrite observe_story_of; by apply story_of_Some).
    by apply story_of_Some in Hsx as [? _].
  - by rewrite (proj1 (observe_heap c ev)).
Qed.

(** ** Runs *)

(** What the engine asks of the correlator: the event is observed, then alerts
    raised on it are filed. *)
Inductive story_op :=
  | OpObserve (ev : Event)
  | OpCorrelate (ev : Event) (args : gmap string string) (a : Alert).

Definition op_event (op : story_op) : Event := match op with OpObserve ev | OpCorrelate ev _ _ => ev end.
Definition op_time (op : story_op) : Z := ev_Timestamp (op_event op).

Definition story_step (c : Correlator) (op : story_op) : Correlator :=
  match op with
  | OpObserve ev => observe c ev
  | OpCorrelate ev args a => snd (correlate c ev args a)
  end.
Definition story_run (c : Correlator) (ops : list story_op) : Correlator := foldl story_step c ops.

Lemma correlate_ok c ev args a : heap_ok c -> heap_ok (snd (correlate c ev args a)).
Proof.
  intros Hc. unfold correlate.
  destruct (ancestry_spec c (ev_PID ev) (ev_PPID ev) (ev_Timestamp ev)) as [_ Hg].
  destruct (ancestry c (ev_PID ev) (ev_PPID ev) (ev_Timestamp ev)) as [chain c0]. cbn [fst snd] in Hg.
  destruct (storyFor_ok c0 chain (ev_Timestamp ev) (heap_ok_grown _ _ Hg Hc)) as [H1 H2].
  destruct (storyFor c0 chain (ev_Timestamp ev)) as [p c1]. cbn [fst snd] in H1, H2.
  assert (Hs : forall s', story_ok s' -> sl_members s' = sl_members (load c1 p) -> heap_ok (store c1 p s')).
  { intros s' Hs Hm. apply store_ok; [done..|by rewrite Hm]. }
  destruct (raises _ _ _ _); cbn [snd].
  - apply (heap_ok_chains (store c1 p _)), Hs; [|done]. apply set_reportedN_ok, file_alert_ok, load_ok, H1.
  - apply Hs; [|done]. apply file_alert_ok, load_ok, H1.
Qed.

Lemma story_step_ok c op : heap_ok c -> heap_ok (story_step c op).
Proof. destruct op; [apply observe_ok|apply correlate_ok]. Qed.

Lemma story_run_ok c ops : heap_ok c -> heap_ok (story_run c ops).
Proof. unfold story_run. revert c; induction ops as [|op ops IH]; intros c Hc; cbn; [done|]. by apply IH, story_step_ok. Qed.

Lemma NewCorrelator_ok cfg c : NewCorrelator cfg = Some c -> heap_ok c /\ forall now, partition_ok c now.
Proof.
  unfold NewCorrelator. destruct (negb _); [done|]. intros [= <-].
  assert (forall cfg, heap_ok (mkCorrelator cfg ∅ ∅ ∅ 0 0 0 0)) as Hh.
  { intros. split; intros ? ?; cbn; rewrite lookup_empty; done. }
  split; [apply Hh|]. intros now. split; [apply Hh| |apply map_Forall_empty].
  intros pid p [Hp _]%story_of_Some. cbn in Hp. by rewrite lookup_empty in Hp.
Qed.

Lemma story_step_partition c op now :
  partition_ok c now -> now <= op_time op -> lo <= op_time op -> is_u64 (op_time op) -> partition_ok (story_step c op) (op_time op).
Proof.
  intros Hp Hn Hlo Hu. destruct op as [ev|ev args a]; cbn [story_step op_time op_event] in *.
  - by eapply observe_partition.
  - pose proof (partition_ok_mono _ _ _ Hn Hu Hp) as Hp'.
    destruct (correlate_correlated c ev args a now Hp Hn Hu) as (chain & p & c1 & R).
    eapply correlated_partition; [done| | | |exact R].
    + eapply lineage_grown_partition; [apply (proj2 (ancestry_spec c _ _ _))|done].
    + done.
    + apply correlate_ok, Hp.
Qed.

(** ** Stories are the connected components of the ancestries *)

(** The ancestries along a run. *)
Fixpoint run_chains (c : Correlator) (ops : list story_op) : list (list Z) :=
  match ops with
  | [] => []
  | op :: ops' =>
      match op with
      | OpObserve _ => []
      | OpCorrelate ev _ _ => [fst (ancestry c (ev_PID ev) (ev_PPID ev) (ev_Timestamp ev))]
      end ++ run_chains (story_step c op) ops'
  end.

Definition linked (chains : list (list Z)) (x y : Z) : Prop := exists ch, ch ∈ chains /\ x ∈ ch /\ y ∈ ch.

(** An assignment of stories to processes is exactly the components. *)
Definition components (f : Z -> option nat) (chains : list (list Z)) : Prop :=
  (forall x, is_Some (f x) <-> exists ch, ch ∈ chains /\ x ∈ ch) /\
  (forall x y, is_Some (f x) -> f x = f y <-> rtc (linked chains) x y).

Lemma components_ext f g chains : (forall x, f x = g x) -> components f chains -> components g chains.
Proof.
  intros E [H1 H2]. split.
  - intros x. rewrite <- E. apply H1.
  - intros x y. rewrite <- !E. apply H2.
Qed.

Lemma linked_mono chains chains' x y :
  rtc (linked chains) x y -> rtc (linked (chains ++ chains')) x y.
Proof.
  apply rtc_subrel. intros a b (ch & Hch & Ha & Hb). exists ch. split; [apply elem_of_app; by left|done].
Qed.

(** Without expiry, the stories of a state are the same at any later time. *)
Lemma story_of_later c now now' pid :
  partition_ok c now -> now <= now' -> is_u64 now' -> now' - lo <= window_of c ->
  story_of c now' pid = story_of c now pid.
Proof.
  intros [Hh Ho Ht] Hn Hu Hw. unfold story_of. destruct (co_byPID c !! pid) as [p|] eqn:Ep; cbn; [|done].
  destruct (ho_member c Hh _ _ Ep) as (s & Hs & _). rewrite (load_Some _ _ _ Hs).
  pose proof (Ht _ _ Hs) as [].
  assert (forall t, now <= t <= now' -> idle t (sl_lastTS s) (window_of c) = false) as Hi.
  { intros t Htt. unfold idle. destruct (sl_lastTS s <? t) eqn:E; bool_prop; [|done]. cbn [andb].
    unfold is_u64 in Hu. rewrite u64_small by (unfold is_u64; lia). apply Z.ltb_ge. lia. }
  by rewrite !Hi by lia.
Qed.

(** Adding a chain to the components. *)
Section join.
Context (f g : Z -> option nat) (chains : list (list Z)) (chain : list Z) (p : nat).

Definition joined (x : Z) : Prop := x ∈ chain \/ exists z, z ∈ chain /\ is_Some (f z) /\ f z = f x.

Context (Hf : components f chains)
  (Hin : forall x, joined x -> g x = Some p)
  (Hout : forall x, ~ joined x -> g x = f x /\ f x <> Some p).

Instance joined_dec x : Decision (joined x).
Proof.
  unfold joined. destruct (decide (x ∈ chain)); [left; by left|].
  destruct (decide (Exists (fun z => is_Some (f z) /\ f z = f x) chain)) as [H|H]; rewrite Exists_exists in H.
  - left. right. destruct H as (z & ? & ? & ?). eauto.
  - right. intros [?|(z & ? & ? & ?)]; [done|]. apply H. eauto.
Defined.

Lemma linked_sym l : Symmetric (linked l).
Proof. intros a b (ch & ? & ? & ?). exists ch. auto. Qed.

Lemma joined_near x : joined x -> exists z, z ∈ chain /\ rtc (linked (chains ++ [chain])) x z.
Proof.
  intros [Hx|(z & Hz & Hs & E)]; [by exists x|]. exists z. split; [done|].
  apply linked_mono. apply Hf; [by rewrite <- E|done].
Qed.

Lemma linked_joined a b :
  linked (chains ++ [chain]) a b -> is_Some (g a) -> g a = g b.
Proof.
  destruct Hf as [H1 H2]. intros (ch & [Hch| ->%list_elem_of_singleton]%elem_of_app & Ha & Hb) _.
  2: { rewrite !Hin; [done|by left|by left]. }
  assert (Hfa : is_Some (f a)) by (apply H1; eauto).
  assert (E : f a = f b) by (apply H2; [done|]; apply rtc_once; by exists ch).
  assert (Hiff : joined a -> joined b).
  { intros [Hc|(z & Hz & Hs & Ez)]; right; [exists a|exists z]; split_and!; try done. congruence. }
  assert (Hiff' : joined b -> joined a).
  { intros [Hc|(z & Hz & Hs & Ez)]; right; [exists b|exists z]; split_and!; try done; congruence. }
  destruct (decide (joined a)) as [Hja|Hja].
  - by rewrite !Hin by auto.
  - rewrite (proj1 (Hout a Hja)), (proj1 (Hout b (fun H => Hja (Hiff' H)))). done.
Qed.

Lemma components_join : components g (chains ++ [chain]).
Proof.
  destruct Hf as [H1 H2]. split.
  - intros x. split.
    + intros Hg. destruct (decide (joined x)) as [[Hx|(z & Hz & Hs & E)]|Hj].
      * exists chain. split; [apply elem_of_app; right; apply list_elem_of_here|done].
      * rewrite E in Hs. apply H1 in Hs as (ch & ? & ?). exists ch. split; [apply elem_of_app; by left|done].
      * rewrite (proj1 (Hout _ Hj)) in Hg. apply H1 in Hg as (ch & ? & ?).
        exists ch. split; [apply elem_of_app; by left|done].
    + intros (ch & [Hch| ->%list_elem_of_singleton]%elem_of_app & Hx).
      * destruct (decide (joined x)) as [Hj|Hj]; [rewrite Hin by done; eauto|].
        rewrite (proj1 (Hout _ Hj)). apply H1. eauto.
      * rewrite Hin by (by left). eauto.
  - intros x y Hg. split.
    + intros E. destruct (decide (joined x)) as [Hx|Hx], (decide (joined y)) as [Hy|Hy].
      * destruct (joined_near x Hx) as (z & Hz & Hxz), (joined_near y Hy) as (w & Hw & Hyw).
        etransitivity; [exact Hxz|]. etransitivity.
        -- apply rtc_once. exists chain. split_and!; [apply elem_of_app; right; apply list_elem_of_here|exact Hz|exact Hw].
        -- pose proof (linked_sym (chains ++ [chain])). by symmetry.
      * exfalso. destruct (Hout _ Hy) as [Ey Hn]. rewrite Hin, Ey in E by done. congruence.
      * exfalso. destruct (Hout _ Hx) as [Ex Hn]. rewrite (Hin _ Hy), Ex in E. congruence.
      * destruct (Hout _ Hx) as [Ex _], (Hout _ Hy) as [Ey _]. rewrite Ex, Ey in *. apply linked_mono. by apply H2.
    + intros Hr. induction Hr as [|a b c Hab _ IH]; [done|].
      pose proof (linked_joined _ _ Hab Hg) as E. rewrite E. apply IH. by rewrite <- E.
Qed.
End join.

Lemma story_step_cfg c op : co_cfg (story_step c op) = co_cfg c.
Proof.
  destruct op as [ev|ev args a]; cbn [story_step]; [apply observe_heap|]. unfold correlate.
  pose proof (proj2 (ancestry_spec c (ev_PID ev) (ev_PPID ev) (ev_Timestamp ev))) as Hg.
  destruct (ancestry _ _ _ _) as [chain c0]. cbn [snd] in Hg.
  pose proof (storyFor_cfg c0 chain (ev_Timestamp ev)) as E.
  destruct (storyFor _ _ _) as [p c1]. cbn [snd] in E. destruct Hg as (Eg & _). rewrite <- Eg, <- E.
  by destruct (raises _ _ _ _).
Qed.

(** One step of a run, without expiry. *)
Lemma story_step_components c op now chains :
  partition_ok c now -> now <= op_time op -> is_u64 (op_time op) -> op_time op - lo <= window_of c ->
  components (story_of c now) chains ->
  components (story_of (story_step c op) (op_time op))
    (chains ++ match op with
               | OpObserve _ => []
               | OpCorrelate ev _ _ => [fst (ancestry c (ev_PID ev) (ev_PPID ev) (ev_Timestamp ev))]
               end).
Proof.
  intros Hp Hn Hu Hw Hc.
  assert (Hlater : forall x, story_of c (op_time op) x = story_of c now x) by (intros; by apply story_of_later).
  destruct op as [ev|ev args a]; unfold op_time, op_event in *; cbn [story_step].
  - rewrite app_nil_r. eapply components_ext; [|exact Hc]. intros x. by rewrite observe_story_of, Hlater.
  - pose proof (partition_ok_mono _ _ _ Hn Hu Hp) as Hp'.
    destruct (correlate_correlated c ev args a now Hp Hn Hu) as (chain & p & c1 & R).
    set (anc := ancestry c (ev_PID ev) (ev_PPID ev) (ev_Timestamp ev)) in *.
    pose proof (proj2 (ancestry_spec c (ev_PID ev) (ev_PPID ev) (ev_Timestamp ev))) as Hg. fold anc in Hg.
    pose proof (lineage_grown_partition _ _ _ Hg Hp') as Hp0.
    pose proof (cr_filed _ _ _ _ _ _ _ _ _ _ R) as F. fold anc in F.
    assert (chain = fst anc) as -> by apply (cr_chain _ _ _ _ _ _ _ _ _ _ R).
    destruct (lineage_grown_stories _ _ Hg) as (_ & Hs & _ & _).
    assert (Hj : forall x, joined (story_of c now) (fst anc) x <-> pulled_in (snd anc) (ev_Timestamp ev) (fst anc) x).
    { intros x. unfold joined, pulled_in. split; (intros [?|Hx]; [by left|right]).
      - destruct Hx as (z & Hz & [o Ho] & E). exists o. rewrite Hs, Hlater, <- E. split; [|done].
        apply elem_of_met. exists z. by rewrite Hs, Hlater.
      - destruct Hx as (o & (z & Hz & Hzo)%elem_of_met & Hx). exists z. rewrite Hs, Hlater in Hx, Hzo.
        split_and!; [done|eauto|congruence]. }
    apply (components_join (story_of c now) _ _ _ p Hc).
    + intros x Hx. apply Hj in Hx.
      by apply (correlated_story_of (snd anc) c ev args a _ _ _ (fst anc) p c1 x eq_refl Hp0 R).
    + intros x Hx. rewrite Hj in Hx.
      destruct (correlated_story_of (snd anc) c ev args a _ _ _ (fst anc) p c1 x eq_refl Hp0 R) as [_ Hout].
      rewrite Hout by done. rewrite Hs, Hlater. split; [done|]. rewrite <- Hlater, <- Hs.
      intros [Hb _]%story_of_Some. by destruct (not_pulled_in _ _ _ _ _ _ _ Hp0 F Hx Hb) as [? _].
Qed.

Lemma story_run_components c ops now hi chains :
  partition_ok c now -> lo <= now <= hi -> is_u64 hi -> hi - lo <= window_of c ->
  Forall (fun op => now <= op_time op <= hi) ops -> StronglySorted (fun a b => op_time a <= op_time b) ops ->
  components (story_of c now) chains ->
  components (story_of (story_run c ops) hi) (chains ++ run_chains c ops).
Proof.
  revert c now chains; induction ops as [|op ops IH]; intros c now chains Hp Hn Hu Hw Hf Hs Hc.
  - cbn. rewrite app_nil_r. eapply components_ext; [|exact Hc]. intros x. symmetry. apply story_of_later; try done; lia.
  - apply Forall_cons in Hf as [Hop Hf]. apply StronglySorted_inv in Hs as [Hs Hop'].
    cbn [run_chains story_run foldl]. fold (story_run (story_step c op) ops). rewrite (app_assoc chains).
    assert (is_u64 (op_time op)) by (unfold is_u64 in *; lia).
    apply (IH _ (op_time op)).
    + apply (story_step_partition _ _ now); try done; lia.
    + lia.
    + done.
    + unfold window_of. by rewrite story_step_cfg.
    + apply Forall_and. split; [done|]. eapply Forall_impl; [exact Hf|]. cbn. lia.
    + done.
    + apply story_step_components with now; try done; lia.
Qed.
End since.

Lemma NewCorrelator_empty cfg c : NewCorrelator cfg = Some c -> co_byPID c = ∅.
Proof. unfold NewCorrelator. destruct (negb _); [done|]. by intros [= <-]. Qed.

(** ** Properties *)

(** C17: the correlator's state is always well formed.  From [NewCorrelator],
    whatever events are observed and whatever alerts are filed, with whatever
    timestamps: every process points to an allocated story that lists it as a
    member; a story's tactics are distinct and among the five known ones, its
    techniques and processes distinct, its steps at most 24, and the number of
    tactics last reported at most the number it has. *)
Theorem story_invariant cfg c0 ops : NewCorrelator cfg = Some c0 -> heap_ok (story_run c0 ops).
Proof. intros H. apply story_run_ok. exact (proj1 (NewCorrelator_ok 0 cfg c0 H)). Qed.

(** C6: storylines are the connected components of process ancestry.  On any
    in-order run no longer than the window, a process belongs to an open story
    exactly when it lies on the ancestry of some alert, and two such processes
    share a story exactly when a sequence of ancestries, each sharing a process
    with the next, leads from one to the other: nothing is merged by accident
    and no connection is missed, in whatever order the alerts arrive. *)
Theorem stories_are_components cfg c0 lo hi ops :
  NewCorrelator cfg = Some c0 -> 0 <= lo <= hi -> is_u64 hi -> hi - lo <= window_of c0 ->
  Forall (fun op => lo <= op_time op <= hi) ops -> StronglySorted (fun a b => op_time a <= op_time b) ops ->
  let f := story_of (story_run c0 ops) hi in
  let chains := run_chains c0 ops in
  (forall x, is_Some (f x) <-> exists ch, ch ∈ chains /\ x ∈ ch) /\
  (forall x y, is_Some (f x) -> f x = f y <-> rtc (linked chains) x y).
Proof.
  intros Hc Hlo Hu Hw Hf Hs. destruct (NewCorrelator_ok lo cfg c0 Hc) as [_ Hp].
  apply (story_run_components lo ltac:(lia) c0 ops lo hi []); try done; [lia|].
  assert (Hn : forall x, story_of c0 lo x = None).
  { intros x. unfold story_of. by rewrite (NewCorrelator_empty cfg c0 Hc), lookup_empty. }
  split.
  - intros x. rewrite Hn. split; [by intros [? ?]|]. by intros (ch & ?%not_elem_of_nil & _).
  - intros x y. rewrite Hn. by intros [? ?].
Qed.

(** ** A concrete run *)

Definition example_proc (pid ppid ms : Z) (comm : string) : Event :=
  mkEvent (ms * Millisecond) 0 pid pid pid 1000 1000 ppid comm "openat" SysOpenat ∅ 0 false 0 0 0 "" [] "" 0 0.
Definition example_filing (pid ppid ms : Z) (tech : Technique) : story_op :=
  let ev := example_proc pid ppid ms "sh" in
  OpCorrelate ev ∅ (newAlert ev "sensitive-file-access" tech SeverityHigh "").
Definition example_start : Correlator := default (mkCorrelator DefaultStorylineConfig ∅ ∅ ∅ 0 0 0 0)
  (NewCorrelator DefaultStorylineConfig).

(** Two processes that alert apart, then a child of one that is a parent of
    neither: processes 100 and 200 are both children of 50. *)
Definition example_ops : list story_op :=
  [ example_filing 100 50 10 TechEtcShadow; example_filing 200 60 20 TechPtraceInjection;
    OpObserve (example_proc 60 50 25 "bash"); example_filing 200 60 30 TechAbuseElevation ].

Lemma story_invariant_witness : heap_ok (story_run example_start example_ops).
Proof. apply (story_invariant DefaultStorylineConfig example_start example_ops). reflexivity. Defined.

Lemma stories_are_components_witness :
  story_of (story_run example_start example_ops) (30 * Millisecond) 100 = Some 0%nat /\
  rtc (linked (run_chains example_start example_ops)) 100 200.
Proof.
  split; [vm_compute; reflexivity|].
  apply (stories_are_components DefaultStorylineConfig example_start (10 * Millisecond) (30 * Millisecond) example_ops).
  - reflexivity.
  - split; z_compute.
  - split; z_compute.
  - z_compute.
  - repeat (apply Forall_cons_2; [split; z_compute|]). apply Forall_nil_2.
  - repeat constructor; z_compute.
  - exists 0%nat. vm_compute. reflexivity.
  - vm_compute. reflexivity.
Defined.
