(* ===== verification/StoryProps.v ===== *)
(** * Properties of the correlator ([detect/storyline.go])

    The theorems about whole runs of the correlator, with concrete runs they
    apply to, and two corners in which merging stories departs from the
    comments of the source. *)

From S2P Require Import Prelude GoStrings GoTime Syscalls Events Alerts Tracker Config Storyline StoryFacts.

(** ** Reports

    How stories evolve: they are never freed, keep their id, and the number of
    tactics last reported only grows. *)
Definition evolves (c c' : Correlator) : Prop :=
  forall p s, co_heap c !! p = Some s -> exists s', co_heap c' !! p = Some s' /\
    sl_id s' = sl_id s /\ sl_reportedN s <= sl_reportedN s'.

#[export] Instance evolves_refl : Reflexive evolves.
Proof. intros c p s Hs. exists s. split_and!; [done|done|lia]. Qed.
#[export] Instance evolves_trans : Transitive evolves.
Proof.
  intros a b c H1 H2 p s Hs. destruct (H1 _ _ Hs) as (s' & Hs' & E' & L').
  destruct (H2 _ _ Hs') as (s'' & Hs'' & E'' & L''). exists s''. split_and!; [done|congruence|lia].
Qed.

Lemma evolves_heap c c' : co_heap c' = co_heap c -> evolves c c'.
Proof. intros E p s Hs. rewrite E. exists s. split_and!; [done|done|lia]. Qed.

Lemma evolves_store c p s' :
  sl_id s' = sl_id (load c p) -> sl_reportedN (load c p) <= sl_reportedN s' -> evolves c (store c p s').
Proof.
  intros E L q s Hs. cbn. destruct (decide (q = p)) as [->|Hne].
  - rewrite lookup_insert_eq. exists s'. rewrite (load_Some _ _ _ Hs) in E, L. done.
  - rewrite lookup_insert_ne by done. exists s. split_and!; [done|done|lia].
Qed.

Lemma evolves_merge c d r : evolves c (merge c d r).
Proof.
  unfold merge. apply (evolves_store (set_byPID c _)); [done|]. cbn [merge_story sl_reportedN].
  change (load (set_byPID c _) d) with (load c d).
  destruct (sl_reportedN (load c d) <? sl_reportedN (load c r)) eqn:E; bool_prop; lia.
Qed.

Lemma evolves_absorb c s others : evolves c (snd (absorb c s others)).
Proof.
  revert c s; induction others as [|o others IH]; intros c s; cbn [absorb]; [done|].
  destruct (_ <? _); (etransitivity; [apply evolves_merge|apply IH]).
Qed.

Lemma evolves_open c chain now : heap_ok c -> evolves c (snd (open_story c chain now)).
Proof.
  intros Hc p s Hs. exists s. cbn. pose proof (ho_fresh c Hc _ _ Hs). rewrite lookup_insert_ne by lia.
  split_and!; [done|done|lia].
Qed.

Lemma evolves_join c p chain : evolves c (join_chain c p chain).
Proof.
  unfold join_chain. destruct (_ && _); apply (evolves_store (set_byPID c _)); try done;
    change (load (set_byPID c _) p) with (load c p); cbn; lia.
Qed.

Lemma evolves_storyFor c chain now : heap_ok c -> evolves c (snd (storyFor c chain now)).
Proof.
  intros Hc. unfold storyFor. destruct (found_stories _ _ _ _ _) as [|s others].
  - pose proof (evolves_open c chain now Hc) as H. destruct (open_story c chain now) as [p c1]. cbn [snd] in *.
    etransitivity; [exact H|apply evolves_join].
  - pose proof (evolves_absorb c s others) as H. destruct (absorb c s others) as [p c1]. cbn [snd] in *.
    etransitivity; [exact H|apply evolves_join].
Qed.

(** Ids: the story at address [p] was the [p+1]-st to be opened. *)
Definition id_of (p : nat) (id : string) : Prop :=
  exists top, id = "ks-" +:+ fmt_d top +:+ "-" +:+ fmt_d (u64 (Z.of_nat p + 1)).

Record ids_ok (c : Correlator) : Prop := {
  io_seq : co_seq c = u64 (Z.of_nat (co_next c));
  io_ids p s : co_heap c !! p = Some s -> id_of p (sl_id s)
}.

Lemma u64_succ n : u64 (u64 n + 1) = u64 (n + 1).
Proof. unfold u64. by rewrite Zplus_mod_idemp_l. Qed.

Lemma ids_store c p s' :
  ids_ok c -> is_Some (co_heap c !! p) -> sl_id s' = sl_id (load c p) -> ids_ok (store c p s').
Proof.
  intros [H1 H2] [s0 Hs0] E. split; [done|]. intros q s. cbn. destruct (decide (q = p)) as [->|Hne].
  - rewrite lookup_insert_eq. intros [= <-]. rewrite E, (load_Some _ _ _ Hs0). eauto.
  - rewrite lookup_insert_ne by done. apply H2.
Qed.

Lemma ids_byPID c m : ids_ok c -> ids_ok (set_byPID c m).
Proof. by intros [? ?]. Qed.

Lemma ids_merge c d r : ids_ok c -> is_Some (co_heap c !! d) -> ids_ok (merge c d r).
Proof. intros Hc Hd. unfold merge. by apply ids_store; [apply ids_byPID| |]. Qed.

Lemma ids_absorb c s others :
  ids_ok c -> Forall (fun p => is_Some (co_heap c !! p)) (s :: others) -> ids_ok (snd (absorb c s others)).
Proof.
  revert c s; induction others as [|o others IH]; intros c s Hc Hf; cbn [absorb]; [done|].
  apply Forall_cons in Hf as [Hs Hf]. apply Forall_cons in Hf as [Ho Hf].
  assert (Hf' : forall d r, Forall (fun p => is_Some (co_heap (merge c d r) !! p)) others).
  { intros d r. eapply Forall_impl; [exact Hf|]. intros q. apply merge_is_Some. }
  destruct (_ <? _); apply IH; try (by apply ids_merge); apply Forall_cons; split; auto using merge_is_Some.
Qed.

Lemma ids_open c chain now : ids_ok c -> ids_ok (snd (open_story c chain now)).
Proof.
  intros [H1 H2]. split; cbn.
  - rewrite H1, u64_succ. f_equal. lia.
  - intros p s. destruct (decide (p = co_next c)) as [->|Hne].
    + rewrite lookup_insert_eq. intros [= <-]. exists (top_of chain). cbn [sl_id]. by rewrite H1, u64_succ.
    + rewrite lookup_insert_ne by done. apply H2.
Qed.

Lemma ids_join c p chain : ids_ok c -> is_Some (co_heap c !! p) -> ids_ok (join_chain c p chain).
Proof.
  intros Hc Hp. unfold join_chain. destruct (_ && _); apply ids_store; try done; by apply ids_byPID.
Qed.

Lemma ids_storyFor c chain now : heap_ok c -> ids_ok c -> ids_ok (snd (storyFor c chain now)).
Proof.
  intros Hh Hc. unfold storyFor.
  destruct (found_stories c now (u64 (sc_Window (co_cfg c))) chain []) as [|s others] eqn:Ef.
  - pose proof (ids_open c chain now Hc) as H. pose proof (open_story_ok c chain now Hh) as [_ Hp].
    destruct (open_story c chain now) as [p c1]. by apply ids_join.
  - assert (Forall (fun p => is_Some (co_heap c !! p)) (s :: others)) as Hall by (rewrite <- Ef; by apply found_allocated).
    pose proof (ids_absorb c s others Hc Hall) as H. pose proof (absorb_ok c s others Hh Hall) as [_ Hp].
    destruct (absorb c s others) as [p c1]. by apply ids_join.
Qed.

Lemma storyFor_next c chain now : (co_next (snd (storyFor c chain now)) <= S (co_next c))%nat.
Proof.
  assert (Hj : forall c p chain, co_next (join_chain c p chain) = co_next c)
    by (intros; unfold join_chain; by destruct (_ && _)).
  assert (Ha : forall c s others, co_next (snd (absorb c s others)) = co_next c).
  { intros c' s others. revert c' s; induction others as [|o others IH]; intros c' s; cbn [absorb]; [done|].
    destruct (_ <? _); by rewrite IH. }
  unfold storyFor. destruct (found_stories _ _ _ _ _) as [|s others].
  - cbn [open_story alloc snd]. rewrite Hj. cbn. lia.
  - pose proof (Ha c s others) as H. destruct (absorb c s others) as [p c1]. cbn [snd] in *. rewrite Hj. lia.
Qed.

(** *** Reading an id back *)

Lemma sapp_no_byte_inj c a b x y :
  no_byte c x -> no_byte c y -> a +:+ String c x = b +:+ String c y -> x = y.
Proof.
  intros Hx Hy. revert b; induction a as [|d a IH]; intros [|e b]; cbn.
  - congruence.
  - intros [= -> ->]. apply no_byte_app in Hx as [_ Hx]. unfold no_byte in Hx; cbn in Hx.
    by rewrite Ascii.eqb_refl in Hx.
  - intros [= -> <-]. apply no_byte_app in Hy as [_ Hy]. unfold no_byte in Hy; cbn in Hy.
    by rewrite Ascii.eqb_refl in Hy.
  - intros [= -> H]. by apply IH in H.
Qed.

Lemma fmt_d_nonneg n : 0 <= n -> fmt_d n = FormatUint n 10.
Proof. intros. unfold fmt_d. by rewrite (proj2 (Z.ltb_ge _ _)). Qed.

(** Two stories with one id are one story. *)
Lemma id_of_inj p q id :
  Z.of_nat p + 1 < 2 ^ 64 -> Z.of_nat q + 1 < 2 ^ 64 -> id_of p id -> id_of q id -> p = q.
Proof.
  intros Hp Hq [t1 E1] [t2 E2].
  assert (Hr : forall n, Z.of_nat n + 1 < 2 ^ 64 -> fmt_d (u64 (Z.of_nat n + 1)) = FormatUint (Z.of_nat n + 1) 10).
  { intros n Hn. rewrite u64_small by (unfold is_u64; lia). apply fmt_d_nonneg. lia. }
  rewrite Hr in E1, E2 by done.
  assert (Hd : forall n, no_byte "-" (FormatUint n 10)) by (intros; apply no_byte_decimal; [done|apply FormatUint_decimal]).
  assert (FormatUint (Z.of_nat p + 1) 10 = FormatUint (Z.of_nat q + 1) 10) as E.
  { apply (sapp_no_byte_inj "-" ("ks-" +:+ fmt_d t1) ("ks-" +:+ fmt_d t2)); [apply Hd..|].
    rewrite <- !sapp_assoc. etransitivity; [symmetry; exact E1|exact E2]. }
  apply FormatUint_inj in E; unfold is_u64; lia.
Qed.

(** *** What an attack-chain alert shows *)

(** How many tactics an alert lists. *)
Definition alert_tactics (a : Alert) : Z :=
  Z.of_nat (length (Split (arg_of (deref ∅ (al_Args a)) "tactic_ids") ",")).

Lemma chainAlert_tactics a s :
  story_ok s -> sl_tactics s <> [] -> alert_tactics (chainAlert a s) = Z.of_nat (length (sl_tactics s)).
Proof.
  intros Hs Hne. unfold alert_tactics.
  assert (arg_of (deref ∅ (al_Args (chainAlert a s))) "tactic_ids" = Join (tac_ID <$> sl_tactics s) ",") as ->.
  { unfold arg_of, chainAlert. cbn [al_Args deref list_to_map foldr].
    rewrite lookup_insert_ne by done. cbn [fst snd]. by rewrite lookup_insert_eq. }
  rewrite (Split_Join ","); [by rewrite length_fmap| |].
  - intros H. by apply fmap_nil_inv in H.
  - apply Forall_fmap, Forall_forall. intros t Ht. apply (so_known _ Hs) in Ht.
    assert (Forall (fun t => no_byte "," (tac_ID t)) allTactics) as Hall by (unfold no_byte; by_compute).
    rewrite Forall_forall in Hall. by apply Hall.
Qed.

Lemma correlate_evolves c ev args a :
  heap_ok c -> ids_ok c ->
  evolves c (snd (correlate c ev args a)) /\ ids_ok (snd (correlate c ev args a)) /\
  (co_next (snd (correlate c ev args a)) <= S (co_next c))%nat /\
  forall ch, fst (fst (correlate c ev args a)) = Some ch -> exists p s,
    co_heap (snd (correlate c ev args a)) !! p = Some s /\ sl_id s = al_Storyline ch /\
    sl_reportedN s = alert_tactics ch /\ sc_Threshold (co_cfg c) <= alert_tactics ch <= 5 /\
    (forall s0, co_heap c !! p = Some s0 -> sl_reportedN s0 < alert_tactics ch).
Proof.
  intros Hh Hi. unfold correlate.
  destruct (ancestry_spec c (ev_PID ev) (ev_PPID ev) (ev_Timestamp ev)) as [_ Hg].
  destruct (ancestry _ _ _ _) as [chain c0]. cbn [fst snd] in Hg.
  pose proof Hg as (Ecfg & _ & Eh & En & Es & _).
  pose proof (heap_ok_grown _ _ Hg Hh) as Hh0.
  assert (Hi0 : ids_ok c0) by (destruct Hi; split; [by rewrite Es, En|by rewrite Eh]).
  pose proof (evolves_storyFor c0 chain (ev_Timestamp ev) Hh0) as Hev.
  pose proof (ids_storyFor c0 chain (ev_Timestamp ev) Hh0 Hi0) as Hi1.
  pose proof (storyFor_ok c0 chain (ev_Timestamp ev) Hh0) as [Hh1 [s1 Hp1]].
  pose proof (storyFor_cfg c0 chain (ev_Timestamp ev)) as Ecfg1.
  pose proof (storyFor_next c0 chain (ev_Timestamp ev)) as Hnx. rewrite En in Hnx.
  destruct (storyFor c0 chain (ev_Timestamp ev)) as [p c1]. cbn [fst snd] in *.
  assert (Hev0 : evolves c c1) by (etransitivity; [by apply evolves_heap|exact Hev]).
  rewrite (load_Some _ _ _ Hp1). set (s' := file_alert s1 args _ _).
  assert (Hs' : story_ok s') by (apply file_alert_ok, (ho_story c1 Hh1 _ _ Hp1)).
  destruct (raises _ _ _ _) eqn:Er; cbn [fst snd].
  2: { split_and!; [|apply ids_store; eauto; by rewrite (load_Some _ _ _ Hp1)|done|done].
       etransitivity; [exact Hev0|]. apply evolves_store; rewrite (load_Some _ _ _ Hp1); [done|]. cbn. lia. }
  unfold raises in Er. apply andb_true_iff in Er as [Er Hlt]. apply andb_true_iff in Er as [Hnew Hthr].
  apply Z.leb_le in Hthr. apply Z.ltb_lt in Hlt. set (s2 := set_reportedN s' _).
  assert (Hs2 : story_ok s2) by (by apply set_reportedN_ok).
  assert (Hrep : sl_reportedN s1 = sl_reportedN s') by done.
  assert (Hev2 : evolves c (store c1 p s2)).
  { etransitivity; [exact Hev0|]. apply evolves_store; rewrite (load_Some _ _ _ Hp1); [done|]. cbn [s2 set_reportedN sl_reportedN]. lia. }
  assert (Hn0 : 0 <= sl_reportedN s') by (pose proof (so_reported _ Hs'); lia).
  split_and!.
  - etransitivity; [exact Hev2|by apply evolves_heap].
  - destruct (ids_store c1 p s2 Hi1 ltac:(eauto)) as [I1 I2]; [by rewrite (load_Some _ _ _ Hp1)|]. by split.
  - done.
  - intros ch [= <-]. exists p, s2. cbn [co_heap store]. rewrite lookup_insert_eq.
    rewrite chainAlert_tactics by (done || (intros E; cbn [s2 set_reportedN sl_tactics] in E; rewrite E in Hlt; cbn in Hlt; lia)).
    cbn [s2 set_reportedN sl_tactics sl_reportedN]. rewrite <- Ecfg, <- Ecfg1. split_and!; try done.
    + pose proof (story_ok_bound _ Hs'). lia.
    + intros s0 Hs0. destruct (Hev0 _ _ Hs0) as (s1' & Hs1' & _ & Hle). rewrite Hp1 in Hs1'. injection Hs1' as <-. lia.
Qed.

(** The attack-chain alerts of a run. *)
Definition step_alert (c : Correlator) (op : story_op) : option Alert :=
  match op with
  | OpObserve _ => None
  | OpCorrelate ev args a => fst (fst (correlate c ev args a))
  end.
Fixpoint run_alerts (c : Correlator) (ops : list story_op) : list Alert :=
  match ops with
  | [] => []
  | op :: ops' => option_list (step_alert c op) ++ run_alerts (story_step c op) ops'
  end.

(** The tactic counts of the attack-chain alerts of one storyline. *)
Definition reports (id : string) (alerts : list Alert) : list Z :=
  alert_tactics <$> filter (fun a => al_Storyline a = id) alerts.

Lemma story_step_evolves c op :
  heap_ok c -> ids_ok c ->
  evolves c (story_step c op) /\ ids_ok (story_step c op) /\ (co_next (story_step c op) <= S (co_next c))%nat.
Proof.
  intros Hh Hi. destruct op as [ev|ev args a]; cbn [story_step].
  - unfold observe, correlator_maybeSweep. destruct Hi as [I1 I2].
    destruct (ev_PID ev =? 0); [split_and!; [done|by split|lia]|].
    destruct (_ && _); (split_and!; [by apply evolves_heap|by split|cbn; lia]).
  - destruct (correlate_evolves c ev args a Hh Hi) as (H1 & H2 & H3 & _). done.
Qed.

Lemma reports_increase ops c id :
  heap_ok c -> ids_ok c -> Z.of_nat (co_next c) + Z.of_nat (length ops) < 2 ^ 64 ->
  StronglySorted Z.lt (reports id (run_alerts c ops)) /\
  Forall (fun n => sc_Threshold (co_cfg c) <= n <= 5 /\
    forall p s, co_heap c !! p = Some s -> sl_id s = id -> sl_reportedN s < n) (reports id (run_alerts c ops)).
Proof.
  revert c; induction ops as [|op ops IH]; intros c Hh Hi Hn; [split; constructor|].
  destruct (story_step_evolves c op Hh Hi) as (Hev & Hi' & Hnx). cbn [length] in Hn.
  destruct (IH (story_step c op)) as [Hs Hf]; [by apply story_step_ok|done|lia|].
  rewrite story_step_cfg in Hf.
  assert (Hf' : Forall (fun n => sc_Threshold (co_cfg c) <= n <= 5 /\
    forall p s, co_heap c !! p = Some s -> sl_id s = id -> sl_reportedN s < n) (reports id (run_alerts (story_step c op) ops))).
  { eapply Forall_impl; [exact Hf|]. cbn. intros n [Hb Hr]. split; [done|]. intros p s Hp Hid.
    destruct (Hev _ _ Hp) as (s' & Hp' & Hid' & Hle). specialize (Hr p s' Hp' ltac:(congruence)). lia. }
  cbn [run_alerts]. unfold reports in *. rewrite filter_app, fmap_app.
  destruct (step_alert c op) as [ch|] eqn:Ech; [|done]. change (option_list (Some ch)) with [ch].
  rewrite filter_cons. case_decide as Hid; [|done].
  destruct op as [ev|ev args a]; [done|]. cbn [step_alert story_step] in *.
  destruct (correlate_evolves c ev args a Hh Hi) as (_ & _ & _ & Hch).
  destruct (Hch ch Ech) as (p & s & Hp & Hps & Hrep & Hb & Hold).
  change (filter (fun a => al_Storyline a = id) []) with (@nil Alert).
  cbn [fmap list_fmap app]. split; constructor; [done| | |done].
  - eapply Forall_impl; [exact Hf|]. cbn. intros n [_ Hr]. specialize (Hr p s Hp ltac:(congruence)). lia.
  - split; [done|]. intros q s0 Hq Hid0. destruct (Hev _ _ Hq) as (s0' & Hq' & Hid' & _).
    apply Hold. enough (q = p) as -> by done.
    pose proof (ho_fresh _ (story_step_ok c (OpCorrelate ev args a) Hh) _ _ Hp).
    pose proof (ho_fresh _ (story_step_ok c (OpCorrelate ev args a) Hh) _ _ Hq').
    cbn [story_step] in *. apply (id_of_inj q p id); [lia|lia| |].
    + rewrite <- Hid0, <- Hid'. by eapply io_ids.
    + rewrite <- Hid, <- Hps. by eapply io_ids.
Qed.

Lemma sorted_bounded_length lo hi l :
  StronglySorted Z.lt l -> Forall (fun n => lo <= n <= hi) l -> Z.of_nat (length l) <= Z.max 0 (hi - lo + 1).
Proof.
  revert lo; induction l as [|x l IH]; intros lo Hs Hf; [cbn; lia|].
  apply StronglySorted_inv in Hs as [Hs Hx]. apply Forall_cons in Hf as [Hxb Hf].
  assert (Forall (fun n => x + 1 <= n <= hi) l) as Hf'.
  { rewrite Forall_forall in Hx, Hf |- *. intros n Hn. specialize (Hx n Hn). specialize (Hf n Hn). lia. }
  specialize (IH (x + 1) Hs Hf'). cbn [length]. lia.
Qed.

Lemma NewCorrelator_threshold cfg c :
  NewCorrelator cfg = Some c -> 2 <= sc_Threshold (co_cfg c) /\ sc_Threshold cfg <= sc_Threshold (co_cfg c) /\ ids_ok c /\ co_next c = 0%nat.
Proof.
  unfold NewCorrelator. destruct (negb _); [done|]. intros [= <-]. cbn [co_cfg co_next].
  assert (forall cfg, ids_ok (mkCorrelator cfg ∅ ∅ ∅ 0 0 0 0)) as Hids.
  { intros. split; [done|]. intros p s. cbn. by rewrite lookup_empty. }
  destruct (sc_Threshold cfg <? 2) eqn:E; bool_prop; cbn [sc_Threshold sc_Window];
    destruct (_ <=? 0); cbn [sc_Threshold]; split_and!; try apply Hids; lia.
Qed.

(** ** In-order runs *)

Definition ops_in_order (ops : list story_op) : Prop :=
  Forall (fun op => is_u64 (op_time op)) ops /\ StronglySorted (fun a b => op_time a <= op_time b) ops.

Lemma story_run_partition ops c now t :
  partition_ok 0 c now -> 0 <= now <= t -> is_u64 t -> Forall (fun op => now <= op_time op <= t) ops ->
  StronglySorted (fun a b => op_time a <= op_time b) ops -> partition_ok 0 (story_run c ops) t.
Proof.
  revert c now; induction ops as [|op ops IH]; intros c now Hp Hn Hu Hf Hs; cbn [story_run foldl].
  - apply (partition_ok_mono 0 ltac:(lia) c now); [lia|done|done].
  - apply Forall_cons in Hf as [Hop Hf]. apply StronglySorted_inv in Hs as [Hs Ho].
    assert (is_u64 (op_time op)) by (unfold is_u64 in *; lia).
    apply (IH _ (op_time op)); [by apply (story_step_partition 0 ltac:(lia) c op now); try done; lia|lia|done| |done].
    rewrite Forall_forall in Hf, Ho |- *. intros o Hin. specialize (Hf o Hin). specialize (Ho o Hin). lia.
Qed.

(** ** Properties *)

(** C7: the oldest story wins and nothing of the others is lost.  After any
    in-order run, an alert whose ancestry meets open stories is stamped with the
    id of one that started first among them; the story it is filed in then has
    all their tactics and the alert's own, and no others, and counts no fewer
    tactics as reported than any of them. *)
Theorem oldest_story_wins cfg c0 ops ev args a :
  NewCorrelator cfg = Some c0 -> ops_in_order (ops ++ [OpCorrelate ev args a]) ->
  let c := story_run c0 ops in let now := ev_Timestamp ev in
  let stories := met c now (fst (ancestry c (ev_PID ev) (ev_PPID ev) now)) in
  let c' := snd (correlate c ev args a) in
  stories <> [] ->
  exists p, p ∈ stories /\ story_of c' now (ev_PID ev) = Some p /\
    al_Storyline (snd (fst (correlate c ev args a))) = sl_id (load c p) /\
    (forall o, o ∈ stories -> sl_firstTS (load c p) <= sl_firstTS (load c o)) /\
    (forall t, t ∈ sl_tactics (load c' p) <->
       t ∈ TacticsFor a \/ exists o, o ∈ stories /\ t ∈ sl_tactics (load c o)).
Proof.
  intros Hc [Hu Hs] c now stories c' Hne.
  apply Forall_app in Hu as [Hus Hu]. apply Forall_cons in Hu as [Hu _]. unfold op_time, op_event in Hu. fold now in Hu.
  apply StronglySorted_snoc_inv in Hs as [Hs Hl]. change (op_time (OpCorrelate ev args a)) with now in Hl.
  assert (Hp : partition_ok 0 c now).
  { apply (story_run_partition ops c0 0); [by apply (NewCorrelator_ok 0 cfg c0 Hc)|unfold is_u64 in Hu; lia|done| |done].
    rewrite Forall_forall in Hus, Hl |- *. intros op Hin. specialize (Hus op Hin). specialize (Hl op Hin).
    unfold is_u64 in Hus. cbn in Hl. lia. }
  destruct (correlate_correlated 0 ltac:(lia) c ev args a now Hp ltac:(lia) Hu) as (chain & p & c1 & R).
  set (anc := ancestry c (ev_PID ev) (ev_PPID ev) now) in *.
  pose proof (proj2 (ancestry_spec c (ev_PID ev) (ev_PPID ev) now)) as Hg. fold anc in Hg.
  pose proof (lineage_grown_partition 0 _ _ _ Hg Hp) as Hp0.
  pose proof (cr_filed _ _ _ _ _ _ _ _ _ _ _ R) as F. fold now in F. fold anc in F.
  pose proof (cr_chain _ _ _ _ _ _ _ _ _ _ _ R) as Ech. fold now in Ech. fold anc in Ech.
  pose proof (cr_ancestry _ _ _ _ _ _ _ _ _ _ _ R) as (l & Hcl & _). subst chain.
  destruct (lineage_grown_stories _ _ Hg) as (Hld & _ & Hmt & _).
  assert (Em : met (snd anc) now (fst anc) = stories) by apply Hmt.
  destruct (fi_old _ _ _ _ _ _ F) as (Hin & Hid & _ & Hold & Htac & _); [by rewrite Em|]. rewrite Em in Hin, Hold, Htac.
  pose proof (cr_story _ _ _ _ _ _ _ _ _ _ _ R) as Hst.
  destruct (told_fields c (load c1 p) args a now) as (_ & _ & _ & _ & Ht).
  assert (Hc1 : story_ok (load c1 p)) by apply (cr_story_ok _ _ _ _ _ _ _ _ _ _ _ R), Hp.
  exists p. split_and!.
  - done.
  - apply (correlated_story_of 0 (snd anc) c ev args a _ _ _ (fst anc) p c1 (ev_PID ev) eq_refl Hp0 R).
    left. rewrite Hcl. left.
  - rewrite (cr_stamp _ _ _ _ _ _ _ _ _ _ _ R). cbn [set_Storyline al_Storyline]. by rewrite Hid, Hld.
  - intros o Ho. rewrite <- !Hld. by apply Hold.
  - intros t. unfold c'. rewrite Hst. fold now. rewrite Ht. destruct (addTactics_spec (TacticsFor a) _ (so_tactics _ Hc1)) as (_ & _ & ->).
    rewrite Htac. setoid_rewrite Hld. tauto.
Qed.

(** C8: an attack is reported, and not over and over.  On any run, with any
    timestamps, the attack-chain alerts of one storyline list strictly more
    tactics each time, every one at least the configured threshold (and at least
    two) and at most the five there are; so a storyline is reported at most four
    times, however many alerts are filed in it. *)
Theorem chain_alerts_increase cfg c0 ops id :
  NewCorrelator cfg = Some c0 -> Z.of_nat (length ops) < 2 ^ 64 ->
  let ns := reports id (run_alerts c0 ops) in
  StronglySorted Z.lt ns /\ Forall (fun n => Z.max 2 (sc_Threshold cfg) <= n <= 5) ns /\ (length ns <= 4)%nat.
Proof.
  intros Hc Hl ns. destruct (NewCorrelator_threshold cfg c0 Hc) as (Ht & Ht' & Hi & Hn).
  destruct (NewCorrelator_ok 0 cfg c0 Hc) as [Hh _].
  destruct (reports_increase ops c0 id Hh Hi) as [Hs Hf]; [rewrite Hn; lia|]. fold ns in Hs, Hf.
  assert (Hf' : Forall (fun n => Z.max 2 (sc_Threshold cfg) <= n <= 5) ns).
  { eapply Forall_impl; [exact Hf|]. cbn. intros n [Hb _]. lia. }
  split_and!; [done|done|].
  pose proof (sorted_bounded_length 2 5 ns Hs) as Hlen.
  assert (Forall (fun n => 2 <= n <= 5) ns) as Hf2 by (eapply Forall_impl; [exact Hf'|]; cbn; lia).
  specialize (Hlen Hf2). lia.
Qed.

(** ** Concrete runs *)

Lemma oldest_story_wins_witness :
  exists p, story_of (story_run example_start example_ops) (30 * Millisecond) 200 = Some p /\ p = 0%nat.
Proof.
  pose proof (oldest_story_wins DefaultStorylineConfig example_start (take 3 example_ops)
    (example_proc 200 60 30 "sh") ∅
    (newAlert (example_proc 200 60 30 "sh") "sensitive-file-access" TechAbuseElevation SeverityHigh "")) as H.
  destruct H as (p & Hp & Hs & _).
  - reflexivity.
  - split; [repeat (apply Forall_cons_2; [split; z_compute|]); apply Forall_nil_2|repeat constructor; z_compute].
  - vm_compute. discriminate.
  - exists p. split; [exact Hs|]. vm_compute in Hs. congruence.
Defined.

Lemma chain_alerts_increase_witness :
  reports "ks-50-1" (run_alerts example_start example_ops) = [3] /\
  (length (reports "ks-50-1" (run_alerts example_start example_ops)) <= 4)%nat.
Proof.
  split; [vm_compute; reflexivity|].
  apply (chain_alerts_increase DefaultStorylineConfig example_start example_ops "ks-50-1"); [reflexivity|z_compute].
Defined.

(** ** Two corners of merging *)

(** Merging can carry a story over the threshold unreported: stories of two and
    of one tactic become one of three when an alert repeating one of those
    tactics connects them, and no attack-chain alert is raised. *)
Definition silent_merge_ops : list story_op :=
  [ example_filing 100 50 10 TechEtcShadow; example_filing 100 50 11 TechAbuseElevation;
    example_filing 200 60 20 TechPtraceInjection; OpObserve (example_proc 60 50 25 "bash");
    example_filing 200 60 30 TechEtcShadow ].

Lemma merge_over_threshold_is_silent :
  length (sl_tactics (load (story_run example_start silent_merge_ops) 0)) = 3%nat /\
  sc_Threshold (co_cfg example_start) = 3 /\
  run_alerts example_start silent_merge_ops = [].
Proof. vm_compute. split_and!; reflexivity. Qed.

(** Merging can evict steps that introduced a tactic although there are only
    five tactics: seven stories of four pivotal steps each do not fit. *)
Definition four_tactics (pid ms : Z) : list story_op :=
  [ example_filing pid 1 ms TechEtcShadow; example_filing pid 1 (ms + 1) TechAbuseElevation;
    example_filing pid 1 (ms + 2) TechPtraceInjection; example_filing pid 1 (ms + 3) TechCommandInterpreter ].
Definition crowded_ops : list story_op :=
  concat ((fun i => four_tactics (10 + i) (10 + 10 * i)) <$> [0; 1; 2; 3; 4; 5; 6]) ++
  ((fun i => OpObserve (example_proc (10 + i) (11 + i) 90 "sh")) <$> [0; 1; 2; 3; 4; 5]) ++
  [ example_filing 10 11 100 TechEtcShadow ].

Lemma merge_evicts_pivotal_steps :
  let c := story_run example_start crowded_ops in
  length (sl_tactics (load c 0)) = 4%nat /\ sl_alerts (load c 0) = 29 /\
  length (sl_steps (load c 0)) = 24%nat /\
  length (filter (fun s => st_pivotal s = true) (sl_steps (load c 0))) = 24%nat.
Proof. vm_compute. split_and!; reflexivity. Qed.
