(* ===== verification/Engine.v ===== *)
(** * The detection engine ([detect/engine.go])

    The rule registry, the engine's construction and [Evaluate], which runs
    every enabled rule on an event and passes what they find through the
    correlator and the deduplicator.

    All rules of one [Evaluate] see and write one argument map, and every alert
    they build refers to it.  [eval_rules] threads the map through the rules;
    the alerts keep referring to it ([EventArgs]) until [Evaluate] returns, and
    what the caller then reads is the map as the last rule left it ([publish]). *)

From S2P Require Import Prelude GoStrings GoTime Syscalls Events Alerts Tracker Dedup.
From S2P Require Import Config PrivEsc Ptrace SensitiveFile RevShell Storyline.

Section engine.
Context `{UnicodeTables} `{Host}.

(** ** The registry *)

Definition allRules : list Rule :=
  [rulePrivilegeEscalation; ruleSensitiveFileAccess; rulePtraceInjection; ruleReverseShell].

Definition AllRules : list Rule := allRules.

Definition RuleNames : list string := SortStrings (rule_Name <$> allRules).

(** ** Construction *)

(** [type Engine struct] *)
Record Engine := mkEngine {
  en_rules : list Rule;
  en_tracker : Tracker;
  en_correlator : option Correlator;
  en_dedup : option deduper;
  en_cfg : Config
}.

(** The defaults [NewEngine] fills in. *)
Definition fill_Stat (cfg : Config) : Config :=
  match cfg_Stat cfg with
  | Some _ => cfg
  | None => mkConfig (cfg_RevShellWindow cfg) (cfg_DebuggerComms cfg) (cfg_IgnoreLoopback cfg)
      (cfg_IgnoreSelfProc cfg) (Some os_Stat) (cfg_DedupWindow cfg) (cfg_Storyline cfg) (cfg_SelfPID cfg)
  end.
Definition fill_Window (cfg : Config) : Config :=
  if cfg_RevShellWindow cfg <=? 0
  then mkConfig (cfg_RevShellWindow DefaultConfig) (cfg_DebuggerComms cfg) (cfg_IgnoreLoopback cfg)
      (cfg_IgnoreSelfProc cfg) (cfg_Stat cfg) (cfg_DedupWindow cfg) (cfg_Storyline cfg) (cfg_SelfPID cfg)
  else cfg.

(** The set [wanted] of names asked for. *)
Definition wanted_names (enabled : list string) : gset string :=
  foldl (fun wanted name =>
    let name := TrimSpace name in
    if name ==s "" then wanted else {[ name ]} ∪ wanted) ∅ enabled.

(** The loop that picks the rules and crosses their names off. *)
Fixpoint pick_rules (rules : list Rule) (wanted : gset string) : list Rule * gset string :=
  match rules with
  | [] => ([], wanted)
  | r :: rest =>
      if bool_decide (rule_Name r ∈ wanted) then
        let '(picked, wanted) := pick_rules rest (wanted ∖ {[ rule_Name r ]}) in (r :: picked, wanted)
      else pick_rules rest wanted
  end.

(** [NewEngine]: an engine or an error message. *)
Definition NewEngine (cfg : Config) (enabled : list string) : Engine + string :=
  let cfg := fill_Window (fill_Stat cfg) in
  let e rules := mkEngine rules NewTracker (NewCorrelator (cfg_Storyline cfg))
                   (newDeduper (cfg_DedupWindow cfg)) cfg in
  if (length enabled =? 0)%nat then inl (e AllRules)
  else
    let '(rules, wanted) := pick_rules allRules (wanted_names enabled) in
    if (0 <? size wanted)%nat then
      inr ("unknown rule(s): " +:+ Join (SortStrings (elements wanted)) ", "
           +:+ " (available: " +:+ Join RuleNames ", " +:+ ")")
    else if (length rules =? 0)%nat then inr ("no rules enabled (available: " +:+ Join RuleNames ", " +:+ ")")
    else inl (e rules).

(** ** Evaluation *)

(** The loop over the rules: the alerts so far, the shared argument map, the
    correlator and the deduplicator. *)
Record eval_state := mkEval {
  es_alerts : list Alert;
  es_args : gmap string string;
  es_correlator : option Correlator;
  es_dedup : option deduper
}.

Definition eval_rule (cfg : Config) (history : option ProcessHistory) (ev : Event) (st : eval_state) (r : Rule)
    : eval_state :=
  let '(alert, args) := rule_Eval r (mkContext (set_Args ev (es_args st)) history cfg) in
  match alert with
  | None => mkEval (es_alerts st) args (es_correlator st) (es_dedup st)
  | Some alert =>
      let '(chain, alert, co) := Correlate (es_correlator st) ev (deref args (al_Args alert)) alert in
      let '(ok, alert, dd) := dedup_admit (es_dedup st) (deref args (al_Args alert)) alert (ev_Timestamp ev) in
      let alerts := if ok then es_alerts st ++ [alert] else es_alerts st in
      let alerts := match chain with Some chain => alerts ++ [chain] | None => alerts end in
      mkEval alerts args co dd
  end.

(** [Engine.Evaluate]: the alerts as the caller reads them, the event's
    argument map as the rules left it, the engine. *)
Definition Evaluate (e : Engine) (ev : Event) : list Alert * gmap string string * Engine :=
  if ev_PID ev =? cfg_SelfPID (en_cfg e) then ([], ev_Args ev, e)
  else
    let co := Observe (en_correlator e) ev in
    let '(history, tr) := Record_ (en_tracker e) ev in
    let st := foldl (eval_rule (en_cfg e) history ev) (mkEval [] (ev_Args ev) co (en_dedup e)) (en_rules e) in
    (publish (es_args st) <$> es_alerts st, es_args st,
     mkEngine (en_rules e) tr (es_correlator st) (es_dedup st) (en_cfg e)).

(** A stream of events: all alerts, and the engine after it. *)
Fixpoint evaluate_all (e : Engine) (evs : list Event) : list (list Alert) * Engine :=
  match evs with
  | [] => ([], e)
  | ev :: evs' =>
      let '(alerts, _, e) := Evaluate e ev in
      let '(rest, e) := evaluate_all e evs' in (alerts :: rest, e)
  end.

(** [Engine.Rules], [Engine.Tracker], [Engine.Correlating] and [Engine.Stats] *)
Definition Rules (e : Engine) : list Rule := en_rules e.
Definition Engine_Tracker (e : Engine) : Tracker := en_tracker e.
Definition Correlating (e : Engine) : bool := bool_decide (is_Some (en_correlator e)).

Record EngineStats := mkEngineStats { es_Suppressed : Z; es_Storylines : Z; es_AttackChains : Z }.

Definition Engine_Stats (e : Engine) : EngineStats := {|
  es_Suppressed := match en_dedup e with Some d => dd_total d | None => 0 end;
  es_Storylines := Storylines (en_correlator e);
  es_AttackChains := Chains (en_correlator e)
|}.
End engine.
