(* ===== verification/EngineProps.v ===== *)
(** * Properties of the engine ([detect/engine.go])

    Proved against what every rule promises ([LawfulRule]), so they hold for
    any selection of rules that keep the promise, and for the four of the
    registry in particular. *)

From S2P Require Import Prelude GoStrings GoTime Syscalls Events Alerts Tracker Dedup.
From S2P Require Import Config PrivEsc Ptrace SensitiveFile RevShell Storyline StoryFacts StoryProps Engine.

Section engine.
Context `{UnicodeTables} `{Host}.

(** ** Construction *)

(** The names asked for: trimmed, blank ones dropped. *)
Definition asked (enabled : list string) : list string :=
  filter (fun n => n <> "") (TrimSpace <$> enabled).

Lemma wanted_names_elem enabled n : n ∈ wanted_names enabled <-> n ∈ asked enabled.
Proof.
  unfold wanted_names, asked.
  assert (forall W : gset string, n ∈ foldl (fun wanted name => let name := TrimSpace name in
    if name ==s "" then wanted else {[ name ]} ∪ wanted) W enabled <->
    n ∈ W \/ n ∈ filter (fun n => n <> "") (TrimSpace <$> enabled)) as Hg.
  { induction enabled as [|e es IH]; intros W; cbn [foldl fmap list_fmap].
    - split; [by left|]. by intros [?|?%not_elem_of_nil].
    - cbn zeta. rewrite IH, filter_cons. destruct (TrimSpace e ==s "") eqn:E.
      + apply String.eqb_eq in E. rewrite decide_False; [done|]. intros Hn. by apply Hn.
      + apply String.eqb_neq in E. rewrite decide_True by done. rewrite elem_of_cons. set_solver. }
  rewrite Hg. split; [|by right]. by intros [?%not_elem_of_empty|?].
Qed.

Lemma pick_rules_spec rules wanted :
  NoDup (rule_Name <$> rules) ->
  pick_rules rules wanted =
    (filter (fun r => rule_Name r ∈ wanted) rules, wanted ∖ list_to_set (rule_Name <$> rules)).
Proof.
  revert wanted; induction rules as [|r rules IH]; intros wanted Hd; cbn [pick_rules fmap list_fmap list_to_set foldr].
  - f_equal. by rewrite difference_empty_L.
  - cbn [fmap list_fmap] in Hd. apply NoDup_cons in Hd as [Hr Hd]. rewrite filter_cons.
    case_bool_decide as Hw.
    + rewrite decide_True, IH by done. f_equal.
      * f_equal. apply filter_ext_Forall, Forall_forall. intros q Hq.
        rewrite elem_of_difference, elem_of_singleton. split; [tauto|]. intros ?; split; [done|].
        intros E. apply Hr. rewrite <- E. by apply list_elem_of_fmap_2.
      * apply set_eq. intros x. rewrite !elem_of_difference, elem_of_union. tauto.
    + rewrite decide_False, IH by done. f_equal. apply set_eq. intros x.
      rewrite !elem_of_difference, elem_of_union, elem_of_singleton. split; [|tauto].
      intros [Hx Hn]. split; [done|]. intros [->|?]; tauto.
Qed.

Lemma allRules_NoDup : NoDup (rule_Name <$> allRules).
Proof. by_compute. Qed.

Lemma allRules_lawful : Forall (fun r => exists keys, LawfulRule r keys) allRules.
Proof. repeat constructor; eexists; apply _. Qed.

Lemma size_pos_elem (X : gset string) : (0 <? size X)%nat = true <-> exists x, x ∈ X.
Proof.
  rewrite Nat.ltb_lt. split.
  - intros Hs. apply set_choose_L. intros ->. rewrite size_empty in Hs. lia.
  - intros [x Hx]. destruct (decide (size X = 0%nat)) as [E|E]; [|lia]. apply size_empty_inv in E. set_solver.
Qed.

Definition usable (cfg : Config) : Prop := is_Some (cfg_Stat cfg) /\ 0 < cfg_RevShellWindow cfg.

Lemma fill_usable cfg : usable (fill_Window (fill_Stat cfg)).
Proof.
  assert (is_Some (cfg_Stat (fill_Stat cfg))) as Hs by (unfold fill_Stat; destruct (cfg_Stat cfg) eqn:E; cbn; rewrite ?E; eauto).
  unfold fill_Window, usable. destruct (_ <=? 0) eqn:E; bool_prop; cbn [cfg_Stat cfg_RevShellWindow]; split; try done.
Qed.

(** What [NewEngine] decides, on the names asked for. *)
Lemma NewEngine_cases cfg enabled :
  match NewEngine cfg enabled with
  | inl e =>
      en_rules e <> [] /\ usable (en_cfg e) /\
      en_rules e = (if decide (enabled = []) then allRules
                    else filter (fun r => rule_Name r ∈ asked enabled) allRules) /\
      asked enabled ⊆ rule_Name <$> allRules /\
      en_tracker e = NewTracker /\ en_dedup e = newDeduper (cfg_DedupWindow cfg) /\
      en_correlator e = NewCorrelator (cfg_Storyline cfg)
  | inr _ => enabled <> [] /\ (asked enabled = [] \/ ~ asked enabled ⊆ rule_Name <$> allRules)
  end.
Proof.
  assert (Hcfg : cfg_DedupWindow (fill_Window (fill_Stat cfg)) = cfg_DedupWindow cfg /\
                 cfg_Storyline (fill_Window (fill_Stat cfg)) = cfg_Storyline cfg).
  { unfold fill_Window, fill_Stat. by destruct (cfg_Stat cfg), (_ <=? 0). }
  destruct Hcfg as [Ed Es]. pose proof (fill_usable cfg) as Hu. unfold NewEngine.
  destruct enabled as [|e0 es]; cbn [length Nat.eqb].
  { cbn [en_rules en_cfg en_tracker en_dedup en_correlator]. rewrite Ed, Es. split_and!; try done. apply list_subseteq_nil. }
  set (enabled := e0 :: es). rewrite (pick_rules_spec _ _ allRules_NoDup).
  assert (Hf : filter (fun r => rule_Name r ∈ wanted_names enabled) allRules
             = filter (fun r => rule_Name r ∈ asked enabled) allRules).
  { apply filter_ext_Forall, Forall_forall. intros r _. apply wanted_names_elem. }
  rewrite Hf. destruct (0 <? size _)%nat eqn:Esz.
  - apply size_pos_elem in Esz as [x [Hx Hn]%elem_of_difference]. rewrite wanted_names_elem in Hx.
    rewrite elem_of_list_to_set in Hn. split; [done|]. right. intros Hsub. by apply Hn, Hsub.
  - assert (Hsub : asked enabled ⊆ rule_Name <$> allRules).
    { intros x Hx. destruct (decide (x ∈ rule_Name <$> allRules)) as [|Hn]; [done|]. exfalso.
      enough ((0 <? size (wanted_names enabled ∖ list_to_set (rule_Name <$> allRules)))%nat = true) by congruence.
      apply size_pos_elem. exists x. rewrite elem_of_difference, wanted_names_elem, elem_of_list_to_set. done. }
    destruct (length _ =? 0)%nat eqn:El; bool_prop.
    + split; [done|]. left. destruct (asked enabled) as [|x l] eqn:Ea; [done|]. exfalso.
      assert (x ∈ rule_Name <$> allRules) as (r & -> & Hr)%list_elem_of_fmap by (apply Hsub; left).
      apply length_zero_iff_nil in El.
      apply (not_elem_of_nil r). rewrite <- El. apply list_elem_of_filter. split; [left|done].
    + cbn [en_rules en_cfg en_tracker en_dedup en_correlator]. rewrite Ed, Es. split_and!; try done.
      intros E. by rewrite E in El.
Qed.

(** ** One event through the rules *)

(** What the correlator and the deduplicator may do to an alert. *)
Lemma Correlate_alert co ev args a :
  (exists id, snd (fst (Correlate co ev args a)) = a \/ snd (fst (Correlate co ev args a)) = set_Storyline a id) /\
  forall ch, fst (fst (Correlate co ev args a)) = Some ch ->
    exists s, ch = chainAlert (snd (fst (Correlate co ev args a))) s.
Proof.
  destruct co as [c|]; cbn [Correlate]; [|split; [exists ""; by left|done]].
  unfold correlate. destruct (ancestry _ _ _ _) as [chain c0]. destruct (storyFor _ _ _) as [p c1].
  destruct (raises _ _ _ _); cbn [fst snd]; (split; [eexists; by right|]); [|done].
  intros ch [= <-]. eauto.
Qed.

Lemma dedup_admit_alert od args a now :
  snd (fst (dedup_admit od args a now)) = a \/ exists n, snd (fst (dedup_admit od args a now)) = set_Suppressed a n.
Proof.
  destruct od as [d|]; cbn [dedup_admit]; [|by left].
  destruct (admit_key _ _ _) as [[ok [n|]] d']; cbn [fst snd]; eauto.
Qed.

(** The fields that say what an alert is about. *)
Definition about (ev : Event) (a : Alert) : Prop :=
  al_PID a = ev_PID ev /\ al_PPID a = ev_PPID ev /\ al_UID a = ev_UID ev /\ al_Comm a = ev_Comm ev /\
  al_Syscall a = ev_Syscall ev /\ al_Timestamp a = ev_Wall ev.

Definition is_chain (a : Alert) : Prop := al_Rule a = RuleNameAttackChain.

(** The rules that fire on an event. *)
Definition firing (cfg : Config) (h : option ProcessHistory) (ev : Event) (rules : list Rule) : list Rule :=
  filter (fun r => fires (rule_Eval r (mkContext ev h cfg)) = true) rules.

Definition lawful_rules (rules : list Rule) : Prop :=
  Forall (fun r => (exists keys, LawfulRule r keys) /\ rule_Name r <> RuleNameAttackChain) rules.

Lemma allRules_ok : lawful_rules allRules.
Proof.
  apply Forall_and. split; [apply allRules_lawful|]. by_compute.
Qed.

(** The alerts of a run of the loop that are not attack chains. *)
Definition plain_rules (alerts : list Alert) : list string :=
  al_Rule <$> filter (fun a => al_Rule a <> RuleNameAttackChain) alerts.

Lemma eval_rule_spec cfg h ev r st :
  (exists keys, LawfulRule r keys) -> rule_Name r <> RuleNameAttackChain ->
  exists new,
    es_alerts (eval_rule cfg h ev st r) = es_alerts st ++ new /\ Forall (about ev) new /\
    (plain_rules new = (if fires (rule_Eval r (mkContext ev h cfg)) then [rule_Name r] else []) \/
     (plain_rules new = [] /\ is_Some (es_dedup st))) /\
    (es_dedup st = None -> es_dedup (eval_rule cfg h ev st r) = None).
Proof.
  intros [keys L] Hne. unfold eval_rule. set (c := mkContext (set_Args ev (es_args st)) h cfg).
  assert (Hb : fst (rule_Eval r c) = fst (rule_Eval r (mkContext ev h cfg))).
  { change c with (ctx_set_Args (mkContext ev h cfg) (es_args st)). apply lawful_blind. }
  assert (Hfire : fires (rule_Eval r (mkContext ev h cfg)) = bool_decide (is_Some (fst (rule_Eval r c)))) by (by rewrite Hb).
  rewrite Hfire. pose proof (lawful_alert (r := r) c) as Hal.
  destruct (rule_Eval r c) as [[a|] args]; cbn [fst snd] in *.
  2: { exists []. cbn [es_alerts es_dedup]. rewrite app_nil_r. split_and!; [done|constructor| |done].
       left. rewrite bool_decide_eq_false_2; [done|]. by intros [? ?]. }
  destruct (Hal a eq_refl) as (tech & sev & desc & _ & _ & Ea).
  assert (Ha : about ev a /\ al_Rule a = rule_Name r) by (by rewrite Ea).
  destruct (Correlate_alert (es_correlator st) ev (deref args (al_Args a)) a) as [[id Hc] Hch].
  destruct (Correlate (es_correlator st) ev (deref args (al_Args a)) a) as [[chain a1] co]. cbn [fst snd] in Hc, Hch.
  assert (Ha1 : about ev a1 /\ al_Rule a1 = rule_Name r) by (by destruct Hc as [-> | ->]).
  pose proof (dedup_admit_alert (es_dedup st) (deref args (al_Args a1)) a1 (ev_Timestamp ev)) as Hd.
  assert (Hok : es_dedup st = None -> dedup_admit (es_dedup st) (deref args (al_Args a1)) a1 (ev_Timestamp ev) = (true, a1, None))
    by (by intros ->).
  destruct (dedup_admit (es_dedup st) (deref args (al_Args a1)) a1 (ev_Timestamp ev)) as [[ok a2] dd]. cbn [fst snd] in Hd.
  assert (Ha2 : about ev a2 /\ al_Rule a2 = rule_Name r) by (by destruct Hd as [-> |[n ->]]).
  assert (Hcha : forall ch, chain = Some ch -> about ev ch /\ al_Rule ch = RuleNameAttackChain).
  { intros ch ->. destruct (Hch ch eq_refl) as [s ->]. split; [apply Ha1|done]. }
  rewrite bool_decide_eq_true_2 by eauto.
  exists ((if ok then [a2] else []) ++ option_list chain). cbn [es_alerts es_dedup]. split_and!.
  - destruct ok, chain; cbn; rewrite <- ?app_assoc, ?app_nil_r; done.
  - apply Forall_app. split; [destruct ok; [|constructor]; constructor; [apply Ha2|constructor]|].
    destruct chain; [|constructor]. constructor; [by apply Hcha|constructor].
  - assert (Hpl : plain_rules (option_list chain) = []).
    { destruct chain as [ch|]; [|done]. destruct (Hcha ch eq_refl) as [_ E]. unfold plain_rules. cbn [option_list].
      change (option_list (Some ch)) with [ch]. rewrite filter_cons, E. by rewrite decide_False by (intros Hn; by apply Hn). }
    unfold plain_rules in *. rewrite filter_app, fmap_app, Hpl, app_nil_r.
    destruct ok.
    + left. rewrite filter_cons_True by (by rewrite (proj2 Ha2)). cbn. by rewrite (proj2 Ha2).
    + right. split; [done|]. destruct (es_dedup st); [eauto|]. by specialize (Hok eq_refl).
  - intros E. specialize (Hok E). congruence.
Qed.

Lemma eval_rules_spec cfg h ev rules st :
  lawful_rules rules ->
  exists new,
    es_alerts (foldl (eval_rule cfg h ev) st rules) = es_alerts st ++ new /\ Forall (about ev) new /\
    plain_rules new `sublist_of` (rule_Name <$> firing cfg h ev rules) /\
    (es_dedup st = None -> plain_rules new = rule_Name <$> firing cfg h ev rules).
Proof.
  intros Hl. revert st; induction Hl as [|r rules [Hr Hn] _ IH]; intros st; cbn [foldl].
  - exists []. rewrite app_nil_r. split_and!; [done|constructor|constructor|done].
  - destruct (eval_rule_spec cfg h ev r st Hr Hn) as (new1 & E1 & F1 & P1 & D1).
    destruct (IH (eval_rule cfg h ev st r)) as (new2 & E2 & F2 & P2 & D2).
    exists (new1 ++ new2). rewrite E2, E1, <- app_assoc.
    assert (Hfi : rule_Name <$> firing cfg h ev (r :: rules) =
      (if fires (rule_Eval r (mkContext ev h cfg)) then [rule_Name r] else []) ++ (rule_Name <$> firing cfg h ev rules)).
    { unfold firing. rewrite filter_cons. case_decide as Ef; [by rewrite Ef|]. apply not_true_is_false in Ef. by rewrite Ef. }
    assert (Hpa : plain_rules (new1 ++ new2) = plain_rules new1 ++ plain_rules new2)
      by (unfold plain_rules; by rewrite filter_app, fmap_app).
    rewrite Hpa, Hfi. split_and!; [done|by apply Forall_app| |].
    + apply sublist_app; [|done]. destruct P1 as [-> |[-> _]]; [done|apply sublist_nil_l].
    + intros E. rewrite (D2 (D1 E)). f_equal. destruct P1 as [P1|[_ [? Hs]]]; [done|congruence].
Qed.

(** ** Bounds *)

Lemma observe_lineage c ev : ev_PID ev <> 0 -> (size (co_lineage (observe c ev)) <= maxLineage)%nat.
Proof.
  intros Hp. unfold observe. rewrite (proj2 (Z.eqb_neq _ _)) by done. cbn [set_lineage co_lineage].
  etransitivity; [apply map_size_insert_le|]. apply Nat.le_succ_l. unfold correlator_maybeSweep.
  destruct (negb _ && _ && _) eqn:E.
  - apply andb_true_iff in E as [_ E]. by apply Nat.ltb_lt in E.
  - cbn [co_lineage]. destruct (maxLineage <=? _)%nat eqn:E2; [|by apply Nat.leb_gt in E2].
    rewrite map_size_empty. unfold maxLineage. change (Z.shiftl 1 16) with 65536. lia.
Qed.

Lemma node_lineage c pid now : (size (co_lineage (snd (node c pid now))) <= S (size (co_lineage c)))%nat.
Proof.
  unfold node. destruct (co_lineage c !! pid); [cbn; lia|]. destruct (sc_Lookup _) as [f|]; [|cbn; lia].
  destruct (f pid) as [[? ?]|]; [|cbn; lia]. apply map_size_insert_le.
Qed.

Lemma ancestry_loop_lineage fuel c now chain seen cur chain' c' :
  ancestry_loop fuel c now chain seen cur = Some (chain', c') ->
  (size (co_lineage c') <= size (co_lineage c) + fuel)%nat.
Proof.
  revert c chain seen cur; induction fuel as [|fuel IH]; intros c chain seen cur; cbn [ancestry_loop].
  - destruct (_ <? _)%nat; [done|]. intros [= _ <-]. lia.
  - destruct (_ <? _)%nat; [|intros [= _ <-]; lia]. destruct (_ || _); [intros [= _ <-]; lia|].
    pose proof (node_lineage c cur now) as Hn. destruct (node c cur now) as [n c1]. cbn [snd] in Hn.
    destruct (match n with Some _ => _ | None => _ end); [intros [= _ <-]; lia|].
    destruct n; [|intros [= _ <-]; lia]. intros Hl%IH. lia.
Qed.

Lemma storyFor_lineage c chain now : co_lineage (snd (storyFor c chain now)) = co_lineage c.
Proof.
  assert (Hj : forall c p, co_lineage (join_chain c p chain) = co_lineage c)
    by (intros; unfold join_chain; by destruct (_ && _)).
  assert (Ha : forall c s others, co_lineage (snd (absorb c s others)) = co_lineage c).
  { intros c' s others. revert c' s; induction others as [|o others IH]; intros c' s; cbn [absorb]; [done|].
    destruct (_ <? _); by rewrite IH. }
  unfold storyFor. destruct (found_stories _ _ _ _ _) as [|s others]; [cbn [open_story alloc snd]; by rewrite Hj|].
  pose proof (Ha c s others) as H1. destruct (absorb c s others) as [p c1]. cbn [snd] in *. by rewrite Hj.
Qed.

Lemma correlate_lineage c ev args a :
  (size (co_lineage (snd (correlate c ev args a))) <= size (co_lineage c) + maxAncestry)%nat.
Proof.
  unfold correlate, ancestry, ancestry_opt.
  destruct (ancestry_loop _ _ _ _ _ _) as [[chain c0]|] eqn:Ea; cbn [default from_option id].
  - apply ancestry_loop_lineage in Ea. pose proof (storyFor_lineage c0 chain (ev_Timestamp ev)) as Hs.
    destruct (storyFor _ _ _) as [p c1]. cbn [snd] in Hs. destruct (raises _ _ _ _); cbn; rewrite Hs; done.
  - pose proof (storyFor_lineage c [ev_PID ev] (ev_Timestamp ev)) as Hs.
    destruct (storyFor _ _ _) as [p c1]. cbn [snd] in Hs. destruct (raises _ _ _ _); cbn; rewrite Hs; lia.
Qed.

(** The correlator and the deduplicator while the rules of one event run. *)
Definition eval_bounded (n : nat) (st : eval_state) : Prop :=
  (forall d, es_dedup st = Some d -> (size (dd_seen d) <= maxDedupKeys)%nat) /\
  (forall c, es_correlator st = Some c -> (size (co_lineage c) <= maxLineage + maxAncestry * n)%nat /\ heap_ok c).

Lemma dedup_admit_size od args a now d :
  snd (dedup_admit od args a now) = Some d -> (size (dd_seen d) <= maxDedupKeys)%nat.
Proof.
  destruct od as [d0|]; cbn [dedup_admit]; [|done].
  pose proof (dedup_maybeSweep_room d0 now) as Hroom. set (d1 := dedup_maybeSweep d0 now) in *.
  pose proof (f_equal size (admit_key_dom d1 (dedupKey args a) now)) as Hsz.
  destruct (admit_key d1 (dedupKey args a) now) as [[ok n] d2]. cbn [fst snd] in *. intros [= <-].
  rewrite <- size_dom, Hsz. rewrite <- size_dom in Hroom.
  pose proof (size_union_alt {[dedupKey args a]} (dom (dd_seen d1))) as Hu. rewrite size_singleton in Hu.
  pose proof (subseteq_size (dom (dd_seen d1) ∖ {[dedupKey args a]}) (dom (dd_seen d1)) ltac:(set_solver)). lia.
Qed.

Lemma eval_rule_bounded cfg h ev n st r :
  eval_bounded n st -> eval_bounded (S n) (eval_rule cfg h ev st r).
Proof.
  intros [Hd Hc]. unfold eval_rule. destruct (rule_Eval r _) as [[a|] args].
  2: { split; cbn [es_dedup es_correlator]; [done|]. intros c E. destruct (Hc c E). split; [lia|done]. }
  destruct (Correlate _ _ _ _) as [[chain a1] co] eqn:Ec.
  pose proof (dedup_admit_size (es_dedup st) (deref args (al_Args a1)) a1 (ev_Timestamp ev)) as Hs.
  destruct (dedup_admit _ _ _ _) as [[ok a2] dd]. cbn [snd] in Hs.
  split; cbn [es_dedup es_correlator]; [apply Hs|]. intros c ->.
  destruct (es_correlator st) as [c0|] eqn:E0; cbn [Correlate] in Ec; [|done].
  destruct (Hc c0 eq_refl) as [Hl Hok].
  pose proof (correlate_lineage c0 ev (deref args (al_Args a)) a) as Hcl.
  pose proof (correlate_ok c0 ev (deref args (al_Args a)) a Hok) as Hck.
  destruct (correlate c0 ev (deref args (al_Args a)) a) as [[r1 r2] c2]. injection Ec as <- <- <-.
  cbn [snd] in *. split; [lia|done].
Qed.

Lemma eval_rules_bounded cfg h ev rules n st :
  eval_bounded n st -> eval_bounded (n + length rules) (foldl (eval_rule cfg h ev) st rules).
Proof.
  revert n st; induction rules as [|r rules IH]; intros n st Hb; cbn [foldl length].
  - by rewrite Nat.add_0_r.
  - rewrite <- Nat.add_succ_comm. by apply IH, eval_rule_bounded.
Qed.

Definition engine_bounded (e : Engine) : Prop :=
  tracker_bounded (en_tracker e) /\
  tr_maxProcesses (en_tracker e) = defaultMaxProcesses /\ tr_depth (en_tracker e) = defaultHistoryDepth /\
  eval_bounded (length (en_rules e)) (mkEval [] ∅ (en_correlator e) (en_dedup e)).

Lemma Evaluate_bounded e ev :
  ev_PID ev <> 0 -> engine_bounded e ->
  engine_bounded (snd (Evaluate e ev)) /\ en_rules (snd (Evaluate e ev)) = en_rules e.
Proof.
  intros Hp (Ht & Em & Ed & Hb). unfold Evaluate. destruct (_ =? _); [done|].
  destruct (tracker_step_bounded (en_tracker e) (OpRecord ev)) as (Ht' & Em' & Ed');
    [rewrite Em; unfold defaultMaxProcesses; lia|done|]. cbn [tracker_step] in Ht', Em', Ed'.
  destruct (Record_ (en_tracker e) ev) as [h tr]. cbn [snd] in *.
  split; [|done]. unfold engine_bounded. cbn [snd en_rules en_tracker en_correlator en_dedup].
  split_and!; [done|congruence|congruence|].
  assert (Hb0 : eval_bounded 0 (mkEval [] (ev_Args ev) (Observe (en_correlator e) ev) (en_dedup e))).
  { destruct Hb as [Hd Hc]. split; cbn [es_dedup es_correlator] in *; [done|]. intros c.
    destruct (en_correlator e) as [c0|]; [|done]. intros [= <-]. destruct (Hc c0 eq_refl) as [_ Hok].
    split; [pose proof (observe_lineage c0 ev Hp); lia|by apply observe_ok]. }
  pose proof (eval_rules_bounded (en_cfg e) h ev (en_rules e) 0 _ Hb0) as [Hd Hc].
  split; cbn [es_dedup es_correlator]; [exact Hd|exact Hc].
Qed.

Lemma NewEngine_bounded cfg enabled e : NewEngine cfg enabled = inl e -> engine_bounded e.
Proof.
  intros He. pose proof (NewEngine_cases cfg enabled) as Hc. rewrite He in Hc.
  destruct Hc as (_ & _ & _ & _ & Et & Ed & Ec). unfold engine_bounded. rewrite Et, Ed, Ec. split_and!; try done.
  - split; [change (tr_procs NewTracker) with (∅ : gmap Z ProcessHistory); rewrite map_size_empty; lia|apply map_Forall_empty].
  - split; cbn [es_dedup es_correlator].
    + intros d. unfold newDeduper. destruct (_ <=? 0); [done|]. intros [= <-]. cbn [dd_seen].
      rewrite map_size_empty. unfold maxDedupKeys. lia.
    + intros c Hn. pose proof (NewCorrelator_ok 0 _ _ Hn) as [Hok _]. split; [|done].
      unfold NewCorrelator in Hn. destruct (negb _); [done|]. injection Hn as <-. cbn [co_lineage].
      rewrite map_size_empty. lia.
Qed.

(** ** Properties *)

(** C18: an engine either runs exactly the rules asked for or does not start.
    [NewEngine] succeeds exactly when every non-blank name asked for is a rule's
    and at least one is (or none is asked for at all, which means every rule);
    it then runs precisely those rules, in registry order, never none, with a
    usable configuration and fresh state; every unknown name is an error, never
    a silently smaller engine. *)
Theorem NewEngine_exact cfg enabled :
  match NewEngine cfg enabled with
  | inl e =>
      en_rules e <> [] /\ usable (en_cfg e) /\
      en_rules e = (if decide (enabled = []) then allRules
                    else filter (fun r => rule_Name r ∈ asked enabled) allRules) /\
      asked enabled ⊆ rule_Name <$> allRules /\
      en_tracker e = NewTracker /\ en_dedup e = newDeduper (cfg_DedupWindow cfg) /\
      en_correlator e = NewCorrelator (cfg_Storyline cfg)
  | inr _ => enabled <> [] /\ (asked enabled = [] \/ ~ asked enabled ⊆ rule_Name <$> allRules)
  end.
Proof. apply NewEngine_cases. Qed.

(** C19: an event's alerts are what the rules say, each on its own.  For any
    engine state and any event, except the agent's own: the rule alerts come
    from rules that fire on the event as it arrived (no rule's verdict depends on
    what an earlier rule wrote into the shared arguments), in registry order, at
    most one per rule, and all of them when deduplication is off; every alert,
    attack chains included, names the event's process, and its arguments are the
    ones the caller can rely on, since no later rule writes to them. *)
Theorem Evaluate_sound_complete e ev :
  lawful_rules (en_rules e) -> ev_PID ev <> cfg_SelfPID (en_cfg e) ->
  let alerts := fst (fst (Evaluate e ev)) in
  let fired := rule_Name <$> firing (en_cfg e) (fst (Record_ (en_tracker e) ev)) ev (en_rules e) in
  plain_rules alerts `sublist_of` fired /\
  (en_dedup e = None -> plain_rules alerts = fired) /\
  Forall (fun a => about ev a /\ al_Args a <> EventArgs) alerts.
Proof.
  intros Hl Hself alerts fired. subst alerts. unfold Evaluate. rewrite (proj2 (Z.eqb_neq _ _) Hself).
  fold fired. unfold fired. destruct (Record_ (en_tracker e) ev) as [h tr]. cbn [fst].
  destruct (eval_rules_spec (en_cfg e) h ev (en_rules e)
    (mkEval [] (ev_Args ev) (Observe (en_correlator e) ev) (en_dedup e)) Hl) as (new & E & F & P & D).
  set (st := foldl _ _ _) in *. cbn [es_alerts app es_dedup] in E, D. rewrite E.
  assert (Hpub : plain_rules (publish (es_args st) <$> new) = plain_rules new).
  { unfold plain_rules. clear. induction new as [|a new IH]; [done|]. cbn [fmap list_fmap].
    rewrite !filter_cons. cbn [publish al_Rule]. case_decide; cbn [fmap list_fmap]; by rewrite IH. }
  rewrite Hpub. split_and!; [done|done|]. apply Forall_fmap. eapply Forall_impl; [exact F|].
  intros a Ha. split; [exact Ha|done].
Qed.

(** C20: the engine's memory is bounded.  From [NewEngine], after any events of
    real processes, in any order and with any timestamps: at most 8192 process
    histories of at most 32 entries, at most 16384 deduplication keys, and a
    lineage of at most 2^16 processes plus the sixteen lookups each rule's
    alert may add within one event; and the correlator's state is well formed. *)
Theorem engine_memory_bounded cfg enabled e evs :
  NewEngine cfg enabled = inl e -> Forall (fun ev => ev_PID ev <> 0) evs ->
  engine_bounded (snd (evaluate_all e evs)) /\ en_rules (snd (evaluate_all e evs)) = en_rules e.
Proof.
  intros He. apply NewEngine_bounded in He. revert e He. induction evs as [|ev evs IH]; intros e He Hf; [done|].
  apply Forall_cons in Hf as [Hp Hf]. cbn [evaluate_all].
  destruct (Evaluate_bounded e ev Hp He) as [Hb Er].
  destruct (Evaluate e ev) as [[alerts args] e1]. cbn [snd] in *.
  destruct (IH e1 Hb Hf) as [Hb' Er']. destruct (evaluate_all e1 evs) as [rest e2]. cbn [snd] in *.
  split; [done|congruence].
Qed.
End engine.

(** ** Concrete engines *)

#[local] Existing Instance example_tables.
Definition example_host : Host := {| os_Stat := fun _ => None; os_Getpid := 1 |}.
#[local] Existing Instance example_host.

(** A setuid shell: the mode [-rwsr-xr-x]. *)
Definition suid_config : Config :=
  mkConfig (2 * Second) ["gdb"] false false (Some (fun p => if p ==s "/bin/sh" then Some (Z.lor ModeSetuid (oct 755)) else None))
    0 DefaultStorylineConfig 1.
Definition example_engine : Engine :=
  match NewEngine suid_config [] with inl e => e | inr _ => mkEngine [] NewTracker None None suid_config end.

Lemma Evaluate_sound_complete_witness :
  plain_rules (fst (fst (Evaluate example_engine example_exec))) = ["privilege-escalation"].
Proof.
  destruct (Evaluate_sound_complete example_engine example_exec) as (_ & H & _).
  - exact allRules_ok.
  - z_compute.
  - etransitivity; [apply H; reflexivity|vm_compute; reflexivity].
Defined.

Lemma engine_memory_bounded_witness :
  engine_bounded (snd (evaluate_all example_engine (example_chain ++ [example_exec]))).
Proof.
  apply (engine_memory_bounded suid_config [] example_engine (example_chain ++ [example_exec])); [reflexivity|].
  unfold example_chain, example_exec. cbn [app].
  repeat (apply Forall_cons_2; [z_compute|]). apply Forall_nil_2.
Defined.

(** One event, two alerts, one argument map: the privilege-escalation alert of
    an execution that also completes a reverse shell shows the chain's evidence,
    which the rule that raised it knows nothing of. *)
Lemma shared_arguments_leak :
  match fst (fst (Evaluate (snd (evaluate_all example_engine example_chain)) example_exec)) with
  | a :: rest =>
      al_Rule a = RuleNamePrivilegeEscalation /\ (al_Rule <$> rest) = [RuleNameReverseShell; RuleNameAttackChain] /\
      deref ∅ (al_Args a) !! "chain_redirected" = Some "stdin,stdout"
  | [] => False
  end.
Proof. vm_compute. split_and!; reflexivity. Qed.
