(* ===== verification/Wire.v ===== *)
(** * Ring-buffer records ([ebpfloader/decode.go], layout of [bpf/event.h])

    [parseRecord] casts a record's bytes to the C struct [event] and copies its
    fields out.  The struct is laid out as the table at the head of
    [bpf/event.h] gives it, on the little-endian targets the agent is built for
    (amd64 and arm64).  A record is the string of its bytes.  Indexing past the end
    of the argument array, which panics, is an outcome of the model ([OutOfRange]). *)

From S2P Require Import Prelude GoStrings Events.

(** ** The struct *)

(** A little-endian unsigned integer of [n] bytes. *)
Fixpoint le (n : nat) (b : string) : Z :=
  match n, b with
  | S n, String a b => byte_of a + 256 * le n b
  | _, _ => 0
  end.

(** The integer, and the character array, of [n] bytes at offset [off]. *)
Definition field (off n : nat) (b : string) : Z := le n (sdrop off b).
Definition chars (off n : nat) (b : string) : string := stake n (sdrop off b).

Definition eventSize : Z := 544.

Record KrnlSentryEvent := mkKrnlSentryEvent {
  e_Timestamp : Z;
  e_Pid : Z;
  e_Tgid : Z;
  e_Uid : Z;
  e_Gid : Z;
  e_Ppid : Z;
  e_SyscallId : Z;
  e_Ret : Z;
  e_Arg0 : Z;
  e_Arg1 : Z;
  e_Arg2 : Z;
  e_Daddr : Z;
  e_Dport : Z;
  e_Family : Z;
  e_Argc : Z;
  e_Flags : Z;
  e_Comm : string;
  e_Path : string;
  e_Argv : list string
}.

(** The cast of [&b[0]] to a pointer to the struct. *)
Definition cast_event (b : string) : KrnlSentryEvent := {|
  e_Timestamp := field 0 8 b;
  e_Pid := field 8 4 b;
  e_Tgid := field 12 4 b;
  e_Uid := field 16 4 b;
  e_Gid := field 20 4 b;
  e_Ppid := field 24 4 b;
  e_SyscallId := field 28 4 b;
  e_Ret := i64 (field 32 8 b);
  e_Arg0 := i64 (field 40 8 b);
  e_Arg1 := i64 (field 48 8 b);
  e_Arg2 := i64 (field 56 8 b);
  e_Daddr := field 64 4 b;
  e_Dport := field 68 2 b;
  e_Family := field 70 2 b;
  e_Argc := field 72 1 b;
  e_Flags := field 76 4 b;
  e_Comm := chars 80 16 b;
  e_Path := chars 96 256 b;
  e_Argv := [chars 352 64 b; chars 416 64 b; chars 480 64 b]
|}.

(** ** Decoding *)

(** [goString]: what is before the first NUL. *)
Definition NUL : ascii := chr 0.
Fixpoint nul_index (b : string) : nat :=
  match b with
  | EmptyString => O
  | String a b => if Ascii.eqb a NUL then O else S (nul_index b)
  end.
Definition goString (b : string) : string :=
  let n := nul_index b in if (n =? 0)%nat then "" else stake n b.

(** How [parseRecord] can fail: its error, with the length it names, or Go's
    run-time panic on an index outside the array. *)
Inductive record_failure := Short (n : Z) | OutOfRange (i : nat).

(** The loop over the arguments: [e.Argv[i]] for each index in turn. *)
Fixpoint copy_argv (argv : list string) (idx : list nat) : list string + record_failure :=
  match idx with
  | [] => inl []
  | i :: idx =>
      match argv !! i with
      | None => inr (OutOfRange i)
      | Some arg =>
          match copy_argv argv idx with inl args => inl (goString arg :: args) | inr err => inr err end
      end
  end.

(** [parseRecord] *)
Definition parseRecord (b : string) : Raw + record_failure :=
  if slen b <? eventSize then inr (Short (slen b))
  else
    let e := cast_event b in
    let argc := e_Argc e in
    let argc := if Z.of_nat (length (e_Argv e)) <? argc then Z.of_nat (length (e_Argv e)) else argc in
    match (if 0 <? argc then copy_argv (e_Argv e) (seq 0 (Z.to_nat argc)) else inl []) with
    | inr err => inr err
    | inl argv =>
        inl (mkRaw (e_Timestamp e) (e_Pid e) (e_Tgid e) (e_Uid e) (e_Gid e) (e_Ppid e) (e_SyscallId e) (e_Ret e)
               (e_Arg0 e) (e_Arg1 e) (e_Arg2 e) (e_Daddr e) (e_Dport e) (e_Family e) (e_Flags e)
               (goString (e_Comm e)) (goString (e_Path e)) argv)
    end.

(** ** Specification: what the kernel writes

    The bytes of a struct whose fields are those of [r], member by member in
    declaration order, strings padded with zeros. *)
Fixpoint to_le (n : nat) (z : Z) : string :=
  match n with O => "" | S n => String (chr (z mod 256)) (to_le n (z / 256)) end.

Definition pad_to (n : nat) (s : string) : string := s +:+ srepeat (str1 NUL) (n - String.length s).

Definition kernel_bytes (r : Raw) (argc : Z) (a0 a1 a2 : string) : string :=
  to_le 8 (raw_Timestamp r) +:+ to_le 4 (raw_PID r) +:+ to_le 4 (raw_TGID r) +:+ to_le 4 (raw_UID r) +:+
  to_le 4 (raw_GID r) +:+ to_le 4 (raw_PPID r) +:+ to_le 4 (raw_SyscallID r) +:+ to_le 8 (raw_Ret r) +:+
  to_le 8 (raw_Arg0 r) +:+ to_le 8 (raw_Arg1 r) +:+ to_le 8 (raw_Arg2 r) +:+ to_le 4 (raw_Daddr r) +:+
  to_le 2 (raw_Dport r) +:+ to_le 2 (raw_Family r) +:+ to_le 1 argc +:+ to_le 3 0 +:+ to_le 4 (raw_Flags r) +:+
  pad_to 16 (raw_Comm r) +:+ pad_to 256 (raw_Path r) +:+ pad_to 64 a0 +:+ pad_to 64 a1 +:+ pad_to 64 a2.

(** ** Lemmas *)

Lemma to_le_length n z : String.length (to_le n z) = n.
Proof. revert z. induction n as [|n IH]; intros z; cbn; [done|]. by rewrite IH. Qed.

Lemma srepeat_length a n : String.length (srepeat (str1 a) n) = n.
Proof. induction n as [|n IH]; cbn; [done|]. by rewrite IH. Qed.

Lemma pad_to_length n s : (String.length s <= n)%nat -> String.length (pad_to n s) = n.
Proof. intros. unfold pad_to. rewrite sapp_length, srepeat_length. lia. Qed.

Lemma le_to_le n z s : le n (to_le n z +:+ s) = z mod 256 ^ Z.of_nat n.
Proof.
  revert z. induction n as [|n IH]; intros z; cbn [to_le String.append le]; [by rewrite Z.mod_1_r|].
  rewrite IH, byte_of_chr by (apply Z.mod_pos_bound; lia).
  rewrite Nat2Z.inj_succ, Z.pow_succ_r, Z.rem_mul_r by lia. done.
Qed.

Lemma le_range n b : 0 <= le n b < 256 ^ Z.of_nat n.
Proof.
  revert b. induction n as [|n IH]; intros [|a b]; cbn [le]; try (split; [lia|by apply Z.pow_pos_nonneg]).
  specialize (IH b). rewrite Nat2Z.inj_succ, Z.pow_succ_r by lia.
  assert (0 <= byte_of a < 256); [|lia]. unfold byte_of. pose proof (N_ascii_bounded a). lia.
Qed.

Lemma sdrop_sdrop n m s : sdrop n (sdrop m s) = sdrop (m + n) s.
Proof. revert s. induction m as [|m IH]; intros s; [done|]. destruct s; cbn; [by destruct n|apply IH]. Qed.

Lemma sdrop_skip off s t : (String.length s <= off)%nat -> sdrop off (s +:+ t) = sdrop (off - String.length s) t.
Proof.
  intros H. replace off with (String.length s + (off - String.length s))%nat at 1 by lia.
  by rewrite <- sdrop_sdrop, sdrop_app.
Qed.

Lemma field_skip off n m z s : (m <= off)%nat -> field off n (to_le m z +:+ s) = field (off - m) n s.
Proof. intros. unfold field. by rewrite sdrop_skip; rewrite to_le_length. Qed.

Lemma chars_skip off n m z s : (m <= off)%nat -> chars off n (to_le m z +:+ s) = chars (off - m) n s.
Proof. intros. unfold chars. by rewrite sdrop_skip; rewrite to_le_length. Qed.

Lemma chars_skip_pad off n m p s :
  (String.length p <= m)%nat -> (m <= off)%nat -> chars off n (pad_to m p +:+ s) = chars (off - m) n s.
Proof. intros. unfold chars. by rewrite sdrop_skip; rewrite pad_to_length. Qed.

Lemma field_here n z s : field 0 n (to_le n z +:+ s) = z mod 256 ^ Z.of_nat n.
Proof. apply le_to_le. Qed.

Lemma chars_here n p s : (String.length p <= n)%nat -> chars 0 n (pad_to n p +:+ s) = pad_to n p.
Proof. intros. unfold chars. cbn [sdrop]. rewrite <- (pad_to_length n p) at 1 by done. apply stake_app. Qed.

Lemma i64_wrap z : is_i64 z -> i64 (z mod 2 ^ 64) = z.
Proof.
  unfold is_i64, i64. intros Hz. rewrite Zplus_mod_idemp_l. rewrite Z.mod_small; lia.
Qed.

Lemma nul_index_app s t : no_byte NUL s -> nul_index (s +:+ t) = (String.length s + nul_index t)%nat.
Proof.
  unfold no_byte. induction s as [|a s IH]; cbn [nul_index String.append all_bytes]; [done|].
  intros [Ha Hs]%andb_true_iff. apply negb_true_iff in Ha. by rewrite Ha, IH.
Qed.

Lemma nul_index_zeros n : nul_index (srepeat (str1 NUL) n) = O.
Proof. by destruct n. Qed.

Lemma goString_pad n s : no_byte NUL s -> goString (pad_to n s) = s.
Proof.
  intros Hs. unfold goString, pad_to. rewrite nul_index_app, nul_index_zeros by done. rewrite Nat.add_0_r.
  destruct s as [|a s]; [done|]. change (String.length (String a s) =? 0)%nat with false. cbn iota. apply stake_app.
Qed.

Lemma stake_length n s : (String.length (stake n s) <= n)%nat.
Proof. revert s. induction n as [|n IH]; intros [|a s]; cbn; [lia..|]. specialize (IH s). lia. Qed.

Lemma stake_nul_index s : no_byte NUL (stake (nul_index s) s).
Proof.
  induction s as [|a s IH]; cbn [nul_index]; [done|]. destruct (Ascii.eqb a NUL) eqn:Ha; [done|].
  unfold no_byte. cbn [stake all_bytes]. apply andb_true_iff. split; [|exact IH]. by apply negb_true_iff.
Qed.

(** A string copied out of a character array: bounded by it, without NULs. *)
Definition c_string (n : nat) (s : string) : Prop := (String.length s <= n)%nat /\ no_byte NUL s.

Lemma nul_index_le s : (nul_index s <= String.length s)%nat.
Proof. induction s as [|a s IH]; cbn [nul_index String.length]; [lia|]. destruct (Ascii.eqb a NUL); lia. Qed.

Lemma goString_c_string off n b : c_string n (goString (chars off n b)).
Proof.
  unfold c_string, goString. destruct (nul_index (chars off n b) =? 0)%nat; [split; [cbn; lia|done]|].
  split; [|apply stake_nul_index]. etrans; [apply stake_length|]. etrans; [apply nul_index_le|]. apply stake_length.
Qed.

(** Reads every member off a sequence of written ones. *)
Ltac read_fields :=
  repeat (rewrite field_skip by lia; cbn [Nat.sub]); rewrite field_here.
Ltac read_chars :=
  repeat (rewrite chars_skip by lia; cbn [Nat.sub]); repeat (rewrite chars_skip_pad by lia; cbn [Nat.sub]).

(** Indexing below the length copies what [take] takes. *)
Lemma copy_argv_seq argv i n :
  (i + n <= length argv)%nat -> copy_argv argv (seq i n) = inl (goString <$> take n (drop i argv)).
Proof.
  revert i. induction n as [|n IH]; intros i Hn; cbn [seq copy_argv]; [done|].
  destruct (lookup_lt_is_Some_2 argv i ltac:(lia)) as [arg Ha]. rewrite Ha, IH by lia.
  by rewrite (drop_S argv arg i Ha).
Qed.

(** With the clamp, no index is out of range. *)
Lemma parseRecord_long b :
  eventSize <= slen b ->
  let e := cast_event b in
  parseRecord b = inl (mkRaw (e_Timestamp e) (e_Pid e) (e_Tgid e) (e_Uid e) (e_Gid e) (e_Ppid e) (e_SyscallId e) (e_Ret e)
    (e_Arg0 e) (e_Arg1 e) (e_Arg2 e) (e_Daddr e) (e_Dport e) (e_Family e) (e_Flags e)
    (goString (e_Comm e)) (goString (e_Path e)) (goString <$> take (Z.to_nat (e_Argc e)) (e_Argv e))).
Proof.
  intros Hb e. unfold parseRecord. rewrite (proj2 (Z.ltb_ge _ _) Hb). fold e.
  assert (Hl : length (e_Argv e) = 3%nat) by done. rewrite Hl. change (Z.of_nat 3) with 3.
  assert (0 <= e_Argc e) by apply le_range.
  destruct (3 <? e_Argc e) eqn:E3; bool_prop.
  - cbn [Z.ltb Z.compare]. rewrite copy_argv_seq by (rewrite Hl; lia). cbn [drop].
    by rewrite !(take_ge (e_Argv e)) by (rewrite Hl; lia).
  - destruct (0 <? e_Argc e) eqn:E0; bool_prop; [by rewrite copy_argv_seq by (rewrite Hl; lia)|].
    by replace (e_Argc e) with 0 by lia.
Qed.

(** What a kernel record must satisfy to hold [r]. *)
Record fits (r : Raw) (a0 a1 a2 : string) : Prop := {
  fits_comm : c_string 16 (raw_Comm r);
  fits_path : c_string 256 (raw_Path r);
  fits_argv : c_string 64 a0 /\ c_string 64 a1 /\ c_string 64 a2
}.

Lemma kernel_bytes_length r argc a0 a1 a2 : fits r a0 a1 a2 -> slen (kernel_bytes r argc a0 a1 a2) = eventSize.
Proof.
  intros [[Hc _] [Hp _] ([H0 _] & [H1 _] & [H2 _])]. unfold slen, kernel_bytes.
  rewrite !sapp_length, !to_le_length, !pad_to_length by done. done.
Qed.

Lemma cast_scalars r argc a0 a1 a2 :
  wf_raw r -> 0 <= argc < 256 ->
  let e := cast_event (kernel_bytes r argc a0 a1 a2) in
  e_Timestamp e = raw_Timestamp r /\ e_Pid e = raw_PID r /\ e_Tgid e = raw_TGID r /\ e_Uid e = raw_UID r
  /\ e_Gid e = raw_GID r /\ e_Ppid e = raw_PPID r /\ e_SyscallId e = raw_SyscallID r /\ e_Ret e = raw_Ret r
  /\ e_Arg0 e = raw_Arg0 r /\ e_Arg1 e = raw_Arg1 r /\ e_Arg2 e = raw_Arg2 r /\ e_Daddr e = raw_Daddr r
  /\ e_Dport e = raw_Dport r /\ e_Family e = raw_Family r /\ e_Argc e = argc /\ e_Flags e = raw_Flags r.
Proof.
  intros [] Ha. cbn zeta.
  unfold cast_event, kernel_bytes.
  cbn [e_Timestamp e_Pid e_Tgid e_Uid e_Gid e_Ppid e_SyscallId e_Ret e_Arg0 e_Arg1 e_Arg2 e_Daddr e_Dport e_Family
       e_Argc e_Flags].
  split_and!; read_fields; unfold is_u64, is_u32, is_u16 in *;
    first [apply Z.mod_small; cbn; lia | apply i64_wrap; done].
Qed.

Lemma cast_strings r argc a0 a1 a2 :
  fits r a0 a1 a2 ->
  let e := cast_event (kernel_bytes r argc a0 a1 a2) in
  goString (e_Comm e) = raw_Comm r /\ goString (e_Path e) = raw_Path r /\ goString <$> e_Argv e = [a0; a1; a2].
Proof.
  intros [[Hc Nc] [Hp Np] ([H0 N0] & [H1 N1] & [H2 N2])]. cbn zeta. unfold cast_event, kernel_bytes.
  cbn [e_Comm e_Path e_Argv fmap list_fmap].
  split_and!; [read_chars; by rewrite chars_here, goString_pad..|].
  rewrite <- (sapp_nil_r (pad_to 64 a2)).
  f_equal; [read_chars; by rewrite chars_here, goString_pad|].
  f_equal; [read_chars; by rewrite chars_here, goString_pad|].
  f_equal. read_chars. by rewrite chars_here, goString_pad.
Qed.

(** ** Properties *)

(** What the kernel wrote is what the agent reads.  Of the bytes of a
    struct holding any fields within their widths, with NUL-terminated or
    exactly filling strings, [parseRecord] returns those fields and the first
    [argc] arguments, three at most. *)
Theorem parseRecord_roundtrip r argc a0 a1 a2 :
  wf_raw r -> fits r a0 a1 a2 -> 0 <= argc < 256 -> raw_Argv r = take (Z.to_nat argc) [a0; a1; a2] ->
  parseRecord (kernel_bytes r argc a0 a1 a2) = inl r.
Proof.
  intros Hw Hf Ha Hargv. rewrite parseRecord_long by (by rewrite (kernel_bytes_length r argc a0 a1 a2 Hf)).
  destruct (cast_scalars r argc a0 a1 a2 Hw Ha) as
    (-> & -> & -> & -> & -> & -> & -> & -> & -> & -> & -> & -> & -> & -> & Ec & ->).
  destruct (cast_strings r argc a0 a1 a2 Hf) as (-> & -> & Eargv). f_equal.
  rewrite Ec, fmap_take, Eargv, <- Hargv. by destruct r.
Qed.

(** C36: no record can crash the agent or smuggle in a value out of range.
    [parseRecord] fails exactly on records shorter than the struct, with its own
    error: whatever count the record carries, no argument is read outside the
    array.  On any other bytes it returns fields within their widths and strings
    without NULs no longer than their arrays, as many of them arguments as the
    count says, three at most. *)
Theorem parseRecord_total b :
  match parseRecord b with
  | inr err => err = Short (slen b) /\ slen b < eventSize
  | inl r => eventSize <= slen b /\ wf_raw r /\ c_string 16 (raw_Comm r) /\ c_string 256 (raw_Path r)
             /\ Z.of_nat (length (raw_Argv r)) = Z.min 3 (e_Argc (cast_event b)) /\ Forall (c_string 64) (raw_Argv r)
  end.
Proof.
  destruct (decide (slen b < eventSize)) as [Hs|Hl].
  { unfold parseRecord. by rewrite (proj2 (Z.ltb_lt _ _) Hs). }
  rewrite parseRecord_long by lia. split; [lia|].
  assert (Hr : forall off n, 0 <= field off n b < 256 ^ Z.of_nat n) by (intros; apply le_range).
  split; [|split; [apply goString_c_string|split; [apply goString_c_string|]]].
  - split; cbn [raw_Timestamp raw_PID raw_TGID raw_UID raw_GID raw_PPID raw_SyscallID raw_Ret raw_Arg0 raw_Arg1
      raw_Arg2 raw_Daddr raw_Dport raw_Family raw_Flags cast_event e_Timestamp e_Pid e_Tgid e_Uid e_Gid e_Ppid
      e_SyscallId e_Ret e_Arg0 e_Arg1 e_Arg2 e_Daddr e_Dport e_Family e_Flags];
      try apply i64_range; apply Hr.
  - assert (Ha : Forall (c_string 64) (goString <$> e_Argv (cast_event b)))
      by (cbn [cast_event e_Argv fmap list_fmap]; rewrite !Forall_cons; split_and!; (apply goString_c_string || constructor)).
    cbn [raw_Argv]. rewrite fmap_take. split; [|by apply Forall_take].
    rewrite length_take, length_fmap. change (length (e_Argv (cast_event b))) with 3%nat.
    assert (0 <= e_Argc (cast_event b)) by apply le_range. lia.
Qed.

Definition example_record : Raw :=
  mkRaw 1500 43 42 1000 1000 7 1 0 (-100) 0 0 0 0 0 0 "bash" "/bin/id" ["id"; "-u"].

Lemma parseRecord_roundtrip_witness :
  parseRecord (kernel_bytes example_record 2 "id" "-u" "") = inl example_record.
Proof.
  apply parseRecord_roundtrip.
  - split; cbn; split; z_compute.
  - split; unfold c_string; split_and!; (reflexivity || (cbn; lia)).
  - lia.
  - reflexivity.
Defined.
