(* ===== verification/KernelEvent.v ===== *)
(** * [struct event] in kernel memory ([bpf/event.h])

    What [bpf_ringbuf_reserve] hands out is a block of bytes; the probes write
    members of the struct into it.  A block is the string of its bytes, a member
    an offset and a size, and a store replaces the member's bytes and no other. *)

From S2P Require Import Prelude GoStrings GoText Wire.

(** The members of [struct event], in declaration order; the three rows of
    [argv] are three members. *)
Inductive member :=
  | timestamp | pid | tgid | uid | gid | ppid | syscall_id | ret | arg0 | arg1 | arg2 | daddr | dport | family
  | argc | _pad | flags | comm | path | argv0 | argv1 | argv2.

#[export] Instance member_eq_dec : EqDecision member.
Proof. solve_decision. Defined.

Definition COMM_LEN : nat := 16.
Definition PATH_LEN : nat := 256.
Definition ARG_LEN : nat := 64.
Definition MAX_ARGV : nat := 3.

Definition size_of (m : member) : nat :=
  match m with
  | timestamp | ret | arg0 | arg1 | arg2 => 8
  | pid | tgid | uid | gid | ppid | syscall_id | daddr | flags => 4
  | dport | family => 2
  | argc => 1
  | _pad => 3
  | comm => COMM_LEN
  | path => PATH_LEN
  | argv0 | argv1 | argv2 => ARG_LEN
  end.

(** The table at the head of [event.h]. *)
Definition offset_of (m : member) : nat :=
  match m with
  | timestamp => 0 | pid => 8 | tgid => 12 | uid => 16 | gid => 20 | ppid => 24 | syscall_id => 28 | ret => 32
  | arg0 => 40 | arg1 => 48 | arg2 => 56 | daddr => 64 | dport => 68 | family => 70 | argc => 72 | _pad => 73
  | flags => 76 | comm => 80 | path => 96 | argv0 => 352 | argv1 => 416 | argv2 => 480
  end.

Definition members : list member :=
  [timestamp; pid; tgid; uid; gid; ppid; syscall_id; ret; arg0; arg1; arg2; daddr; dport; family; argc; _pad; flags;
   comm; path; argv0; argv1; argv2].

Definition argv_row (i : nat) : member := match i with O => argv0 | S O => argv1 | _ => argv2 end.

(** The bytes of a member, and the store of bytes into it. *)
Definition get (m : member) (e : string) : string := chars (offset_of m) (size_of m) e.
Definition store (off : nat) (bs e : string) : string := stake off e +:+ bs +:+ sdrop (off + String.length bs) e.
Definition put_bytes (m : member) (bs e : string) : string := store (offset_of m) bs e.

(** [e->m = z] for an integer member: [z] converted to the member's type, and
    the integer a member holds. *)
Definition put (m : member) (z : Z) (e : string) : string := put_bytes m (to_le (size_of m) z) e.
Definition get_int (m : member) (e : string) : Z := le (size_of m) (get m e).

(** [__builtin_memset(e->m, 0, sizeof(e->m))] *)
Definition zeros (n : nat) : string := srepeat (str1 NUL) n.

(** A block of the struct's size. *)
Definition block (e : string) : Prop := String.length e = 544%nat.

(** ** Layout *)

(** There is no implicit padding: each member starts where the last one ends. *)
Lemma layout_packed :
  foldl (fun off m => o ← off; if (o =? offset_of m)%nat then Some (o + size_of m)%nat else None) (Some 0%nat) members
  = Some 544%nat.
Proof. reflexivity. Qed.

Lemma members_complete m : m ∈ members.
Proof. destruct m; by_compute. Qed.

Lemma size_pos m : (0 < size_of m)%nat.
Proof. destruct m; cbn; unfold COMM_LEN, PATH_LEN, ARG_LEN; lia. Qed.

Lemma member_in_block m : (offset_of m + size_of m <= 544)%nat.
Proof. destruct m; cbn; unfold COMM_LEN, PATH_LEN, ARG_LEN; lia. Qed.

Lemma members_apart m1 m2 :
  m1 <> m2 -> (offset_of m1 + size_of m1 <= offset_of m2)%nat \/ (offset_of m2 + size_of m2 <= offset_of m1)%nat.
Proof. destruct m1, m2; cbn; unfold COMM_LEN, PATH_LEN, ARG_LEN; intros ?; (done || lia). Qed.

(** ** Slices of a string *)

Lemma stake_length_le n s : (n <= String.length s)%nat -> String.length (stake n s) = n.
Proof. revert s. induction n as [|n IH]; intros [|a s]; cbn; try lia. intros. rewrite IH; lia. Qed.

Lemma stake_all n s : (String.length s <= n)%nat -> stake n s = s.
Proof. revert s. induction n as [|n IH]; intros [|a s]; cbn; try lia; auto. intros. rewrite IH; [done|lia]. Qed.

Lemma sdrop_all n s : (String.length s <= n)%nat -> sdrop n s = "".
Proof. revert s. induction n as [|n IH]; intros [|a s]; cbn; try lia; auto. intros. apply IH. lia. Qed.

Lemma stake_app_le n s t : (n <= String.length s)%nat -> stake n (s +:+ t) = stake n s.
Proof. revert s. induction n as [|n IH]; intros [|a s]; cbn; try lia; auto. intros. rewrite IH; [done|lia]. Qed.

Lemma sdrop_app_le n s t : (n <= String.length s)%nat -> sdrop n (s +:+ t) = sdrop n s +:+ t.
Proof. revert s. induction n as [|n IH]; intros [|a s]; cbn; try lia; auto. intros. apply IH. lia. Qed.

Lemma sdrop_stake n k s : sdrop n (stake k s) = stake (k - n) (sdrop n s).
Proof.
  revert k s. induction n as [|n IH]; intros [|k] [|a s]; cbn; auto; try (by destruct k); try (by destruct n).
  by destruct (k - n)%nat.
Qed.

Lemma stake_stake n k s : (n <= k)%nat -> stake n (stake k s) = stake n s.
Proof. revert k s. induction n as [|n IH]; intros [|k] [|a s] H; cbn; auto; try lia. rewrite IH; [done|lia]. Qed.

Lemma chars_length off n e : (off + n <= String.length e)%nat -> String.length (chars off n e) = n.
Proof. intros. unfold chars. apply stake_length_le. rewrite sdrop_length. lia. Qed.

Lemma chars_split off n k e :
  chars off (n + k) e = chars off n e +:+ chars (off + n) k e.
Proof.
  unfold chars. rewrite <- sdrop_sdrop. generalize (sdrop off e). clear.
  induction n as [|n IH]; intros [|a s]; cbn [stake sdrop Nat.add String.append]; try done; [by destruct k|]. by rewrite IH.
Qed.

Lemma zeros_length n : String.length (zeros n) = n.
Proof. apply srepeat_length. Qed.

Lemma zeros_add n k : zeros (n + k) = zeros n +:+ zeros k.
Proof. unfold zeros. induction n as [|n IH]; cbn [Nat.add srepeat]; [done|]. by rewrite IH, sapp_assoc. Qed.

Lemma chars_zeros off n k : (off + n <= k)%nat -> chars off n (zeros k) = zeros n.
Proof.
  intros H. replace k with (off + (n + (k - off - n)))%nat by lia. unfold chars. rewrite !zeros_add.
  rewrite <- (zeros_length off) at 1. rewrite sdrop_app. rewrite <- (zeros_length n) at 1. apply stake_app.
Qed.

(** ** A store changes its footprint and nothing else *)

Lemma store_length off bs e :
  (off + String.length bs <= String.length e)%nat -> String.length (store off bs e) = String.length e.
Proof. intros. unfold store. rewrite !sapp_length, stake_length_le, sdrop_length by lia. lia. Qed.

Lemma chars_store_inside off n o bs e :
  (o + String.length bs <= String.length e)%nat -> (o <= off)%nat -> (off + n <= o + String.length bs)%nat ->
  chars off n (store o bs e) = chars (off - o) n bs.
Proof.
  intros He H1 H2. unfold chars, store. rewrite sdrop_skip by (rewrite stake_length_le; lia).
  rewrite stake_length_le by lia. rewrite sdrop_app_le by lia. rewrite stake_app_le; [done|]. rewrite sdrop_length. lia.
Qed.

Lemma chars_store_before off n o bs e :
  (o + String.length bs <= String.length e)%nat -> (off + n <= o)%nat -> chars off n (store o bs e) = chars off n e.
Proof.
  intros He H. unfold chars, store. rewrite sdrop_app_le by (rewrite stake_length_le; lia).
  rewrite stake_app_le by (rewrite sdrop_length, stake_length_le; lia).
  rewrite sdrop_stake. apply stake_stake. lia.
Qed.

Lemma chars_store_after off n o bs e :
  (o + String.length bs <= String.length e)%nat -> (o + String.length bs <= off)%nat ->
  chars off n (store o bs e) = chars off n e.
Proof.
  intros He H. unfold chars, store. rewrite sdrop_skip by (rewrite stake_length_le; lia).
  rewrite stake_length_le by lia. rewrite sdrop_skip by lia. rewrite sdrop_sdrop. do 2 f_equal. lia.
Qed.

Lemma put_bytes_block m bs e : block e -> String.length bs = size_of m -> block (put_bytes m bs e).
Proof.
  unfold block, put_bytes. intros He Hb. rewrite store_length; [done|]. pose proof (member_in_block m). lia.
Qed.

Lemma put_block m z e : block e -> block (put m z e).
Proof. intros. apply put_bytes_block; [done|apply to_le_length]. Qed.

Lemma get_length m e : block e -> String.length (get m e) = size_of m.
Proof. unfold block, get. intros He. apply chars_length. pose proof (member_in_block m). lia. Qed.

Lemma get_put_bytes m m' bs e :
  block e -> String.length bs = size_of m' -> get m (put_bytes m' bs e) = if decide (m = m') then bs else get m e.
Proof.
  unfold block, get, put_bytes. intros He Hb. pose proof (member_in_block m'). case_decide as Hm; [subst m'|].
  - rewrite chars_store_inside, Nat.sub_diag by lia. unfold chars. cbn [sdrop]. apply stake_all. lia.
  - destruct (members_apart m m' Hm); [apply chars_store_before|apply chars_store_after]; lia.
Qed.

Lemma get_put m m' z e : block e -> get m (put m' z e) = if decide (m = m') then to_le (size_of m') z else get m e.
Proof. intros. apply get_put_bytes; [done|apply to_le_length]. Qed.

Lemma get_int_put m m' z e :
  block e -> get_int m (put m' z e) = if decide (m = m') then z mod 256 ^ Z.of_nat (size_of m') else get_int m e.
Proof.
  intros He. unfold get_int. rewrite get_put by done. case_decide; [subst|done].
  rewrite <- (sapp_nil_r (to_le _ _)). apply le_to_le.
Qed.

Lemma get_int_put_bytes m m' bs e :
  block e -> String.length bs = size_of m' -> m <> m' -> get_int m (put_bytes m' bs e) = get_int m e.
Proof. intros. unfold get_int. by rewrite get_put_bytes, decide_False. Qed.

(** Two blocks with the same members are the same bytes: nothing of a block is
    outside its members. *)
Lemma block_ext e1 e2 : block e1 -> block e2 -> (forall m, get m e1 = get m e2) -> e1 = e2.
Proof.
  unfold block. intros H1 H2 Hm.
  assert (Hc : forall e, String.length e = 544%nat -> e = chars 0 544 e) by (intros e He; symmetry; apply stake_all; lia).
  rewrite (Hc e1 H1), (Hc e2 H2). clear Hc.
  assert (Hs : forall off n k e1 e2, chars off n e1 = chars off n e2 -> chars (off + n) k e1 = chars (off + n) k e2 ->
    chars off (n + k) e1 = chars off (n + k) e2) by (intros * Ha Hb; by rewrite !chars_split, Ha, Hb).
  do 21 (match goal with |- chars ?off ?total _ = _ =>
    let m := eval vm_compute in (default _pad (find (fun m => (offset_of m =? off)%nat) members)) in
    apply (Hs off (size_of m) (total - size_of m)%nat); [exact (Hm m)|cbn [Nat.add Nat.sub size_of COMM_LEN PATH_LEN ARG_LEN]] end).
  exact (Hm argv2).
Qed.

(** ** The agent's cast reads the members *)

Lemma le_stake n s : le n (stake n s) = le n s.
Proof. revert s. induction n as [|n IH]; intros [|a s]; cbn [stake le]; [done..|]. by rewrite IH. Qed.

Lemma field_get m e : field (offset_of m) (size_of m) e = get_int m e.
Proof. unfold field, get_int, get, chars. by rewrite le_stake. Qed.

Lemma cast_members e :
  cast_event e = mkKrnlSentryEvent (get_int timestamp e) (get_int pid e) (get_int tgid e) (get_int uid e) (get_int gid e)
    (get_int ppid e) (get_int syscall_id e) (i64 (get_int ret e)) (i64 (get_int arg0 e)) (i64 (get_int arg1 e))
    (i64 (get_int arg2 e)) (get_int daddr e) (get_int dport e) (get_int family e) (get_int argc e) (get_int flags e)
    (get comm e) (get path e) [get argv0 e; get argv1 e; get argv2 e].
Proof. unfold cast_event. by rewrite <- !field_get. Qed.
