(* ===== verification/Loader.v ===== *)
(** * The collector ([ebpfloader/loader.go])

    Loading, attaching, draining and tearing down.  The kernel and the
    [cilium/ebpf] library are the parameter [Kernel], which answers each request;
    what the collector asks of them, in order, is the trace of effects each
    operation returns.  A link is identified with the tracepoint it attaches. *)

From S2P Require Import Prelude GoStrings GoTime GoText Events Wire.

(** [type tracepoint struct], without the program selector, whose result is
    [k_program]. *)
Record tracepoint := mkTracepoint { tp_group : string; tp_name : string }.

#[export] Instance tracepoint_eq_dec : EqDecision tracepoint.
Proof. solve_decision. Defined.

Definition tracepoints : list tracepoint :=
  mkTracepoint "syscalls" <$>
  ["sys_enter_execve"; "sys_enter_execveat"; "sys_enter_openat"; "sys_enter_setuid"; "sys_enter_setgid";
   "sys_enter_setresuid"; "sys_enter_setresgid"; "sys_enter_capset"; "sys_enter_ptrace"; "sys_enter_socket";
   "sys_exit_socket"; "sys_enter_connect"; "sys_exit_connect"; "sys_enter_dup2"; "sys_enter_dup3"].

Definition optionalTracepoints : list (string * bool) := [("sys_enter_dup2", true)].
Definition is_optional (name : string) : bool := default false (assoc name optionalTracepoints).

(** The outcome of [link.Tracepoint]: attached, refused because the tracepoint
    does not exist, refused for another reason. *)
Inductive attach_result := Attached | AttachNotExist | AttachRefused.

(** What the kernel and the library answer: whether each request succeeds. *)
Class Kernel := {
  k_removeMemlock : bool;
  k_load : bool;
  k_putConfig : bool;
  k_program : tracepoint -> bool;
  k_attach : tracepoint -> attach_result;
  k_newReader : bool;
  k_bootTime : option Z;
  k_closeReader : bool;
  k_detach : tracepoint -> bool;
  k_closeObjs : bool
}.

Inductive effect :=
  | LoadObjects
  | WriteConfig
  | Attach (tp : tracepoint)
  | OpenReader
  | CloseReader
  | Detach (tp : tracepoint)
  | CloseObjects.

Inductive collector_error :=
  | MemlockError
  | LoadError
  | ConfigError
  | ProgramMissing (tp : tracepoint)
  | AttachError (tp : tracepoint)
  | NothingAttached
  | ReaderError
  | BootTimeError.

(** [type Collector struct]: the reader is open or nil. *)
Record Collector := mkCollector { cl_links : list tracepoint; cl_reader : bool; cl_bootTime : Z }.

Section loader.
Context `{Kernel}.

(** The loop of [attachAll], from the links it has. *)
Fixpoint attach_loop (tps links : list tracepoint) : list tracepoint * list effect * option collector_error :=
  match tps with
  | [] => (links, [], if (length links =? 0)%nat then Some NothingAttached else None)
  | tp :: tps =>
      if negb (k_program tp) then (links, [], Some (ProgramMissing tp))
      else
        match k_attach tp with
        | Attached =>
            let '(links, tr, err) := attach_loop tps (links ++ [tp]) in (links, Attach tp :: tr, err)
        | AttachNotExist =>
            if is_optional (tp_name tp) then attach_loop tps links else (links, [], Some (AttachError tp))
        | AttachRefused => (links, [], Some (AttachError tp))
        end
  end.

Definition attachAll (c : Collector) : Collector * list effect * option collector_error :=
  let '(links, tr, err) := attach_loop tracepoints (cl_links c) in
  (mkCollector links (cl_reader c) (cl_bootTime c), tr, err).

(** [Collector.Close]: the collector after it, what it asked for, and how many
    errors it joined. *)
Definition Close (c : Collector) : Collector * list effect * nat :=
  let '(tr1, e1) :=
    if cl_reader c then ([CloseReader], if k_closeReader then 0%nat else 1%nat) else ([], 0%nat) in
  let e2 := length (filter (fun tp => k_detach tp = false) (rev (cl_links c))) in
  let e3 := if k_closeObjs then 0%nat else 1%nat in
  (mkCollector [] false (cl_bootTime c), tr1 ++ (Detach <$> rev (cl_links c)) ++ [CloseObjects], (e1 + e2 + e3)%nat).

(** [New] after the deferred clean-up is set up. *)
Definition new_steps : Collector * list effect * option collector_error :=
  let c := mkCollector [] false 0 in
  if negb k_load then (c, [], Some LoadError)
  else if negb k_putConfig then (c, [LoadObjects], Some ConfigError)
  else
    let '(c, tr, err) := attachAll c in
    let tr := [LoadObjects; WriteConfig] ++ tr in
    match err with
    | Some e => (c, tr, Some e)
    | None =>
        if negb k_newReader then (c, tr, Some ReaderError)
        else
          let c := mkCollector (cl_links c) true (cl_bootTime c) in
          let tr := tr ++ [OpenReader] in
          match k_bootTime with
          | None => (c, tr, Some BootTimeError)
          | Some boot => (mkCollector (cl_links c) true boot, tr, None)
          end
    end.

Definition New : (Collector + collector_error) * list effect :=
  if negb k_removeMemlock then (inr MemlockError, [])
  else
    match new_steps with
    | (c, tr, None) => (inl c, tr)
    | (c, tr, Some e) => let '(_, tr', _) := Close c in (inr e, tr ++ tr')
    end.

(** ** Draining *)

(** What [reader.Read] returns: a record, or an error, which is the closed
    reader's or another one, with the context cancelled or not. *)
Inductive read_result :=
  | Sample (b : string)
  | ReadClosed
  | ReadFailed (cancelled : bool).

Inductive run_end := Draining | Stopped | RunFailed.

(** [Collector.Run] over what the reads return: the events handed to the
    handler, and how the loop ended, if it did.  A record that does not decode is
    logged and skipped; [parseRecord] never panics ([parseRecord_total]). *)
Fixpoint Run (boot : Z) (reads : list read_result) : list Event * run_end :=
  match reads with
  | [] => ([], Draining)
  | ReadClosed :: _ => ([], Stopped)
  | ReadFailed cancelled :: _ => ([], if cancelled then Stopped else RunFailed)
  | Sample b :: reads =>
      match parseRecord b with
      | inr _ => Run boot reads
      | inl raw => let '(evs, fin) := Run boot reads in (Decode raw boot :: evs, fin)
      end
  end.

(** [sumPerCPU] *)
Definition sumPerCPU (perCPU : list Z) : Z := foldl (fun total v => u64 (total + v)) 0 perCPU.

(** [type Stats struct] and [Collector.Stats], over the lookups of the two slots
    of the per-CPU map ([None]: an error). *)
Record Stats := mkStats { st_Events : Z; st_Dropped : Z }.
Definition statEvents : Z := 0.
Definition statDropped : Z := 1.
Inductive stats_error := EventCounterError | DropCounterError.
Definition Collector_Stats (lookup : Z -> option (list Z)) : Stats * option stats_error :=
  match lookup statEvents with
  | None => (mkStats 0 0, Some EventCounterError)
  | Some events =>
      match lookup statDropped with
      | None => (mkStats 0 0, Some DropCounterError)
      | Some dropped => (mkStats (sumPerCPU events) (sumPerCPU dropped), None)
      end
  end.

(** [bootTime], from the monotonic clock's seconds and nanoseconds ([None]: an
    error) and the wall clock. *)
Definition bootTime (clock : option (Z * Z)) (now : Z) : option Z :=
  match clock with
  | None => None
  | Some (sec, nsec) => Some (now + i64 (- i64 (i64 (sec * Second) + nsec)))
  end.

(** [describeLoadError]: what [errors.Is] and [errors.As] find in the error, and
    its text; the result wraps it. *)
Record load_failure := mkLoadFailure {
  ld_EPERM : bool; ld_Permission : bool; ld_ENOTSUP : bool; ld_EINVAL : bool; ld_verifier : option string; ld_text : string
}.
Definition describeLoadError (err : load_failure) : string :=
  if ld_EPERM err || ld_Permission err then
    ld_text err +:+ nl +:+ nl +:+ "loading eBPF requires privileges. Run with sudo, or grant "
    +:+ "CAP_BPF and CAP_PERFMON (CAP_SYS_ADMIN on kernels before 5.8)"
  else if ld_ENOTSUP err || ld_EINVAL err then
    ld_text err +:+ nl +:+ nl +:+ "the kernel rejected the program. KrnlSentry needs kernel 5.8+ "
    +:+ "with CONFIG_DEBUG_INFO_BTF=y and CONFIG_BPF_SYSCALL=y. Check: " +:+ "ls -l /sys/kernel/btf/vmlinux"
  else
    match ld_verifier err with
    | Some log => "BPF verifier rejected the program: " +:+ log +:+ ": " +:+ ld_text err
    | None => "loading eBPF objects: " +:+ ld_text err
    end.

(** ** Specification: which probes are in the kernel after a trace

    A probe leaves the kernel when its link is closed and the kernel complies. *)
Definition live_step (attached : list tracepoint) (e : effect) : list tracepoint :=
  match e with
  | Attach tp => attached ++ [tp]
  | Detach tp => if k_detach tp then filter (fun t => t <> tp) attached else attached
  | _ => attached
  end.
Definition live (tr : list effect) : list tracepoint := foldl live_step [] tr.

(** The records among [samples] that decode. *)
Definition well_formed (samples : list string) : list Raw :=
  omap (fun b => match parseRecord b with inl r => Some r | inr _ => None end) samples.

(** The probes this kernel does not let go of. *)
Definition stuck (attached : list tracepoint) : list tracepoint := filter (fun tp => k_detach tp = false) attached.

(** The probes this kernel must provide. *)
Definition provided (tp : tracepoint) : bool :=
  match k_attach tp with Attached => true | _ => false end.
End loader.

(** ** Lemmas *)

Lemma tracepoints_NoDup : NoDup tracepoints.
Proof. by_compute. Qed.

Section facts.
Context `{Kernel}.

Lemma attach_loop_spec tps links links' tr err :
  attach_loop tps links = (links', tr, err) ->
  exists done_, links' = links ++ done_ /\ tr = Attach <$> done_ /\ sublist done_ tps
    /\ (err = None -> done_ = filter (fun tp => provided tp = true) tps
          /\ Forall (fun tp => provided tp = true \/ k_attach tp = AttachNotExist /\ is_optional (tp_name tp) = true) tps
          /\ links' <> []).
Proof.
  revert links links' tr err. induction tps as [|tp tps IH]; intros links links' tr err; cbn [attach_loop].
  - intros [= <- <- <-]. exists []. rewrite app_nil_r. split_and!; [done..|].
    destruct (length links =? 0)%nat eqn:E; [done|]. bool_prop. intros _. split_and!; [done|constructor|].
    by destruct links.
  - destruct (k_program tp); cbn [negb].
    2:{ intros [= <- <- <-]. exists []. rewrite app_nil_r. split_and!; [done..|apply sublist_nil_l|done]. }
    destruct (k_attach tp) eqn:Ea.
    + destruct (attach_loop tps (links ++ [tp])) as [[l t] e] eqn:E. intros [= <- <- <-].
      apply IH in E as (d & -> & -> & Hs & Hok). exists (tp :: d). rewrite <- app_assoc.
      split_and!; [done|done|by constructor|]. intros [-> [Hall Hne]]%Hok.
      assert (provided tp = true) by (unfold provided; by rewrite Ea).
      rewrite filter_cons_True by done. split_and!; [done|constructor; [by left|done]|by destruct links].
    + destruct (is_optional (tp_name tp)) eqn:Eo.
      * intros (d & -> & -> & Hs & Hok)%IH. exists d. split_and!; [done|done|by constructor|].
        intros [-> [Hall Hne]]%Hok. assert (provided tp <> true) by (unfold provided; by rewrite Ea).
        rewrite filter_cons_False by done. split_and!; [done|constructor; [by right|done]|done].
      * intros [= <- <- <-]. exists []. rewrite app_nil_r. split_and!; [done..|apply sublist_nil_l|done].
    + intros [= <- <- <-]. exists []. rewrite app_nil_r. split_and!; [done..|apply sublist_nil_l|done].
Qed.

Lemma live_app tr1 tr2 : live (tr1 ++ tr2) = foldl live_step (live tr1) tr2.
Proof. unfold live. by rewrite foldl_app. Qed.

Lemma live_attach tps l : foldl live_step l (Attach <$> tps) = l ++ tps.
Proof.
  revert l. induction tps as [|tp tps IH]; intros l; cbn; [by rewrite app_nil_r|]. by rewrite IH, <- app_assoc.
Qed.

Lemma live_detach tps l : foldl live_step l (Detach <$> tps) = filter (fun t => t ∉ tps \/ k_detach t = false) l.
Proof.
  revert l. induction tps as [|tp tps IH]; intros l; cbn.
  - symmetry. apply filter_all. apply Forall_forall. set_solver.
  - rewrite IH. destruct (k_detach tp) eqn:E; [rewrite list_filter_filter|]; apply list_filter_iff; intros t;
      rewrite not_elem_of_cons; destruct (decide (t = tp)) as [->|]; rewrite ?E; intuition congruence.
Qed.

Lemma live_detach_all l : foldl live_step l (Detach <$> rev l) = stuck l.
Proof.
  rewrite live_detach. unfold stuck.
  assert (Hin : Forall (.∈ rev l) l).
  { apply Forall_forall. intros t Ht. rewrite list_elem_of_In, <- in_rev. by apply list_elem_of_In. }
  revert Hin. generalize (rev l). intros r. induction 1 as [|t l Ht _ IH]; [done|]. rewrite !filter_cons, IH.
  repeat case_decide; naive_solver.
Qed.

(** Nothing is stuck in a kernel that refuses no detachment. *)
Lemma stuck_none l : Forall (fun tp => k_detach tp = true) l -> stuck l = [].
Proof. intros Hl. apply filter_none. eapply Forall_impl; [exact Hl|]. intros tp ->. done. Qed.

(** What [New] asks of the kernel when it fails, and when it succeeds. *)
Definition unwound (tr : list effect) : Prop :=
  exists before attached after,
    tr = before ++ (Attach <$> attached) ++ after ++ (Detach <$> rev attached) ++ [CloseObjects]
    /\ (forall tp, Attach tp ∉ before ++ after) /\ live tr = stuck attached.

Lemma unwound_live before attached after :
  Forall (fun x => forall l, live_step l x = l) (before ++ after) ->
  live (before ++ (Attach <$> attached) ++ after ++ (Detach <$> rev attached) ++ [CloseObjects]) = stuck attached.
Proof.
  intros [Hb Ha]%Forall_app.
  assert (Hid : forall trace l, Forall (fun x => forall l, live_step l x = l) trace -> foldl live_step l trace = l).
  { intros trace l Ht. induction Ht as [|x trace Hx _ IH]; [done|]. cbn. by rewrite Hx. }
  unfold live. rewrite !foldl_app, (Hid before), live_attach, (Hid after), live_detach_all by done. done.
Qed.

Lemma New_fails e tr : New = (inr e, tr) -> e = MemlockError /\ tr = [] \/ unwound tr.
Proof.
  unfold New, new_steps. destruct k_removeMemlock; cbn [negb]; [|intros [= <- <-]; auto].
  assert (Hun : forall before d after, Forall (fun x => (forall l, live_step l x = l) /\ forall tp, x <> Attach tp) (before ++ after) ->
    unwound (before ++ (Attach <$> d) ++ after ++ (Detach <$> rev d) ++ [CloseObjects])).
  { intros before d after Hf. exists before, d, after. split_and!; [done| |].
    - intros tp Htp. rewrite Forall_forall in Hf. by destruct (Hf _ Htp) as [_ Hn]; destruct (Hn tp).
    - apply unwound_live. eapply Forall_impl; [exact Hf|]. by intros x [? _]. }
  destruct k_load; cbn [negb].
  2:{ intros [= <- <-]. right. by apply (Hun [] [] []). }
  destruct k_putConfig; cbn [negb].
  2:{ intros [= <- <-]. right. apply (Hun [LoadObjects] [] []). by repeat constructor. }
  unfold attachAll. destruct (attach_loop _ _) as [[links t] err] eqn:E. cbn [cl_links] in E.
  apply attach_loop_spec in E as (d & -> & -> & _ & _). cbn [app].
  destruct err as [err|]; [|destruct k_newReader; cbn [negb]; [destruct k_bootTime|]]; intros Hn; simplify_eq/=; right.
  - apply (Hun [LoadObjects; WriteConfig] d []). by repeat constructor.
  - rewrite <- app_assoc. apply (Hun [LoadObjects; WriteConfig] d [OpenReader; CloseReader]). by repeat constructor.
  - apply (Hun [LoadObjects; WriteConfig] d []). by repeat constructor.
Qed.

(** What is left attached is what the kernel did not let go of. *)
Lemma New_fails_live e tr : New = (inr e, tr) -> Forall (fun tp => k_detach tp = false) (live tr).
Proof.
  intros [[_ ->]|(before & d & after & _ & _ & ->)]%New_fails; [constructor|]. apply Forall_forall. by intros tp [? _]%list_elem_of_filter.
Qed.

Lemma all_stuck_none l : Forall (fun tp => k_detach tp = false) l -> (forall tp, k_detach tp = true) -> l = [].
Proof. intros Hl Hk. destruct Hl as [|tp l Htp _]; [done|]. by rewrite Hk in Htp. Qed.

Lemma New_succeeds c tr :
  New = (inl c, tr) ->
  cl_links c = filter (fun tp => provided tp = true) tracepoints
  /\ Forall (fun tp => tp ∈ cl_links c \/ k_attach tp = AttachNotExist /\ is_optional (tp_name tp) = true) tracepoints
  /\ cl_links c <> [] /\ live tr = cl_links c
  /\ tr = [LoadObjects; WriteConfig] ++ (Attach <$> cl_links c) ++ [OpenReader] /\ k_bootTime = Some (cl_bootTime c).
Proof.
  unfold New, new_steps. destruct k_removeMemlock; cbn [negb]; [|done].
  destruct k_load; cbn [negb]; [|done]. destruct k_putConfig; cbn [negb]; [|done].
  unfold attachAll. destruct (attach_loop _ _) as [[links t] err] eqn:E. cbn [cl_links] in E.
  apply attach_loop_spec in E as (d & -> & -> & _ & Hok). cbn [app] in *.
  destruct err as [err|]; [done|]. destruct Hok as (Hd & Hall & Hne); [done|].
  destruct k_newReader; cbn [negb]; [|done]. destruct k_bootTime as [boot|] eqn:Eb; [|done].
  intros [= <- <-]. cbn [cl_links cl_bootTime]. split_and!; [done| |done| |done|done].
  - rewrite Forall_forall in Hall. apply Forall_forall. intros tp Htp. destruct (Hall tp Htp); [|by right].
    left. rewrite Hd. by apply list_elem_of_filter.
  - change (live (([LoadObjects; WriteConfig] ++ (Attach <$> d)) ++ [OpenReader]) = d).
    rewrite live_app. unfold live. rewrite foldl_app. cbn. by rewrite live_attach.
Qed.

(** Closing a collector detaches what its links say, as far as the kernel lets
    go. *)
Lemma live_close c : foldl live_step (cl_links c) (snd (fst (Close c))) = stuck (cl_links c).
Proof.
  unfold Close. destruct (cl_reader c); cbn [fst snd]; rewrite !foldl_app; cbn; by rewrite live_detach_all.
Qed.
End facts.

(** ** Properties *)

Section properties.
Context `{Kernel}.


(** C38: a start that succeeds watches everything it claims to.  When [New]
    returns a collector, its links are exactly the tracepoints this kernel
    provides, in the order of the table; the only ones missing are optional
    and do not exist here; there is at least one; and the agent's own id was
    published before the first probe was attached, the reader opened after the
    last. *)
Theorem New_success_complete c tr :
  New = (inl c, tr) ->
  cl_links c = filter (fun tp => provided tp = true) tracepoints
  /\ Forall (fun tp => tp ∈ cl_links c \/ k_attach tp = AttachNotExist /\ is_optional (tp_name tp) = true) tracepoints
  /\ cl_links c <> [] /\ live tr = cl_links c
  /\ tr = [LoadObjects; WriteConfig] ++ (Attach <$> cl_links c) ++ [OpenReader] /\ k_bootTime = Some (cl_bootTime c).
Proof. apply New_succeeds. Qed.

(** Draining loses nothing it can decode.  [Run] hands the handler exactly
    the decoded events of the well-formed records read before the first failed
    read, in order, skipping malformed ones; it ends with an error only for a
    failed read that is neither the closed reader nor a cancellation. *)
Theorem Run_delivers boot (samples : list string) rest :
  Run boot ((Sample <$> samples) ++ rest) =
  let '(evs, fin) := Run boot rest in (((fun r => Decode r boot) <$> well_formed samples) ++ evs, fin).
Proof.
  induction samples as [|b samples IH]; cbn [fmap list_fmap app Run]; [by destruct (Run boot rest)|].
  unfold well_formed in *. cbn [omap list_omap]. destruct (parseRecord b) as [raw|n]; rewrite IH; by destruct (Run boot rest).
Qed.

(** The counters of all CPUs add up modulo the counter's width. *)
Lemma sumPerCPU_sum perCPU : sumPerCPU perCPU = u64 (foldr Z.add 0 perCPU).
Proof.
  unfold sumPerCPU. assert (forall t, is_u64 t -> foldl (fun total v => u64 (total + v)) t perCPU = u64 (t + foldr Z.add 0 perCPU)) as Hg.
  { induction perCPU as [|v l IH]; intros t Ht; cbn; [rewrite Z.add_0_r; by rewrite u64_small|].
    rewrite IH by apply u64_range. unfold u64. rewrite Zplus_mod_idemp_l. f_equal. lia. }
  by rewrite Hg by by split.
Qed.
End properties.

(** ** Concrete kernels

    An arm64 kernel without [dup2], which refuses to attach one probe and to
    detach another. *)
Definition stubborn_kernel (refused kept : string) : Kernel := {|
  k_removeMemlock := true; k_load := true; k_putConfig := true; k_program := fun _ => true;
  k_attach := fun tp => if tp_name tp ==s "sys_enter_dup2" then AttachNotExist
                        else if tp_name tp ==s refused then AttachRefused else Attached;
  k_newReader := true; k_bootTime := Some 0; k_closeReader := true; k_detach := fun tp => negb (tp_name tp ==s kept);
  k_closeObjs := true
|}.
Definition example_kernel (refused : string) : Kernel := stubborn_kernel refused "".


Lemma New_success_complete_witness :
  length (filter (fun tp => @provided (example_kernel "") tp = true) tracepoints) = 14%nat /\
  @live (example_kernel "") (snd (@New (example_kernel ""))) = filter (fun tp => @provided (example_kernel "") tp = true) tracepoints.
Proof.
  split; [reflexivity|].
  destruct (@New_success_complete (example_kernel "") (mkCollector (filter (fun tp => @provided (example_kernel "") tp = true) tracepoints) true 0)
    (snd (@New (example_kernel "")))) as (_ & _ & _ & Hl & _ & _); [reflexivity|].
  rewrite Hl. reflexivity.
Defined.
