(* ===== verification/Collect.v ===== *)
(** * The collector's two goroutines ([ebpfloader/loader.go], [Run]), and its
    stub ([ebpfloader/loader_other.go])

    [Loader.Run] is the loop of [Run] over what its reads return.  Here are the
    loop and the goroutine that turns a cancelled context into a closed reader,
    in every interleaving with the kernel that fills the buffer and the agent
    that cancels. *)

From S2P Require Import Prelude Fair GoStrings Events Wire Loader.

(** The watcher is in its [select], about to close the reader, or gone; the loop
    reads, has decided what to return, or has returned with [done] closed. *)
Inductive watcher := Watching | ClosingReader | Gone.
Inductive loop := Reading | Returning (failed : bool) | Returned (failed : bool).

#[export] Instance watcher_eq_dec : EqDecision watcher.
Proof. solve_decision. Defined.
#[export] Instance loop_eq_dec : EqDecision loop.
Proof. solve_decision. Defined.

(** [dr_avail]: the records in the buffer, oldest first; [dr_handed]: the events
    the handler was called with. *)
Record drain := mkDrain {
  dr_cancelled : bool;
  dr_closed : bool;
  dr_watcher : watcher;
  dr_loop : loop;
  dr_avail : list string;
  dr_handed : list Event
}.

Definition start_drain (avail : list string) : drain := mkDrain false false Watching Reading avail [].

(** What one record makes of the events handed on. *)
Definition deliver (boot : Z) (b : string) (handed : list Event) : list Event :=
  match parseRecord b with inl raw => handed ++ [Decode raw boot] | inr _ => handed end.

Section collect.
Context (boot : Z).

(** The steps of the goroutine that reads, and of the watcher.  A read of an open
    reader returns the next record, waits when there is none, or fails; of a closed
    one it returns the error that says so. *)
Inductive loop_step : drain -> drain -> Prop :=
  | run_sample s b rest :
      dr_loop s = Reading -> dr_closed s = false -> dr_avail s = b :: rest ->
      loop_step s (mkDrain (dr_cancelled s) false (dr_watcher s) Reading rest (deliver boot b (dr_handed s)))
  | run_closed s :
      dr_loop s = Reading -> dr_closed s = true ->
      loop_step s (mkDrain (dr_cancelled s) true (dr_watcher s) (Returning false) (dr_avail s) (dr_handed s))
  | run_return s failed :
      dr_loop s = Returning failed ->
      loop_step s (mkDrain (dr_cancelled s) (dr_closed s) (dr_watcher s) (Returned failed) (dr_avail s) (dr_handed s)).

Inductive watcher_step : drain -> drain -> Prop :=
  | run_cancel s :
      dr_watcher s = Watching -> dr_cancelled s = true ->
      watcher_step s (mkDrain true (dr_closed s) ClosingReader (dr_loop s) (dr_avail s) (dr_handed s))
  | run_done s failed :
      dr_watcher s = Watching -> dr_loop s = Returned failed ->
      watcher_step s (mkDrain (dr_cancelled s) (dr_closed s) Gone (dr_loop s) (dr_avail s) (dr_handed s))
  | run_close s :
      dr_watcher s = ClosingReader ->
      watcher_step s (mkDrain (dr_cancelled s) true Gone (dr_loop s) (dr_avail s) (dr_handed s)).

Definition run_step (s s' : drain) : Prop := loop_step s s' \/ watcher_step s s'.

(** The steps of the world: a record arrives, the context is cancelled, a read
    of the open reader fails for another reason. *)
Inductive world_step : drain -> drain -> Prop :=
  | world_record s b :
      world_step s (mkDrain (dr_cancelled s) (dr_closed s) (dr_watcher s) (dr_loop s) (dr_avail s ++ [b]) (dr_handed s))
  | world_cancel s :
      world_step s (mkDrain true (dr_closed s) (dr_watcher s) (dr_loop s) (dr_avail s) (dr_handed s))
  | world_read_fails s :
      dr_loop s = Reading -> dr_closed s = false ->
      world_step s (mkDrain (dr_cancelled s) false (dr_watcher s) (Returning (negb (dr_cancelled s))) (dr_avail s) (dr_handed s)).

Definition drain_step (s s' : drain) : Prop := run_step s s' \/ world_step s s'.

(** ** Invariant *)

Record drain_inv (s : drain) : Prop := {
  di_closed : dr_closed s = true -> dr_watcher s = Gone /\ dr_cancelled s = true;
  di_closing : dr_watcher s = ClosingReader -> dr_cancelled s = true;
  di_gone : dr_watcher s = Gone -> dr_closed s = true \/ exists failed, dr_loop s = Returned failed
}.

Lemma drain_inv_start avail : drain_inv (start_drain avail).
Proof. by split. Qed.

Lemma drain_inv_step s s' : drain_inv s -> drain_step s s' -> drain_inv s'.
Proof.
  intros [Hc Hg Hw] [[Hs|Hs]|Hs]; destruct Hs; split; cbn; intros;
    repeat match goal with
    | H : ?P -> _, E : ?P |- _ => specialize (H E)
    | H : _ /\ _ |- _ => destruct H
    | H : _ \/ _ |- _ => destruct H
    | H : exists _, _ |- _ => destruct H
    end; (congruence || eauto 6).
Qed.

Lemma drain_inv_reachable avail s : rtc drain_step (start_drain avail) s -> drain_inv s.
Proof.
  revert s. apply (rtc_ind_r drain_inv); [apply drain_inv_start|]. intros s1 s2 _ Hs Hi. by eapply drain_inv_step.
Qed.

Lemma drain_step_cancelled s s' : drain_step s s' -> dr_cancelled s = true -> dr_cancelled s' = true.
Proof. intros [[Hs|Hs]|Hs]; by destruct Hs. Qed.

(** ** What was handed on, as the reads of [Loader.Run] *)

(** How the reads of a run end, and what [Loader.Run] makes of it. *)
Definition last_reads (l : loop) : list read_result :=
  match l with Reading => [] | Returning failed | Returned failed => [ReadFailed (negb failed)] end.
Definition end_of (l : loop) : run_end :=
  match l with Reading => Draining | Returning failed | Returned failed => if failed then RunFailed else Stopped end.

Lemma Run_samples samples l :
  Run boot ((Sample <$> samples) ++ last_reads l) = ((fun r => Decode r boot) <$> well_formed samples, end_of l).
Proof. rewrite Run_delivers. destruct l as [|[]|[]]; cbn; by rewrite app_nil_r. Qed.

Lemma deliver_well_formed samples b :
  deliver boot b ((fun r => Decode r boot) <$> well_formed samples) = (fun r => Decode r boot) <$> well_formed (samples ++ [b]).
Proof.
  unfold well_formed, deliver. rewrite omap_app, fmap_app. cbn. destruct (parseRecord b); cbn; [done|by rewrite app_nil_r].
Qed.

(** The events handed on come from the records at the front of the buffer. *)
Definition drained (avail : list string) (s : drain) : Prop :=
  exists samples arrived, avail ++ arrived = samples ++ dr_avail s
    /\ dr_handed s = (fun r => Decode r boot) <$> well_formed samples.

Lemma drained_step avail s s' : drained avail s -> drain_step s s' -> drained avail s'.
Proof.
  intros (samples & arrived & Ha & Hh) [[Hs|Hs]|Hs]; destruct Hs; try (by exists samples, arrived).
  - exists (samples ++ [b]), arrived. cbn. rewrite <- app_assoc, Hh, <- deliver_well_formed. split; [|done]. by rewrite Ha, H1.
  - exists samples, (arrived ++ [b]). cbn. by rewrite !app_assoc, Ha.
Qed.

Lemma drained_reachable avail s : rtc drain_step (start_drain avail) s -> drained avail s.
Proof.
  revert s. apply (rtc_ind_r (drained avail)); [by exists [], []; rewrite app_nil_r|].
  intros s1 s2 _ Hs Hi. by eapply drained_step.
Qed.

(** ** Stopping *)

(** How far each goroutine is from its end. *)
Definition watcher_rank (s : drain) : nat := match dr_watcher s with Watching => 2 | ClosingReader => 1 | Gone => 0 end.
Definition loop_rank (s : drain) : nat := match dr_loop s with Reading => 2 | Returning _ => 1 | Returned _ => 0 end.

Lemma watcher_rank_step s s' : drain_step s s' -> (watcher_rank s' <= watcher_rank s)%nat.
Proof. unfold watcher_rank. intros [[Hs|Hs]|Hs]; destruct Hs; cbn;
  repeat match goal with E : dr_watcher _ = _ |- _ => rewrite E end; lia. Qed.
Lemma watcher_rank_own s s' : watcher_step s s' -> (watcher_rank s' < watcher_rank s)%nat.
Proof. unfold watcher_rank. destruct 1 as [? E _|? ? E _|? E]; cbn; rewrite E; lia. Qed.
Lemma watcher_stuck s : dr_cancelled s = true -> (forall s', ~ watcher_step s s') -> watcher_rank s = 0%nat.
Proof.
  intros Hc Hstuck. unfold watcher_rank. destruct (dr_watcher s) eqn:E; [..|done]; exfalso; eapply Hstuck; by constructor.
Qed.

Lemma loop_rank_step s s' : drain_step s s' -> (loop_rank s' <= loop_rank s)%nat.
Proof. unfold loop_rank. intros [[Hs|Hs]|Hs]; destruct Hs; cbn;
  repeat match goal with E : dr_loop _ = _ |- _ => rewrite E end; lia. Qed.

(** Once the watcher is gone, the reader is closed or the loop has returned. *)
Lemma loop_rank_own s s' : drain_inv s -> dr_watcher s = Gone -> loop_step s s' -> (loop_rank s' < loop_rank s)%nat.
Proof.
  intros [_ _ Hw] Hg. specialize (Hw Hg). unfold loop_rank.
  destruct 1 as [? ? ? E Ec _|? E _|? ? E]; cbn; rewrite E; try lia. destruct Hw as [|[]]; congruence.
Qed.
Lemma loop_stuck s : drain_inv s -> dr_watcher s = Gone -> (forall s', ~ loop_step s s') -> loop_rank s = 0%nat.
Proof.
  intros [_ _ Hw] Hg Hstuck. specialize (Hw Hg). unfold loop_rank. destruct (dr_loop s) eqn:E; [..|done]; exfalso.
  - destruct Hw as [Hc|[? ?]]; [|congruence]. eapply Hstuck. by apply run_closed.
  - eapply Hstuck. by eapply run_return.
Qed.

(** Once the context is cancelled no read can become an error. *)
Definition no_error (s : drain) : Prop := forall failed, dr_loop s = Returning failed \/ dr_loop s = Returned failed -> failed = false.

Lemma no_error_step s s' : drain_step s s' -> dr_cancelled s = true -> no_error s -> no_error s'.
Proof.
  intros [[Hs|Hs]|Hs] Hc Hn; destruct Hs; unfold no_error in *; cbn in *; try rewrite Hc in *; intros f Hf;
    try (apply Hn; naive_solver); destruct Hf; simplify_eq; auto.
Qed.
End collect.

(** ** Properties *)

(** C26: cancelling stops the collector, cleanly, however busy the system, and until
    then the goroutines are the loop over the reads.  In every interleaving of the
    loop, the watcher, the kernel and the agent: what the handler was called with
    is what [Loader.Run] returns for the records taken from the front of the
    buffer and the read that ended it.  And take any infinite run in which the two
    goroutines are scheduled fairly: each, as long as it can go on, does so at some
    time.  If the context is cancelled while the loop is reading (no read has
    failed yet), then whatever else happens, records that arrive for ever and reads
    that fail included, [Run] returns without an error and the watcher ends, for
    good, whether or not records are left. *)
Theorem Run_stops_when_cancelled boot avail :
  (forall s, rtc (drain_step boot) (start_drain avail) s ->
   exists samples arrived, avail ++ arrived = samples ++ dr_avail s
     /\ Run boot ((Sample <$> samples) ++ last_reads (dr_loop s)) = (dr_handed s, end_of (dr_loop s)))
  /\ (forall run n,
        run 0%nat = start_drain avail -> execution (drain_step boot) run ->
        weakly_fair watcher_step run -> weakly_fair (loop_step boot) run ->
        dr_cancelled (run n) = true -> dr_loop (run n) = Reading ->
        exists m, (n <= m)%nat /\ forall k, (m <= k)%nat -> dr_loop (run k) = Returned false /\ dr_watcher (run k) = Gone).
Proof.
  split.
  { intros s Hr. destruct (drained_reachable boot avail s Hr) as (samples & arrived & Ha & Hh). exists samples, arrived.
    by rewrite Run_samples, Hh. }
  intros run n Hstart Hrun Hfw Hfl Hc El.
  assert (Hinv : forall m, drain_inv (run m)).
  { intros m. apply (execution_keeps (drain_step boot) run drain_inv 0); [done|intros; by eapply drain_inv_step| |lia].
    rewrite Hstart. apply drain_inv_start. }
  assert (Hcan : forall m, (n <= m)%nat -> dr_cancelled (run m) = true /\ no_error (run m)).
  { apply (execution_keeps (drain_step boot) run (fun s => dr_cancelled s = true /\ no_error s) n); [done| |].
    - intros s s' Hs [Hcs Hn]. split; [by eapply drain_step_cancelled|by eapply no_error_step].
    - split; [done|]. intros f. rewrite El. naive_solver. }
  destruct (fair_progress (drain_step boot) run watcher_step (fun s => dr_cancelled s = true) watcher_rank n) as (m1 & Hm1 & Hgone);
    [done|done|by intros; apply Hcan|intros s s' _; apply watcher_rank_step|intros s s' _; apply watcher_rank_own|apply watcher_stuck|].
  assert (Hg : forall k, (m1 <= k)%nat -> dr_watcher (run k) = Gone).
  { intros k Hk. specialize (Hgone k Hk). unfold watcher_rank in Hgone. by destruct (dr_watcher (run k)). }
  destruct (fair_progress (drain_step boot) run (loop_step boot) (fun s => drain_inv s /\ dr_watcher s = Gone) loop_rank m1)
    as (m2 & Hm2 & Hret); [done|done|by intros; split; [|apply Hg]|intros s s' _; apply loop_rank_step
      |intros s s' [? ?]; by apply loop_rank_own|intros s [? ?]; by apply loop_stuck|].
  exists m2. split; [lia|]. intros k Hk. split; [|apply Hg; lia]. specialize (Hret k Hk). unfold loop_rank in Hret.
  destruct (dr_loop (run k)) as [| |failed] eqn:E; [done..|]. destruct (Hcan k ltac:(lia)) as [_ Hn].
  by rewrite (Hn failed (or_intror E)).
Qed.

(** A collector cancelled with a record in the buffer that it never reads, on a
    system where records go on arriving for ever. *)
Definition busy_run (n : nat) : drain :=
  match n with
  | 0%nat => start_drain ["short"]
  | 1%nat => mkDrain true false Watching Reading ["short"] []
  | 2%nat => mkDrain true false ClosingReader Reading ["short"] []
  | 3%nat => mkDrain true true Gone Reading ["short"] []
  | 4%nat => mkDrain true true Gone (Returning false) ["short"] []
  | S (S (S (S (S k)))) => mkDrain true true Gone (Returned false) ("short" :: replicate k "more") []
  end.

Lemma Run_stops_when_cancelled_witness :
  exists m, (1 <= m)%nat /\ forall k, (m <= k)%nat -> dr_loop (busy_run k) = Returned false /\ dr_watcher (busy_run k) = Gone.
Proof.
  destruct (Run_stops_when_cancelled 0 ["short"]) as [_ H]. apply (H busy_run 1%nat); [done| | | |done|done].
  - intros n. left. destruct n as [|[|[|[|[|k]]]]].
    + right. apply (world_cancel (busy_run 0)).
    + left. right. by apply (run_cancel (busy_run 1)).
    + left. right. by apply (run_close (busy_run 2)).
    + left. left. by apply (run_closed 0 (busy_run 3)).
    + left. left. by apply (run_return 0 (busy_run 4) false).
    + right. cbn [busy_run]. rewrite replicate_S_end. apply (world_record (busy_run (5 + k)) "more").
  - apply (weakly_fair_quiet _ _ 3). intros [|[|[|[|[|k]]]]] s Hm Hs; try lia; by inversion Hs.
  - apply (weakly_fair_quiet _ _ 5). intros [|[|[|[|[|k]]]]] s Hm Hs; try lia; by inversion Hs.
Defined.

(** ** The stub of systems other than Linux *)
Inductive other_error := ErrUnsupported.
Record OtherCollector := mkOtherCollector {}.

Definition other_New : OtherCollector + other_error := inr ErrUnsupported.
Definition other_Run (c : OtherCollector) : option other_error := Some ErrUnsupported.
Definition other_Stats (c : OtherCollector) : Stats * option other_error := (mkStats 0 0, Some ErrUnsupported).
Definition other_Close (c : OtherCollector) : option other_error := None.
