(* ===== verification/Probes.v ===== *)
(** * The kernel probes ([bpf/krnlsentry.bpf.c])

    One definition per helper and per [trace_*] program.  What the kernel
    answers while a program runs (its helpers, the tracepoint's arguments, the
    memory the ring buffer hands out) is a [Hit]; the program's maps and what it
    has submitted are the state [Maps].  A program runs to completion: what
    other processors do in the meantime is in their own counter slots and
    records. *)

From S2P Require Import Prelude GoStrings Events Wire KernelEvent Loader.

(** ** What a program is run on *)

(** One firing of a tracepoint: the processor, the results of the helpers
    ([h_parent_tgid] is the CO-RE read of [real_parent->tgid], [None] when it
    fails; the two reads take the user address and the destination's bytes and
    give the returned code and the destination afterwards; [h_reserve] is the
    memory [bpf_ringbuf_reserve] returns, [None] when the buffer is full), and
    the tracepoint's [args] and [ret]. *)
Record Hit := mkHit {
  h_cpu : nat;
  h_pid_tgid : Z;
  h_uid_gid : Z;
  h_ktime : Z;
  h_comm : string;
  h_parent_tgid : option Z;
  h_args : list Z;
  h_ret : Z;
  h_probe_read_user : Z -> string -> Z * string;
  h_probe_read_user_str : Z -> string -> Z * string;
  h_reserve : option string
}.

(** The maps: the configuration entry's [self_tgid], the counters by slot and
    processor, and the records submitted to the ring buffer, oldest first. *)
Record Maps := mkMaps { config_map : option Z; stats_map : list (list Z); events : list string }.

(** [enum ks_syscall] *)
Definition KS_SYS_EXECVE : Z := 1.
Definition KS_SYS_EXECVEAT : Z := 2.
Definition KS_SYS_OPENAT : Z := 3.
Definition KS_SYS_SETUID : Z := 4.
Definition KS_SYS_SETGID : Z := 5.
Definition KS_SYS_SETRESUID : Z := 6.
Definition KS_SYS_SETRESGID : Z := 7.
Definition KS_SYS_PTRACE : Z := 8.
Definition KS_SYS_SOCKET : Z := 9.
Definition KS_SYS_CONNECT : Z := 10.
Definition KS_SYS_DUP2 : Z := 11.
Definition KS_SYS_DUP3 : Z := 12.
Definition KS_SYS_CAPSET : Z := 13.

(** [enum ks_stat] and the flag, and the address families. *)
Definition KS_STAT_EVENTS : nat := 0.
Definition KS_STAT_DROPPED : nat := 1.
Definition KS_FLAG_SYS_EXIT : Z := Z.shiftl 1 0.
Definition AF_INET : Z := 2.
Definition AF_INET6 : Z := 10.

(** C's conversions to the signed types. *)
Definition s32 (z : Z) : Z := (z + 2 ^ 31) mod 2 ^ 32 - 2 ^ 31.
Definition s64 (z : Z) : Z := i64 z.

(** ** Helpers *)

(** A slot or a processor without an entry is a failed lookup. *)
Definition stat_inc (h : Hit) (slot : nat) (m : Maps) : Maps :=
  mkMaps (config_map m) (alter (alter (fun count => u64 (count + 1)) (h_cpu h)) slot (stats_map m)) (events m).

Definition zero_variable_fields (e : string) : string :=
  let e := put_bytes path (zeros PATH_LEN) e in
  let e := store (offset_of argv0) (zeros (MAX_ARGV * ARG_LEN)) e in
  let e := put_bytes _pad (zeros 3) e in
  let e := put argc 0 e in
  let e := put ret 0 e in
  let e := put arg0 0 e in
  let e := put arg1 0 e in
  let e := put arg2 0 e in
  let e := put daddr 0 e in
  let e := put dport 0 e in
  let e := put family 0 e in
  put flags 0 e.

Definition should_skip (m : Maps) (tgid : Z) : bool :=
  match config_map m with
  | None => false
  | Some self_tgid => negb (self_tgid =? 0) && (self_tgid =? tgid)
  end.

Definition fill_common (h : Hit) (id : Z) (e : string) : string :=
  let e := put timestamp (h_ktime h) e in
  let e := put pid (u32 (h_pid_tgid h)) e in
  let e := put tgid (u32 (Z.shiftr (h_pid_tgid h) 32)) e in
  let e := put uid (u32 (h_uid_gid h)) e in
  let e := put gid (u32 (Z.shiftr (h_uid_gid h) 32)) e in
  let e := put syscall_id id e in
  let e := put_bytes comm (h_comm h) e in
  put ppid (u32 (default 0 (h_parent_tgid h))) e.

(** [None]: the program is to return at once. *)
Definition event_begin (h : Hit) (id : Z) (m : Maps) : option string * Maps :=
  let tgid := u32 (Z.shiftr (h_pid_tgid h) 32) in
  if should_skip m tgid then (None, m)
  else
    match h_reserve h with
    | None => (None, stat_inc h KS_STAT_DROPPED m)
    | Some e => (Some (fill_common h id (zero_variable_fields e)), m)
    end.

Definition event_submit (h : Hit) (e : string) (m : Maps) : Maps :=
  let m := stat_inc h KS_STAT_EVENTS m in
  mkMaps (config_map m) (stats_map m) (events m ++ [e]).

Definition read_user_path (h : Hit) (uptr : Z) (e : string) : string :=
  if uptr =? 0 then e
  else
    let '(n, d) := h_probe_read_user_str h uptr (get path e) in
    let e := put_bytes path d e in
    if n <? 0 then store (offset_of path) (str1 NUL) e else e.

(** The unrolled loop, from the indices left.  [arg] is a local variable that
    starts as [NULL]. *)
Fixpoint read_user_argv_loop (h : Hit) (argv : Z) (todo : list nat) (e : string) : string :=
  match todo with
  | [] => e
  | i :: todo =>
      let '(rc, d) := h_probe_read_user h (u64 (argv + 8 * Z.of_nat i)) (zeros 8) in
      if negb (rc =? 0) then e
      else
        let arg := le 8 d in
        if arg =? 0 then e
        else
          let '(n, d) := h_probe_read_user_str h arg (get (argv_row i) e) in
          let e := put_bytes (argv_row i) d e in
          if n <? 0 then e else read_user_argv_loop h argv todo (put argc (Z.of_nat i + 1) e)
  end.

Definition read_user_argv (h : Hit) (argv_ptr : Z) (e : string) : string :=
  if argv_ptr =? 0 then e else read_user_argv_loop h argv_ptr (seq 0 MAX_ARGV) e.

(** The local structs [hdr], [sin] and [sin6] are initialised to zeros; the port
    is at offset 2 of both, the address at offset 4 of [sin]. *)
Definition read_sockaddr (h : Hit) (uaddr : Z) (e : string) : string :=
  if uaddr =? 0 then e
  else
    let '(rc, hdr) := h_probe_read_user h uaddr (zeros 2) in
    if negb (rc =? 0) then e
    else
      let sa_family := field 0 2 hdr in
      let e := put family sa_family e in
      if sa_family =? AF_INET then
        let '(rc, sin) := h_probe_read_user h uaddr (zeros 8) in
        if negb (rc =? 0) then e
        else
          let e := put daddr (field 4 4 sin) e in
          put dport (field 2 2 sin) e
      else if sa_family =? AF_INET6 then
        let '(rc, sin6) := h_probe_read_user h uaddr (zeros 24) in
        if negb (rc =? 0) then e else put dport (field 2 2 sin6) e
      else e.

(** ** Programs *)

Section programs.
Context (h : Hit).

Definition args (i : nat) : Z := nth i (h_args h) 0.

Definition trace_execve (m : Maps) : Maps :=
  match event_begin h KS_SYS_EXECVE m with
  | (None, m) => m
  | (Some e, m) =>
      let e := read_user_path h (args 0) e in
      let e := read_user_argv h (args 1) e in
      event_submit h e m
  end.

Definition trace_execveat (m : Maps) : Maps :=
  match event_begin h KS_SYS_EXECVEAT m with
  | (None, m) => m
  | (Some e, m) =>
      let e := put arg0 (s64 (args 0)) e in
      let e := put arg1 (s64 (args 4)) e in
      let e := read_user_path h (args 1) e in
      let e := read_user_argv h (args 2) e in
      event_submit h e m
  end.

Definition trace_openat (m : Maps) : Maps :=
  match event_begin h KS_SYS_OPENAT m with
  | (None, m) => m
  | (Some e, m) =>
      let e := put arg0 (s64 (args 0)) e in
      let e := put arg1 (s64 (args 2)) e in
      let e := put arg2 (s64 (args 3)) e in
      let e := read_user_path h (args 1) e in
      event_submit h e m
  end.

Definition trace_setuid (m : Maps) : Maps :=
  match event_begin h KS_SYS_SETUID m with
  | (None, m) => m
  | (Some e, m) => let e := put arg0 (s64 (args 0)) e in event_submit h e m
  end.

Definition trace_setgid (m : Maps) : Maps :=
  match event_begin h KS_SYS_SETGID m with
  | (None, m) => m
  | (Some e, m) => let e := put arg0 (s64 (args 0)) e in event_submit h e m
  end.

Definition trace_setresuid (m : Maps) : Maps :=
  match event_begin h KS_SYS_SETRESUID m with
  | (None, m) => m
  | (Some e, m) =>
      let e := put arg0 (s64 (s32 (args 0))) e in
      let e := put arg1 (s64 (s32 (args 1))) e in
      let e := put arg2 (s64 (s32 (args 2))) e in
      event_submit h e m
  end.

Definition trace_setresgid (m : Maps) : Maps :=
  match event_begin h KS_SYS_SETRESGID m with
  | (None, m) => m
  | (Some e, m) =>
      let e := put arg0 (s64 (s32 (args 0))) e in
      let e := put arg1 (s64 (s32 (args 1))) e in
      let e := put arg2 (s64 (s32 (args 2))) e in
      event_submit h e m
  end.

Definition trace_capset (m : Maps) : Maps :=
  match event_begin h KS_SYS_CAPSET m with
  | (None, m) => m
  | (Some e, m) => event_submit h e m
  end.

Definition trace_ptrace (m : Maps) : Maps :=
  match event_begin h KS_SYS_PTRACE m with
  | (None, m) => m
  | (Some e, m) =>
      let e := put arg0 (s64 (args 0)) e in
      let e := put arg1 (s64 (args 1)) e in
      let e := put arg2 (s64 (args 2)) e in
      event_submit h e m
  end.

Definition trace_socket (m : Maps) : Maps :=
  match event_begin h KS_SYS_SOCKET m with
  | (None, m) => m
  | (Some e, m) =>
      let e := put arg0 (s64 (args 0)) e in
      let e := put arg1 (s64 (args 1)) e in
      let e := put arg2 (s64 (args 2)) e in
      let e := put family (u16 (args 0)) e in
      event_submit h e m
  end.

Definition trace_socket_exit (m : Maps) : Maps :=
  match event_begin h KS_SYS_SOCKET m with
  | (None, m) => m
  | (Some e, m) =>
      let e := put flags (Z.lor (get_int flags e) KS_FLAG_SYS_EXIT) e in
      let e := put ret (h_ret h) e in
      event_submit h e m
  end.

Definition trace_connect (m : Maps) : Maps :=
  match event_begin h KS_SYS_CONNECT m with
  | (None, m) => m
  | (Some e, m) =>
      let e := put arg0 (s64 (args 0)) e in
      let e := put arg1 (s64 (args 2)) e in
      let e := read_sockaddr h (args 1) e in
      event_submit h e m
  end.

Definition trace_connect_exit (m : Maps) : Maps :=
  match event_begin h KS_SYS_CONNECT m with
  | (None, m) => m
  | (Some e, m) =>
      let e := put flags (Z.lor (get_int flags e) KS_FLAG_SYS_EXIT) e in
      let e := put ret (h_ret h) e in
      event_submit h e m
  end.

Definition trace_dup2 (m : Maps) : Maps :=
  match event_begin h KS_SYS_DUP2 m with
  | (None, m) => m
  | (Some e, m) =>
      let e := put arg0 (s64 (args 0)) e in
      let e := put arg1 (s64 (args 1)) e in
      event_submit h e m
  end.

Definition trace_dup3 (m : Maps) : Maps :=
  match event_begin h KS_SYS_DUP3 m with
  | (None, m) => m
  | (Some e, m) =>
      let e := put arg0 (s64 (args 0)) e in
      let e := put arg1 (s64 (args 1)) e in
      let e := put arg2 (s64 (args 2)) e in
      event_submit h e m
  end.

(** Which program the loader attaches to which tracepoint. *)
Definition programs : list (string * (Maps -> Maps)) :=
  [("sys_enter_execve", trace_execve); ("sys_enter_execveat", trace_execveat); ("sys_enter_openat", trace_openat);
   ("sys_enter_setuid", trace_setuid); ("sys_enter_setgid", trace_setgid); ("sys_enter_setresuid", trace_setresuid);
   ("sys_enter_setresgid", trace_setresgid); ("sys_enter_capset", trace_capset); ("sys_enter_ptrace", trace_ptrace);
   ("sys_enter_socket", trace_socket); ("sys_exit_socket", trace_socket_exit); ("sys_enter_connect", trace_connect);
   ("sys_exit_connect", trace_connect_exit); ("sys_enter_dup2", trace_dup2); ("sys_enter_dup3", trace_dup3)].

(** A tracepoint without a program runs nothing. *)
Definition fire (tp : tracepoint) (m : Maps) : Maps :=
  match assoc (tp_name tp) programs with Some trace => trace m | None => m end.
End programs.

(** A sequence of firings, in order. *)
Definition fire_all (hits : list (tracepoint * Hit)) (m : Maps) : Maps := foldl (fun m x => fire (snd x) (fst x) m) m hits.

(** The maps of a freshly loaded object on [cpus] processors, and the agent's
    [writeConfig] of the process id [getpid]. *)
Definition fresh_maps (cpus : nat) : Maps := mkMaps (Some 0) [replicate cpus 0; replicate cpus 0] [].
Definition writeConfig (getpid : Z) (m : Maps) : Maps := mkMaps (Some (u32 getpid)) (stats_map m) (events m).

(** What [Map.Lookup] of the agent's [Stats] reads. *)
Definition lookup_stats (m : Maps) (slot : Z) : option (list Z) := stats_map m !! Z.to_nat slot.
