(* ===== verification/ProbeProps.v ===== *)
(** * What the probes promise

    From the firing of a tracepoint to the event the agent handles: a
    declarative table of what each probe reports, refinement of it by the
    programs through the bytes of the ring buffer, the accounting of lost
    events, and the absence of kernel memory in the records. *)

From S2P Require Import Prelude GoStrings GoText GoTime Syscalls Events Wire KernelEvent Loader Probes.
From S2P Require Import Constants Alerts Tracker Config PrivEsc.

(** ** The kernel's side of the contract *)

(** [s] lies in the process's memory [mem] at [a]. *)
Definition in_memory (mem : Z -> option ascii) (a : Z) (s : string) : Prop :=
  forall i c, String.get i s = Some c -> mem (a + Z.of_nat i) = Some c.

(** What the helpers are documented to do: results within their types, reads
    that fill the destination exactly and, when they report success, with what
    the memory holds; for strings the bytes before the first NUL, cut to leave
    room for one, which is written after them, and the length with it. *)
Record lawful (mem : Z -> option ascii) (h : Hit) : Prop := {
  law_pid_tgid : is_u64 (h_pid_tgid h);
  law_uid_gid : is_u64 (h_uid_gid h);
  law_ktime : is_u64 (h_ktime h);
  law_args : Forall is_u64 (h_args h);
  law_ret : is_i64 (h_ret h);
  law_comm : String.length (h_comm h) = COMM_LEN;
  law_reserve e : h_reserve h = Some e -> block e;
  law_read_size a dst : String.length (snd (h_probe_read_user h a dst)) = String.length dst;
  law_str_size a dst : String.length (snd (h_probe_read_user_str h a dst)) = String.length dst;
  law_read a dst d : h_probe_read_user h a dst = (0, d) -> in_memory mem a d;
  law_str a dst n d : h_probe_read_user_str h a dst = (n, d) -> 0 <= n ->
    exists s, n = slen s + 1 /\ n <= slen dst /\ no_byte NUL s /\ in_memory mem a s
      /\ (n < slen dst -> mem (a + slen s) = Some NUL) /\ d = s +:+ str1 NUL +:+ sdrop (S (String.length s)) dst
}.

(** ** Specification: what a probe reports *)

(** A C string of the process, as far as it fits. *)
Definition user_string (h : Hit) (size : nat) (p : Z) : string :=
  if p =? 0 then ""
  else let '(n, d) := h_probe_read_user_str h p (zeros size) in if n <? 0 then "" else goString d.

(** The argument vector from index [i], [n] entries at most, up to the first
    that cannot be read or is null. *)
Fixpoint user_argv_from (h : Hit) (argv : Z) (i n : nat) : list string :=
  match n with
  | O => []
  | S n =>
      let '(rc, d) := h_probe_read_user h (u64 (argv + 8 * Z.of_nat i)) (zeros 8) in
      if negb (rc =? 0) || (le 8 d =? 0) then []
      else
        let '(k, s) := h_probe_read_user_str h (le 8 d) (zeros ARG_LEN) in
        if k <? 0 then [] else goString s :: user_argv_from h argv (S i) n
  end.
Definition user_argv (h : Hit) (argv : Z) : list string := if argv =? 0 then [] else user_argv_from h argv 0 MAX_ARGV.

(** Family, address and port of a socket address. *)
Definition user_sockaddr (h : Hit) (p : Z) : Z * Z * Z :=
  if p =? 0 then (0, 0, 0)
  else
    let '(rc, hdr) := h_probe_read_user h p (zeros 2) in
    if negb (rc =? 0) then (0, 0, 0)
    else
      let fam := field 0 2 hdr in
      let '(rc, sa) := h_probe_read_user h p (zeros (if fam =? AF_INET then 8 else 24)) in
      if negb (rc =? 0) then (fam, 0, 0)
      else if fam =? AF_INET then (fam, field 4 4 sa, field 2 2 sa)
      else if fam =? AF_INET6 then (fam, 0, field 2 2 sa)
      else (fam, 0, 0).

(** Where an argument slot comes from: a register, all of it or its low half
    sign extended. *)
Inductive source := Zero | Reg (i : nat) | Reg32 (i : nat).

Definition source_value (h : Hit) (s : source) : Z :=
  match s with Zero => 0 | Reg i => s64 (args h i) | Reg32 i => s32 (args h i) end.

Inductive net_source := NoNet | FamilyReg (i : nat) | Sockaddr (i : nat).

Definition net_value (h : Hit) (s : net_source) : Z * Z * Z :=
  match s with NoNet => (0, 0, 0) | FamilyReg i => (u16 (args h i), 0, 0) | Sockaddr i => user_sockaddr h (args h i) end.

(** One line per probe: the system call, the three argument slots, the
    registers that point at a path and at an argument vector, the network part;
    exit probes report the result instead. *)
Record report := mkReport {
  rp_syscall : Z;
  rp_args : source * source * source;
  rp_path : option nat;
  rp_argv : option nat;
  rp_net : net_source;
  rp_exit : bool
}.

Definition reports : list (string * report) :=
  [("sys_enter_execve", mkReport SysExecve (Zero, Zero, Zero) (Some 0%nat) (Some 1%nat) NoNet false);
   ("sys_enter_execveat", mkReport SysExecveat (Reg 0, Reg 4, Zero) (Some 1%nat) (Some 2%nat) NoNet false);
   ("sys_enter_openat", mkReport SysOpenat (Reg 0, Reg 2, Reg 3) (Some 1%nat) None NoNet false);
   ("sys_enter_setuid", mkReport SysSetuid (Reg 0, Zero, Zero) None None NoNet false);
   ("sys_enter_setgid", mkReport SysSetgid (Reg 0, Zero, Zero) None None NoNet false);
   ("sys_enter_setresuid", mkReport SysSetresuid (Reg32 0, Reg32 1, Reg32 2) None None NoNet false);
   ("sys_enter_setresgid", mkReport SysSetresgid (Reg32 0, Reg32 1, Reg32 2) None None NoNet false);
   ("sys_enter_capset", mkReport SysCapset (Zero, Zero, Zero) None None NoNet false);
   ("sys_enter_ptrace", mkReport SysPtrace (Reg 0, Reg 1, Reg 2) None None NoNet false);
   ("sys_enter_socket", mkReport SysSocket (Reg 0, Reg 1, Reg 2) None None (FamilyReg 0) false);
   ("sys_exit_socket", mkReport SysSocket (Zero, Zero, Zero) None None NoNet true);
   ("sys_enter_connect", mkReport SysConnect (Reg 0, Reg 2, Zero) None None (Sockaddr 1) false);
   ("sys_exit_connect", mkReport SysConnect (Zero, Zero, Zero) None None NoNet true);
   ("sys_enter_dup2", mkReport SysDup2 (Reg 0, Reg 1, Zero) None None NoNet false);
   ("sys_enter_dup3", mkReport SysDup3 (Reg 0, Reg 1, Reg 2) None None NoNet false)].

Definition report_raw (h : Hit) (r : report) : Raw :=
  let '(s0, s1, s2) := rp_args r in
  let '(fam, addr, port) := net_value h (rp_net r) in
  mkRaw (h_ktime h) (u32 (h_pid_tgid h)) (u32 (Z.shiftr (h_pid_tgid h) 32)) (u32 (h_uid_gid h))
    (u32 (Z.shiftr (h_uid_gid h) 32)) (u32 (default 0 (h_parent_tgid h))) (rp_syscall r)
    (if rp_exit r then h_ret h else 0) (source_value h s0) (source_value h s1) (source_value h s2)
    addr port fam (if rp_exit r then FlagSysExit else 0) (goString (h_comm h))
    (from_option (fun i => user_string h PATH_LEN (args h i)) "" (rp_path r))
    (from_option (fun i => user_argv h (args h i)) [] (rp_argv r)).

(** Which firings make a record: not the agent's own, of a tracepoint that has a
    program, when the buffer has room; and what the agent reads of one. *)
Definition is_self (self : option Z) (h : Hit) : bool :=
  match self with Some self => negb (self =? 0) && (self =? u32 (Z.shiftr (h_pid_tgid h) 32)) | None => false end.

Definition observe_hit (self : option Z) (x : tracepoint * Hit) : option Raw :=
  r ← assoc (tp_name (fst x)) reports;
  if is_self self (snd x) then None
  else match h_reserve (snd x) with Some _ => Some (report_raw (snd x) r) | None => None end.

(** The ones lost because the buffer was full. *)
Definition lost (self : option Z) (x : tracepoint * Hit) : bool :=
  match assoc (tp_name (fst x)) reports with
  | Some _ => negb (is_self self (snd x)) && match h_reserve (snd x) with Some _ => false | None => true end
  | None => false
  end.

(** ** Lemmas: the block a program starts from *)

#[export] Hint Resolve put_block put_bytes_block zeros_length : krnl.

(** A store inside one member leaves the others. *)
Lemma get_store_within m m' off bs e :
  block e -> m <> m' -> (offset_of m' <= off)%nat -> (off + String.length bs <= offset_of m' + size_of m')%nat ->
  get m (store off bs e) = get m e.
Proof.
  unfold block, get. intros He Hm H1 H2. pose proof (member_in_block m').
  destruct (members_apart m m' Hm); [apply chars_store_before|apply chars_store_after]; lia.
Qed.

Definition is_argv (m : member) : bool := match m with argv0 | argv1 | argv2 => true | _ => false end.

Lemma get_memset_argv m e :
  block e ->
  get m (store (offset_of argv0) (zeros (MAX_ARGV * ARG_LEN)) e) = if is_argv m then zeros ARG_LEN else get m e.
Proof.
  unfold block, get. intros He. assert (Hl : String.length (zeros (MAX_ARGV * ARG_LEN)) = 192%nat) by done.
  destruct (is_argv m) eqn:Hm.
  - rewrite chars_store_inside by (rewrite ?Hl; destruct m; cbn; (done || unfold ARG_LEN; lia)).
    by destruct m.
  - rewrite chars_store_before; [done|rewrite Hl; cbn; lia|]. destruct m; (done || cbn; unfold COMM_LEN, PATH_LEN; lia).
Qed.

Lemma memset_argv_block e : block e -> block (store (offset_of argv0) (zeros (MAX_ARGV * ARG_LEN)) e).
Proof. unfold block. intros He. rewrite store_length, He; [done|]. rewrite He. by apply Nat.leb_le. Qed.
#[export] Hint Resolve memset_argv_block : krnl.

Section begun.
Context (mem : Z -> option ascii) (h : Hit) (L : lawful mem h).

Definition begun (id : Z) (e : string) : string := fill_common h id (zero_variable_fields e).

Lemma zero_block e : block e -> block (zero_variable_fields e).
Proof. intros. unfold zero_variable_fields. eauto 20 with krnl. Qed.

Lemma begun_block id e : block e -> block (begun id e).
Proof.
  intros He. pose proof (law_comm _ _ L). unfold begun, fill_common. apply put_block, put_bytes_block; [|done].
  eauto 20 using zero_block with krnl.
Qed.

(** The members of that block: none of them depends on what was there before. *)
Definition begun_member (id : Z) (m : member) : string :=
  match m with
  | timestamp => to_le 8 (h_ktime h)
  | pid => to_le 4 (u32 (h_pid_tgid h))
  | tgid => to_le 4 (u32 (Z.shiftr (h_pid_tgid h) 32))
  | uid => to_le 4 (u32 (h_uid_gid h))
  | gid => to_le 4 (u32 (Z.shiftr (h_uid_gid h) 32))
  | ppid => to_le 4 (u32 (default 0 (h_parent_tgid h)))
  | syscall_id => to_le 4 id
  | comm => h_comm h
  | m => zeros (size_of m)
  end.

Lemma get_zeroed e m :
  block e -> m ∉ [timestamp; pid; tgid; uid; gid; ppid; syscall_id; comm] ->
  get m (zero_variable_fields e) = zeros (size_of m).
Proof.
  intros He Hm. unfold zero_variable_fields.
  repeat (rewrite get_put by eauto 20 with krnl; case_decide; [by subst|]).
  rewrite get_put_bytes by eauto 20 with krnl. case_decide; [by subst|].
  rewrite get_memset_argv by eauto 20 with krnl. destruct (is_argv m) eqn:Ha; [by destruct m|].
  rewrite get_put_bytes by eauto 20 with krnl. case_decide; [by subst|]. destruct m; set_solver.
Qed.

Lemma get_begun id e m : block e -> get m (begun id e) = begun_member id m.
Proof.
  intros He. pose proof (law_comm _ _ L) as Hc. pose proof (zero_block e He) as Hz. unfold begun, fill_common.
  assert (Hp : forall m' z e', block e' -> get m (put m' z e') = if decide (m = m') then to_le (size_of m') z else get m e')
    by (intros; by apply get_put).
  rewrite Hp by (apply put_bytes_block; [eauto 20 with krnl|done]). case_decide; [by subst|].
  rewrite get_put_bytes by first [done|eauto 20 with krnl]. case_decide; [by subst|].
  do 6 (rewrite Hp by eauto 20 with krnl; case_decide; [by subst|]).
  rewrite get_zeroed; [by destruct m|done|set_solver].
Qed.
End begun.

(** ** Lemmas: what the agent reads of a block *)

Definition raw_of (e : string) : Raw :=
  mkRaw (get_int timestamp e) (get_int pid e) (get_int tgid e) (get_int uid e) (get_int gid e) (get_int ppid e)
    (get_int syscall_id e) (i64 (get_int ret e)) (i64 (get_int arg0 e)) (i64 (get_int arg1 e)) (i64 (get_int arg2 e))
    (get_int daddr e) (get_int dport e) (get_int family e) (get_int flags e) (goString (get comm e))
    (goString (get path e)) (take (Z.to_nat (get_int argc e)) (goString <$> [get argv0 e; get argv1 e; get argv2 e])).

Lemma get_int_range m e : 0 <= get_int m e < 256 ^ Z.of_nat (size_of m).
Proof. apply le_range. Qed.

Lemma parse_block e : block e -> parseRecord e = inl (raw_of e).
Proof.
  unfold block. intros He. rewrite parseRecord_long by (unfold slen; by rewrite He).
  rewrite cast_members. cbn [e_Argv e_Argc e_Timestamp e_Pid e_Tgid e_Uid e_Gid e_Ppid e_SyscallId e_Ret e_Arg0 e_Arg1
    e_Arg2 e_Daddr e_Dport e_Family e_Flags e_Comm e_Path]. unfold raw_of. by rewrite fmap_take.
Qed.

(** Closed membership in a list of members. *)
Ltac outside := apply (bool_decide_unpack _); vm_compute; exact I.

(** Reads integer members back through the stores before. *)
Ltac put_simpl :=
  repeat (rewrite get_int_put by eauto with krnl; first [rewrite decide_True by done | rewrite decide_False by done]).

(** ** Lemmas: the reads of user memory *)

Section reads.
Context (mem : Z -> option ascii) (h : Hit) (L : lawful mem h).

Lemma goString_NUL s : goString (String NUL s) = "".
Proof. done. Qed.

Lemma goString_zeros n : goString (zeros n) = "".
Proof. by destruct n. Qed.

Lemma str_size a dst n d : h_probe_read_user_str h a dst = (n, d) -> String.length d = String.length dst.
Proof. intros E. pose proof (law_str_size _ _ L a dst) as Hs. by rewrite E in Hs. Qed.

Lemma read_user_path_block uptr e : block e -> block (read_user_path h uptr e).
Proof.
  intros He. unfold read_user_path. destruct (uptr =? 0); [done|].
  destruct (h_probe_read_user_str h uptr (get path e)) as [n d] eqn:E.
  apply str_size in E. rewrite get_length in E by done.
  pose proof (put_bytes_block path d e He E) as Hb. destruct (n <? 0); [|done].
  unfold block. rewrite store_length; rewrite Hb; [done|]. cbn. lia.
Qed.

Lemma read_user_path_get uptr e m : block e -> m <> path -> get m (read_user_path h uptr e) = get m e.
Proof.
  intros He Hm. unfold read_user_path. destruct (uptr =? 0); [done|].
  destruct (h_probe_read_user_str h uptr (get path e)) as [n d] eqn:E.
  apply str_size in E. rewrite get_length in E by done.
  pose proof (put_bytes_block path d e He E) as Hb.
  assert (Hd : get m (put_bytes path d e) = get m e) by (by rewrite get_put_bytes, decide_False).
  destruct (n <? 0); [|done]. rewrite (get_store_within m path); [done..|cbn; unfold PATH_LEN; lia].
Qed.

Lemma read_user_path_spec uptr e :
  block e -> get path e = zeros PATH_LEN -> goString (get path (read_user_path h uptr e)) = user_string h PATH_LEN uptr.
Proof.
  intros He Hp. unfold read_user_path, user_string. destruct (uptr =? 0); [by rewrite Hp, goString_zeros|]. rewrite Hp.
  destruct (h_probe_read_user_str h uptr (zeros PATH_LEN)) as [n d] eqn:E. apply str_size in E. rewrite zeros_length in E.
  pose proof (put_bytes_block path d e He E) as Hb. destruct (n <? 0); [|by rewrite get_put_bytes, decide_True].
  unfold get. change (size_of path) with (1 + 255)%nat. rewrite chars_split, chars_store_inside; [done| |lia|cbn; lia].
  rewrite Hb. cbn. lia.
Qed.

Lemma read_sockaddr_block p e : block e -> block (read_sockaddr h p e).
Proof.
  intros He. unfold read_sockaddr. repeat case_match; eauto with krnl.
Qed.

Lemma read_sockaddr_get p e m :
  block e -> m ∉ [family; daddr; dport] -> get m (read_sockaddr h p e) = get m e.
Proof.
  intros He Hm. unfold read_sockaddr. repeat case_match; try done.
  all: rewrite !get_put by eauto with krnl; repeat (case_decide; [set_solver|]); done.
Qed.

Lemma field_wrap off n b : field off n b mod 256 ^ Z.of_nat n = field off n b.
Proof. apply Z.mod_small, le_range. Qed.

Lemma read_sockaddr_spec p e :
  block e -> get_int family e = 0 -> get_int daddr e = 0 -> get_int dport e = 0 ->
  let e' := read_sockaddr h p e in (get_int family e', get_int daddr e', get_int dport e') = user_sockaddr h p.
Proof.
  intros He Hf Ha Hp. unfold read_sockaddr, user_sockaddr. cbn zeta. destruct (p =? 0); [by rewrite Hf, Ha, Hp|].
  destruct (h_probe_read_user h p (zeros 2)) as [rc hdr]. destruct (negb (rc =? 0)); [by rewrite Hf, Ha, Hp|].
  set (fam := field 0 2 hdr). unfold AF_INET, AF_INET6.
  assert (Hfam : fam mod 256 ^ Z.of_nat 2 = fam) by apply field_wrap.
  destruct (fam =? 2) eqn:E2; [|destruct (fam =? 10) eqn:E10].
  - destruct (h_probe_read_user h p (zeros 8)) as [rc' sa]. destruct (negb (rc' =? 0)); put_simpl; cbn [size_of].
    + by rewrite Hfam, Ha, Hp.
    + by rewrite Hfam, (field_wrap 4 4), (field_wrap 2 2).
  - destruct (h_probe_read_user h p (zeros 24)) as [rc' sa]. destruct (negb (rc' =? 0)); put_simpl; cbn [size_of].
    + by rewrite Hfam, Ha, Hp.
    + by rewrite Hfam, Ha, (field_wrap 2 2).
  - put_simpl; cbn [size_of]. rewrite Hfam, Ha, Hp. destruct (h_probe_read_user _ _ _). by case_match.
Qed.
End reads.

(** ** Lemmas: the argument vector *)

Lemma argv_row_inj i j : (i < 3)%nat -> (j < 3)%nat -> argv_row i = argv_row j -> i = j.
Proof. intros Hi Hj. destruct i as [|[|[|]]], j as [|[|[|]]]; cbn; (done || lia). Qed.

Lemma argv_row_size i : size_of (argv_row i) = ARG_LEN.
Proof. by destruct i as [|[|]]. Qed.

Lemma is_argv_row i : is_argv (argv_row i) = true.
Proof. by destruct i as [|[|]]. Qed.

Lemma user_argv_from_length h p i n : (length (user_argv_from h p i n) <= n)%nat.
Proof.
  revert i. induction n as [|n IH]; intros i; cbn; [lia|]. pose proof (IH (S i)). repeat case_match; cbn; lia.
Qed.

(** The rows from [i] on, read as strings. *)
Definition argv_strings (i n : nat) (e : string) : list string :=
  (fun j => goString (get (argv_row j) e)) <$> seq i n.

Section argv.
Context (mem : Z -> option ascii) (h : Hit) (L : lawful mem h).

(** One round of the loop: row [i] takes the string, [argc] counts it. *)
Definition argv_row_written (i : nat) (d e : string) : string := put argc (Z.of_nat i + 1) (put_bytes (argv_row i) d e).

Lemma argv_row_written_spec i d e :
  block e -> (i < 3)%nat -> String.length d = ARG_LEN ->
  let e' := argv_row_written i d e in
  block e' /\ get_int argc e' = Z.of_nat (S i) /\ get (argv_row i) e' = d
  /\ forall m, m <> argc -> m <> argv_row i -> get m e' = get m e.
Proof.
  intros He Hi Hd. unfold argv_row_written. rewrite <- (argv_row_size i) in Hd. cbn zeta.
  pose proof (put_bytes_block _ _ _ He Hd) as Hb.
  assert (Ha : argv_row i <> argc) by (destruct i as [|[|]]; done).
  split_and!; [by apply put_block| | |].
  - rewrite get_int_put, decide_True by done. change (256 ^ Z.of_nat (size_of argc)) with 256. rewrite Z.mod_small; lia.
  - by rewrite get_put, decide_False, get_put_bytes, decide_True.
  - intros m Hm1 Hm2. by rewrite get_put, decide_False, get_put_bytes, decide_False.
Qed.

Lemma read_user_argv_loop_spec p n i e :
  block e -> (i + n = 3)%nat -> get_int argc e = Z.of_nat i ->
  (forall j, (i <= j < 3)%nat -> get (argv_row j) e = zeros ARG_LEN) ->
  let e' := read_user_argv_loop h p (seq i n) e in
  let l := user_argv_from h p i n in
  block e' /\ get_int argc e' = Z.of_nat (i + length l) /\ argv_strings i (length l) e' = l
  /\ forall m, m <> argc -> (forall j, (i <= j < 3)%nat -> m <> argv_row j) -> get m e' = get m e.
Proof.
  revert i e. induction n as [|n IH]; intros i e He Hi Hc Hz; cbn [seq read_user_argv_loop user_argv_from].
  { cbn [length]. rewrite Nat.add_0_r. by split_and!. }
  destruct (h_probe_read_user h (u64 (p + 8 * Z.of_nat i)) (zeros 8)) as [rc d].
  destruct (negb (rc =? 0)); cbn [orb]; [cbn [length]; rewrite Nat.add_0_r; by split_and!|].
  destruct (le 8 d =? 0); [cbn [length]; rewrite Nat.add_0_r; by split_and!|].
  rewrite Hz by lia. destruct (h_probe_read_user_str h (le 8 d) (zeros ARG_LEN)) as [k s] eqn:E.
  apply (str_size mem h L) in E. rewrite zeros_length in E.
  assert (Hrow : String.length s = size_of (argv_row i)) by (by rewrite argv_row_size).
  destruct (k <? 0).
  { cbn [length]. rewrite Nat.add_0_r. split_and!; [by apply put_bytes_block| |done|].
    - rewrite get_int_put_bytes; [done..|]. by destruct i as [|[|]].
    - intros m _ Hm. rewrite get_put_bytes, decide_False; [done|apply Hm; lia|done..]. }
  fold (argv_row_written i s e).
  destruct (argv_row_written_spec i s e He ltac:(lia) E) as (Hb & Hc' & Hr & Hother).
  destruct (IH (S i) (argv_row_written i s e)) as (IHb & IHc & IHs & IHo); [done|lia|done| |].
  { intros j Hj. rewrite Hother; [apply Hz; lia|by destruct j as [|[|]]|]. intros Heq%argv_row_inj; lia. }
  split_and!; [done|rewrite IHc; cbn [length]; f_equal; lia| |].
  - cbn [length]. unfold argv_strings in *. cbn [seq fmap list_fmap]. rewrite IHs. f_equal.
    rewrite IHo; [by rewrite Hr|by destruct i as [|[|]]|]. intros j Hj Heq%argv_row_inj; lia.
  - intros m Hm1 Hm2. rewrite IHo; [|done|intros j Hj; apply Hm2; lia]. apply Hother; [done|apply Hm2; lia].
Qed.

Lemma take_argv_strings n e :
  (n <= 3)%nat -> take n (goString <$> [get argv0 e; get argv1 e; get argv2 e]) = argv_strings 0 n e.
Proof. intros Hn. destruct n as [|[|[|[|]]]]; (done || lia). Qed.

Lemma read_user_argv_spec p e :
  block e -> get_int argc e = 0 -> (forall m, is_argv m = true -> get m e = zeros ARG_LEN) ->
  let e' := read_user_argv h p e in
  block e' /\ (forall m, m <> argc -> is_argv m = false -> get m e' = get m e)
  /\ take (Z.to_nat (get_int argc e')) (goString <$> [get argv0 e'; get argv1 e'; get argv2 e']) = user_argv h p.
Proof.
  intros He Hc Hz. unfold read_user_argv, user_argv. cbn zeta. destruct (p =? 0); [by rewrite Hc|].
  destruct (read_user_argv_loop_spec p 3 0 e) as (Hb & Ha & Hs & Ho); [done..|intros; apply Hz, is_argv_row|].
  pose proof (user_argv_from_length h p 0 3) as Hl. unfold MAX_ARGV.
  split_and!; [done| |].
  - intros m Hm1 Hm2. apply Ho; [done|]. intros j _ ->. by rewrite is_argv_row in Hm2.
  - by rewrite Ha, Nat2Z.id, Nat.add_0_l, take_argv_strings, Hs.
Qed.
End argv.

(** ** Lemmas: the programs are the table

    What a program does between [event_begin] and [event_submit], read off its
    line of the table. *)

Definition put_source (h : Hit) (slot : member) (s : source) (e : string) : string :=
  match s with Zero => e | Reg i => put slot (s64 (args h i)) e | Reg32 i => put slot (s64 (s32 (args h i))) e end.

Definition put_exit (h : Hit) (exit : bool) (e : string) : string :=
  if exit then put ret (h_ret h) (put flags (Z.lor (get_int flags e) KS_FLAG_SYS_EXIT) e) else e.

Definition put_net (h : Hit) (s : net_source) (e : string) : string :=
  match s with NoNet => e | FamilyReg i => put family (u16 (args h i)) e | Sockaddr i => read_sockaddr h (args h i) e end.

Definition body (h : Hit) (r : report) (e : string) : string :=
  let '(s0, s1, s2) := rp_args r in
  let e := put_exit h (rp_exit r) e in
  let e := put_source h arg2 s2 (put_source h arg1 s1 (put_source h arg0 s0 e)) in
  let e := from_option (fun i => read_user_path h (args h i)) id (rp_path r) e in
  let e := from_option (fun i => read_user_argv h (args h i)) id (rp_argv r) e in
  put_net h (rp_net r) e.

Lemma fire_body h tp m :
  fire h tp m =
  match assoc (tp_name tp) reports with
  | None => m
  | Some r =>
      match event_begin h (rp_syscall r) m with (None, m) => m | (Some e, m) => event_submit h (body h r e) m end
  end.
Proof.
  unfold fire, programs, reports. cbn [assoc]. repeat (case_decide; [reflexivity|]). reflexivity.
Qed.

Section body.
Context (mem : Z -> option ascii) (h : Hit) (L : lawful mem h).

Lemma s32_s64 z : s64 (s32 z) = s32 z.
Proof.
  apply i64_small. unfold is_i64, s32. pose proof (Z.mod_pos_bound (z + 2 ^ 31) (2 ^ 32) ltac:(lia)). lia.
Qed.

(** A 64-bit member read back as a signed integer. *)
Lemma put_s64 m z e : block e -> size_of m = 8%nat -> is_i64 z -> i64 (get_int m (put m z e)) = z.
Proof. intros He Hm Hz. rewrite get_int_put, decide_True, Hm by done. by apply i64_wrap. Qed.

Lemma put_source_spec slot s e :
  block e -> size_of slot = 8%nat -> get_int slot e = 0 ->
  let e' := put_source h slot s e in
  block e' /\ i64 (get_int slot e') = source_value h s /\ forall m, m ∉ [slot] -> get m e' = get m e.
Proof.
  intros He Hs H0.
  assert (Hput : forall z, is_i64 z ->
    block (put slot z e) /\ i64 (get_int slot (put slot z e)) = z /\ forall m, m ∉ [slot] -> get m (put slot z e) = get m e).
  { intros z Hz. split_and!; [by apply put_block|by apply put_s64|]. intros m Hm. rewrite get_put, decide_False; [done|set_solver|done]. }
  destruct s as [|i|i]; cbn [put_source source_value]; [by rewrite H0| |].
  - apply Hput, i64_range.
  - rewrite <- (s32_s64 (args h i)) at 3. apply Hput, i64_range.
Qed.

Lemma put_exit_spec exit e :
  block e -> get_int flags e = 0 -> get_int ret e = 0 ->
  let e' := put_exit h exit e in
  block e' /\ get_int flags e' = (if exit then FlagSysExit else 0) /\ i64 (get_int ret e') = (if exit then h_ret h else 0)
  /\ forall m, m ∉ [flags; ret] -> get m e' = get m e.
Proof.
  intros He Hf Hr. destruct exit; cbn [put_exit]; [|by rewrite Hr]. rewrite Hf.
  split_and!; [by apply put_block, put_block| | |].
  - by put_simpl.
  - apply put_s64; [by apply put_block|done|apply L].
  - intros m Hm. rewrite !get_put, !decide_False; [done|set_solver|set_solver|done|by apply put_block].
Qed.

Lemma put_net_spec s e :
  block e -> get_int family e = 0 -> get_int daddr e = 0 -> get_int dport e = 0 ->
  let e' := put_net h s e in
  block e' /\ (get_int family e', get_int daddr e', get_int dport e') = net_value h s
  /\ forall m, m ∉ [family; daddr; dport] -> get m e' = get m e.
Proof.
  intros He Hf Ha Hp. destruct s as [|i|i]; cbn [put_net net_value]; [by rewrite Hf, Ha, Hp| |].
  - split_and!; [by apply put_block| |].
    + put_simpl. rewrite Ha, Hp. do 2 f_equal. apply Zmod_mod.
    + intros m Hm. rewrite get_put, decide_False; [done|set_solver|done].
  - split_and!; [by eapply read_sockaddr_block|by eapply read_sockaddr_spec|intros; by eapply read_sockaddr_get].
Qed.

Lemma put_path_spec p e :
  block e -> get path e = zeros PATH_LEN ->
  let e' := from_option (fun i => read_user_path h (args h i)) id p e in
  block e' /\ goString (get path e') = from_option (fun i => user_string h PATH_LEN (args h i)) "" p
  /\ forall m, m ∉ [path] -> get m e' = get m e.
Proof.
  intros He Hp. destruct p as [i|]; cbn [from_option]; [|unfold id; by rewrite Hp, goString_zeros].
  split_and!; [by eapply read_user_path_block|by eapply read_user_path_spec|].
  intros m Hm. eapply read_user_path_get; [done..|set_solver].
Qed.

Lemma put_argv_spec p e :
  block e -> get_int argc e = 0 -> (forall m, is_argv m = true -> get m e = zeros ARG_LEN) ->
  let e' := from_option (fun i => read_user_argv h (args h i)) id p e in
  block e'
  /\ take (Z.to_nat (get_int argc e')) (goString <$> [get argv0 e'; get argv1 e'; get argv2 e'])
     = from_option (fun i => user_argv h (args h i)) [] p
  /\ forall m, m ∉ [argc; argv0; argv1; argv2] -> get m e' = get m e.
Proof.
  intros He Hc Hz. destruct p as [i|]; cbn [from_option]; [|unfold id; by rewrite Hc].
  destruct (read_user_argv_spec mem h L (args h i) e He Hc Hz) as (Hb & Ho & Ht). split_and!; [done..|].
  intros m Hm. apply Ho; [set_solver|destruct m; set_solver].
Qed.
End body.

(** ** Lemmas: from the table to what the agent reads *)

Section whole.
Context (mem : Z -> option ascii) (h : Hit) (L : lawful mem h).

Lemma get_int_frame m e e' : get m e' = get m e -> get_int m e' = get_int m e.
Proof. unfold get_int. by intros ->. Qed.

(** The integer members of the block a program starts from. *)
Lemma begun_zero m id e :
  block e -> m ∉ [timestamp; pid; tgid; uid; gid; ppid; syscall_id; comm] -> get_int m (begun h id e) = 0.
Proof.
  intros He Hm. unfold get_int. rewrite (get_begun mem h L) by done.
  destruct m; reflexivity || (exfalso; apply Hm; outside).
Qed.

Lemma begun_int m z id e :
  block e -> begun_member h id m = to_le (size_of m) z -> 0 <= z < 256 ^ Z.of_nat (size_of m) ->
  get_int m (begun h id e) = z.
Proof.
  intros He Hm Hz. unfold get_int. rewrite (get_begun mem h L), Hm by done.
  rewrite <- (sapp_nil_r (to_le _ _)), le_to_le. by apply Z.mod_small.
Qed.

Lemma u32_range z : 0 <= u32 z < 256 ^ Z.of_nat 4.
Proof. by apply Z.mod_pos_bound. Qed.

(** Carries a member back through the stages that leave it alone. *)
Ltac chase :=
  repeat match goal with
  | H : forall m, m ∉ _ -> get m ?e = get m _ |- context [get_int ?m ?e] =>
      rewrite (get_int_frame m _ _ (H m ltac:(outside)))
  | H : forall m, m ∉ _ -> get m ?e = get m _ |- context [get ?m ?e] =>
      rewrite (H m ltac:(outside))
  end.

Lemma body_spec r e :
  block e -> is_u32 (rp_syscall r) ->
  let e' := body h r (begun h (rp_syscall r) e) in block e' /\ raw_of e' = report_raw h r.
Proof.
  intros He Hid. unfold body, report_raw. destruct (rp_args r) as [[s0 s1] s2]. destruct (net_value h (rp_net r)) as [[fam addr] port] eqn:En.
  cbn zeta. pose proof (begun_block mem h L (rp_syscall r) e He) as B0.
  assert (Z0 : forall m, m ∉ [timestamp; pid; tgid; uid; gid; ppid; syscall_id; comm] -> get_int m (begun h (rp_syscall r) e) = 0)
    by (intros; by apply begun_zero).
  pose proof (fun m => get_begun mem h L (rp_syscall r) e m He) as G0.
  pose proof (fun m z => begun_int m z (rp_syscall r) e He) as I0.
  set (e0 := begun _ _ _) in *. clearbody e0.
  destruct (put_exit_spec mem h L (rp_exit r) e0 B0) as (B1 & V1 & W1 & F1); [apply Z0; outside..|].
  set (e1 := put_exit _ _ _) in *. clearbody e1.
  destruct (put_source_spec mem h L arg0 s0 e1 B1) as (B2 & V2 & F2); [done|chase; apply Z0; outside|].
  set (e2 := put_source _ _ _ _) in *. clearbody e2.
  destruct (put_source_spec mem h L arg1 s1 e2 B2) as (B3 & V3 & F3); [done|chase; apply Z0; outside|].
  set (e3 := put_source _ _ _ _) in *. clearbody e3.
  destruct (put_source_spec mem h L arg2 s2 e3 B3) as (B4 & V4 & F4); [done|chase; apply Z0; outside|].
  set (e4 := put_source _ _ _ _) in *. clearbody e4.
  destruct (put_path_spec mem h L (rp_path r) e4 B4) as (B5 & V5 & F5); [chase; apply G0|].
  set (e5 := from_option _ id (rp_path r) _) in *. clearbody e5.
  destruct (put_argv_spec mem h L (rp_argv r) e5 B5) as (B6 & V6 & F6); [chase; apply Z0; outside| |].
  { intros m Hm. destruct m; try done; chase; apply G0. }
  set (e6 := from_option _ id (rp_argv r) _) in *. clearbody e6.
  destruct (put_net_spec mem h L (rp_net r) e6 B6) as (B7 & V7 & F7); [chase; apply Z0; outside..|].
  set (e7 := put_net _ _ _) in *. clearbody e7.
  split; [done|]. rewrite En in V7. injection V7 as V7 V8 V9. unfold raw_of. rewrite V7, V8, V9.
  chase. rewrite V1, W1, V2, V3, V4, V5, V6. 
  rewrite (I0 timestamp (h_ktime h)), (I0 pid (u32 (h_pid_tgid h))), (I0 tgid (u32 (Z.shiftr (h_pid_tgid h) 32))),
    (I0 uid (u32 (h_uid_gid h))), (I0 gid (u32 (Z.shiftr (h_uid_gid h) 32))),
    (I0 ppid (u32 (default 0 (h_parent_tgid h)))), (I0 syscall_id (rp_syscall r)), G0;
    first [reflexivity | apply u32_range | exact (law_ktime _ _ L) | exact Hid].
Qed.
End whole.

(** ** Lemmas: what one firing does to the maps *)

Lemma reports_u32 name r : assoc name reports = Some r -> is_u32 (rp_syscall r).
Proof.
  intros Hr%assoc_Some_elem.
  assert (Hall : Forall (fun x => 0 <= rp_syscall (snd x) < 2 ^ 32) reports) by by_compute.
  rewrite Forall_forall in Hall. exact (Hall _ Hr).
Qed.

Lemma event_begin_spec h id m :
  event_begin h id m =
  if is_self (config_map m) h then (None, m)
  else match h_reserve h with None => (None, stat_inc h KS_STAT_DROPPED m) | Some e => (Some (begun h id e), m) end.
Proof. unfold event_begin, should_skip, is_self. by destruct (config_map m). Qed.

(** A firing is ignored, counted as lost, or counted and submitted as a record
    that reads as its line of the table says. *)
Lemma fire_cases mem h tp m :
  lawful mem h ->
  (observe_hit (config_map m) (tp, h) = None /\ lost (config_map m) (tp, h) = false /\ fire h tp m = m)
  \/ (observe_hit (config_map m) (tp, h) = None /\ lost (config_map m) (tp, h) = true
      /\ fire h tp m = stat_inc h KS_STAT_DROPPED m)
  \/ exists raw e, observe_hit (config_map m) (tp, h) = Some raw /\ lost (config_map m) (tp, h) = false
      /\ parseRecord e = inl raw /\ fire h tp m = event_submit h e m.
Proof.
  intros L. rewrite fire_body. unfold observe_hit, lost. cbn [fst snd].
  destruct (assoc (tp_name tp) reports) as [r|] eqn:Er; cbn [mbind option_bind]; [|auto]. rewrite event_begin_spec.
  destruct (is_self (config_map m) h); cbn [negb andb]; [auto|]. destruct (h_reserve h) as [e|] eqn:Ee; [|auto].
  destruct (body_spec mem h L r e (law_reserve _ _ L e Ee) (reports_u32 _ _ Er)) as [Hb <-]. right. right.
  generalize dependent (body h r (begun h (rp_syscall r) e)). intros e' Hb. exists (raw_of e'), e'. auto using parse_block.
Qed.

Lemma config_stat_inc h slot m : config_map (stat_inc h slot m) = config_map m.
Proof. done. Qed.

Lemma fire_config mem h tp m : lawful mem h -> config_map (fire h tp m) = config_map m.
Proof. intros L. by destruct (fire_cases mem h tp m L) as [(_ & _ & ->)|[(_ & _ & ->)|(raw & e & _ & _ & _ & ->)]]. Qed.


(** The records of the ring buffer, read by the agent. *)
Definition carries (e : string) (raw : Raw) : Prop := parseRecord e = inl raw.

Lemma Run_carries boot es raws :
  Forall2 carries es raws -> Run boot (Sample <$> es) = ((fun r => Decode r boot) <$> raws, Draining).
Proof. induction 1 as [|e raw es raws He _ IH]; [done|]. cbn. rewrite He. by rewrite IH. Qed.

Definition lawful_hits (hits : list (tracepoint * Hit)) : Prop := Forall (fun x => exists mem, lawful mem (snd x)) hits.

Lemma fire_all_carries hits m raws :
  lawful_hits hits -> Forall2 carries (events m) raws ->
  Forall2 carries (events (fire_all hits m)) (raws ++ omap (observe_hit (config_map m)) hits)
  /\ config_map (fire_all hits m) = config_map m.
Proof.
  intros Hl. revert m raws. induction Hl as [|[tp h] hits [mem L] _ IH]; intros m raws Hr; cbn [fire_all foldl omap list_omap].
  { by rewrite app_nil_r. }
  pose proof (fire_config mem h tp m L) as Hc. cbn [fst snd] in *.
  destruct (fire_cases mem h tp m L) as [(-> & _ & Hf)|[(-> & _ & Hf)|(raw & e & -> & _ & He & Hf)]]; rewrite Hf in *.
  - apply IH, Hr.
  - apply (IH (stat_inc h KS_STAT_DROPPED m)), Hr.
  - rewrite (cons_middle raw), app_assoc. apply (IH (event_submit h e m)). cbn. apply Forall2_app; [done|]. by repeat constructor.
Qed.

(** The counters of a slot, over all processors. *)
Definition slot_total (m : Maps) (slot : nat) : Z := foldr Z.add 0 (default [] (stats_map m !! slot)).

Definition slots_for (cpus : nat) (m : Maps) : Prop :=
  exists evs drops, stats_map m = [evs; drops] /\ length evs = cpus /\ length drops = cpus.

Lemma total_alter (l : list Z) i :
  (i < length l)%nat -> u64 (foldr Z.add 0 (alter (fun c => u64 (c + 1)) i l)) = u64 (foldr Z.add 0 l + 1).
Proof.
  revert i. induction l as [|x l IH]; intros [|i] Hi; cbn in *; try lia.
  - unfold u64. rewrite Zplus_mod_idemp_l. f_equal. lia.
  - unfold u64 in *. rewrite <- Zplus_mod_idemp_r, IH, Zplus_mod_idemp_r by lia. f_equal. lia.
Qed.

Lemma stat_inc_slots cpus h slot m :
  slots_for cpus m -> (h_cpu h < cpus)%nat -> (slot < 2)%nat ->
  slots_for cpus (stat_inc h slot m)
  /\ forall s, u64 (slot_total (stat_inc h slot m) s) = u64 (slot_total m s + if (s =? slot)%nat then 1 else 0).
Proof.
  intros (evs & drops & Hm & He & Hd) Hc Hs. unfold slots_for, slot_total, stat_inc. cbn [stats_map]. rewrite Hm.
  destruct slot as [|[|]]; [| |lia]; cbn.
  - split; [eexists _, _; split; [done|]; by rewrite length_alter|].
    intros [|[|s]]; cbn; rewrite ?Z.add_0_r; [apply total_alter; lia|done..].
  - split; [eexists _, _; split; [done|]; by rewrite length_alter|].
    intros [|[|s]]; cbn; rewrite ?Z.add_0_r; [done|apply total_alter; lia|done].
Qed.

Lemma u64_add_1 n : u64 (u64 (Z.of_nat n) + 1) = u64 (Z.of_nat (S n)).
Proof. unfold u64. rewrite Zplus_mod_idemp_l. f_equal. lia. Qed.

(** The counters after a sequence of firings. *)
Lemma fire_all_slots cpus hits m n k :
  lawful_hits hits -> Forall (fun x => (h_cpu (snd x) < cpus)%nat) hits -> slots_for cpus m ->
  u64 (slot_total m KS_STAT_EVENTS) = u64 (Z.of_nat n) -> u64 (slot_total m KS_STAT_DROPPED) = u64 (Z.of_nat k) ->
  let m' := fire_all hits m in
  slots_for cpus m'
  /\ u64 (slot_total m' KS_STAT_EVENTS) = u64 (Z.of_nat (n + length (omap (observe_hit (config_map m)) hits)))
  /\ u64 (slot_total m' KS_STAT_DROPPED) = u64 (Z.of_nat (k + length (filter (fun x => lost (config_map m) x = true) hits))).
Proof.
  intros Hl. revert m n k. induction Hl as [|[tp h] hits [mem L] _ IH]; intros m n k Hc Hs Hn Hk; cbn zeta.
  { cbn. by rewrite !Nat.add_0_r. }
  apply Forall_cons in Hc as [Hcpu Hc]. cbn [fire_all foldl omap list_omap fst snd] in *. rewrite filter_cons.
  assert (Hplus : forall z x, u64 z = u64 (Z.of_nat x) -> u64 (z + 1) = u64 (Z.of_nat (S x)))
    by (intros z x Hz; rewrite <- u64_add_1, <- Hz; unfold u64; by rewrite Zplus_mod_idemp_l).
  destruct (fire_cases mem h tp m L) as [(-> & -> & Hf)|[(-> & -> & Hf)|(raw & e & -> & -> & _ & Hf)]]; rewrite Hf;
    [rewrite decide_False by done|rewrite decide_True by done|rewrite decide_False by done].
  - apply IH; done.
  - destruct (stat_inc_slots cpus h KS_STAT_DROPPED m) as [Hs' Ht]; [done|done|unfold KS_STAT_EVENTS, KS_STAT_DROPPED; lia|].
    rewrite <- (config_stat_inc h KS_STAT_DROPPED m). cbn [length]. rewrite Nat.add_succ_r. apply (IH _ _ (S k)); [done..| |].
    + rewrite Ht. cbn [Nat.eqb KS_STAT_EVENTS KS_STAT_DROPPED]. by rewrite Z.add_0_r.
    + rewrite Ht. by apply Hplus.
  - destruct (stat_inc_slots cpus h KS_STAT_EVENTS m) as [Hs' Ht]; [done|done|unfold KS_STAT_EVENTS, KS_STAT_DROPPED; lia|].
    change (config_map m) with (config_map (event_submit h e m)). cbn [length]. rewrite Nat.add_succ_r.
    apply (IH _ (S n) k); [done| |..]; change (stats_map (event_submit h e m)) with (stats_map (stat_inc h KS_STAT_EVENTS m)).
    + exact Hs'.
    + change (u64 (slot_total (stat_inc h KS_STAT_EVENTS m) KS_STAT_EVENTS) = u64 (Z.of_nat (S n))). rewrite Ht. by apply Hplus.
    + change (u64 (slot_total (stat_inc h KS_STAT_EVENTS m) KS_STAT_DROPPED) = u64 (Z.of_nat k)). rewrite Ht.
      cbn [Nat.eqb KS_STAT_EVENTS KS_STAT_DROPPED]. by rewrite Z.add_0_r.
Qed.

Lemma lookup_totals cpus m :
  slots_for cpus m ->
  Collector_Stats (lookup_stats m)
  = (mkStats (u64 (slot_total m KS_STAT_EVENTS)) (u64 (slot_total m KS_STAT_DROPPED)), None).
Proof.
  intros (evs & drops & Hm & _ & _). unfold Collector_Stats, lookup_stats, slot_total. rewrite Hm.
  unfold KS_STAT_EVENTS, KS_STAT_DROPPED. change (default [] ([evs; drops] !! 0%nat)) with evs.
  change (default [] ([evs; drops] !! 1%nat)) with drops. rewrite <- (sumPerCPU_sum evs), <- (sumPerCPU_sum drops). reflexivity.
Qed.

Lemma fresh_slots cpus self : slots_for cpus (writeConfig self (fresh_maps cpus)).
Proof. eexists _, _. split; [done|]. by rewrite !length_replicate. Qed.

Lemma fresh_carries cpus self : Forall2 carries (events (writeConfig self (fresh_maps cpus))) [].
Proof. constructor. Qed.

Lemma fresh_total cpus self slot : slot_total (writeConfig self (fresh_maps cpus)) slot = 0.
Proof.
  assert (H0 : foldr Z.add 0 (replicate cpus 0) = 0) by (induction cpus; cbn; lia).
  unfold slot_total. destruct slot as [|[|s]]; cbn; done.
Qed.

(** Every firing of a monitored tracepoint is the agent's own, lost or observed. *)
Lemma observed_or_lost self x :
  is_Some (assoc (tp_name (fst x)) reports) -> is_self self (snd x) = false ->
  (is_Some (observe_hit self x) /\ lost self x = false) \/ (observe_hit self x = None /\ lost self x = true).
Proof.
  intros [r Hr] Hs. unfold observe_hit, lost. rewrite Hr, Hs. cbn. destruct (h_reserve (snd x)); [left|right]; eauto.
Qed.

Lemma observed_or_lost_count self hits :
  Forall (fun x => is_Some (assoc (tp_name (fst x)) reports)) hits ->
  (length (omap (observe_hit self) hits) + length (filter (fun x => lost self x = true) hits)
   = length (filter (fun x => is_self self (snd x) = false) hits))%nat.
Proof.
  induction 1 as [|x hits Hx _ IH]; [done|]. cbn [omap list_omap]. rewrite !filter_cons.
  destruct (is_self self (snd x)) eqn:Hs.
  - assert (observe_hit self x = None /\ lost self x = false) as [-> ->].
    { unfold observe_hit, lost. destruct Hx as [r ->]. by rewrite Hs. }
    by rewrite !decide_False by done.
  - destruct (observed_or_lost self x Hx Hs) as [[[raw ->] ->]|[-> ->]].
    + rewrite decide_False, decide_True by done. cbn [length]. lia.
    + rewrite !decide_True by done. cbn [length]. lia.
Qed.

(** ** What the user strings are *)

Lemma user_string_zero h size : user_string h size 0 = "".
Proof. done. Qed.

(** A path is the process's own string, cut to what fits: without a failed read
    it is what memory holds before the first NUL, or the first bytes of it. *)
Lemma user_string_spec mem h size p n d :
  lawful mem h -> p <> 0 -> h_probe_read_user_str h p (zeros size) = (n, d) -> 0 <= n ->
  let s := user_string h size p in
  no_byte NUL s /\ in_memory mem p s /\ (String.length s < size)%nat
  /\ ((S (String.length s) < size)%nat -> mem (p + slen s) = Some NUL).
Proof.
  intros L Hp E Hn. destruct (law_str _ _ L _ _ _ _ E Hn) as (s & Hl & Hsize & Hs & Hm & Hend & Hd).
  unfold user_string. apply Z.eqb_neq in Hp. rewrite Hp, E. replace (n <? 0) with false by (symmetry; apply Z.ltb_ge; lia).
  assert (goString d = s) as ->.
  { rewrite Hd. unfold goString. rewrite nul_index_app by done. cbn [nul_index str1 String.append]. rewrite Ascii.eqb_refl, Nat.add_0_r.
    destruct s as [|a s]; [done|]. change (String.length (String a s) =? 0)%nat with false. cbn iota. apply stake_app. }
  unfold slen in *. rewrite zeros_length in *. split_and!; [done|done|lia|]. intros Hlt. apply Hend. lia.
Qed.

(** ** A kernel that keeps the contract

    The two reads over a process's memory, an unmapped byte failing them. *)
Section example.
Context (mem : Z -> option ascii).

Fixpoint read_bytes (a : Z) (n : nat) : option string :=
  match n with
  | O => Some ""
  | S n => c ← mem a; s ← read_bytes (a + 1) n; Some (String c s)
  end.

Fixpoint scan_user (a : Z) (room : nat) : option string :=
  match room with
  | O => None
  | S O => Some ""
  | S room => c ← mem a; if Ascii.eqb c NUL then Some "" else s ← scan_user (a + 1) room; Some (String c s)
  end.

Definition EFAULT : Z := 14.

Definition copy_user (a : Z) (dst : string) : Z * string :=
  match read_bytes a (String.length dst) with Some d => (0, d) | None => (- EFAULT, zeros (String.length dst)) end.

Definition copy_user_str (a : Z) (dst : string) : Z * string :=
  match scan_user a (String.length dst) with
  | Some s => (slen s + 1, s +:+ str1 NUL +:+ sdrop (S (String.length s)) dst)
  | None => (- EFAULT, zeros (String.length dst))
  end.

Definition example_hit (cpu : nat) (proc user : Z) (args : list Z) (room : option string) : Hit :=
  mkHit cpu (proc + Z.shiftl proc 32) (user + Z.shiftl user 32) 1500 (pad_to 16 "bash") (Some 7) args 0 copy_user copy_user_str room.

Lemma read_bytes_spec a n d : read_bytes a n = Some d -> String.length d = n /\ in_memory mem a d.
Proof.
  revert a d. induction n as [|n IH]; intros a d; cbn.
  - intros [= <-]. split; [done|]. by intros [|i] c.
  - destruct (mem a) as [c|] eqn:Ec; cbn; [|done]. destruct (read_bytes (a + 1) n) as [s|] eqn:Es; cbn; [|done].
    intros [= <-]. apply IH in Es as [Hl Hm]. split; [cbn; by rewrite Hl|]. intros [|i] c'; cbn.
    + intros [= <-]. by rewrite Z.add_0_r.
    + intros Hg. rewrite <- (Hm i c' Hg). f_equal. lia.
Qed.

Lemma scan_user_spec a room s :
  scan_user a room = Some s ->
  (String.length s < room)%nat /\ no_byte NUL s /\ in_memory mem a s
  /\ ((S (String.length s) < room)%nat -> mem (a + slen s) = Some NUL).
Proof.
  revert a s. induction room as [|room IH]; intros a s; cbn [scan_user]; [done|]. destruct room as [|room].
  { intros [= <-]. cbn. split_and!; [lia|done|by intros [|i] c|lia]. }
  destruct (mem a) as [c|] eqn:Ec; cbn [mbind option_bind]; [|done]. destruct (Ascii.eqb c NUL) eqn:En.
  { intros [= <-]. apply Ascii.eqb_eq in En as ->.
    split_and!; [cbn; lia|done|by intros [|i] c|]. intros _. unfold slen. cbn. by rewrite Z.add_0_r. }
  destruct (scan_user (a + 1) (S room)) as [t|] eqn:Et; cbn [mbind option_bind]; [|done]. intros [= <-].
  apply IH in Et as (Hl & Hn & Hm & He). cbn [String.length]. split_and!; [lia| | |].
  - unfold no_byte in *. cbn [all_bytes]. by rewrite En.
  - intros [|i] c'; cbn; [intros [= <-]; by rewrite Z.add_0_r|]. intros Hg. rewrite <- (Hm i c' Hg). f_equal. lia.
  - intros Hlt. rewrite <- He by lia. unfold slen. cbn [String.length]. f_equal. lia.
Qed.

Lemma example_lawful cpu proc user args room :
  is_u32 proc -> is_u32 user -> Forall is_u64 args -> (forall e, room = Some e -> block e) ->
  lawful mem (example_hit cpu proc user args room).
Proof.
  intros Hp Hu Ha Hr. unfold is_u32 in *. split; cbn; try done.
  - rewrite Z.shiftl_mul_pow2; unfold is_u64; lia.
  - rewrite Z.shiftl_mul_pow2; unfold is_u64; lia.
  - intros a dst. unfold copy_user. destruct (read_bytes _ _) eqn:E; [by apply read_bytes_spec in E as [? _]|apply zeros_length].
  - intros a dst. unfold copy_user_str. destruct (scan_user _ _) as [s|] eqn:E; cbn [snd]; [|apply zeros_length].
    apply scan_user_spec in E as [Hl _]. rewrite !sapp_length, sdrop_length. cbn. lia.
  - intros a dst d. unfold copy_user. destruct (read_bytes _ _) eqn:E; [|done]. intros [= <-]. by apply read_bytes_spec in E as [_ ?].
  - intros a dst n d. unfold copy_user_str. destruct (scan_user _ _) as [s|] eqn:E; [|intros [= <- <-]; unfold EFAULT; lia].
    intros [= <- <-] _. apply scan_user_spec in E as (Hl & Hn & Hm & He). exists s. unfold slen in *.
    split_and!; [done|lia|done|done| |done]. intros Hlt. apply He. lia.
Qed.
End example.

(** ** Lemmas: a whole run of the kernel's side *)

(** The ring buffer after a run carries the observed reports, in order. *)
Lemma fired_carries hits cpus getpid :
  lawful_hits hits ->
  Forall2 carries (events (fire_all hits (writeConfig getpid (fresh_maps cpus)))) (omap (observe_hit (Some (u32 getpid))) hits).
Proof.
  intros Hl. by destruct (fire_all_carries hits (writeConfig getpid (fresh_maps cpus)) [] Hl (fresh_carries _ _)) as [Hc _].
Qed.

Lemma fired_run hits cpus getpid boot :
  lawful_hits hits ->
  Run boot (Sample <$> events (fire_all hits (writeConfig getpid (fresh_maps cpus))))
  = ((fun r => Decode r boot) <$> omap (observe_hit (Some (u32 getpid))) hits, Draining).
Proof. intros Hl. by apply Run_carries, fired_carries. Qed.

Lemma fired_stats hits cpus getpid :
  lawful_hits hits -> Forall (fun x => (h_cpu (snd x) < cpus)%nat) hits ->
  Collector_Stats (lookup_stats (fire_all hits (writeConfig getpid (fresh_maps cpus))))
  = (mkStats (u64 (Z.of_nat (length (omap (observe_hit (Some (u32 getpid))) hits))))
       (u64 (Z.of_nat (length (filter (fun x => lost (Some (u32 getpid)) x = true) hits)))), None).
Proof.
  intros Hl Hc. set (m0 := writeConfig getpid (fresh_maps cpus)).
  destruct (fire_all_slots cpus hits m0 0 0 Hl Hc) as (Hs & He & Hd);
    [apply fresh_slots|by rewrite (fresh_total cpus getpid)..|].
  change (config_map m0) with (Some (u32 getpid)) in *. cbn [Nat.add] in He, Hd. by rewrite (lookup_totals cpus), He, Hd.
Qed.

(** ** Properties *)

Definition with_memory (h : Hit) (room : option string) : Hit :=
  mkHit (h_cpu h) (h_pid_tgid h) (h_uid_gid h) (h_ktime h) (h_comm h) (h_parent_tgid h) (h_args h) (h_ret h)
    (h_probe_read_user h) (h_probe_read_user_str h) room.

Lemma with_memory_lawful mem h room :
  lawful mem h -> (forall e, room = Some e -> block e) -> lawful mem (with_memory h room).
Proof. intros [] Hr. by split. Qed.

Lemma begun_independent mem h id e1 e2 : lawful mem h -> block e1 -> block e2 -> begun h id e1 = begun h id e2.
Proof.
  intros L H1 H2. apply block_ext; [by apply (begun_block mem)..|]. intros m. by rewrite !(get_begun mem h L).
Qed.

(** The tests a caller sees in the registers of an identity change. *)
Definition root_in_registers (name : string) (h : Hit) : Prop :=
  if (name ==s "sys_enter_setuid") || (name ==s "sys_enter_setgid") then args h 0 = 0
  else if (name ==s "sys_enter_setresuid") || (name ==s "sys_enter_setresgid")
  then u32 (args h 0) = 0 \/ u32 (args h 1) = 0 \/ u32 (args h 2) = 0
  else name = "sys_enter_capset".

Definition identity_tracepoints : list string :=
  ["sys_enter_setuid"; "sys_enter_setgid"; "sys_enter_setresuid"; "sys_enter_setresgid"; "sys_enter_capset"].

Lemma s32_zero z : s32 z = 0 <-> u32 z = 0.
Proof. unfold s32, u32. Z.to_euclidean_division_equations; lia. Qed.

Lemma args_range mem h i : lawful mem h -> is_u64 (args h i).
Proof.
  intros L. unfold args. destruct (nth_in_or_default i (h_args h) 0) as [Hi| ->]; [|by split].
  pose proof (law_args _ _ L) as Ha. rewrite Forall_forall in Ha. apply Ha. by apply list_elem_of_In.
Qed.

Lemma s64_zero z : is_u64 z -> (s64 z = 0 <-> z = 0).
Proof. unfold s64, i64, is_u64. intros. Z.to_euclidean_division_equations; lia. Qed.

(** C14: what the agent handles is what the probes saw.  Let any sequence of
    tracepoints fire, on any processors, after the agent published its process
    id.  Reading the ring buffer to its end, [Run] hands on one event for each
    firing that was not the agent's own and found room in the buffer, in order,
    and nothing else; the event is the decoding of exactly the fields the table
    of reports lists for that tracepoint: identities, registers, the process's
    path and arguments cut to size, the address connected to. *)
Theorem probes_deliver hits cpus getpid boot :
  lawful_hits hits ->
  Run boot (Sample <$> events (fire_all hits (writeConfig getpid (fresh_maps cpus))))
  = ((fun r => Decode r boot) <$> omap (observe_hit (Some (u32 getpid))) hits, Draining).
Proof. apply fired_run. Qed.

(** C15: no event disappears without a trace.  After any sequence of firings on
    the machine's processors, the counters the agent reads are, up to their 64
    bits, the number of events it is handed and the number of those the full
    buffer refused; the two together are all the firings of monitored system
    calls but the agent's own, of which none is handed on. *)
Theorem probes_account hits cpus getpid :
  lawful_hits hits -> Forall (fun x => (h_cpu (snd x) < cpus)%nat) hits ->
  Forall (fun x => is_Some (assoc (tp_name (fst x)) reports)) hits ->
  let self := Some (u32 getpid) in
  let m := fire_all hits (writeConfig getpid (fresh_maps cpus)) in
  let handed := length (events m) in
  let dropped := length (filter (fun x => lost self x = true) hits) in
  Collector_Stats (lookup_stats m) = (mkStats (u64 (Z.of_nat handed)) (u64 (Z.of_nat dropped)), None)
  /\ (handed + dropped = length (filter (fun x => is_self self (snd x) = false) hits))%nat
  /\ (u32 getpid <> 0 -> Forall (fun e => forall r, parseRecord e = inl r -> raw_TGID r <> u32 getpid) (events m)).
Proof.
  intros Hl Hc Ht. cbn zeta. pose proof (fired_carries hits cpus getpid Hl) as Hcarry.
  rewrite (Forall2_length _ _ _ Hcarry). split_and!.
  - by apply fired_stats.
  - by apply observed_or_lost_count.
  - intros Hpid. eapply Forall2_Forall_l; [exact Hcarry|]. apply Forall_forall. intros raw Hraw e He' r Hr.
    unfold carries in He'. rewrite He' in Hr. injection Hr as <-. apply list_elem_of_omap in Hraw as ([tp h] & _ & Ho).
    unfold observe_hit in Ho. cbn [fst snd] in Ho. destruct (assoc _ _); [|done]. cbn [mbind option_bind] in Ho.
    destruct (is_self _ h) eqn:Es; [done|]. destruct (h_reserve h); [|done]. injection Ho as <-. unfold report_raw.
    destruct (rp_args r) as [[? ?] ?], (net_value _ _) as [[? ?] ?]. cbn [raw_TGID]. unfold is_self in Es. bool_prop. destruct Es; bool_prop; congruence.
Qed.

(** C16: records carry no kernel memory.  The ring buffer hands out memory as it
    was left; whatever it holds, what a probe submits is the same, to the last
    byte of padding. *)
Theorem records_leak_nothing mem h tp m junk1 junk2 :
  lawful mem h -> block junk1 -> block junk2 ->
  fire (with_memory h (Some junk1)) tp m = fire (with_memory h (Some junk2)) tp m.
Proof.
  intros L H1 H2. rewrite !fire_body. destruct (assoc (tp_name tp) reports) as [r|]; [|done]. rewrite !event_begin_spec.
  change (is_self (config_map m) (with_memory h ?x)) with (is_self (config_map m) h).
  destruct (is_self (config_map m) h); [done|]. cbn [h_reserve with_memory].
  change (begun (with_memory h ?x)) with (begun h). by rewrite (begun_independent mem h _ junk1 junk2).
Qed.

(** The fields of a decoded report that identity rules look at. *)
Lemma Decode_report h r boot ev :
  ev = Decode (report_raw h r) boot ->
  ev_IsExit ev = negb (Z.land (if rp_exit r then FlagSysExit else 0) FlagSysExit =? 0)
  /\ ev_UID ev = u32 (h_uid_gid h) /\ ev_SyscallID ev = rp_syscall r
  /\ (ev_Arg0 ev, ev_Arg1 ev, ev_Arg2 ev)
     = (let '(s0, s1, s2) := rp_args r in (source_value h s0, source_value h s1, source_value h s2)).
Proof.
  intros ->. pose proof (Decode_frame (report_raw h r) boot) as Hf.
  assert (Hp : forall A (f : Event -> A), (forall e, f (sans_args e) = f e) ->
    f (Decode (report_raw h r) boot) = f (decodeIdentity (report_raw h r) boot)) by (intros A f Hs; by rewrite <- (Hs (Decode _ _)), Hf, Hs).
  rewrite (Hp _ ev_IsExit), (Hp _ ev_UID), (Hp _ ev_SyscallID), (Hp _ ev_Arg0), (Hp _ ev_Arg1), (Hp _ ev_Arg2) by done.
  unfold report_raw. destruct (rp_args r) as [[s0 s1] s2], (net_value h (rp_net r)) as [[fam addr] port]. done.
Qed.

(** What asking for root is, call by call. *)
Lemma requests_root_by_call cfg ev :
  (ev_SyscallID ev = SysSetuid \/ ev_SyscallID ev = SysSetgid -> (requests_root cfg ev <-> ev_Arg0 ev = 0))
  /\ (ev_SyscallID ev = SysSetresuid \/ ev_SyscallID ev = SysSetresgid ->
      (requests_root cfg ev <-> 0 ∈ [ev_Arg0 ev; ev_Arg1 ev; ev_Arg2 ev]))
  /\ (ev_SyscallID ev = SysCapset -> requests_root cfg ev).
Proof.
  unfold requests_root, SysSetuid, SysSetgid, SysSetresuid, SysSetresgid, SysCapset, SysExecve, SysExecveat.
  split_and!; intros Hs; repeat split; intuition lia.
Qed.

(** The rule on the report of an identity tracepoint. *)
Lemma privesc_report `{UnicodeTables} mem h name r c boot :
  lawful mem h -> name ∈ identity_tracepoints -> assoc name reports = Some r ->
  ctx_Event c = Decode (report_raw h r) boot ->
  (is_Some (fst (evalPrivilegeEscalation c)) <-> u32 (h_uid_gid h) <> 0 /\ root_in_registers name h).
Proof.
  intros L Hn Hr Hc. apply Decode_report in Hc as (Hx & Hu & Hs & Ha).
  transitivity (privesc_attempt c).
  { pose proof (evalPrivilegeEscalation_decides c) as Hd. unfold decides in Hd.
    destruct (fst (evalPrivilegeEscalation c)); [|split; [by intros [? ?]|tauto]]. split; [tauto|by eexists]. }
  unfold privesc_attempt. rewrite Hu. destruct (requests_root_by_call (ctx_Config c) (ctx_Event c)) as (R1 & R2 & R3).
  assert (Hz : forall i, 0 = s32 (args h i) <-> u32 (args h i) = 0) by (intros i; rewrite <- s32_zero; intuition lia).
  pose proof (s64_zero _ (args_range mem h 0 L)) as H0.
  unfold identity_tracepoints in Hn. rewrite !elem_of_cons in Hn.
  destruct Hn as [->|[->|[->|[->|[->|Hn%elem_of_nil]]]]]; [..|done]; vm_compute in Hr; injection Hr as <-;
    cbn in Ha; injection Ha as E0 E1 E2; rewrite E0 in R1; rewrite E0, E1, E2 in R2;
    assert (He : ev_IsExit (ctx_Event c) = false) by exact Hx;
    change (root_in_registers _ h) with (args h 0 = 0) ||
    change (root_in_registers _ h) with (u32 (args h 0) = 0 \/ u32 (args h 1) = 0 \/ u32 (args h 2) = 0) ||
    change (root_in_registers ?n h) with (n = n);
    cbn [rp_exit rp_syscall] in *.
  - rewrite R1 by auto. tauto.
  - rewrite R1 by auto. tauto.
  - rewrite R2, !elem_of_cons, elem_of_nil, !Hz by auto. tauto.
  - rewrite R2, !elem_of_cons, elem_of_nil, !Hz by auto. tauto.
  - specialize (R3 Hs). tauto.
Qed.

(** A firing that adds a record adds the one its report describes. *)
Lemma fire_adds mem h tp m e raw :
  lawful mem h -> events (fire h tp m) = events m ++ [e] -> parseRecord e = inl raw ->
  exists r, assoc (tp_name tp) reports = Some r /\ raw = report_raw h r.
Proof.
  intros L He Hp.
  assert (Hno : events m <> events m ++ [e]) by (intros E; apply (f_equal (@length _)) in E; rewrite length_app in E; cbn in E; lia).
  destruct (fire_cases mem h tp m L) as [(_ & _ & E)|[(_ & _ & E)|(raw' & e' & Ho & _ & Hp' & E)]]; rewrite E in He; [by destruct Hno..|].
  cbn [event_submit stat_inc events] in He. apply app_inj_tail in He as [_ ->]. rewrite Hp in Hp'. injection Hp' as <-.
  unfold observe_hit in Ho. cbn [fst snd] in Ho. destruct (assoc _ _) as [r|]; [|done]. cbn in Ho.
  destruct (is_self _ h); [done|]. destruct (h_reserve h); [|done]. injection Ho as <-. by exists r.
Qed.


(** ** Concrete firings

    A shell, process 42 of user 1000, is executed as [/bin/sh -i] on processor 1,
    asks for root on processor 0 and finds the buffer full, asks again; in
    between the agent, process 100, opens a file. *)
Definition example_memory (a : Z) : option ascii :=
  let text := "/bin/sh" +:+ str1 NUL +:+ "-i" +:+ str1 NUL +:+ to_le 8 4096 +:+ to_le 8 4104 +:+ to_le 8 0 in
  if a <? 4096 then None else String.get (Z.to_nat (a - 4096)) text.

Definition left_behind : string := srepeat "k" 544.

Definition syscall_tp (name : string) : tracepoint := mkTracepoint "syscalls" name.

Definition example_hits : list (tracepoint * Hit) :=
  [(syscall_tp "sys_enter_execve", example_hit example_memory 1 42 1000 [4096; 4107; 0] (Some left_behind));
   (syscall_tp "sys_enter_setresuid", example_hit example_memory 0 42 1000 [2 ^ 32 - 1; 2 ^ 32; 0] None);
   (syscall_tp "sys_enter_openat", example_hit example_memory 0 100 0 [0; 4096; 0; 0] (Some left_behind));
   (syscall_tp "sys_enter_setresuid", example_hit example_memory 0 42 1000 [2 ^ 32 - 1; 2 ^ 32; 7] (Some left_behind))].

Lemma left_behind_block : block left_behind.
Proof. reflexivity. Qed.

Lemma example_hit_lawful cpu proc user args :
  is_u32 proc -> is_u32 user -> Forall is_u64 args ->
  lawful example_memory (example_hit example_memory cpu proc user args None)
  /\ lawful example_memory (example_hit example_memory cpu proc user args (Some left_behind)).
Proof. intros Hp Hu Ha. split; apply example_lawful; try done. by intros e [= <-]. Qed.

Ltac example_lawful_tac :=
  apply example_hit_lawful; [unfold is_u32; lia|unfold is_u32; lia|rewrite !Forall_cons, Forall_nil; unfold is_u64; lia].

Lemma example_hits_lawful : lawful_hits example_hits.
Proof.
  unfold lawful_hits, example_hits. rewrite !Forall_cons, Forall_nil.
  split_and!; try done; exists example_memory; cbn [snd];
    example_lawful_tac.
Qed.

Lemma probes_deliver_witness :
  Run 0 (Sample <$> events (fire_all example_hits (writeConfig 100 (fresh_maps 2))))
  = ([Decode (mkRaw 1500 42 42 1000 1000 7 SysExecve 0 0 0 0 0 0 0 0 "bash" "/bin/sh" ["/bin/sh"; "-i"]) 0;
      Decode (mkRaw 1500 42 42 1000 1000 7 SysSetresuid 0 (-1) 0 7 0 0 0 0 "bash" "" []) 0], Draining).
Proof. rewrite (probes_deliver example_hits 2 100 0 example_hits_lawful). reflexivity. Defined.

Lemma probes_account_witness :
  let m := fire_all example_hits (writeConfig 100 (fresh_maps 2)) in
  Collector_Stats (lookup_stats m) = (mkStats 2 1, None) /\ length (events m) = 2%nat.
Proof.
  destruct (probes_account example_hits 2 100 example_hits_lawful) as (Hs & Hn & _).
  - repeat (constructor; [cbn; lia|]). constructor.
  - by_compute.
  - cbn zeta. assert (Hd : length (filter (fun x => lost (Some (u32 100)) x = true) example_hits) = 1%nat) by reflexivity.
    assert (Ha : length (filter (fun x => is_self (Some (u32 100)) (snd x) = false) example_hits) = 3%nat) by reflexivity.
    rewrite Hd, Ha in Hn. assert (He : length (events (fire_all example_hits (writeConfig 100 (fresh_maps 2)))) = 2%nat) by lia.
    rewrite Hs, Hd, He. done.
Defined.

Lemma records_leak_nothing_witness :
  let h := example_hit example_memory 1 42 1000 [4096; 4107; 0] (Some left_behind) in
  let tp := syscall_tp "sys_enter_execve" in
  events (fire (with_memory h (Some left_behind)) tp (fresh_maps 2))
  = events (fire (with_memory h (Some (zeros 544))) tp (fresh_maps 2)).
Proof.
  cbn zeta. apply (f_equal events), (records_leak_nothing example_memory); [|reflexivity|reflexivity].
  example_lawful_tac.
Defined.

