(* ===== verification/Record.v ===== *)
(** * Capture records ([events/record.go])

    The on-disk form of an event, the conversions in both directions, and the
    reader that streams a capture's events to a callback.

    [encoding/json] is the parameter [Unmarshal]; the callback of [ReadRecords]
    is a function on an explicit state, which is how a Go closure accumulates. *)

From S2P Require Import Prelude GoStrings GoTime GoDate Syscalls Events.

(** [type Record struct]; a nil map is [None]. *)
Record Rec := mkRec {
  rc_Timestamp : string;
  rc_Monotonic : Z;
  rc_PID : Z;
  rc_TID : Z;
  rc_PPID : Z;
  rc_UID : Z;
  rc_GID : Z;
  rc_Comm : string;
  rc_Syscall : string;
  rc_Exit : bool;
  rc_Ret : Z;
  rc_Args : option (gmap string string);
  rc_Arg0 : Z;
  rc_Arg1 : Z;
  rc_Arg2 : Z;
  rc_Path : string;
  rc_Argv : list string;
  rc_DestIP : string;
  rc_DestPort : Z;
  rc_Family : Z
}.

(** [json.Unmarshal] into a fresh [Record]: [None] is any of its errors. *)
Class RecordDecoder := { Unmarshal : string -> option Rec }.

Definition NewRecord (ev : Event) : Rec := {|
  rc_Timestamp := FormatMillis (ev_Wall ev);
  rc_Monotonic := ev_Timestamp ev;
  rc_PID := ev_PID ev;
  rc_TID := ev_TID ev;
  rc_PPID := ev_PPID ev;
  rc_UID := ev_UID ev;
  rc_GID := ev_GID ev;
  rc_Comm := ev_Comm ev;
  rc_Syscall := ev_Syscall ev;
  rc_Exit := ev_IsExit ev;
  rc_Ret := if ev_IsExit ev then ev_ReturnValue ev else 0;
  rc_Args := Some (ev_Args ev);
  rc_Arg0 := ev_Arg0 ev;
  rc_Arg1 := ev_Arg1 ev;
  rc_Arg2 := ev_Arg2 ev;
  rc_Path := ev_Path ev;
  rc_Argv := ev_Argv ev;
  rc_DestIP := ev_DestIP ev;
  rc_DestPort := ev_DestPort ev;
  rc_Family := ev_Family ev
|}.

(** The two errors of [Record.Event]. *)
Inductive event_error :=
  | UnknownSyscall (name : string)
  | BadTimestamp (timestamp : string).

(** [Record.Event] *)
Definition Rec_Event (r : Rec) : Event + event_error :=
  let '(sc, ok) := ParseSyscall (rc_Syscall r) in
  if negb ok then inr (UnknownSyscall (rc_Syscall r))
  else
    match ParseRFC3339 (rc_Timestamp r) with
    | None => inr (BadTimestamp (rc_Timestamp r))
    | Some wall =>
        let args := match rc_Args r with Some m => m | None => ∅ end in
        inl {|
          ev_Timestamp := rc_Monotonic r;
          ev_Wall := wall;
          ev_PID := rc_PID r;
          ev_TID := rc_TID r;
          ev_TGID := rc_PID r;
          ev_UID := rc_UID r;
          ev_GID := rc_GID r;
          ev_PPID := rc_PPID r;
          ev_Comm := rc_Comm r;
          ev_Syscall := Syscall_String sc;
          ev_SyscallID := sc;
          ev_Args := args;
          ev_ReturnValue := rc_Ret r;
          ev_IsExit := rc_Exit r;
          ev_Arg0 := rc_Arg0 r;
          ev_Arg1 := rc_Arg1 r;
          ev_Arg2 := rc_Arg2 r;
          ev_Path := rc_Path r;
          ev_Argv := rc_Argv r;
          ev_DestIP := rc_DestIP r;
          ev_DestPort := rc_DestPort r;
          ev_Family := rc_Family r
        |}
    end.

Definition maxRecordLine : Z := Z.shiftl 1 20.

(** ** The scanner

    [bufio.Scanner] splitting lines, with a buffer of [maxRecordLine] bytes: a
    line is found once its newline, or the end of the input, is in the buffer,
    and fails when the buffer fills up first.  [None] at the end of the list
    stands for that failure. *)
Definition newline : ascii := chr 10.

Definition dropCR (line : string) : string :=
  match last_index_byte (chr 13) line with
  | Some n => if (S n =? String.length line)%nat then stake n line else line
  | None => line
  end.

(** The tokens of the pieces between newlines; the last piece is what follows
    the last newline, and is no token when empty. *)
Fixpoint scan_pieces (pieces : list string) : list string * bool :=
  match pieces with
  | [] => ([], true)
  | [last] =>
      if last ==s "" then ([], true)
      else if maxRecordLine <=? slen last then ([], false)
      else ([dropCR last], true)
  | piece :: rest =>
      if maxRecordLine <=? slen piece then ([], false)
      else let '(lines, ok) := scan_pieces rest in (dropCR piece :: lines, ok)
  end.

Definition ScanLines (data : string) : list string * bool := scan_pieces (Split data newline).

(** What a reader delivers: its bytes, and whether it ended in an error other
    than the end of the file. *)
Record Reader := mkReader { rd_data : string; rd_failed : bool }.

(** ** Reading a capture *)

Inductive read_error {E : Type} :=
  | MalformedLine (lineNo : Z)
  | RejectedLine (lineNo : Z) (e : event_error)
  | CallbackError (e : E)
  | LineTooLong
  | ReaderFailed.
Arguments read_error : clear implicits.

Section read.
Context `{RecordDecoder} {S E : Type} (fn : S -> Event -> S * option E).

(** The loop of [ReadRecords]; [inl] is a state reached at the end of the
    lines, [inr] an error returned from inside the loop. *)
Fixpoint read_lines (lines : list string) (lineNo : Z) (pendingErr : option Z) (s : S) : S * option (read_error E) :=
  match lines with
  | [] => (s, None)
  | line :: lines =>
      let lineNo := lineNo + 1 in
      if TrimSpace line ==s "" then read_lines lines lineNo pendingErr s
      else
        match pendingErr with
        | Some n => (s, Some (MalformedLine n))
        | None =>
            match Unmarshal line with
            | None => read_lines lines lineNo (Some lineNo) s
            | Some rec =>
                match Rec_Event rec with
                | inr e => (s, Some (RejectedLine lineNo e))
                | inl ev =>
                    match fn s ev with
                    | (s, Some e) => (s, Some (CallbackError e))
                    | (s, None) => read_lines lines lineNo None s
                    end
                end
            end
        end
  end.

(** [ReadRecords]: the callback's state and the error returned, if any. *)
Definition ReadRecords (r : Reader) (s : S) : S * option (read_error E) :=
  let '(lines, ok) := ScanLines (rd_data r) in
  match read_lines lines 0 None s with
  | (s, Some e) => (s, Some e)
  | (s, None) =>
      if negb ok then (s, Some LineTooLong)
      else if rd_failed r then (s, Some ReaderFailed)
      else (s, None)
  end.
End read.

(** ** Lossless for the rules

    What a capture keeps of an event: everything but the nanoseconds of the
    wall clock and, in its texts, the bytes that are not valid UTF-8.
    [capturable] is what every event the agent decodes satisfies:
    its arguments have ASCII names, its syscall is a known one, named as [String] names it, its thread group is
    its process, an entry carries no return value, and its year is one that
    RFC 3339 can write. *)
Definition set_Wall (ev : Event) (w : Z) : Event :=
  mkEvent (ev_Timestamp ev) w (ev_PID ev) (ev_TID ev) (ev_TGID ev) (ev_UID ev)
    (ev_GID ev) (ev_PPID ev) (ev_Comm ev) (ev_Syscall ev) (ev_SyscallID ev) (ev_Args ev)
    (ev_ReturnValue ev) (ev_IsExit ev) (ev_Arg0 ev) (ev_Arg1 ev) (ev_Arg2 ev) (ev_Path ev)
    (ev_Argv ev) (ev_DestIP ev) (ev_DestPort ev) (ev_Family ev).

Definition replayed (ev : Event) : Event := set_Wall ev (truncate_ms (ev_Wall ev)).

(** The event with its texts changed. *)
Definition with_texts (f : string -> string) (ev : Event) : Event :=
  mkEvent (ev_Timestamp ev) (ev_Wall ev) (ev_PID ev) (ev_TID ev) (ev_TGID ev) (ev_UID ev)
    (ev_GID ev) (ev_PPID ev) (f (ev_Comm ev)) (ev_Syscall ev) (ev_SyscallID ev) (f <$> ev_Args ev)
    (ev_ReturnValue ev) (ev_IsExit ev) (ev_Arg0 ev) (ev_Arg1 ev) (ev_Arg2 ev) (f (ev_Path ev))
    (f <$> ev_Argv ev) (f (ev_DestIP ev)) (ev_DestPort ev) (ev_Family ev).

(** What a capture gives back of an event: JSON is text, so bytes that are not
    valid UTF-8 come back as U+FFFD. *)
Definition captured (ev : Event) : Event := replayed (with_texts to_utf8 ev).

(** The events that lose nothing but the nanoseconds. *)
Record readable (ev : Event) : Prop := {
  rd_comm : valid_utf8 (ev_Comm ev);
  rd_path : valid_utf8 (ev_Path ev);
  rd_argv : Forall valid_utf8 (ev_Argv ev);
  rd_args : map_Forall (fun _ v => valid_utf8 v) (ev_Args ev);
  rd_dest : valid_utf8 (ev_DestIP ev)
}.

Record capturable (ev : Event) : Prop := {
  cap_keys : map_Forall (fun k _ => valid_utf8 k) (ev_Args ev);
  cap_id : 1 <= ev_SyscallID ev <= 13;
  cap_name : ev_Syscall ev = Syscall_String (ev_SyscallID ev);
  cap_tgid : ev_TGID ev = ev_PID ev;
  cap_ret : ev_IsExit ev = false -> ev_ReturnValue ev = 0;
  cap_year : 0 <= year_of (ev_Wall ev) <= 9999
}.

(** The record as JSON carries it: every byte of a string that is not valid UTF-8
    is replaced (the keys of the map are ASCII, [cap_keys]), and [omitempty] drops
    an empty map, which reads back as a nil one. *)
Definition json_image (r : Rec) : Rec :=
  mkRec (to_utf8 (rc_Timestamp r)) (rc_Monotonic r) (rc_PID r) (rc_TID r) (rc_PPID r) (rc_UID r) (rc_GID r) (to_utf8 (rc_Comm r))
    (to_utf8 (rc_Syscall r)) (rc_Exit r) (rc_Ret r)
    (match rc_Args r with Some m => if (size m =? 0)%nat then None else Some (to_utf8 <$> m) | None => None end)
    (rc_Arg0 r) (rc_Arg1 r) (rc_Arg2 r) (to_utf8 (rc_Path r)) (to_utf8 <$> rc_Argv r) (to_utf8 (rc_DestIP r)) (rc_DestPort r)
    (rc_Family r).

Lemma ParseSyscall_String_known s : 1 <= s <= 13 -> ParseSyscall (Syscall_String s) = (s, true).
Proof.
  intros Hs. destruct (assoc s syscallNames) as [name|] eqn:E.
  - rewrite (Syscall_String_known _ _ E). apply ParseSyscall_known; [done|]. unfold SysUnknown. lia.
  - exfalso. by apply (syscallNames_total s).
Qed.

Lemma Syscall_String_valid s : 1 <= s <= 13 -> to_utf8 (Syscall_String s) = Syscall_String s.
Proof.
  intros Hs. assert (Hall : Forall (fun n => to_utf8 (Syscall_String n) = Syscall_String n) (seqZ 1 13)) by by_compute.
  rewrite Forall_forall in Hall. apply Hall. apply elem_of_seqZ. lia.
Qed.

Lemma FormatMillis_valid w : to_utf8 (FormatMillis w) = FormatMillis w.
Proof.
  apply ascii_valid. assert (Hp : forall n z, all_bytes (fun a => byte_of a <? 128) (pad_d n z) = true).
  { intros n z. unfold pad_d, pad0. rewrite all_bytes_app. apply andb_true_iff. split.
    - generalize (n - String.length (FormatUint z 10))%nat. induction n0; [done|]. cbn. exact IHn0.
    - generalize (FormatUint_decimal z). apply all_bytes_impl. unfold is_decimal, in_range. intros a Ha. bool_prop. lia. }
  unfold FormatMillis. destruct (civil_of_days _) as [[y m] d]. repeat (rewrite all_bytes_app || rewrite Hp). done.
Qed.

Lemma Rec_Event_NewRecord ev : capturable ev -> Rec_Event (json_image (NewRecord ev)) = inl (captured ev).
Proof.
  intros [_ Hid Hname Htg Hret Hy]. unfold Rec_Event, json_image, NewRecord.
  cbn -[ParseSyscall ParseRFC3339 Syscall_String FormatMillis to_utf8].
  rewrite FormatMillis_valid, Hname, Syscall_String_valid, ParseSyscall_String_known by done. cbn [negb].
  rewrite ParseRFC3339_FormatMillis by done.
  f_equal. unfold captured, replayed, set_Wall, with_texts. cbn [ev_Timestamp ev_Wall ev_PID ev_TID ev_TGID ev_UID ev_GID ev_PPID
    ev_Comm ev_Syscall ev_SyscallID ev_Args ev_ReturnValue ev_IsExit ev_Arg0 ev_Arg1 ev_Arg2 ev_Path ev_Argv ev_DestIP ev_DestPort ev_Family].
  rewrite Htg, <- Hname. f_equal.
  - destruct (size (ev_Args ev) =? 0)%nat eqn:E; [|done]. bool_prop. apply map_size_empty_inv in E. by rewrite E, fmap_empty.
  - destruct (ev_IsExit ev); [done|]. symmetry. by apply Hret.
Qed.

Lemma readable_captured ev : readable ev -> captured ev = replayed ev.
Proof.
  intros [Hc Hp Hv Ha Hd]. unfold captured. f_equal. unfold with_texts, valid_utf8 in *. rewrite Hc, Hp, Hd.
  assert (to_utf8 <$> ev_Argv ev = ev_Argv ev) as ->.
  { induction Hv as [|v l Hv _ IH]; [done|]. cbn. by rewrite Hv, IH. }
  assert (to_utf8 <$> ev_Args ev = ev_Args ev) as ->; [|by destruct ev].
  apply map_eq. intros k. rewrite lookup_fmap. destruct (ev_Args ev !! k) as [v|] eqn:E; [|done]. cbn. f_equal. by apply (Ha k v).
Qed.

(** The names [decodeArgs] gives arguments are ASCII. *)
Lemma put_arg_keys k v ev :
  valid_utf8 k -> map_Forall (fun k _ => valid_utf8 k) (ev_Args ev) -> map_Forall (fun k _ => valid_utf8 k) (ev_Args (put_arg k v ev)).
Proof. intros Hk He. by apply map_Forall_insert_2. Qed.

Lemma decodeArgs_keys ev r :
  map_Forall (fun k _ => valid_utf8 k) (ev_Args ev) -> map_Forall (fun k _ => valid_utf8 k) (ev_Args (decodeArgs ev r)).
Proof.
  intros He. unfold decodeArgs. cbv zeta. repeat case_match; repeat (apply put_arg_keys; [by_compute|]); exact He.
Qed.

Lemma Decode_capturable r boot :
  1 <= raw_SyscallID r <= 13 -> (Raw_IsExit r = false -> raw_Ret r = 0) ->
  0 <= year_of (boot + i64 (raw_Timestamp r)) <= 9999 -> capturable (Decode r boot).
Proof.
  intros Hid Hret Hy.
  assert (Hs : sans_args (Decode r boot) = sans_args (decodeIdentity r boot)) by apply Decode_frame.
  pose proof (f_equal ev_SyscallID Hs : ev_SyscallID (Decode r boot) = _) as Eid.
  pose proof (f_equal ev_Syscall Hs : ev_Syscall (Decode r boot) = _) as Ename.
  pose proof (f_equal ev_TGID Hs : ev_TGID (Decode r boot) = _) as Etg.
  pose proof (f_equal ev_PID Hs : ev_PID (Decode r boot) = _) as Epid.
  pose proof (f_equal ev_IsExit Hs : ev_IsExit (Decode r boot) = _) as Eex.
  pose proof (f_equal ev_ReturnValue Hs : ev_ReturnValue (Decode r boot) = _) as Eret.
  pose proof (f_equal ev_Wall Hs : ev_Wall (Decode r boot) = _) as Ewall.
  split; [|by rewrite Eid|by rewrite Ename, Eid|by rewrite Etg, Epid|by rewrite Eex, Eret|by rewrite Ewall].
  unfold Decode. case_match; [|by apply decodeArgs_keys, map_Forall_empty].
  repeat case_match; repeat (apply put_arg_keys; [by_compute|]); apply map_Forall_empty.
Qed.

(** ** What reading a capture delivers *)

Definition blank (line : string) : Prop := TrimSpace line = "".
#[export] Instance blank_dec line : Decision (blank line) := String.string_dec (TrimSpace line) "".

Lemma blank_eqb line : (TrimSpace line ==s "") = bool_decide (blank line).
Proof. apply eq_true_iff_eq. by rewrite String.eqb_eq, bool_decide_eq_true. Qed.

Section reading.
Context `{RecordDecoder} {S E : Type} (fn : S -> Event -> S * option E).

(** The line holds the record of [ev]. *)
Definition decodes (line : string) (ev : Event) : Prop :=
  exists rec, Unmarshal line = Some rec /\ Rec_Event rec = inl ev.

(** The callback, called on each event until it fails. *)
Fixpoint feed (s : S) (evs : list Event) : S * option E :=
  match evs with
  | [] => (s, None)
  | ev :: evs => match fn s ev with (s, None) => feed s evs | (s, Some e) => (s, Some e) end
  end.

Lemma read_lines_pending lines n k s :
  read_lines fn lines n (Some k) s =
  (s, if decide (filter (fun l => ~ blank l) lines = []) then None else Some (MalformedLine k)).
Proof.
  revert n. induction lines as [|line lines IH]; intros n; cbn [read_lines]; [done|].
  rewrite blank_eqb. case_bool_decide as Hb.
  - rewrite filter_cons_False by tauto. apply IH.
  - rewrite filter_cons_True by done. by rewrite decide_False.
Qed.

(** Reading goes through the records it can read, calling the callback on each. *)
Lemma read_lines_good lines good n s s' evs :
  Forall2 decodes (filter (fun l => ~ blank l) good) evs -> feed s evs = (s', None) ->
  read_lines fn (good ++ lines) n None s = read_lines fn lines (n + Z.of_nat (length good)) None s'.
Proof.
  revert n s evs. induction good as [|line good IH]; intros n s evs Hg Hf.
  - apply Forall2_nil_inv_l in Hg as ->. injection Hf as ->. by rewrite Z.add_0_r.
  - cbn [app read_lines]. rewrite blank_eqb. case_bool_decide as Hb.
    + rewrite filter_cons_False in Hg by tauto. erewrite IH by eassumption.
      f_equal. cbn [length]. lia.
    + rewrite filter_cons_True in Hg by done. apply Forall2_cons_inv_l in Hg as (ev & evs' & (rec & -> & ->) & Hg & ->).
      cbn in Hf. destruct (fn s ev) as [s1 [e|]]; [done|]. erewrite IH by eassumption. f_equal. cbn [length]. lia.
Qed.

(** Every run has read a prefix of the lines and stopped at the end, or at the
    first line that is malformed, rejected, or that the callback refuses. *)
Inductive stopped_at (s : S) (n : Z) : list string -> S * option (read_error E) -> Prop :=
  | stop_end : stopped_at s n [] (s, None)
  | stop_malformed line rest : ~ blank line -> Unmarshal line = None ->
      stopped_at s n (line :: rest)
        (s, if decide (filter (fun l => ~ blank l) rest = []) then None else Some (MalformedLine (n + 1)))
  | stop_rejected line rest rec e : ~ blank line -> Unmarshal line = Some rec -> Rec_Event rec = inr e ->
      stopped_at s n (line :: rest) (s, Some (RejectedLine (n + 1) e))
  | stop_callback line rest ev s' e : ~ blank line -> decodes line ev -> fn s ev = (s', Some e) ->
      stopped_at s n (line :: rest) (s', Some (CallbackError e)).

Lemma read_lines_inv lines n s :
  exists good rest evs s1,
    lines = good ++ rest /\ Forall2 decodes (filter (fun l => ~ blank l) good) evs /\ feed s evs = (s1, None)
    /\ stopped_at s1 (n + Z.of_nat (length good)) rest (read_lines fn lines n None s).
Proof.
  revert n s. induction lines as [|line lines IH]; intros n s.
  - exists [], [], [], s. split_and!; [done|constructor|done|]. constructor.
  - cbn [read_lines]. rewrite blank_eqb. case_bool_decide as Hb.
    { destruct (IH (n + 1) s) as (good & rest & evs & s1 & -> & Hg & Hf & Hs).
      exists (line :: good), rest, evs, s1. split_and!; [done| |done|].
      - by rewrite filter_cons_False by tauto.
      - cbn [length]. by replace (n + Z.of_nat (Datatypes.S (length good))) with (n + 1 + Z.of_nat (length good)) by lia. }
    assert (Hstop : forall r, stopped_at s n (line :: lines) r ->
      exists good rest evs s1, line :: lines = good ++ rest /\ Forall2 decodes (filter (fun l => ~ blank l) good) evs
        /\ feed s evs = (s1, None) /\ stopped_at s1 (n + Z.of_nat (length good)) rest r).
    { intros r Hr. exists [], (line :: lines), [], s. rewrite Z.add_0_r. split_and!; [done|constructor|done|done]. }
    destruct (Unmarshal line) as [rec|] eqn:Eu; [destruct (Rec_Event rec) as [ev|e] eqn:Ee|].
    + destruct (fn s ev) as [s1 [e|]] eqn:Ef; [apply Hstop; econstructor; try done; by exists rec|].
      destruct (IH (n + 1) s1) as (good & rest & evs & s2 & -> & Hg & Hf & Hs).
      exists (line :: good), rest, (ev :: evs), s2. split_and!; [done| | |].
      * rewrite filter_cons_True by done. constructor; [by exists rec|done].
      * cbn. by rewrite Ef.
      * cbn [length]. by replace (n + Z.of_nat (Datatypes.S (length good))) with (n + 1 + Z.of_nat (length good)) by lia.
    + apply Hstop. by econstructor.
    + apply Hstop. rewrite read_lines_pending. by constructor.
Qed.
End reading.

(** ** Lines *)

Fixpoint unlines (lines : list string) : string :=
  match lines with [] => "" | l :: lines => l +:+ String newline (unlines lines) end.

(** A line as the JSON encoder writes it. *)
Definition plain_line (l : string) : Prop := no_byte newline l /\ slen l < maxRecordLine /\ dropCR l = l.

Lemma scan_pieces_cons piece rest :
  rest <> [] -> slen piece < maxRecordLine ->
  scan_pieces (piece :: rest) = (dropCR piece :: fst (scan_pieces rest), snd (scan_pieces rest)).
Proof.
  intros Hr Hp. destruct rest as [|r rest]; [done|].
  change (scan_pieces (piece :: r :: rest)) with
    (if maxRecordLine <=? slen piece then ([], false)
     else let '(lines, ok) := scan_pieces (r :: rest) in (dropCR piece :: lines, ok)).
  apply Z.leb_gt in Hp as ->. by destruct (scan_pieces (r :: rest)).
Qed.

Lemma Split_unlines lines p :
  Forall (no_byte newline) lines -> no_byte newline p -> Split (unlines lines +:+ p) newline = lines ++ [p].
Proof.
  intros Hl Hp. induction Hl as [|l lines Hn _ IH]; cbn [unlines String.append]; [by apply Split_no_byte|].
  rewrite <- sapp_assoc. cbn [String.append]. by rewrite Split_app, IH.
Qed.

Lemma ScanLines_unlines lines p :
  Forall plain_line lines -> no_byte newline p -> slen p < maxRecordLine ->
  ScanLines (unlines lines +:+ p) = (lines ++ (if p ==s "" then [] else [dropCR p]), true).
Proof.
  intros Hl Hp Hlen. unfold ScanLines.
  rewrite Split_unlines by (done || by eapply Forall_impl; [exact Hl|intros ? []]).
  induction Hl as [|l lines (_ & Hl1 & Hl2) _ IH]; cbn [app].
  - cbn [scan_pieces]. destruct (p ==s ""); [done|]. by apply Z.leb_gt in Hlen as ->.
  - rewrite scan_pieces_cons by (done || by destruct lines). by rewrite IH, Hl2.
Qed.

(** ** Properties *)

Section properties.
Context `{RecordDecoder} {S E : Type} (fn : S -> Event -> S * option E).

(** How a feed ends, as [ReadRecords] reports it. *)
Definition reported (r : S * option E) : S * option (read_error E) := (fst r, CallbackError <$> snd r).

Lemma read_lines_records lines evs rest n s :
  Forall2 (fun l ev => ~ blank l /\ decodes l ev) lines evs ->
  read_lines fn (lines ++ rest) n None s =
  match feed fn s evs with
  | (s', None) => read_lines fn rest (n + Z.of_nat (length lines)) None s'
  | (s', Some e) => (s', Some (CallbackError e))
  end.
Proof.
  intros Hl. revert n s. induction Hl as [|l ev lines evs [Hb (rec & Hu & He)] _ IH]; intros n s; cbn.
  - by rewrite Z.add_0_r.
  - rewrite blank_eqb, bool_decide_eq_false_2, Hu, He by done. destruct (fn s ev) as [s1 [e|]]; [done|].
    rewrite IH. destruct (feed fn s1 evs) as [s2 [e|]]; [done|]. f_equal. lia.
Qed.

Lemma ReadRecords_capture evs lines partial s :
  Forall capturable evs ->
  Forall2 (fun l ev => plain_line l /\ ~ blank l /\ Unmarshal l = Some (json_image (NewRecord ev))) lines evs ->
  no_byte newline partial -> slen partial < maxRecordLine ->
  (partial = "" \/ Unmarshal (dropCR partial) = None) ->
  ReadRecords fn (mkReader (unlines lines +:+ partial) false) s = reported (feed fn s (captured <$> evs)).
Proof.
  intros Hc Hl Hp Hlen Hpart. unfold ReadRecords, reported. cbn [rd_data rd_failed].
  rewrite ScanLines_unlines; [|clear -Hl; induction Hl as [|? ? ? ? []]; by constructor|done..].
  rewrite (read_lines_records lines (captured <$> evs)).
  2:{ apply Forall2_fmap_r. clear -Hc Hl. induction Hl as [|l ev lines evs (_ & Hb & Hu) _ IH]; [constructor|].
      apply Forall_cons in Hc as [Hev Hc]. constructor; [|by apply IH]. split; [done|].
      exists (json_image (NewRecord ev)). split; [done|]. by apply Rec_Event_NewRecord. }
  destruct (feed fn s (captured <$> evs)) as [s' [e|]]; [done|].
  destruct (partial ==s "") eqn:Ep; bool_prop; [done|]. destruct Hpart as [->|Hu]; [done|].
  cbn [read_lines]. rewrite Hu. by destruct (TrimSpace (dropCR partial) ==s "").
Qed.

(** C35: a capture gives back its events.  Of the capture of any events the
    agent decodes, written whole or cut short in the middle of its last line,
    [ReadRecords] delivers every fully written event, in order, until the
    callback stops it, and reports no error of its own.  What it delivers is the
    event with the wall clock cut to the millisecond and, in its texts, each byte
    that is not valid UTF-8 replaced by U+FFFD; so an event whose texts are valid
    UTF-8 loses nothing else. *)
Theorem capture_roundtrip evs lines partial s :
  Forall capturable evs ->
  Forall2 (fun l ev => plain_line l /\ ~ blank l /\ Unmarshal l = Some (json_image (NewRecord ev))) lines evs ->
  no_byte newline partial -> slen partial < maxRecordLine ->
  (partial = "" \/ Unmarshal (dropCR partial) = None) ->
  ReadRecords fn (mkReader (unlines lines +:+ partial) false) s = reported (feed fn s (captured <$> evs))
  /\ Forall (fun ev => readable ev -> captured ev = set_Wall ev (truncate_ms (ev_Wall ev))) evs.
Proof.
  intros. split; [by apply ReadRecords_capture|]. apply Forall_forall. intros ev _. apply readable_captured.
Qed.

(** C33: what a successful read means.  [ReadRecords] returns no error exactly
    when the input was read to its end, no line was too long, and every
    non-blank line held a record whose event the callback accepted, save at
    most one malformed line with nothing but blank lines after it.  That line
    need not be one cut short: a complete one, ended by its line break, is let
    through as well, which the comment on [ReadRecords] does not say
    ([complete_malformed_line_passes]). *)
Theorem ReadRecords_success r s s' :
  ReadRecords fn r s = (s', None) <->
  snd (ScanLines (rd_data r)) = true /\ rd_failed r = false /\
  exists good rest evs, fst (ScanLines (rd_data r)) = good ++ rest
    /\ Forall2 decodes (filter (fun l => ~ blank l) good) evs /\ feed fn s evs = (s', None)
    /\ (rest = [] \/ exists l tail, rest = l :: tail /\ ~ blank l /\ Unmarshal l = None /\ Forall blank tail).
Proof.
  unfold ReadRecords. destruct (ScanLines (rd_data r)) as [lines ok]. cbn [fst snd].
  assert (Hnb : forall tail, filter (fun l => ~ blank l) tail = [] <-> Forall blank tail).
  { intros tail. induction tail as [|l tail IH]; [done|]. rewrite Forall_cons, <- IH.
    destruct (decide (blank l)); [rewrite filter_cons_False by tauto|rewrite filter_cons_True by done]; naive_solver. }
  split.
  - destruct (read_lines fn lines 0 None s) as [s1 [e|]] eqn:Eread; [done|].
    destruct ok; cbn [negb]; [|done]. destruct (rd_failed r); [done|]. intros [= <-]. split_and!; [done..|].
    destruct (read_lines_inv fn lines 0 s) as (good & rest & evs & s2 & -> & Hg & Hf & Hs). rewrite Eread in Hs.
    exists good, rest, evs. inversion Hs as [Hs1 Hr|l tail Hb Hu Hr Hres| |]; subst.
    + split_and!; [done..|by left].
    + case_decide as Hd; [|done]. apply Hnb in Hd. simplify_eq. split_and!; [done..|]. right. eauto 10.
  - intros (-> & -> & good & rest & evs & -> & Hg & Hf & Hrest).
    rewrite (read_lines_good fn rest good 0 s s' evs) by done.
    destruct Hrest as [->|(l & tail & -> & Hb & Hu & Ht)]; cbn [read_lines]; [done|].
    rewrite blank_eqb, bool_decide_eq_false_2, Hu, read_lines_pending by done. by rewrite decide_True by by apply Hnb.
Qed.

(** Corruption is never skipped.  When [ReadRecords] reports a malformed or
    rejected line, the number it names is that line's position in the file,
    counted from one with the blank lines; the line really is unreadable, and
    the callback received exactly the events of the lines before it. *)
Theorem ReadRecords_names_line r s s' n :
  (ReadRecords fn r s = (s', Some (MalformedLine n)) \/ exists e, ReadRecords fn r s = (s', Some (RejectedLine n e))) ->
  exists good line rest evs, fst (ScanLines (rd_data r)) = good ++ line :: rest /\ n = Z.of_nat (length good) + 1
    /\ ~ blank line /\ ~ (exists ev, decodes line ev)
    /\ Forall2 decodes (filter (fun l => ~ blank l) good) evs /\ feed fn s evs = (s', None).
Proof.
  unfold ReadRecords. destruct (ScanLines (rd_data r)) as [lines ok]. cbn [fst].
  destruct (read_lines_inv fn lines 0 s) as (good & rest & evs & s1 & -> & Hg & Hf & Hs).
  set (res := read_lines fn (good ++ rest) 0 None s) in *. intros Hr.
  assert (Hres : res = (s', Some (MalformedLine n)) \/ exists e, res = (s', Some (RejectedLine n e))).
  { destruct res as [s2 [e|]]; destruct Hr as [Hr|[e' Hr]]; simplify_eq; eauto;
      destruct ok; cbn in Hr; try done; by destruct (rd_failed r). }
  clear Hr. inversion Hs as [H1 H2|l tail Hb Hu H1 H2|l tail rec e Hb Hu He H1 H2|l tail ev s2 e Hb Hd Hcb H1 H2]; subst;
    rewrite <- H2 in Hres.
  - by destruct Hres as [?|[??]].
  - case_decide; destruct Hres as [Hres|[? Hres]]; simplify_eq.
    exists good, l, tail, evs. split_and!; [done|lia|done| |done..]. intros (ev & rec & ? & ?). congruence.
  - destruct Hres as [Hres|[? Hres]]; simplify_eq.
    exists good, l, tail, evs. split_and!; [done|lia|done| |done..]. intros (ev & rec' & ? & ?). congruence.
  - by destruct Hres as [?|[??]].
Qed.
End properties.

(** ** Concrete runs

    A capture of an [execve] and of the return of a [socket] call, one JSON
    object per line, cut off in its third line; the decoder knows the two lines. *)

Definition example_exec_event : Event :=
  Decode (mkRaw 1500 42 42 1000 1000 7 SysExecve 0 0 0 0 0 0 0 0 "bash" "/bin/id" ["id"]) 1709251199123456789.
Definition example_exit_event : Event :=
  Decode (mkRaw 2500 42 42 1000 1000 7 SysSocket 3 0 0 0 0 0 0 FlagSysExit "nc" "" []) 1709251199123456789.

Definition example_decoder : RecordDecoder := {|
  Unmarshal := fun line =>
    assoc line [("{exec}", json_image (NewRecord example_exec_event));
                ("{exit}", json_image (NewRecord example_exit_event))]
|}.

(** The callback of a test: collect, and never fail. *)
Definition collect (seen : list Event) (ev : Event) : list Event * option Empty_set := (seen ++ [ev], None).

Lemma capture_roundtrip_witness :
  @ReadRecords example_decoder _ _ collect (mkReader (unlines ["{exec}"; "{exit}"] +:+ "{exe") false) []
  = ([captured example_exec_event; captured example_exit_event], None)
  /\ captured example_exec_event = replayed example_exec_event.
Proof.
  split; [|vm_compute; reflexivity].
  apply (@capture_roundtrip example_decoder _ _ collect [example_exec_event; example_exit_event]
           ["{exec}"; "{exit}"] "{exe" []).
  - apply Forall_cons_2; [|apply Forall_cons_2; [|apply Forall_nil_2]];
      (apply Decode_capturable; [split; z_compute|intros Hx; vm_compute in Hx; (reflexivity || discriminate)|split; z_compute]).
  - apply Forall2_cons_2; [|apply Forall2_cons_2; [|apply Forall2_nil_2]]; unfold plain_line; split_and!; (reflexivity || by_compute).
  - reflexivity.
  - reflexivity.
  - right. reflexivity.
Defined.

Lemma ReadRecords_names_line_witness :
  exists good line rest evs,
    fst (ScanLines (unlines ["{exec}"; ""; "garbage"; "{exit}"])) = good ++ line :: rest
    /\ 3 = Z.of_nat (length good) + 1 /\ ~ blank line /\ ~ (exists ev, @decodes example_decoder line ev)
    /\ Forall2 (@decodes example_decoder) (filter (fun l => ~ blank l) good) evs
    /\ feed collect [] evs = ([replayed example_exec_event], None).
Proof.
  apply (@ReadRecords_names_line example_decoder _ _ collect (mkReader (unlines ["{exec}"; ""; "garbage"; "{exit}"]) false)
           [] [replayed example_exec_event] 3).
  left. vm_compute. reflexivity.
Defined.

(** A restarted agent appends to the capture it was killed while writing: the
    line cut short and the first line of the new run become one malformed line
    that is no longer the last, and the capture is refused from there on. *)
Lemma restarted_capture_refused :
  @ReadRecords example_decoder _ _ collect
    (mkReader ((unlines ["{exec}"] +:+ "{ex") +:+ unlines ["{exec}"; "{exit}"]) false) []
  = ([replayed example_exec_event], Some (MalformedLine 2)).
Proof. vm_compute. reflexivity. Qed.

(** A complete line that is not JSON, ended by its line break and followed by a
    blank one, is taken for a line cut short: no error, and no event. *)
Lemma complete_malformed_line_passes :
  @ReadRecords example_decoder _ _ collect (mkReader (unlines ["{exec}"; "garbage"; ""]) false) []
  = ([replayed example_exec_event], None).
Proof. vm_compute. reflexivity. Qed.

(** A process whose name is not valid UTF-8 does not come back from the capture
    by that name. *)
Definition latin1_event : Event :=
  Decode (mkRaw 1500 42 42 1000 1000 7 SysExecve 0 0 0 0 0 0 0 0 (String (chr 0xE9) "vil") "/bin/id" ["id"]) 1709251199123456789.
Lemma capture_alters_invalid_text :
  ev_Comm (captured latin1_event) = replacement +:+ "vil" /\ captured latin1_event <> replayed latin1_event.
Proof. split; [vm_compute; reflexivity|]. intros E. apply (f_equal ev_Comm) in E. vm_compute in E. discriminate E. Qed.
