(* ===== verification/Replay.v ===== *)
(** * Replay equivalence ([detect/engine.go] over [events/record.go])

    A capture keeps the wall clock to the millisecond only, and no rule, tracker
    entry, storyline or deduplication key reads the wall clock.  The engine of a
    replay is not the live one's: [run] gives it no id of its own and no lookup in
    [/proc] ([replay_config]).  The rules read neither, so a replay raises the rule
    alerts of the live run; attack chains can be missed ([replay_misses_chain]),
    since lineage then comes from the captured events alone.  The file modes that
    the rules ask [os.Stat] for are taken to be the same in both runs: they are the
    configuration's [StatFunc] on both sides. *)

From S2P Require Import Prelude GoStrings GoTime GoDate Syscalls Events Alerts Tracker Dedup.
From S2P Require Import Config PrivEsc Ptrace SensitiveFile RevShell Storyline Engine EngineProps Record.

(** An alert with its timestamp replaced, and with it cut to the millisecond. *)
Definition set_al_Timestamp (w : Z) (a : Alert) : Alert :=
  mkAlert w (al_PID a) (al_TID a) (al_PPID a) (al_Comm a) (al_UID a) (al_GID a)
    (al_Syscall a) (al_Args a) (al_MitreID a) (al_MitreTechnique a) (al_Severity a)
    (al_Description a) (al_Rule a) (al_Storyline a) (al_Suppressed a) (al_Story a).
Definition restamp (a : Alert) : Alert := set_al_Timestamp (truncate_ms (al_Timestamp a)) a.

Definition ctx_set_Wall (c : Context) (w : Z) : Context :=
  mkContext (set_Wall (ctx_Event c) w) (ctx_History c) (ctx_Config c).

(** A rule that reads the wall clock only to stamp its alert. *)
Class ClockBlind (r : Rule) := clock_blind c w :
  rule_Eval r (ctx_set_Wall c w) = (set_al_Timestamp w <$> fst (rule_Eval r c), snd (rule_Eval r c)).

Section replay.
Context `{UnicodeTables} `{Host}.

(** Both sides of [clock_blind] take the same branches. *)
Ltac clock_cases c :=
  destruct c as [[] ? ?]; unfold ctx_set_Wall, set_Wall;
  cbn [ctx_Event ctx_Config ctx_History ev_Timestamp ev_Wall ev_PID ev_TID ev_TGID ev_UID ev_GID
       ev_PPID ev_Comm ev_Syscall ev_SyscallID ev_Args ev_ReturnValue ev_IsExit ev_Arg0 ev_Arg1
       ev_Arg2 ev_Path ev_Argv ev_DestIP ev_DestPort ev_Family];
  repeat (case_match; try reflexivity).

#[export] Instance privesc_clock_blind : ClockBlind rulePrivilegeEscalation.
Proof.
  intros c w. cbn [rule_Eval rulePrivilegeEscalation].
  unfold evalPrivilegeEscalation, evalSuidExec, silent, evalSetuid, evalSetresuid, evalSetgid, evalSetresgid, evalCapset.
  clock_cases c.
Qed.

#[export] Instance ptrace_clock_blind : ClockBlind rulePtraceInjection.
Proof.
  intros c w. cbn [rule_Eval rulePtraceInjection]. unfold evalPtraceInjection, silent. clock_cases c.
Qed.

#[export] Instance sensitive_clock_blind : ClockBlind ruleSensitiveFileAccess.
Proof.
  intros c w. cbn [rule_Eval ruleSensitiveFileAccess]. unfold evalSensitiveFileAccess.
  rewrite !sensitive_loop_first. unfold sensitive_hit, silent. clock_cases c.
Qed.

#[export] Instance revshell_clock_blind : ClockBlind ruleReverseShell.
Proof.
  intros c w. cbn [rule_Eval ruleReverseShell]. unfold evalReverseShell, silent. clock_cases c.
Qed.

Lemma allRules_clock_blind : Forall ClockBlind allRules.
Proof. repeat (apply Forall_cons_2; [apply _|]). apply Forall_nil_2. Qed.

(** ** The stages of [Evaluate] *)

Lemma Correlate_clock co ev args a w :
  Correlate co (set_Wall ev w) args (set_al_Timestamp w a) =
  let '(chain, a, co) := Correlate co ev args a in (set_al_Timestamp w <$> chain, set_al_Timestamp w a, co).
Proof.
  destruct co as [c|]; [|done]. cbn [Correlate]. unfold correlate.
  cbn [set_Wall ev_PID ev_PPID ev_Timestamp]. destruct (ancestry _ _ _ _) as [chain c1].
  destruct (storyFor c1 chain _) as [p c2]. cbn zeta.
  change (TacticsFor (set_al_Timestamp w a)) with (TacticsFor a).
  change (raises ?t ?s ?s' (set_Storyline (set_al_Timestamp w a) ?i)) with (raises t s s' (set_Storyline a i)).
  destruct (raises _ _ _ _); reflexivity.
Qed.
Lemma dedup_admit_clock dd args a now w :
  dedup_admit dd args (set_al_Timestamp w a) now =
  let '(ok, a, dd) := dedup_admit dd args a now in (ok, set_al_Timestamp w a, dd).
Proof.
  destruct dd as [d|]; [|done]. cbn [dedup_admit].
  change (dedupKey args (set_al_Timestamp w a)) with (dedupKey args a).
  destruct (admit_key _ _ _) as [[ok [n|]] d']; reflexivity.
Qed.

Definition stamp_state (w : Z) (st : eval_state) : eval_state :=
  mkEval (set_al_Timestamp w <$> es_alerts st) (es_args st) (es_correlator st) (es_dedup st).

Lemma eval_rule_clock cfg h ev w st r :
  ClockBlind r -> eval_rule cfg h (set_Wall ev w) (stamp_state w st) r = stamp_state w (eval_rule cfg h ev st r).
Proof.
  intros Hr. unfold eval_rule. cbn [stamp_state es_alerts es_args es_correlator es_dedup].
  change (mkContext (set_Args (set_Wall ev w) (es_args st)) h cfg)
    with (ctx_set_Wall (mkContext (set_Args ev (es_args st)) h cfg) w).
  rewrite (clock_blind (ClockBlind := Hr)). destruct (rule_Eval r _) as [[a|] args]; cbn [fmap option_fmap option_map fst snd]; [|done].
  change (al_Args (set_al_Timestamp w a)) with (al_Args a). rewrite Correlate_clock.
  destruct (Correlate _ _ _ _) as [[chain a1] co]. change (al_Args (set_al_Timestamp w a1)) with (al_Args a1).
  change (ev_Timestamp (set_Wall ev w)) with (ev_Timestamp ev). rewrite dedup_admit_clock.
  destruct (dedup_admit _ _ _ _) as [[ok a2] dd]. unfold stamp_state. cbn [es_alerts es_args es_correlator es_dedup].
  f_equal. destruct ok, chain; cbn; by rewrite ?fmap_app.
Qed.

Lemma eval_rules_clock cfg h ev w rules st :
  Forall ClockBlind rules ->
  foldl (eval_rule cfg h (set_Wall ev w)) (stamp_state w st) rules = stamp_state w (foldl (eval_rule cfg h ev) st rules).
Proof.
  intros Hr. revert st. induction Hr as [|r rules Hr _ IH]; intros st; cbn [foldl]; [done|].
  by rewrite eval_rule_clock, IH.
Qed.

(** An event seen with another wall clock: the same alerts, stamped with it. *)
Lemma Evaluate_clock e ev w :
  Forall ClockBlind (en_rules e) ->
  Evaluate e (set_Wall ev w) =
  let '(alerts, args, e) := Evaluate e ev in (set_al_Timestamp w <$> alerts, args, e).
Proof.
  intros Hr. unfold Evaluate. change (ev_PID (set_Wall ev w)) with (ev_PID ev).
  destruct (ev_PID ev =? cfg_SelfPID (en_cfg e)); [done|].
  change (Observe (en_correlator e) (set_Wall ev w)) with (Observe (en_correlator e) ev).
  change (Record_ (en_tracker e) (set_Wall ev w)) with (Record_ (en_tracker e) ev).
  destruct (Record_ _ _) as [h tr].
  change (mkEval [] (ev_Args (set_Wall ev w)) ?co ?dd) with (stamp_state w (mkEval [] (ev_Args ev) co dd)).
  rewrite eval_rules_clock by done. cbn [stamp_state es_alerts es_args es_correlator es_dedup].
  rewrite <- !list_fmap_compose. done.
Qed.

Lemma Evaluate_stamp e ev alerts args e' :
  Forall ClockBlind (en_rules e) -> Evaluate e ev = (alerts, args, e') ->
  Forall (fun a => al_Timestamp a = ev_Wall ev) alerts.
Proof.
  intros Hr He. pose proof (Evaluate_clock e ev (ev_Wall ev) Hr) as Hc.
  assert (set_Wall ev (ev_Wall ev) = ev) as Hev by by destruct ev. rewrite Hev, He in Hc.
  injection Hc as Hc. apply Forall_forall. intros a [i Ha]%list_elem_of_lookup.
  pose proof (f_equal (.!! i) Hc) as Hi. rewrite list_lookup_fmap, Ha in Hi. cbn in Hi. injection Hi as Hi.
  by rewrite Hi.
Qed.

Lemma Evaluate_replayed e ev :
  Forall ClockBlind (en_rules e) ->
  Evaluate e (replayed ev) = let '(alerts, args, e) := Evaluate e ev in (restamp <$> alerts, args, e).
Proof.
  intros Hr. unfold replayed. rewrite Evaluate_clock by done.
  destruct (Evaluate e ev) as [[alerts args] e'] eqn:He. do 2 f_equal.
  apply Evaluate_stamp in He as Hs; [|done]. clear -Hs.
  induction Hs as [|a alerts Ha _ IH]; [done|]. cbn. rewrite <- IH. unfold restamp. by rewrite Ha.
Qed.

Lemma Evaluate_rules e ev : en_rules (snd (Evaluate e ev)) = en_rules e.
Proof.
  unfold Evaluate. destruct (ev_PID ev =? _); [done|]. by destruct (Record_ _ _) as [h tr].
Qed.

Lemma evaluate_all_replayed e evs :
  Forall ClockBlind (en_rules e) ->
  evaluate_all e (replayed <$> evs) =
  let '(alerts, e) := evaluate_all e evs in ((fmap (M:=list) restamp) <$> alerts, e).
Proof.
  revert e. induction evs as [|ev evs IH]; intros e Hr; [done|]. cbn [fmap list_fmap evaluate_all].
  rewrite Evaluate_replayed by done. pose proof (Evaluate_rules e ev) as Hrules.
  destruct (Evaluate e ev) as [[alerts args] e']. cbn [snd] in Hrules.
  rewrite IH by by rewrite Hrules. by destruct (evaluate_all e' evs) as [rest e''].
Qed.

Lemma NewEngine_clock_blind cfg enabled e : NewEngine cfg enabled = inl e -> Forall ClockBlind (en_rules e).
Proof.
  intros He. pose proof (NewEngine_cases cfg enabled) as Hc. rewrite He in Hc. destruct Hc as (_ & _ & -> & _).
  destruct (decide (enabled = [])); [apply allRules_clock_blind|].
  apply Forall_forall. intros r [_ Hin]%list_elem_of_filter.
  pose proof allRules_clock_blind as Ha. rewrite Forall_forall in Ha. by apply Ha.
Qed.

(** ** The engine of a replay

    What [run] builds to replay with: the live configuration without the agent's
    own id and without [/proc]. *)
Definition replay_config (cfg : Config) : Config :=
  let sc := cfg_Storyline cfg in
  mkConfig (cfg_RevShellWindow cfg) (cfg_DebuggerComms cfg) (cfg_IgnoreLoopback cfg) (cfg_IgnoreSelfProc cfg) (cfg_Stat cfg)
    (cfg_DedupWindow cfg) (mkStorylineConfig (sc_Enabled sc) (sc_Threshold sc) (sc_Window sc) None) 0.

(** What the rules found, apart from how it was correlated: no attack chains, no
    storyline ids. *)
Definition verdicts (alerts : list Alert) : list Alert :=
  (fun a => set_Storyline a "") <$> filter (fun a => al_Rule a <> RuleNameAttackChain) alerts.

(** A rule that reads neither what [replay_config] takes away. *)
Class ScopeBlind (r : Rule) := scope_blind ev h cfg :
  rule_Eval r (mkContext ev h (replay_config cfg)) = rule_Eval r (mkContext ev h cfg).

#[export] Instance privesc_scope_blind : ScopeBlind rulePrivilegeEscalation.
Proof. done. Qed.
#[export] Instance ptrace_scope_blind : ScopeBlind rulePtraceInjection.
Proof. done. Qed.
#[export] Instance sensitive_scope_blind : ScopeBlind ruleSensitiveFileAccess.
Proof.
  intros ev h cfg. cbn [rule_Eval ruleSensitiveFileAccess]. unfold evalSensitiveFileAccess. by rewrite !sensitive_loop_first.
Qed.
#[export] Instance revshell_scope_blind : ScopeBlind ruleReverseShell.
Proof. done. Qed.

Lemma allRules_scope_blind : Forall ScopeBlind allRules.
Proof. repeat (apply Forall_cons_2; [apply _|]). apply Forall_nil_2. Qed.

Lemma verdicts_app l1 l2 : verdicts (l1 ++ l2) = verdicts l1 ++ verdicts l2.
Proof. unfold verdicts. by rewrite filter_app, fmap_app. Qed.
Lemma verdicts_chain c s : verdicts [chainAlert c s] = [].
Proof. unfold verdicts. by rewrite filter_cons_False by (intros Hn; by apply Hn). Qed.
Lemma verdicts_storyline a i : verdicts [set_Storyline a i] = verdicts [a].
Proof. unfold verdicts. rewrite !filter_cons. cbn [set_Storyline al_Rule]. by case_decide. Qed.

(** The correlator's part in an alert is its storyline id, and a chain. *)
Lemma Correlate_verdict co ev args a :
  let '(chain, a', co') := Correlate co ev args a in
  (exists i, a' = set_Storyline a i) /\ verdicts (match chain with Some c => [c] | None => [] end) = [].
Proof.
  destruct co as [c|]; cbn [Correlate]; [|split; [exists (al_Storyline a); by destruct a|done]].
  unfold correlate. destruct (ancestry _ _ _ _) as [chain c1]. destruct (storyFor c1 chain _) as [p c2]. cbn zeta.
  destruct (raises _ _ _ _); (split; [by eexists|]); [apply verdicts_chain|done].
Qed.

Lemma dedup_admit_storyline dd args a i now :
  dedup_admit dd args (set_Storyline a i) now =
  let '(ok, a, dd) := dedup_admit dd args a now in (ok, set_Storyline a i, dd).
Proof.
  destruct dd as [d|]; [|done]. cbn [dedup_admit]. change (dedupKey args (set_Storyline a i)) with (dedupKey args a).
  destruct (admit_key _ _ _) as [[ok [n|]] d']; reflexivity.
Qed.

(** Two states of the loop over the rules that differ in the correlation only. *)
Record alike (st st' : eval_state) : Prop := {
  ak_args : es_args st' = es_args st;
  ak_dedup : es_dedup st' = es_dedup st;
  ak_alerts : verdicts (es_alerts st') = verdicts (es_alerts st)
}.

Lemma eval_rule_alike cfg h ev st st' r :
  ScopeBlind r -> alike st st' -> alike (eval_rule cfg h ev st r) (eval_rule (replay_config cfg) h ev st' r).
Proof.
  intros Hr [Ha Hd Hv]. unfold eval_rule. rewrite Ha, Hd, scope_blind. destruct (rule_Eval r _) as [[a|] args]; [|by split].
  pose proof (Correlate_verdict (es_correlator st) ev (deref args (al_Args a)) a) as K1.
  pose proof (Correlate_verdict (es_correlator st') ev (deref args (al_Args a)) a) as K2.
  destruct (Correlate (es_correlator st) _ _ _) as [[chain a1] co]. destruct (Correlate (es_correlator st') _ _ _) as [[chain' a2] co'].
  destruct K1 as [[i ->] K1], K2 as [[i' ->] K2]. rewrite !dedup_admit_storyline. cbn [set_Storyline al_Args].
  destruct (dedup_admit _ _ a _) as [[ok a3] dd]. split; cbn [es_args es_dedup es_alerts]; [done..|].
  destruct ok, chain, chain'; rewrite ?verdicts_app, ?K1, ?K2, ?verdicts_storyline, ?Hv, ?app_nil_r; done.
Qed.

Lemma eval_rules_alike cfg h ev rules st st' :
  Forall ScopeBlind rules -> alike st st' ->
  alike (foldl (eval_rule cfg h ev) st rules) (foldl (eval_rule (replay_config cfg) h ev) st' rules).
Proof.
  intros Hr. revert st st'. induction Hr as [|r rules Hr _ IH]; intros st st' Hs; [done|]. apply IH. by apply eval_rule_alike.
Qed.

Lemma eval_rules_scope cfg h ev rules st :
  Forall ScopeBlind rules -> foldl (eval_rule (replay_config cfg) h ev) st rules = foldl (eval_rule cfg h ev) st rules.
Proof.
  intros Hr. revert st. induction Hr as [|r rules Hr _ IH]; intros st; [done|]. cbn [foldl]. rewrite IH. f_equal.
  unfold eval_rule. by rewrite scope_blind.
Qed.

(** An engine and one that replays for it; [same]: with equal correlators. *)
Record twins (same : bool) (e e' : Engine) : Prop := {
  tw_rules : en_rules e' = en_rules e;
  tw_blind : Forall ScopeBlind (en_rules e);
  tw_tracker : en_tracker e' = en_tracker e;
  tw_dedup : en_dedup e' = en_dedup e;
  tw_cfg : en_cfg e' = replay_config (en_cfg e);
  tw_correlator : same = true -> en_correlator e' = en_correlator e
}.

Lemma verdicts_publish args l : verdicts (publish args <$> l) = publish args <$> verdicts l.
Proof.
  unfold verdicts. induction l as [|a l IH]; [done|]. rewrite fmap_cons, !filter_cons. cbn [publish al_Rule].
  case_decide; [cbn; f_equal; exact IH|exact IH].
Qed.

Lemma Evaluate_twins same e e' ev :
  twins same e e' -> ev_PID ev <> 0 -> ev_PID ev <> cfg_SelfPID (en_cfg e) ->
  let '(alerts, _, e1) := Evaluate e ev in
  let '(alerts', _, e1') := Evaluate e' ev in
  twins same e1 e1' /\ verdicts alerts' = verdicts alerts /\ (same = true -> alerts' = alerts).
Proof.
  intros [Hr Hb Ht Hd Hc Hco] Hz Hself. unfold Evaluate. rewrite Hc. cbn [replay_config cfg_SelfPID].
  rewrite (proj2 (Z.eqb_neq _ _) Hz), (proj2 (Z.eqb_neq _ _) Hself), Ht, Hd, Hr.
  destruct (Record_ (en_tracker e) ev) as [h tr].
  set (st0 := mkEval [] (ev_Args ev) (Observe (en_correlator e) ev) (en_dedup e)).
  set (st0' := mkEval [] (ev_Args ev) (Observe (en_correlator e') ev) (en_dedup e)).
  destruct (eval_rules_alike (en_cfg e) h ev (en_rules e) st0 st0' Hb ltac:(done)) as [Ea Ed Ev].
  change (mkConfig _ _ _ _ _ _ _ 0) with (replay_config (en_cfg e)).
  assert (Hsame : same = true -> foldl (eval_rule (replay_config (en_cfg e)) h ev) st0' (en_rules e) = foldl (eval_rule (en_cfg e) h ev) st0 (en_rules e)).
  { intros E. subst st0'. rewrite (Hco E). by apply eval_rules_scope. }
  split_and!; [split; cbn [en_rules en_tracker en_dedup en_cfg en_correlator]; try done|..].
  - intros E. by rewrite (Hsame E).
  - rewrite !verdicts_publish, Ea, Ev. done.
  - intros E. by rewrite (Hsame E).
Qed.

Lemma evaluate_all_twins same e e' evs :
  twins same e e' -> Forall (fun ev => ev_PID ev <> 0 /\ ev_PID ev <> cfg_SelfPID (en_cfg e)) evs ->
  let '(alerts, _) := evaluate_all e evs in
  let '(alerts', _) := evaluate_all e' evs in
  verdicts <$> alerts' = verdicts <$> alerts /\ (same = true -> alerts' = alerts).
Proof.
  intros Ht Hevs. revert e e' Ht Hevs. induction evs as [|ev evs IH]; intros e e' Ht Hevs; [done|]. cbn [evaluate_all].
  apply Forall_cons in Hevs as [[Hz Hs] Hevs]. pose proof (Evaluate_twins same e e' ev Ht Hz Hs) as He.
  assert (Hcfg : en_cfg (snd (Evaluate e ev)) = en_cfg e).
  { unfold Evaluate. destruct (ev_PID ev =? _); [done|]. by destruct (Record_ _ _). }
  destruct (Evaluate e ev) as [[al args] e1], (Evaluate e' ev) as [[al' args'] e1']. cbn [snd] in Hcfg. rewrite <- Hcfg in Hevs.
  destruct He as (Ht1 & Hv & Hsame). specialize (IH e1 e1' Ht1 Hevs).
  destruct (evaluate_all e1 evs) as [rest e2], (evaluate_all e1' evs) as [rest' e2']. destruct IH as [IHv IHs].
  rewrite !fmap_cons, Hv, IHv. split; [done|]. intros E. by rewrite (Hsame E), (IHs E).
Qed.

(** When the replaying engine correlates as the live one: it does not, or it never
    looked at [/proc]. *)
Definition correlates_alike (cfg : Config) : bool :=
  negb (sc_Enabled (cfg_Storyline cfg)) || match sc_Lookup (cfg_Storyline cfg) with Some _ => false | None => true end.

Lemma NewEngine_scope_blind cfg enabled e : NewEngine cfg enabled = inl e -> Forall ScopeBlind (en_rules e).
Proof.
  intros He. pose proof (NewEngine_cases cfg enabled) as Hc. rewrite He in Hc. destruct Hc as (_ & _ & -> & _).
  destruct (decide (enabled = [])); [apply allRules_scope_blind|].
  apply Forall_forall. intros r [_ Hin]%list_elem_of_filter.
  pose proof allRules_scope_blind as Ha. rewrite Forall_forall in Ha. by apply Ha.
Qed.

Lemma NewEngine_self cfg enabled e : NewEngine cfg enabled = inl e -> cfg_SelfPID (en_cfg e) = cfg_SelfPID cfg.
Proof.
  assert (Hself : cfg_SelfPID (fill_Window (fill_Stat cfg)) = cfg_SelfPID cfg).
  { unfold fill_Window, fill_Stat. by destruct (cfg_Stat cfg), (_ <=? 0). }
  unfold NewEngine. destruct (length enabled =? 0)%nat; [by intros [= <-]|]. destruct (pick_rules _ _) as [rules wanted].
  destruct (0 <? size wanted)%nat; [done|]. destruct (length rules =? 0)%nat; [done|]. by intros [= <-].
Qed.

Lemma NewEngine_twins cfg enabled e :
  NewEngine cfg enabled = inl e ->
  exists e', NewEngine (replay_config cfg) enabled = inl e' /\ twins (correlates_alike cfg) e e'.
Proof.
  intros He. pose proof (NewEngine_scope_blind _ _ _ He) as Hb. unfold NewEngine in *.
  assert (Hfill : fill_Window (fill_Stat (replay_config cfg)) = replay_config (fill_Window (fill_Stat cfg))).
  { destruct cfg as [rw dc il isp [f|] dw sl self]; unfold fill_Window, fill_Stat; cbn; by destruct (rw <=? 0). }
  rewrite Hfill. set (full := fill_Window (fill_Stat cfg)) in *.
  assert (Hst : cfg_Storyline full = cfg_Storyline cfg).
  { unfold full, fill_Window, fill_Stat. by destruct (cfg_Stat cfg), (_ <=? 0). }
  assert (Hco : correlates_alike cfg = true -> NewCorrelator (cfg_Storyline (replay_config full)) = NewCorrelator (cfg_Storyline full)).
  { unfold correlates_alike. rewrite <- Hst. clearbody full. destruct full as [? ? ? ? ? ? [[] ? ? [f|]] ?]; done. }
  destruct (length enabled =? 0)%nat.
  - injection He as <-. eexists. split; [done|]. by split.
  - destruct (pick_rules _ _) as [rules wanted]. destruct (0 <? size wanted)%nat; [done|]. destruct (length rules =? 0)%nat; [done|].
    injection He as <-. eexists. split; [done|]. by split.
Qed.

(** ** Replaying a capture

    The callback of a replay without filter or sinks: evaluate each event and
    keep its alerts. *)
Definition replay_step (st : list (list Alert) * Engine) (ev : Event) : (list (list Alert) * Engine) * option Empty_set :=
  let '(seen, e) := st in
  let '(alerts, _, e) := Evaluate e ev in ((seen ++ [alerts], e), None).

Lemma captured_readable evs : Forall readable evs -> captured <$> evs = replayed <$> evs.
Proof. induction 1 as [|ev evs Hr _ IH]; [done|]. cbn. by rewrite readable_captured, IH. Qed.

Lemma verdicts_restamp l : verdicts (restamp <$> l) = restamp <$> verdicts l.
Proof.
  unfold verdicts. induction l as [|a l IH]; [done|]. rewrite fmap_cons, !filter_cons. cbn [restamp set_al_Timestamp al_Rule].
  case_decide; [cbn; f_equal; exact IH|exact IH].
Qed.

(** The two engines on the same events, the second with the captured clocks. *)
Lemma replayed_twins cfg enabled e e' evs :
  NewEngine cfg enabled = inl e -> NewEngine (replay_config cfg) enabled = inl e' ->
  Forall (fun ev => ev_PID ev <> 0 /\ ev_PID ev <> cfg_SelfPID cfg) evs ->
  let alerts := fst (evaluate_all e' (replayed <$> evs)) in
  let live := fst (evaluate_all e evs) in
  verdicts <$> alerts = (fun l => verdicts (restamp <$> l)) <$> live
  /\ (correlates_alike cfg = true -> alerts = (fmap (M:=list) restamp) <$> live).
Proof.
  intros He He' Hpid. destruct (NewEngine_twins _ _ _ He) as (e2 & He2 & Ht). rewrite He' in He2. injection He2 as <-.
  assert (Hself : cfg_SelfPID (en_cfg e) = cfg_SelfPID cfg) by by eapply NewEngine_self.
  rewrite <- Hself in Hpid. pose proof (evaluate_all_twins _ _ _ evs Ht Hpid) as Hev. cbv zeta.
  rewrite (evaluate_all_replayed e' evs) by by eapply NewEngine_clock_blind.
  destruct (evaluate_all e evs) as [al e1], (evaluate_all e' evs) as [al' e1']. cbn [fst]. destruct Hev as [Hv Hsame].
  split; [|intros E; by rewrite (Hsame E)]. rewrite <- list_fmap_compose. clear -Hv. revert al' Hv.
  induction al as [|l al IH]; intros [|l' al'] Hv; try done. rewrite !fmap_cons in *. injection Hv as Hl Hv.
  unfold compose at 1. rewrite !verdicts_restamp, Hl. f_equal. by apply IH.
Qed.

Lemma feed_replay_step evs seen e :
  feed replay_step (seen, e) evs =
  let '(alerts, e) := evaluate_all e evs in ((seen ++ alerts, e), None).
Proof.
  revert seen e. induction evs as [|ev evs IH]; intros seen e; cbn; [by rewrite app_nil_r|].
  destruct (Evaluate e ev) as [[alerts args] e']. rewrite IH. destruct (evaluate_all e' evs) as [rest e''].
  by rewrite <- app_assoc.
Qed.

End replay.

(** ** Concrete replays

    A non-root process calls [setuid(0)] and is reported, live and in replay; the
    live agent looks [/proc] up, as [run]'s does. *)
Definition example_raw (pid ppid id a0 a1 : Z) (path : string) : Raw :=
  mkRaw (pid * 1000) pid pid 1000 1000 ppid id 0 a0 a1 0 0 0 0 0 "sh" path [].
Definition example_setuid_event : Event := Decode (example_raw 100 60 SysSetuid 0 0 "") 1709251199123456789.
Definition example_ptrace_event : Event := Decode (example_raw 200 70 SysPtrace 16 4 "") 1709251199123456789.
Definition example_shadow_event : Event := Decode (example_raw 200 70 SysOpenat 0 0 "/etc/shadow") 1709251199123456789.

(** [/proc] knows that both parents are children of process 50. *)
Definition example_proc_lookup : ProcLookup := fun pid =>
  if pid =? 60 then Some (50, "make") else if pid =? 70 then Some (50, "make")
  else if pid =? 50 then Some (1, "make") else None.

Definition example_setuid_decoder : RecordDecoder := {|
  Unmarshal := fun line => assoc line [("{setuid}", json_image (NewRecord example_setuid_event))]
|}.

#[local] Existing Instance example_tables.
#[local] Existing Instance example_host.
#[local] Existing Instance example_setuid_decoder.

(** The configuration [run] builds from the default flags. *)
Definition example_live_config : Config :=
  mkConfig (cfg_RevShellWindow DefaultConfig) (cfg_DebuggerComms DefaultConfig) false false (cfg_Stat DefaultConfig)
    (cfg_DedupWindow DefaultConfig) (mkStorylineConfig true 3 (10 * Minute) (Some example_proc_lookup))
    (cfg_SelfPID DefaultConfig).

Definition example_engine (cfg : Config) : Engine :=
  match NewEngine cfg [] with inl e => e | inr _ => mkEngine [] NewTracker None None cfg end.


Example example_replay_alerts :
  (fmap (M:=list) al_Rule) <$> fst (evaluate_all (example_engine (replay_config example_live_config)) [replayed example_setuid_event])
  = [[RuleNamePrivilegeEscalation]].
Proof. vm_compute. reflexivity. Qed.

(** What a replay can miss.  Processes 100 and 200 have no common ancestor in the
    capture, only in [/proc]: live, their alerts are one storyline and the third
    tactic raises an attack chain; in replay they are two storylines. *)
Lemma replay_misses_chain :
  let evs := [example_setuid_event; example_ptrace_event; example_shadow_event] in
  (fmap (M:=list) al_Rule) <$> fst (evaluate_all (example_engine example_live_config) evs)
    = [[RuleNamePrivilegeEscalation]; [RuleNameProcessInjection]; [RuleNameSensitiveFile; RuleNameAttackChain]]
  /\ (fmap (M:=list) al_Rule) <$> fst (evaluate_all (example_engine (replay_config example_live_config)) (replayed <$> evs))
    = [[RuleNamePrivilegeEscalation]; [RuleNameProcessInjection]; [RuleNameSensitiveFile]].
Proof. split; vm_compute; reflexivity. Qed.
