(* ===== verification/Sinks.v ===== *)
(** * Sinks ([output/sink.go], [output/jsonl.go])

    The fan-out to several destinations, and the two append-only files.  What a
    sink does to the world is a function on the world: the files, and what was
    written to the terminal.  The disk may refuse to open a file, and may fail a
    write after any number of bytes; [Disk] says when.  Each file is written by one
    [json.Encoder], which is documented to keep the first error of its writer: once
    a write has failed, nothing more is ever written through it. *)

From S2P Require Import Prelude GoStrings GoText Events Alerts Record.

(** ** The world *)
Record World := mkWorld { wd_files : gmap string string; wd_terminal : string }.

(** [os.OpenFile], [Write], [Sync] and [Close] of a file: whether they succeed;
    a failed write has written the first bytes only. *)
Class Disk := {
  dk_open : string -> bool;
  dk_short : string -> string -> option nat;
  dk_sync : string -> bool;
  dk_close : string -> bool
}.

(** [encoding/json] on an alert and on a record: [None] is any of its errors. *)
Class Encoder := { encode_Alert : Alert -> option string; encode_Rec : Rec -> option string }.

Definition content (w : World) (path : string) : string := default "" (wd_files w !! path).

(** Opening with [O_CREATE|O_WRONLY|O_APPEND], and a write to the open file. *)
Definition open_append `{Disk} (path : string) (w : World) : bool * World :=
  if dk_open path then (true, mkWorld (<[path := content w path]> (wd_files w)) (wd_terminal w)) else (false, w).
Definition append `{Disk} (path data : string) (w : World) : bool * World :=
  match dk_short path data with
  | None => (true, mkWorld (<[path := content w path +:+ data]> (wd_files w)) (wd_terminal w))
  | Some n => (false, mkWorld (<[path := content w path +:+ stake n data]> (wd_files w)) (wd_terminal w))
  end.

Inductive sink_error :=
  | OpenError (path : string)
  | ClosedError (path : string)
  | WriteError (path : string)
  | CloseError (path : string)
  | SyncError (path : string)
  | OtherError (text : string).

(** ** The interface, and the fan-out

    A sink is its state and the two methods, which may change it; a nil one is
    [None]. *)
Record Sink := mkSink {
  sk_State : Type;
  sk_state : sk_State;
  sk_Write : sk_State -> Alert -> World -> option sink_error * sk_State * World;
  sk_Close : sk_State -> World -> option sink_error * sk_State * World
}.

Definition sink_write (s : Sink) (a : Alert) (w : World) : option sink_error * Sink * World :=
  let '(e, st, w) := sk_Write s (sk_state s) a w in (e, mkSink (sk_State s) st (sk_Write s) (sk_Close s), w).
Definition sink_close (s : Sink) (w : World) : option sink_error * Sink * World :=
  let '(e, st, w) := sk_Close s (sk_state s) w in (e, mkSink (sk_State s) st (sk_Write s) (sk_Close s), w).

(** [type MultiSink []Sink]; a nil sink is skipped. *)
Definition MultiSink : Type := list (option Sink).

(** [MultiSink.Write] and [MultiSink.Close]: the errors joined. *)
Fixpoint MultiSink_Write (m : list (option Sink)) (a : Alert) (w : World) : list sink_error * list (option Sink) * World :=
  match m with
  | [] => ([], [], w)
  | None :: m => let '(errs, m, w) := MultiSink_Write m a w in (errs, None :: m, w)
  | Some s :: m =>
      let '(err, s, w) := sink_write s a w in
      let '(errs, m, w) := MultiSink_Write m a w in
      (match err with Some e => e :: errs | None => errs end, Some s :: m, w)
  end.

Fixpoint MultiSink_Close (m : list (option Sink)) (w : World) : list sink_error * list (option Sink) * World :=
  match m with
  | [] => ([], [], w)
  | None :: m => let '(errs, m, w) := MultiSink_Close m w in (errs, None :: m, w)
  | Some s :: m =>
      let '(err, s, w) := sink_close s w in
      let '(errs, m, w) := MultiSink_Close m w in
      (match err with Some e => e :: errs | None => errs end, Some s :: m, w)
  end.

(** ** The files *)
Section files.
Context `{Disk} `{Encoder}.

(** [json.Encoder.Encode]: the value ([None] when it cannot be encoded) and a
    newline, in one write.  [failed]: an earlier write failed. *)
Definition Encode (path : string) (failed : bool) (value : option string) (w : World) : bool * bool * World :=
  if failed then (false, true, w)
  else
    match value with
    | None => (false, false, w)
    | Some line => let '(ok, w) := append path (line +:+ nl) w in (ok, negb ok, w)
    end.

(** [type JSONLSink struct] and [type EventSink struct]: the path, whether the
    file is open (a nil file is closed), and whether the encoder has failed. *)
Record JSONLSink := mkJSONLSink { js_path : string; js_open : bool; js_failed : bool }.
Record EventSink := mkEventSink { es_path : string; es_open : bool; es_failed : bool }.
Definition JSONLSink_Path (s : JSONLSink) : string := js_path s.
Definition EventSink_Path (s : EventSink) : string := es_path s.

Definition NewJSONLSink (path : string) (w : World) : (JSONLSink + sink_error) * World :=
  let '(ok, w) := open_append path w in
  (if ok then inl (mkJSONLSink path true false) else inr (OpenError path), w).

Definition JSONLSink_Write (s : JSONLSink) (a : Alert) (w : World) : option sink_error * JSONLSink * World :=
  if negb (js_open s) then (Some (ClosedError (js_path s)), s, w)
  else
    let '(ok, failed, w) := Encode (js_path s) (js_failed s) (encode_Alert a) w in
    (if ok then None else Some (WriteError (js_path s)), mkJSONLSink (js_path s) true failed, w).

Definition JSONLSink_Close (s : JSONLSink) (w : World) : option sink_error * JSONLSink * World :=
  if negb (js_open s) then (None, s, w)
  else
    (if negb (dk_close (js_path s)) then Some (CloseError (js_path s))
     else if negb (dk_sync (js_path s)) then Some (SyncError (js_path s))
     else None,
     mkJSONLSink (js_path s) false (js_failed s), w).

Definition NewEventSink (path : string) (w : World) : (EventSink + sink_error) * World :=
  let '(ok, w) := open_append path w in
  (if ok then inl (mkEventSink path true false) else inr (OpenError path), w).

Definition EventSink_WriteEvent (s : EventSink) (ev : Event) (w : World) : option sink_error * EventSink * World :=
  if negb (es_open s) then (Some (ClosedError (es_path s)), s, w)
  else
    let '(ok, failed, w) := Encode (es_path s) (es_failed s) (encode_Rec (NewRecord ev)) w in
    (if ok then None else Some (WriteError (es_path s)), mkEventSink (es_path s) true failed, w).

Definition EventSink_Close (s : EventSink) (w : World) : option sink_error * EventSink * World :=
  if negb (es_open s) then (None, s, w)
  else
    (if negb (dk_close (es_path s)) then Some (CloseError (es_path s)) else None, mkEventSink (es_path s) false (es_failed s), w).

Definition jsonl_sink (s : JSONLSink) : Sink :=
  mkSink JSONLSink s JSONLSink_Write JSONLSink_Close.
End files.

(** ** Lemmas *)

Section facts.
Context `{Disk} `{Encoder}.

Lemma content_append path data w :
  dk_short path data = None -> content (snd (append path data w)) path = content w path +:+ data.
Proof. intros Hd. unfold append, content. rewrite Hd. cbn. by rewrite lookup_insert_eq. Qed.

Lemma content_append_ne path path' data w : path <> path' -> content (snd (append path data w)) path' = content w path'.
Proof. intros. unfold append, content. destruct (dk_short path data); cbn; by rewrite lookup_insert_ne. Qed.

(** A write only ever adds at the end of its file. *)
Lemma append_extends path data w path' : exists t, content (snd (append path data w)) path' = content w path' +:+ t.
Proof.
  destruct (decide (path = path')) as [<-|Hne].
  - unfold append, content. destruct (dk_short path data); cbn; rewrite lookup_insert_eq; eauto.
  - rewrite content_append_ne by done. exists "". by rewrite sapp_nil_r.
Qed.

(** A stream of alerts into one log. *)
Fixpoint write_alerts (s : JSONLSink) (alerts : list Alert) (w : World) : list (option sink_error) * JSONLSink * World :=
  match alerts with
  | [] => ([], s, w)
  | a :: alerts =>
      let '(e, s, w) := JSONLSink_Write s a w in
      let '(es, s, w) := write_alerts s alerts w in (e :: es, s, w)
  end.

(** A stream of alerts through the fan-out: the errors of each [Write]. *)
Fixpoint write_all (m : list (option Sink)) (alerts : list Alert) (w : World) : list (list sink_error) * list (option Sink) * World :=
  match alerts with
  | [] => ([], m, w)
  | a :: alerts =>
      let '(e, m, w) := MultiSink_Write m a w in
      let '(es, m, w) := write_all m alerts w in (e :: es, m, w)
  end.

(** Sinks that leave the file [path] alone. *)
Definition sink_frames (path : string) (s : Sink) : Prop :=
  forall st a w, content (snd (sk_Write s st a w)) path = content w path.
Definition frames (path : string) (m : list (option Sink)) : Prop :=
  Forall (fun os => match os with Some s => sink_frames path s | None => True end) m.

Lemma frames_Write path m a w :
  frames path m -> let '(_, m', w') := MultiSink_Write m a w in content w' path = content w path /\ frames path m'.
Proof.
  intros Hm. revert w. induction Hm as [|[s|] m Hs Hm IH]; intros w; cbn [MultiSink_Write]; [by split; [|constructor]| |].
  - pose proof (Hs (sk_state s) a w) as Hc. unfold sink_write. destruct (sk_Write s (sk_state s) a w) as [[e st] w1]. cbn [snd] in Hc.
    specialize (IH w1). destruct (MultiSink_Write m a w1) as [[errs m'] w2]. destruct IH as [-> IH].
    split; [done|]. constructor; [|done]. exact Hs.
  - specialize (IH w). destruct (MultiSink_Write m a w) as [[errs m'] w2]. destruct IH as [-> IH]. split; [done|]. by constructor.
Qed.

Lemma MultiSink_Write_app m1 m2 a w :
  MultiSink_Write (m1 ++ m2) a w =
  let '(e1, m1, w) := MultiSink_Write m1 a w in
  let '(e2, m2, w) := MultiSink_Write m2 a w in (e1 ++ e2, m1 ++ m2, w).
Proof.
  revert w. induction m1 as [|[s|] m1 IH]; intros w; cbn [MultiSink_Write app]; [by destruct (MultiSink_Write m2 a w) as [[]]| |].
  - destruct (sink_write s a w) as [[e s'] w1]. rewrite IH. destruct (MultiSink_Write m1 a w1) as [[e1 m1'] w2].
    destruct (MultiSink_Write m2 a w2) as [[e2 m2'] w3]. by destruct e.
  - rewrite IH. destruct (MultiSink_Write m1 a w) as [[e1 m1'] w2]. by destruct (MultiSink_Write m2 a w2) as [[]].
Qed.

(** What a value adds to a file through an encoder that has not failed: its line,
    or what of it fitted; and whether it makes the encoder fail. *)
Definition encoder_line (path : string) (value : option string) : string :=
  match value with
  | None => ""
  | Some line => match dk_short path (line +:+ nl) with None => line +:+ nl | Some n => stake n (line +:+ nl) end
  end.
Definition breaks (path : string) (value : option string) : bool :=
  match value with
  | None => false
  | Some line => match dk_short path (line +:+ nl) with None => false | Some _ => true end
  end.

(** What a stream of values adds: lines up to the write that fails, if one does,
    and nothing after it. *)
Fixpoint encoder_lines (path : string) (failed : bool) (values : list (option string)) : string :=
  match values with
  | [] => ""
  | value :: values => if failed then "" else encoder_line path value +:+ encoder_lines path (breaks path value) values
  end.
Definition encoder_failed (path : string) (failed : bool) (values : list (option string)) : bool :=
  failed || existsb (breaks path) values.

Lemma encoder_lines_failed path values : encoder_lines path true values = "".
Proof. by destruct values. Qed.

Lemma encoder_lines_app path failed l1 l2 :
  encoder_lines path failed (l1 ++ l2) = encoder_lines path failed l1 +:+ encoder_lines path (encoder_failed path failed l1) l2.
Proof.
  unfold encoder_failed. revert failed. induction l1 as [|v l1 IH]; intros failed; cbn [app encoder_lines existsb]; [by rewrite orb_false_r|].
  destruct failed; cbn [orb]; [by rewrite encoder_lines_failed|]. by rewrite IH, sapp_assoc.
Qed.

Lemma encoder_failed_app path failed l1 l2 :
  encoder_failed path failed (l1 ++ l2) = encoder_failed path (encoder_failed path failed l1) l2.
Proof. unfold encoder_failed. by rewrite existsb_app, orb_assoc. Qed.

(** What the two files gain, and the state their sinks are left in. *)
Definition alert_lines (s : JSONLSink) (alerts : list Alert) : string :=
  encoder_lines (js_path s) (js_failed s) (encode_Alert <$> alerts).
Definition after_alerts (s : JSONLSink) (alerts : list Alert) : JSONLSink :=
  mkJSONLSink (js_path s) (js_open s) (encoder_failed (js_path s) (js_failed s) (encode_Alert <$> alerts)).
Definition encode_event (ev : Event) : option string := encode_Rec (NewRecord ev).
Definition event_lines (d : EventSink) (evs : list Event) : string :=
  encoder_lines (es_path d) (es_failed d) (encode_event <$> evs).
Definition after_events (d : EventSink) (evs : list Event) : EventSink :=
  mkEventSink (es_path d) (es_open d) (encoder_failed (es_path d) (es_failed d) (encode_event <$> evs)).

Lemma after_alerts_nil s : after_alerts s [] = s.
Proof. destruct s. unfold after_alerts, encoder_failed. cbn. by rewrite orb_false_r. Qed.
Lemma after_events_nil d : after_events d [] = d.
Proof. destruct d. unfold after_events, encoder_failed. cbn. by rewrite orb_false_r. Qed.
Lemma after_alerts_app s l1 l2 : after_alerts s (l1 ++ l2) = after_alerts (after_alerts s l1) l2.
Proof. unfold after_alerts. cbn. by rewrite fmap_app, encoder_failed_app. Qed.
Lemma after_events_app d l1 l2 : after_events d (l1 ++ l2) = after_events (after_events d l1) l2.
Proof. unfold after_events. cbn. by rewrite fmap_app, encoder_failed_app. Qed.
Lemma alert_lines_app s l1 l2 : alert_lines s (l1 ++ l2) = alert_lines s l1 +:+ alert_lines (after_alerts s l1) l2.
Proof. unfold alert_lines. cbn. by rewrite fmap_app, encoder_lines_app. Qed.
Lemma event_lines_app d l1 l2 : event_lines d (l1 ++ l2) = event_lines d l1 +:+ event_lines (after_events d l1) l2.
Proof. unfold event_lines. cbn. by rewrite fmap_app, encoder_lines_app. Qed.

(** One value through an encoder. *)
Lemma Encode_spec path failed value w :
  let '(ok, failed', w') := Encode path failed value w in
  content w' path = content w path +:+ encoder_lines path failed [value]
  /\ (forall path', path' <> path -> content w' path' = content w path')
  /\ failed' = encoder_failed path failed [value]
  /\ (ok = true <-> failed = false /\ is_Some value /\ breaks path value = false).
Proof.
  unfold Encode, encoder_failed. cbn [encoder_lines existsb]. rewrite orb_false_r, sapp_nil_r.
  destruct failed; [split_and!; try done; [by rewrite sapp_nil_r|split; [done|by intros [? _]]]|].
  destruct value as [line|]; cbn [encoder_line breaks orb]; [|split_and!; try done; [by rewrite sapp_nil_r|split; [done|by intros (_ & [? ?] & _)]]].
  pose proof (fun path' Hne => content_append_ne path path' (line +:+ nl) w Hne) as Hother.
  unfold append in *. destruct (dk_short path (line +:+ nl)) as [n|]; cbn [snd negb] in *;
    (split_and!; [unfold content; cbn; by rewrite lookup_insert_eq|intros; apply Hother; congruence|done|]).
  - split; [done|by intros (_ & _ & ?)].
  - split; [|done]. intros _. split_and!; [done|by eexists|done].
Qed.

(** What a write does to the log depends on the log only. *)
Lemma Encode_content path failed value w w' :
  content w path = content w' path ->
  fst (Encode path failed value w) = fst (Encode path failed value w')
  /\ content (snd (Encode path failed value w)) path = content (snd (Encode path failed value w')) path.
Proof.
  intros Hc. unfold Encode. destruct failed; [done|]. destruct value as [line|]; [|done]. unfold append.
  destruct (dk_short path (line +:+ nl)); cbn; (split; [done|]); unfold content in *; cbn; by rewrite !lookup_insert_eq, Hc.
Qed.

Lemma JSONLSink_Write_content s a w w' :
  content w (js_path s) = content w' (js_path s) ->
  fst (JSONLSink_Write s a w) = fst (JSONLSink_Write s a w')
  /\ content (snd (JSONLSink_Write s a w)) (js_path s) = content (snd (JSONLSink_Write s a w')) (js_path s).
Proof.
  intros Hc. unfold JSONLSink_Write. destruct (js_open s); cbn [negb]; [|done].
  destruct (Encode_content (js_path s) (js_failed s) (encode_Alert a) w w' Hc) as [He Hw].
  destruct (Encode _ _ _ w) as [[ok f] w1], (Encode _ _ _ w') as [[ok' f'] w1']. cbn [fst snd] in *. by injection He as -> ->.
Qed.

Lemma JSONLSink_Write_path s a w : js_path (snd (fst (JSONLSink_Write s a w))) = js_path s.
Proof. unfold JSONLSink_Write. destruct (js_open s); cbn [negb]; [|done]. by destruct (Encode _ _ _ w) as [[ok f] w1]. Qed.

Lemma JSONLSink_Write_open s a w :
  js_open s = true ->
  let '(e, s', w') := JSONLSink_Write s a w in
  s' = after_alerts s [a] /\ content w' (js_path s) = content w (js_path s) +:+ alert_lines s [a]
  /\ (forall path, path <> js_path s -> content w' path = content w path)
  /\ e = (if js_failed s || negb (bool_decide (is_Some (encode_Alert a))) || breaks (js_path s) (encode_Alert a)
          then Some (WriteError (js_path s)) else None).
Proof.
  intros Ho. unfold JSONLSink_Write, after_alerts, alert_lines. rewrite Ho. cbn [negb fmap list_fmap].
  pose proof (Encode_spec (js_path s) (js_failed s) (encode_Alert a) w) as He. destruct (Encode _ _ _ w) as [[ok f] w1].
  destruct He as (Hc & Hother & -> & Hok). split_and!; [done..|].
  destruct ok, (js_failed s), (breaks _ _), (bool_decide_reflect (is_Some (encode_Alert a))); try done; cbn [negb orb]; naive_solver.
Qed.

Lemma write_alerts_open s alerts w :
  js_open s = true ->
  let '(es, s', w') := write_alerts s alerts w in
  s' = after_alerts s alerts /\ content w' (js_path s) = content w (js_path s) +:+ alert_lines s alerts /\ length es = length alerts.
Proof.
  revert s w. induction alerts as [|a alerts IH]; intros s w Ho; cbn [write_alerts]; [by rewrite after_alerts_nil, sapp_nil_r|].
  pose proof (JSONLSink_Write_open s a w Ho) as Hw. destruct (JSONLSink_Write s a w) as [[e s1] w1]. destruct Hw as (-> & Hc & _ & _).
  specialize (IH (after_alerts s [a]) w1 Ho). destruct (write_alerts _ alerts w1) as [[es s2] w2]. destruct IH as (-> & Hc2 & Hl).
  change (js_path (after_alerts s [a])) with (js_path s) in Hc2. change (a :: alerts) with ([a] ++ alerts).
  rewrite after_alerts_app, alert_lines_app, Hc2, Hc. split_and!; [done|by rewrite sapp_assoc|cbn; by f_equal].
Qed.

(** Once the encoder has failed, every write is an error and writes nothing. *)
Lemma write_alerts_failed s alerts w :
  js_open s = true -> js_failed s = true ->
  Forall (fun e => e = Some (WriteError (js_path s))) (fst (fst (write_alerts s alerts w))) /\ snd (write_alerts s alerts w) = w.
Proof.
  intros Ho Hf. destruct s as [path op f]. cbn in Ho, Hf. subst. induction alerts as [|a alerts [IH1 IH2]]; [by split|].
  cbn [write_alerts]. change (JSONLSink_Write (mkJSONLSink path true true) a w) with (Some (WriteError path), mkJSONLSink path true true, w).
  cbn iota beta. destruct (write_alerts (mkJSONLSink path true true) alerts w) as [[es s2] w2]. cbn [fst snd] in *. by split; [constructor|].
Qed.

Lemma write_alerts_closed s alerts w : js_open s = false -> snd (write_alerts s alerts w) = w.
Proof.
  intros Ho. revert s Ho. induction alerts as [|a alerts IH]; intros s Ho; [done|]. cbn [write_alerts].
  assert (JSONLSink_Write s a w = (Some (ClosedError (js_path s)), s, w)) as -> by (unfold JSONLSink_Write; by rewrite Ho).
  specialize (IH s Ho). by destruct (write_alerts s alerts w) as [[]].
Qed.

Lemma write_alerts_app s l1 l2 w :
  write_alerts s (l1 ++ l2) w =
  let '(e1, s, w) := write_alerts s l1 w in let '(e2, s, w) := write_alerts s l2 w in (e1 ++ e2, s, w).
Proof.
  revert s w. induction l1 as [|a l1 IH]; intros s w; cbn [write_alerts app]; [by destruct (write_alerts s l2 w) as [[]]|].
  destruct (JSONLSink_Write s a w) as [[e s1] w1]. rewrite IH. destruct (write_alerts s1 l1 w1) as [[e1 s2] w2].
  by destruct (write_alerts s2 l2 w2) as [[e2 s3] w3].
Qed.

(** From the write that fails on, every write is an error. *)
Lemma write_alerts_breaking s a alerts w :
  js_open s = true -> breaks (js_path s) (encode_Alert a) = true ->
  Forall (fun e => e = Some (WriteError (js_path s))) (fst (fst (write_alerts s (a :: alerts) w))).
Proof.
  intros Ho Hb. cbn [write_alerts]. pose proof (JSONLSink_Write_open s a w Ho) as Hw.
  destruct (JSONLSink_Write s a w) as [[e s1] w1]. destruct Hw as (-> & _ & _ & ->).
  assert (Hf : js_failed (after_alerts s [a]) = true).
  { unfold after_alerts, encoder_failed. cbn [fmap list_fmap existsb js_failed]. by rewrite Hb, orb_true_r. }
  destruct (write_alerts_failed (after_alerts s [a]) alerts w1 Ho Hf) as [He _].
  destruct (write_alerts _ alerts w1) as [[es s2] w2]. cbn [fst] in *. constructor; [|exact He]. by rewrite Hb, orb_true_r.
Qed.

(** The errors of writes that none breaks. *)
Lemma write_alerts_errors s alerts w :
  js_open s = true -> js_failed s = false -> Forall (fun a => breaks (js_path s) (encode_Alert a) = false) alerts ->
  Forall2 (fun e a => e = None <-> is_Some (encode_Alert a)) (fst (fst (write_alerts s alerts w))) alerts.
Proof.
  intros Ho Hf Hb. revert s w Ho Hf Hb. induction alerts as [|a alerts IH]; intros s w Ho Hf Hb; [constructor|].
  apply Forall_cons in Hb as [Ha Hb]. cbn [write_alerts]. pose proof (JSONLSink_Write_open s a w Ho) as Hw.
  destruct (JSONLSink_Write s a w) as [[e s1] w1]. destruct Hw as (-> & _ & _ & ->).
  specialize (IH (after_alerts s [a]) w1 Ho). destruct (write_alerts _ alerts w1) as [[es s2] w2]. cbn [fst] in *. constructor.
  - rewrite Hf, Ha. destruct (bool_decide_reflect (is_Some (encode_Alert a))); cbn; naive_solver.
  - apply IH; [|done]. unfold after_alerts, encoder_failed. cbn [fmap list_fmap existsb js_failed]. by rewrite Hf, Ha.
Qed.
End facts.

(** ** Properties *)

Section properties.
Context `{Disk} `{Encoder}.

(** No destination can silence the log.  Let the log be one sink among
    others, none of which writes to its file.  Whatever they do, and whatever
    errors they return, after any alerts the log file is what it would be had
    the log been the only sink; and every error of the log is reported by the
    [Write] it happened in. *)
Theorem MultiSink_log_independent s pre post alerts w :
  frames (js_path s) pre -> frames (js_path s) post ->
  let '(errs, _, w') := write_all (pre ++ Some (jsonl_sink s) :: post) alerts w in
  content w' (js_path s) = content (snd (write_alerts s alerts w)) (js_path s)
  /\ Forall2 (fun e es => forall err, e = Some err -> err ∈ es) (fst (fst (write_alerts s alerts w))) errs.
Proof.
  intros Hpre Hpost. assert (Hg : forall w0, content w0 (js_path s) = content w (js_path s) ->
    let '(errs, _, w') := write_all (pre ++ Some (jsonl_sink s) :: post) alerts w0 in
    content w' (js_path s) = content (snd (write_alerts s alerts w)) (js_path s)
    /\ Forall2 (fun e es => forall err, e = Some err -> err ∈ es) (fst (fst (write_alerts s alerts w))) errs); [|by apply Hg].
  revert s pre post w Hpre Hpost. induction alerts as [|a alerts IH]; intros s pre post w Hpre Hpost w0 Hw; [by split|].
  cbn [write_all write_alerts]. rewrite MultiSink_Write_app.
  pose proof (frames_Write (js_path s) pre a w0 Hpre) as H1. destruct (MultiSink_Write pre a w0) as [[e1 pre'] w1]. destruct H1 as [Hc1 Hpre'].
  cbn [MultiSink_Write]. destruct (JSONLSink_Write_content s a w1 w ltac:(congruence)) as [Herr Hc].
  pose proof (JSONLSink_Write_path s a w) as Hpath. unfold sink_write. cbn [jsonl_sink sk_Write sk_state sk_State sk_Close].
  destruct (JSONLSink_Write s a w1) as [[e s1] w2]. destruct (JSONLSink_Write s a w) as [[e' s1'] w2']. cbn [fst snd] in *.
  injection Herr as <- <-.
  pose proof (frames_Write (js_path s) post a w2 Hpost) as H3. destruct (MultiSink_Write post a w2) as [[e3 post'] w3]. destruct H3 as [Hc3 Hpost'].
  rewrite <- Hpath in *. specialize (IH s1 pre' post' w2' Hpre' Hpost' w3 ltac:(congruence)). unfold jsonl_sink in IH.
  destruct (write_all _ alerts w3) as [[errs m'] w4]. destruct (write_alerts s1 alerts w2') as [[es s2] w4']. cbn [fst snd] in *.
  destruct IH as [? ?]. split; [done|]. constructor; [|done]. intros err ->. apply elem_of_app. right. by left.
Qed.

(** The lines of alerts, of those that have one. *)
Definition whole_lines (alerts : list Alert) : string :=
  foldr (fun a acc => match encode_Alert a with Some line => line +:+ nl +:+ acc | None => acc end) "" alerts.

Lemma alert_lines_whole s alerts :
  js_failed s = false -> Forall (fun a => breaks (js_path s) (encode_Alert a) = false) alerts -> alert_lines s alerts = whole_lines alerts.
Proof.
  unfold alert_lines. intros Hf Hb. rewrite Hf. clear Hf. induction Hb as [|a alerts Ha _ IH]; [done|].
  cbn [fmap list_fmap encoder_lines whole_lines foldr]. rewrite Ha, IH. unfold breaks, encoder_line in *.
  destruct (encode_Alert a) as [line|]; [|done]. destruct (dk_short _ _); [done|]. by rewrite sapp_assoc.
Qed.

(** C30: the alert log is append-only, and complete until a write to it fails.
    Opening the log destroys nothing that was in it.  While no write fails, the
    log is what it was before followed by one line per alert, in order, and
    [Write] returns an error for exactly the alerts that cannot be encoded, which
    have none.  The first write that fails leaves the beginning of its line, and
    is the last: it and every later [Write] return an error, and the log never
    grows again, even when there is room again.  Once closed, the log is never
    written to again. *)
Theorem jsonl_log_complete path w s w' alerts :
  NewJSONLSink path w = (inl s, w') ->
  let '(errs, s1, w1) := write_alerts s alerts w' in
  content w' path = content w path
  /\ (Forall (fun a => breaks path (encode_Alert a) = false) alerts ->
      content w1 path = content w path +:+ whole_lines alerts
      /\ Forall2 (fun e a => e = None <-> is_Some (encode_Alert a)) errs alerts)
  /\ (forall before a line n after,
      alerts = before ++ a :: after -> Forall (fun a => breaks path (encode_Alert a) = false) before ->
      encode_Alert a = Some line -> dk_short path (line +:+ nl) = Some n ->
      content w1 path = content w path +:+ whole_lines before +:+ stake n (line +:+ nl)
      /\ Forall (fun e => e = Some (WriteError path)) (drop (length before) errs))
  /\ forall w2, snd (write_alerts (snd (fst (JSONLSink_Close s1 w2))) alerts w2) = w2.
Proof.
  unfold NewJSONLSink, open_append. destruct (dk_open path); [|done]. intros [= <- <-].
  assert (Hc : content (mkWorld (<[path:=content w path]> (wd_files w)) (wd_terminal w)) path = content w path)
    by (unfold content at 1; cbn; by rewrite lookup_insert_eq).
  set (w1 := mkWorld _ _) in *. clearbody w1. set (s := mkJSONLSink path true false).
  pose proof (write_alerts_open s alerts w1 eq_refl) as Hw. pose proof (write_alerts_errors s alerts w1 eq_refl eq_refl) as He.
  assert (Hsplit : forall before a line n after, alerts = before ++ a :: after ->
    Forall (fun a => breaks path (encode_Alert a) = false) before -> encode_Alert a = Some line -> dk_short path (line +:+ nl) = Some n ->
    alert_lines s alerts = whole_lines before +:+ stake n (line +:+ nl)
    /\ Forall (fun e => e = Some (WriteError path)) (drop (length before) (fst (fst (write_alerts s alerts w1))))).
  { intros before a line n after -> Hb Ha Hn. split.
    - rewrite alert_lines_app, alert_lines_whole by done. f_equal. unfold alert_lines.
      assert (js_failed (after_alerts s before) = false) as ->.
      { cbn. clear -Hb. induction Hb as [|x before Hx _ IH]; [done|]. unfold encoder_failed in *. cbn. by rewrite Hx. }
      cbn [fmap list_fmap encoder_lines]. rewrite Ha. cbn [encoder_line breaks after_alerts js_path]. change (js_path s) with path.
      by rewrite Hn, encoder_lines_failed, sapp_nil_r.
    - rewrite write_alerts_app. pose proof (write_alerts_open s before w1 eq_refl) as Hw1.
      destruct (write_alerts s before w1) as [[e1 s2] w2]. destruct Hw1 as (-> & _ & <-).
      pose proof (write_alerts_breaking (after_alerts s before) a after w2 eq_refl) as Hbr.
      destruct (write_alerts _ (a :: after) w2) as [[e2 s3] w3]. cbn [fst] in *. rewrite drop_app_length. apply Hbr.
      cbn [after_alerts js_path]. unfold breaks. change (js_path s) with path. by rewrite Ha, Hn. }
  destruct (write_alerts s alerts w1) as [[errs s2] w2]. destruct Hw as (-> & Hw & _). cbn [fst] in *. change (js_path s) with path in *.
  split_and!; [done| | |].
  - intros Hb. split; [|by apply He]. by rewrite Hw, Hc, alert_lines_whole.
  - intros before a line n after Hal Hb Ha Hn. destruct (Hsplit before a line n after Hal Hb Ha Hn) as [Hl Herr].
    split; [|done]. by rewrite Hw, Hc, Hl.
  - intros w3. by apply write_alerts_closed.
Qed.
End properties.

(** ** A concrete log

    A disk that takes everything but lines longer than 20 bytes, of which it
    keeps eight. *)
Definition example_disk : Disk := {|
  dk_open := fun _ => true;
  dk_short := fun _ data => if (20 <? String.length data)%nat then Some 8%nat else None;
  dk_sync := fun _ => true;
  dk_close := fun _ => true
|}.
Definition example_encoder : Encoder := {|
  encode_Alert := fun a => Some ("{" +:+ al_Description a +:+ "}");
  encode_Rec := fun r => Some ("{" +:+ rc_Comm r +:+ "}")
|}.
Definition example_alert (description : string) : Alert :=
  mkAlert 0 42 42 7 "sh" 1000 1000 "setuid" EventArgs "T1548" "Abuse Elevation Control Mechanism" SeverityHigh
    description "privilege-escalation" "" 0 [].
Definition example_world : World := mkWorld {[ "alerts.jsonl" := "{old}" +:+ nl ]} "".

Lemma jsonl_log_complete_witness :
  let alerts := [example_alert "one"; example_alert "two, which is far too long"; example_alert "three"] in
  let '(errs, _, w1) := @write_alerts example_disk example_encoder (mkJSONLSink "alerts.jsonl" true false) alerts example_world in
  content w1 "alerts.jsonl" = "{old}" +:+ nl +:+ "{one}" +:+ nl +:+ "{two, wh"
  /\ Forall (fun e => e = Some (WriteError "alerts.jsonl")) (drop 1 errs).
Proof.
  cbv zeta. set (alerts := [_; _; _]).
  pose proof (@jsonl_log_complete example_disk example_encoder "alerts.jsonl" example_world
    (mkJSONLSink "alerts.jsonl" true false) example_world alerts eq_refl) as H.
  destruct (write_alerts _ alerts example_world) as [[errs s1] w1]. destruct H as (_ & _ & H & _).
  destruct (H [example_alert "one"] (example_alert "two, which is far too long") "{two, which is far too long}" 8%nat [example_alert "three"])
    as [Hc He]; [reflexivity|by constructor|reflexivity|reflexivity|].
  split; [|exact He]. etransitivity; [exact Hc|reflexivity].
Defined.

(** The log beside a sink that fails every time. *)
Lemma MultiSink_log_independent_witness :
  let broken := mkSink unit tt (fun _ _ w => (Some (OtherError "broken pipe"), tt, w)) (fun _ w => (None, tt, w)) in
  let s := mkJSONLSink "alerts.jsonl" true false in
  let alerts := [example_alert "one"; example_alert "two"] in
  let '(_, _, w') := @write_all [Some broken; Some (@jsonl_sink example_disk example_encoder s); None] alerts example_world in
  content w' "alerts.jsonl" = "{old}" +:+ nl +:+ "{one}" +:+ nl +:+ "{two}" +:+ nl.
Proof.
  intros broken s alerts.
  pose proof (@MultiSink_log_independent example_disk example_encoder s [Some broken] [None] alerts example_world) as H.
  cbn [app] in H. destruct (write_all _ alerts example_world) as [[errs m'] w'].
  destruct H as [H _]; [by repeat constructor|by repeat constructor|]. etransitivity; [exact H|reflexivity].
Defined.
