(* ===== verification/Console.v ===== *)
(** * Console output ([output/console.go])

    The scrolling display: one block of lines per alert.  What the terminal
    shows is the string written to it. *)

From S2P Require Import Prelude GoStrings GoText Alerts Record Sinks.

(** [Time.Format("15:04:05.000")] in the location the time carries: the host's
    for a live event, UTC in a replay. *)
Class WallClock := { FormatClock : Z -> string }.

(** ** Styles *)
Definition ESC : ascii := chr 27.
Definition csi (s : string) : string := String ESC ("[" +:+ s).

Definition ansiReset : string := csi "0m".
Definition ansiBold : string := csi "1m".
Definition ansiDim : string := csi "2m".
Definition ansiRed : string := csi "31m".
Definition ansiGreen : string := csi "32m".
Definition ansiYellow : string := csi "33m".
Definition ansiBlue : string := csi "34m".
Definition ansiCyan : string := csi "36m".
Definition ansiWhite : string := csi "37m".
Definition ansiBgRed : string := csi "41m".

(** [severityStyle]; a missing key reads as the empty string. *)
Definition severityStyles : list (Z * string) :=
  [(SeverityLow, ansiCyan); (SeverityMedium, ansiYellow); (SeverityHigh, ansiRed +:+ ansiBold);
   (SeverityCritical, ansiBgRed +:+ ansiWhite +:+ ansiBold)].
Definition severityStyle (s : Severity) : string := default "" (assoc s severityStyles).

(** ** The sink *)
Record ConsoleSink := mkConsoleSink { cs_color : bool; cs_minSeverity : Severity }.

(** What [shouldColor] finds out: whether [NO_COLOR] is set, and the mode of
    the writer when it is a file that can be examined ([None] otherwise). *)
Record TerminalInfo := mkTerminalInfo { ti_NO_COLOR : bool; ti_charDevice : option bool }.
Definition shouldColor (t : TerminalInfo) : bool :=
  if ti_NO_COLOR t then false
  else match ti_charDevice t with None => false | Some dev => dev end.

Definition NewConsoleSink (t : TerminalInfo) (forceColor : bool) (minSeverity : Severity) : ConsoleSink :=
  mkConsoleSink (forceColor || shouldColor t) minSeverity.

Section console.
Context `{UnicodeTables} `{WallClock}.

(** [formatArgs], the keys visited in the order [order]. *)
Definition format_arg (args : gmap string string) (k : string) : string :=
  let v := default "" (args !! k) in
  let v := if ContainsAny v (" " +:+ str1 (chr 9)) then Quote v else v in
  k +:+ "=" +:+ v.
Definition formatArgs_in (order : list string) (args : gmap string string) : string :=
  if (size args =? 0)%nat then "" else Join (format_arg args <$> SortStrings order) " ".
Definition formatArgs (args : gmap string string) : string := formatArgs_in (map_to_list args).*1 args.

Definition indent : string := "              ".

(** [writeExtras]: the fold count, and one line per step of the story. *)
Definition story_line (dim reset : string) (n i : nat) (st : StoryStep) : string :=
  let branch := if (i =? n - 1)%nat then "└─" else "├─" in
  indent +:+ branch +:+ " " +:+ dim +:+ "+" +:+ pad_right 7 (fmt_d (st_OffsetMS st) +:+ "ms") +:+ reset +:+ " "
  +:+ pad_right 18 (st_Comm st +:+ "[" +:+ fmt_d (st_PID st) +:+ "]") +:+ " "
  +:+ pad_right 32 (st_Tactic st) +:+ " " +:+ st_Summary st +:+ nl.
Definition writeExtras (a : Alert) (dim reset : string) : string :=
  (if al_Suppressed a >? 0
   then indent +:+ dim +:+ "(+" +:+ fmt_d (al_Suppressed a) +:+ " identical alert(s) folded since last shown)" +:+ reset +:+ nl
   else "")
  +:+ foldr String.append "" (imap (story_line dim reset (length (al_Story a))) (al_Story a)).

(** [ConsoleSink.format]; the alert's map is read through [args]. *)
Definition format (color : bool) (args : gmap string string) (a : Alert) : string :=
  let sev := Severity_String (al_Severity a) in
  let proc := al_Comm a +:+ "[" +:+ fmt_d (al_PID a) +:+ "]" in
  let text := formatArgs args in
  if color then
    let style := severityStyle (al_Severity a) in
    ansiDim +:+ FormatClock (al_Timestamp a) +:+ ansiReset +:+ "  " +:+ style +:+ " " +:+ pad_right 8 sev +:+ " "
    +:+ ansiReset +:+ "  " +:+ ansiBlue +:+ pad_right 22 (al_Rule a) +:+ ansiReset +:+ " " +:+ ansiGreen
    +:+ pad_right 20 proc +:+ ansiReset +:+ " " +:+ ansiDim +:+ "uid=" +:+ fmt_d (al_UID a) +:+ ansiReset +:+ "  "
    +:+ ansiDim +:+ al_MitreID a +:+ ansiReset +:+ nl
    +:+ indent +:+ al_Description a +:+ nl
    +:+ (if negb (text ==s "") then indent +:+ ansiDim +:+ text +:+ ansiReset +:+ nl else "")
    +:+ writeExtras a ansiDim ansiReset
  else
    FormatClock (al_Timestamp a) +:+ "  " +:+ pad_right 8 sev +:+ " " +:+ pad_right 22 (al_Rule a) +:+ " "
    +:+ pad_right 20 proc +:+ " uid=" +:+ fmt_d (al_UID a) +:+ "  " +:+ al_MitreID a +:+ nl
    +:+ indent +:+ al_Description a +:+ nl
    +:+ (if negb (text ==s "") then indent +:+ text +:+ nl else "")
    +:+ writeExtras a "" "".

(** [ConsoleSink.Write]: the terminal takes everything. *)
Definition ConsoleSink_Write (s : ConsoleSink) (a : Alert) (w : World) : option sink_error * World :=
  if al_Severity a <? cs_minSeverity s then (None, w)
  else (None, mkWorld (wd_files w) (wd_terminal w +:+ format (cs_color s) (deref ∅ (al_Args a)) a)).

Definition ConsoleSink_Close (s : ConsoleSink) (w : World) : option sink_error * ConsoleSink * World := (None, s, w).

Definition console_sink (s : ConsoleSink) : Sink := 
  mkSink ConsoleSink s (fun s a w => let '(e, w) := ConsoleSink_Write s a w in (e, s, w)) ConsoleSink_Close.

Definition Banner (color : bool) (version : string) (rules : list string) (alertPath : string) (pidFilter : Z) : string :=
  let title := if color then ansiBold +:+ ansiCyan +:+ "KrnlSentry" +:+ ansiReset else "KrnlSentry" in
  nl +:+ title +:+ " " +:+ version +:+ " — eBPF syscall monitoring and threat detection" +:+ nl
  +:+ "  rules   : " +:+ Join (SortStrings rules) ", " +:+ nl
  +:+ "  alerts  : " +:+ alertPath +:+ nl
  +:+ (if pidFilter >? 0 then "  scope   : PID " +:+ fmt_d pidFilter +:+ " and descendants" +:+ nl
       else "  scope   : system-wide" +:+ nl)
  +:+ "  stop    : Ctrl+C" +:+ nl +:+ nl.
End console.

(** ** Lemmas *)

Section facts.
Context `{UnicodeTables} `{WallClock}.

(** The rendering of a map does not depend on the order it is ranged over in. *)
Lemma formatArgs_order order args :
  order ≡ₚ (map_to_list args).*1 -> formatArgs_in order args = formatArgs args.
Proof. intros Ho. unfold formatArgs, formatArgs_in. by rewrite (SortStrings_Permutation _ _ Ho). Qed.

(** The display never touches the files, and the severity filter decides alone
    whether it shows an alert. *)
Lemma ConsoleSink_Write_frame s a w :
  let '(e, w') := ConsoleSink_Write s a w in
  e = None /\ wd_files w' = wd_files w
  /\ wd_terminal w' = wd_terminal w +:+ (if al_Severity a <? cs_minSeverity s then ""
                                         else format (cs_color s) (deref ∅ (al_Args a)) a).
Proof.
  unfold ConsoleSink_Write. destruct (al_Severity a <? cs_minSeverity s); [by rewrite sapp_nil_r|done].
Qed.
End facts.

(** ** A forged line

    Values are quoted only when they hold a space or a tab.  A path with a line
    break is printed as it is, so a process can open a file whose name makes the
    display show a line of its choosing at the start of a row. *)
#[local] Existing Instance example_tables.
Definition example_clock : WallClock := {| FormatClock := fun _ => "12:00:00.000" |}.

Lemma console_line_can_be_forged :
  let a := mkAlert 0 42 42 7 "sh" 1000 1000 "openat" (OwnArgs {[ "path" := "/etc/shadow" +:+ nl +:+ "00:00:00.000" ]})
             "T1003" "OS Credential Dumping" SeverityHigh "d" "sensitive-file-access" "" 0 [] in
  "00:00:00.000" ∈ Split (wd_terminal (snd (@ConsoleSink_Write example_tables example_clock
                            (mkConsoleSink false SeverityLow) a (mkWorld ∅ "")))) newline.
Proof. by_compute. Qed.
