(* ===== verification/Term.v ===== *)
(** * The terminal ([output/term.go], [term_unix.go], [term_other.go])

    What the display learns of the writer it draws on: a size from the kernel,
    failing that from the environment, failing that a constant. *)

From S2P Require Import Prelude GoStrings GoTime.

(** [strconv.Atoi] on a 64-bit platform; [None] is any of its errors. *)
Fixpoint atoi_digits (s : string) (acc : Z) : option Z :=
  match s with
  | EmptyString => Some acc
  | String a s => d ← digit_val a; atoi_digits s (acc * 10 + d)
  end.
Definition Atoi (s : string) : option Z :=
  let '(neg, ds) :=
    match s with
    | String a s' => if Ascii.eqb a "-" then (true, s') else if Ascii.eqb a "+" then (false, s') else (false, s)
    | EmptyString => (false, s)
    end in
  if ds ==s "" then None
  else
    n ← atoi_digits ds 0;
    if (neg && (n <=? 2 ^ 63))%bool then Some (- n) else if (negb neg && (n <? 2 ^ 63))%bool then Some n else None.

(** What can be found out about a writer: whether it is an [*os.File], what the
    ioctl and [Stat] say of it when it is ([None]: an error), and the
    environment. *)
Record Terminal := mkTerminal {
  tm_file : bool;
  tm_winsize : option (Z * Z);
  tm_charDevice : option bool;
  tm_COLUMNS : string;
  tm_LINES : string
}.

(** The platforms the two build tags select. *)
Inductive platform := unix | other_platform.

Definition terminalSize_unix (t : Terminal) : Z * Z :=
  if negb (tm_file t) then (0, 0) else default (0, 0) (tm_winsize t).
Definition terminalSize_other (t : Terminal) : Z * Z := (0, 0).
Definition terminalSize (p : platform) (t : Terminal) : Z * Z :=
  match p with unix => terminalSize_unix t | other_platform => terminalSize_other t end.

Definition isTerminal_other (t : Terminal) : bool :=
  if negb (tm_file t) then false else default false (tm_charDevice t).
Definition isTerminal (t : Terminal) : bool :=
  if negb (tm_file t) then false else default false (tm_charDevice t).

(** The two files ask the same of a writer. *)
Lemma isTerminal_portable t : isTerminal t = isTerminal_other t.
Proof. reflexivity. Qed.

Definition DashboardUsable (t : Terminal) : bool := isTerminal t.

Definition fallbackCols : Z := 100.
Definition fallbackRows : Z := 30.

Definition from_env (v : string) (fallback : Z) : Z :=
  match Atoi v with Some n => if n >? 0 then n else fallback | None => fallback end.
Definition terminalWidth (p : platform) (t : Terminal) : Z :=
  let cols := fst (terminalSize p t) in
  if cols >? 0 then cols else from_env (tm_COLUMNS t) fallbackCols.
Definition terminalHeight (p : platform) (t : Terminal) : Z :=
  let rows := snd (terminalSize p t) in
  if rows >? 0 then rows else from_env (tm_LINES t) fallbackRows.

Lemma terminal_size_pos p t : 0 < terminalWidth p t /\ 0 < terminalHeight p t.
Proof.
  assert (He : forall v f, 0 < f -> 0 < from_env v f).
  { intros v f Hf. unfold from_env. destruct (Atoi v) as [n|]; [|done]. destruct (Z.gtb_spec n 0); lia. }
  unfold terminalWidth, terminalHeight. split.
  - destruct (Z.gtb_spec (fst (terminalSize p t)) 0); [lia|]. by apply He.
  - destruct (Z.gtb_spec (snd (terminalSize p t)) 0); [lia|]. by apply He.
Qed.

Example Atoi_examples :
  Atoi "120" = Some 120 /\ Atoi "-5" = Some (-5) /\ Atoi "" = None /\ Atoi "+" = None /\ Atoi "12x" = None
  /\ Atoi "9223372036854775808" = None.
Proof. by_compute. Qed.
