(* ===== verification/Dashboard.v ===== *)
(** * The dashboard's state and layout helpers ([output/dashboard.go])

    The counters the display derives from the alerts written to it, and the
    functions that measure, pad, cut and draw text.  The panels are in
    [Panels]. *)

From S2P Require Import Prelude GoStrings GoTime GoText GoFloat Alerts Storyline Record Sinks Console.

(** ** State *)

(** [type procKey struct] *)
Record procKey := mkProcKey { pk_Comm : string; pk_PID : Z }.
#[export] Instance procKey_eq_dec : EqDecision procKey.
Proof. solve_decision. Defined.
#[export] Program Instance procKey_countable : Countable procKey :=
  inj_countable' (fun k => (pk_Comm k, pk_PID k)) (fun '(c, p) => mkProcKey c p) _.
Next Obligation. by intros []. Qed.

(** [type Metrics struct] *)
Record Metrics := mkMetrics {
  mt_Observed : Z;
  mt_QueueDropped : Z;
  mt_KernelEvents : Z;
  mt_KernelDrops : Z;
  mt_WriteErrors : Z;
  mt_TrackedProcs : Z;
  mt_Storylines : Z;
  mt_AttackChains : Z;
  mt_Suppressed : Z;
  mt_Progress : float64
}.

(** [type DashboardOptions struct], without the hooks: what they return is an
    argument of the functions that call them. *)
Record DashboardOptions := mkDashboardOptions {
  op_Version : string;
  op_Mode : string;
  op_Scope : string;
  op_Source : string;
  op_AlertPath : string;
  op_Rules : list string;
  op_MinSeverity : Severity;
  op_Color : bool;
  op_Width : Z;
  op_Height : Z;
  op_Refresh : Z
}.

Definition defaultRefresh : Z := 250 * Millisecond.
Definition minWidth : Z := 76.
Definition maxWidth : Z := 160.
Definition recentCap : nat := 64.
Definition maxRecentRows : nat := 12.
Definition minRecentRows : nat := 3.
Definition maxStoryRows : nat := 8.
Definition minStoryRows : nat := 2.
Definition maxProcRows : nat := 6.
Definition MinUsableHeight : Z := 24.
Definition minDescCols : Z := 12.
Definition minNameCols : Z := 10.

(** [type Dashboard struct], without the mutex, the writer and the channels. *)
Record Dashboard := mkDashboard {
  db_opts : DashboardOptions;
  db_started : Z;
  db_total : Z;
  db_bySeverity : gmap Z Z;
  db_byRule : gmap string Z;
  db_byTactic : gmap string Z;
  db_byProcess : gmap procKey Z;
  db_recent : list Alert;
  db_lastChain : option Alert
}.

(** [NewDashboard], at the time [now] that the clock hook returns. *)
Definition NewDashboard (opts : DashboardOptions) (now : Z) : Dashboard :=
  let refresh := if op_Refresh opts <=? 0 then defaultRefresh else op_Refresh opts in
  let mode := if op_Mode opts ==s "" then "live" else op_Mode opts in
  mkDashboard
    (mkDashboardOptions (op_Version opts) mode (op_Scope opts) (op_Source opts) (op_AlertPath opts) (op_Rules opts)
       (op_MinSeverity opts) (op_Color opts) (op_Width opts) (op_Height opts) refresh)
    now 0 ∅ ∅ ∅ ∅ [] None.

(** [m[k]] and [m[k]++] on a map of [uint64]. *)
Definition count {K} `{Countable K} (m : gmap K Z) (k : K) : Z := default 0 (m !! k).
Definition bump {K} `{Countable K} (m : gmap K Z) (k : K) : gmap K Z := <[k := u64 (count m k + 1)]> m.

(** The tail the feed keeps. *)
Definition keep_recent (recent : list Alert) : list Alert :=
  if (recentCap <? length recent)%nat then drop (length recent - recentCap) recent else recent.

(** [Dashboard.Write]; [None] is a nil alert. *)
Definition Dashboard_Write (d : Dashboard) (oa : option Alert) : Dashboard :=
  match oa with
  | None => d
  | Some a =>
      mkDashboard (db_opts d) (db_started d) (u64 (db_total d + 1))
        (bump (db_bySeverity d) (al_Severity a)) (bump (db_byRule d) (al_Rule a))
        (foldl (fun m t => bump m (tac_Name t)) (db_byTactic d) (TacticsFor a))
        (bump (db_byProcess d) (mkProcKey (al_Comm a) (al_PID a)))
        (keep_recent (db_recent d ++ [a]))
        (if (0 <? length (al_Story a))%nat then Some a else db_lastChain d)
  end.

Definition Dashboard_WriteAll (d : Dashboard) (alerts : list Alert) : Dashboard :=
  foldl (fun d a => Dashboard_Write d (Some a)) d alerts.

(** ** Measuring and cutting text *)

(** [visibleLen]: the states of its scanner, one step of it, and the count. *)
Inductive vstate := v_text | v_afterESC | v_inCSI | v_afterIntermediate.

Definition vis_step (st : vstate) (r : Z) : vstate * Z :=
  match st with
  | v_text => if r =? 27 then (v_afterESC, 0) else (v_text, 1)
  | v_afterESC =>
      (if r =? 91 then v_inCSI
       else if (32 <=? r) && (r <=? 47) then v_afterIntermediate
       else v_text, 0)
  | v_afterIntermediate => (v_text, 0)
  | v_inCSI => (if (64 <=? r) && (r <=? 126) then v_text else v_inCSI, 0)
  end.

Fixpoint vis (st : vstate) (l : list (Z * string)) : vstate * Z :=
  match l with
  | [] => (st, 0)
  | (r, _) :: l => let '(st, n) := vis_step st r in let '(st, m) := vis st l in (st, n + m)
  end.
Definition visibleLen (s : string) : Z := snd (vis v_text (runes s)).

Definition padVisible (s : string) (w : Z) : string :=
  let n := visibleLen s in if n <? w then s +:+ Repeat " " (w - n) else s.

Definition ellipsis : string := "…".
Definition truncate (s : string) (w : Z) : string :=
  if w <=? 0 then ""
  else
    let rs := runes s in
    if Z.of_nat (length rs) <=? w then s
    else if w =? 1 then ellipsis
    else string_of_runes (take (Z.to_nat (w - 1)) rs) +:+ ellipsis.

Definition contains (haystack : list string) (needle : string) : bool := existsb (fun s => s ==s needle) haystack.
Definition maxInt (a b : Z) : Z := if a >? b then a else b.

(** ** Numbers *)

(** The loop of [formatCount] that splits off groups of three; the last three
    bytes of [s] are [stail 3 s]. *)
Definition slast (n : nat) (s : string) : string := sdrop (String.length s - n) s.
Fixpoint group_loop (fuel : nat) (s : string) (parts : list string) : list string :=
  match fuel with
  | O => s :: parts
  | S fuel =>
      if (3 <? String.length s)%nat
      then group_loop fuel (stake (String.length s - 3) s) (slast 3 s :: parts)
      else s :: parts
  end.
Definition thin_sep : string := " ".
Definition formatCount (n : Z) : string :=
  let s := fmt_d n in
  if (String.length s <=? 4)%nat then s
  else Join (group_loop (String.length s) s []) thin_sep.

(** [Duration.Seconds] and [formatDuration]. *)
Definition Duration_Seconds (d : Z) : float64 :=
  f_add (f_of_int (Z.quot d Second)) (f_div (f_of_int (Z.rem d Second)) (f_of_int Second)).
Definition formatDuration (d : Z) : string :=
  let d := if d <? 0 then 0 else d in
  let total := f_int (Duration_Seconds d) in
  let h := Z.quot total 3600 in
  let m := Z.rem (Z.quot total 60) 60 in
  let s := Z.rem total 60 in
  if h >? 0 then fmt_d h +:+ ":" +:+ pad0 2 (fmt_d m) +:+ ":" +:+ pad0 2 (fmt_d s)
  else pad0 2 (fmt_d m) +:+ ":" +:+ pad0 2 (fmt_d s).

Definition bar (n max w : Z) : string :=
  if (max =? 0) || (n =? 0) then ""
  else
    let filled := f_int (f_mul (f_div (f_of_int n) (f_of_int max)) (f_of_int w)) in
    let filled := if filled <? 1 then 1 else filled in
    let filled := if filled >? w then w else filled in
    Repeat "█" filled.

(** The filled part of [meter], and [meter]; [strings.Repeat] would panic if it
    exceeded the width. *)
Definition meter_filled (frac : float64) (w : Z) : Z :=
  let frac := if f_lt frac (f_of_int 0) then f_of_int 0 else frac in
  let frac := if f_lt (f_of_int 1) frac then f_of_int 1 else frac in
  f_int (f_mul frac (f_of_int w)).
Definition meter (frac : float64) (w : Z) : string :=
  let filled := meter_filled frac w in Repeat "█" filled +:+ Repeat "░" (w - filled).
