(* ===== verification/Panels.v ===== *)
(** * The dashboard's panels ([output/dashboard.go])

    One frame of the display, panel by panel, and the loop that shrinks it to
    the terminal's height. *)

From S2P Require Import Prelude GoStrings GoTime GoText GoFloat Alerts Storyline Record Sinks Console Term Dashboard.

(** What one rendering reads besides the dashboard: the two hooks, the
    terminal, and the orders in which its two maps are ranged over. *)
Record View := mkView {
  vw_dash : Dashboard;
  vw_metrics : Metrics;
  vw_now : Z;
  vw_term : Terminal;
  vw_rule_order : list string;
  vw_proc_order : list procKey
}.

(** The orders are those of the keys of the maps. *)
Definition view_ok (v : View) : Prop :=
  vw_rule_order v ≡ₚ (map_to_list (db_byRule (vw_dash v))).*1
  /\ vw_proc_order v ≡ₚ (map_to_list (db_byProcess (vw_dash v))).*1.

(** [Metrics] when the hook is not set. *)
Definition noMetrics : Metrics := mkMetrics 0 0 0 0 0 0 0 0 0 (f_of_int 0).

(** ** Layout helpers *)

Definition color (o : DashboardOptions) (style s : string) : string :=
  if negb (op_Color o) || (style ==s "") then s else style +:+ s +:+ ansiReset.
Definition styleIf (cond : bool) (style : string) : string := if cond then style else "".

Definition width (p : platform) (o : DashboardOptions) (t : Terminal) : Z :=
  let w := op_Width o in
  let w := if w <=? 0 then terminalWidth p t else w in
  let w := if w <? minWidth then minWidth else w in
  if w >? maxWidth then maxWidth else w.

(** [Dashboard.rule]: a divider with text let into it. *)
Definition rule (o : DashboardOptions) (leftCap rightCap : string) (w : Z) (left right style : string) : string :=
  let used := if negb (left ==s "") then 2 + (visibleLen left + 2) else 2 in
  let tail := if negb (right ==s "") then " " +:+ right +:+ " " else "" in
  let fill := w - used - visibleLen tail - 1 in
  let fill := if fill <? 1 then 1 else fill in
  color o ansiDim (leftCap +:+ "─")
  +:+ (if negb (left ==s "") then " " +:+ color o style left +:+ " " else "")
  +:+ color o ansiDim (Repeat "─" fill)
  +:+ (if negb (tail ==s "") then color o ansiDim tail else "")
  +:+ color o ansiDim rightCap.

Definition heading (o : DashboardOptions) (text : string) (w : Z) : string :=
  let pad := w - visibleLen text - 3 in
  let pad := if pad <? 1 then 1 else pad in
  "  " +:+ color o ansiBold text +:+ " " +:+ color o ansiDim (Repeat "─" pad).

Definition heading2 (o : DashboardOptions) (left right : string) (w : Z) : string :=
  let half := Z.quot w 2 in
  let l := "  " +:+ color o ansiBold left +:+ " " +:+ color o ansiDim (Repeat "─" (maxInt 1 (half - visibleLen left - 3))) in
  let r := color o ansiBold right +:+ " " +:+ color o ansiDim (Repeat "─" (maxInt 1 (w - half - visibleLen right - 3))) in
  l +:+ "  " +:+ r.

(** ** Header and footer *)

(** [type statCell struct]: label, value, style. *)
Record statCell := mkStatCell { sc_label : string; sc_value : string; sc_style : string }.

Definition statLine (o : DashboardOptions) (cells : list statCell) : string :=
  " " +:+ foldr (fun c acc => "  " +:+ color o ansiDim (sc_label c) +:+ " " +:+ color o (sc_style c) (sc_value c) +:+ acc) "" cells.

Section panels.
Context `{UnicodeUpper} `{WallClock}.

Definition renderHeader (d : Dashboard) (now w : Z) (m : Metrics) : string :=
  let o := db_opts d in
  let left := "KrnlSentry " +:+ op_Version o +:+ " · " +:+ ToUpper (op_Mode o) +:+ " · " +:+ op_Scope o in
  let left := if negb (op_Source o ==s "") then left +:+ " · " +:+ op_Source o else left in
  let uptime := formatDuration (Time_Sub now (db_started d)) in
  let drops := u64 (mt_QueueDropped m + mt_KernelDrops m) in
  let stats :=
    [ mkStatCell "events" (formatCount (mt_Observed m)) "";
      mkStatCell "alerts" (formatCount (db_total d)) (styleIf (db_total d >? 0) ansiBold);
      mkStatCell "folded" (formatCount (mt_Suppressed m)) "";
      mkStatCell "tracked" (formatCount (u64 (mt_TrackedProcs m))) "";
      mkStatCell "drops" (formatCount drops) (styleIf (drops >? 0) (ansiRed +:+ ansiBold)) ]
    ++ (if mt_WriteErrors m >? 0 then [mkStatCell "write errors" (formatCount (mt_WriteErrors m)) ansiRed] else []) in
  rule o "╭" "╮" w left uptime (ansiBold +:+ ansiCyan) +:+ nl
  +:+ statLine o stats +:+ nl
  +:+ (if f_le (f_of_int 0) (mt_Progress m) then
         let pct := f_int (f_mul (mt_Progress m) (f_of_int 100)) in
         let barW := w - 22 in
         let barW := if barW <? 10 then 10 else barW in
         "  replay   " +:+ color o ansiCyan (meter (mt_Progress m) barW) +:+ " " +:+ pad_left 3 (fmt_d pct) +:+ "%" +:+ nl
       else "")
  +:+ rule o "╰" "╯" w "" "" ansiDim +:+ nl.

Definition renderFooter (d : Dashboard) (w : Z) (m : Metrics) : string :=
  let o := db_opts d in
  let left := "alerts → " +:+ op_AlertPath o in
  let right := if (op_Mode o ==s "replay") && f_le (f_of_int 1) (mt_Progress m) then "replay complete" else "Ctrl+C to stop" in
  rule o "╰" "╯" w left right ansiDim +:+ nl.

(** ** Severities and rules *)

Definition severity_order : list Severity := [SeverityCritical; SeverityHigh; SeverityMedium; SeverityLow].

Definition barStyle (s : Severity) : string :=
  if s =? SeverityCritical then ansiRed +:+ ansiBold
  else if s =? SeverityHigh then ansiRed
  else if s =? SeverityMedium then ansiYellow
  else ansiCyan.

Definition severityRows (d : Dashboard) (w : Z) : list string :=
  let o := db_opts d in
  let max := foldl (fun max s => if count (db_bySeverity d) s >? max then count (db_bySeverity d) s else max) 0 severity_order in
  let barW := w - 16 in
  let barW := if barW <? 8 then 8 else barW in
  (fun s =>
     let n := count (db_bySeverity d) s in
     let style := if (s =? SeverityCritical) && (n =? 0) then ansiDim else severityStyle s in
     color o style (padVisible (Severity_String s) 8) +:+ " "
     +:+ color o (barStyle s) (padVisible (bar n max barW) barW) +:+ " "
     +:+ padVisible (formatCount n) 5) <$> severity_order.

(** The names listed: the enabled rules (or, if none were given, those that
    fired), then whatever else fired. *)
Definition rule_names (d : Dashboard) (order : list string) : list string :=
  let names := op_Rules (db_opts d) in
  let names := if (length names =? 0)%nat then SortStrings order else names in
  foldl (fun names name => if contains names name then names else names ++ [name]) names order.

Definition ruleRows (d : Dashboard) (order : list string) (w : Z) : list string :=
  let o := db_opts d in
  (fun name =>
     let n := count (db_byRule d) name in
     let style := if n >? 0 then ansiBlue else ansiDim in
     color o style (padVisible (truncate name (w - 7)) (w - 7)) +:+ " " +:+ padVisible (formatCount n) 5)
  <$> rule_names d order.

(** The loop over both columns: as many lines as the longer has. *)
Fixpoint side_by_side (w : Z) (ls rs : list string) : string :=
  let line l r := "  " +:+ padVisible l (Z.quot w 2 - 2) +:+ "  " +:+ r +:+ nl in
  match ls, rs with
  | [], rs => foldr (fun r acc => line "" r +:+ acc) "" rs
  | l :: ls, [] => line l "" +:+ side_by_side w ls []
  | l :: ls, r :: rs => line l r +:+ side_by_side w ls rs
  end.

Definition renderSeverityAndRules (d : Dashboard) (order : list string) (w : Z) : string :=
  let left := severityRows d (Z.quot w 2 - 2) in
  let right := ruleRows d order (w - Z.quot w 2 - 2) in
  heading2 (db_opts d) "SEVERITY" "RULES" w +:+ nl +:+ side_by_side w left right.

(** ** Chips: tactics and processes *)

(** [wrapChips], on pairs of a chip and its width; [used] is [None] before the
    first. *)
Fixpoint wrap_loop (w : Z) (indent sep : string) (used : option Z) (chips : list (string * Z)) : string :=
  match chips with
  | [] => nl
  | (chip, n) :: chips =>
      let '(before, used) :=
        match used with
        | None => (indent, slen indent)
        | Some used =>
            if used + slen sep + n >? w then (nl +:+ indent, slen indent) else (sep, used + slen sep)
        end in
      before +:+ chip +:+ wrap_loop w indent sep (Some (used + n)) chips
  end.
Definition wrapChips (chips : list (string * Z)) (w : Z) (indent sep : string) : string :=
  wrap_loop w indent sep None chips.

Definition tactic_chips : list Tactic :=
  [TacticExecution; TacticPrivEsc; TacticDefenseEvasion; TacticCredentialAccess; TacticCommandControl].

Definition renderTactics (d : Dashboard) (w : Z) : string :=
  let o := db_opts d in
  let chips := (fun t =>
    let '(mark, style) := if count (db_byTactic d) (tac_Name t) >? 0 then ("●", ansiYellow +:+ ansiBold) else ("·", ansiDim) in
    let label := mark +:+ " " +:+ tac_Name t in
    (color o style label, slen label)) <$> tactic_chips in
  heading o "ATT&CK TACTICS" w +:+ nl +:+ wrapChips chips (w - 4) "   " "   ".

(** The comparison handed to [sort.Slice], as the order it leaves. *)
Definition proc_before (x y : procKey * Z) : Prop :=
  snd y < snd x \/ (snd x = snd y /\ pk_PID (fst x) <= pk_PID (fst y)).
#[export] Instance proc_before_dec : RelDecision proc_before.
Proof. intros x y. unfold proc_before. apply _. Defined.

(** [sort.Slice] leaves entries that compare equal in no particular order; so
    does a stable sort of a map ranged over in an arbitrary order. *)
Definition top_processes (d : Dashboard) (order : list procKey) : list (procKey * Z) :=
  take maxProcRows (merge_sort proc_before ((fun k => (k, count (db_byProcess d) k)) <$> order)).

Definition renderProcesses (d : Dashboard) (order : list procKey) (w : Z) : string :=
  let o := db_opts d in
  if (size (db_byProcess d) =? 0)%nat then ""
  else
    let chips := (fun '(k, n) =>
      let name := pk_Comm k +:+ "[" +:+ fmt_d (pk_PID k) +:+ "]" in
      let times := "×" +:+ fmt_d n in
      (color o ansiGreen name +:+ " " +:+ color o ansiDim times, slen (name +:+ " " +:+ times)))
      <$> top_processes d order in
    heading o "TOP PROCESSES" w +:+ nl +:+ wrapChips chips (w - 4) "   " "   ".

(** ** The attack chain *)

Definition story_step_line (o : DashboardOptions) (w : Z) (branch : string) (st : StoryStep) : string :=
  "   " +:+ color o ansiDim branch +:+ " "
  +:+ color o ansiDim (padVisible ("+" +:+ fmt_d (st_OffsetMS st) +:+ "ms") 9) +:+ " "
  +:+ color o ansiGreen (padVisible (truncate (st_Comm st +:+ "[" +:+ fmt_d (st_PID st) +:+ "]") 16) 16) +:+ " "
  +:+ color o ansiYellow (padVisible (truncate (st_Tactic st) 30) 30) +:+ " "
  +:+ color o ansiDim (truncate (st_Summary st) (maxInt 10 (w - 66))) +:+ nl.

Definition renderStoryline (d : Dashboard) (w : Z) (m : Metrics) (rows : nat) : string :=
  let o := db_opts d in
  let label := "ATTACK CHAIN   open storylines " +:+ fmt_d (mt_Storylines m) +:+ "   chains raised " +:+ fmt_d (mt_AttackChains m) in
  heading o label w +:+ nl +:+
  match db_lastChain d with
  | None => color o ansiDim "   no multi-tactic chain yet — alerts are being correlated by process tree" +:+ nl
  | Some a =>
      let steps := al_Story a in
      let '(dropped, steps) :=
        if (rows <? length steps)%nat then ((length steps - (rows - 1))%nat, take (rows - 1) steps) else (0%nat, steps) in
      "   " +:+ color o (ansiBgRed +:+ ansiWhite +:+ ansiBold) " CRITICAL " +:+ " " +:+ truncate (al_Description a) (w - 16) +:+ nl
      +:+ foldr String.append ""
            (imap (fun i st => story_step_line o w (if (i =? length steps - 1)%nat && (dropped =? 0)%nat then "└─" else "├─") st) steps)
      +:+ (if (0 <? dropped)%nat
           then "   " +:+ color o ansiDim "└─" +:+ " "
                +:+ color o ansiDim ("… " +:+ fmt_d (Z.of_nat dropped) +:+ " more step(s) — full story in " +:+ op_AlertPath o) +:+ nl
           else "")
  end.

(** ** The feed *)

Record columns := mkColumns { c_rule : Z; c_proc : Z; c_mitre : Z; c_desc : Z }.

Definition overhead : Z := 3 + 12 + 1 + 10 + 1 + 1 + 1.
Definition avail (w rule proc mitre : Z) : Z :=
  let n := w - overhead - rule - proc in if mitre >? 0 then n - (mitre + 1) else n.

(** [for avail() < minDescCols && col > minNameCols { col-- }]; the column is
    at most 21, so eleven steps are more than enough. *)
Fixpoint narrow (fuel : nat) (f : Z -> Z) (col : Z) : Z :=
  match fuel with
  | O => col
  | S fuel => if (f col <? minDescCols) && (col >? minNameCols) then narrow fuel f (col - 1) else col
  end.
Definition alertColumns (w : Z) : columns :=
  let rule := 21 in
  let proc := 18 in
  let mitre := if avail w rule proc 10 <? minDescCols then 0 else 10 in
  let rule := narrow 11 (fun rule => avail w rule proc mitre) rule in
  let proc := narrow 11 (fun proc => avail w rule proc mitre) proc in
  let desc := avail w rule proc mitre in
  mkColumns rule proc mitre (if desc <? 0 then 0 else desc).

Definition feed_row (o : DashboardOptions) (cols : columns) (a : Alert) : string :=
  let proc := truncate (al_Comm a +:+ "[" +:+ fmt_d (al_PID a) +:+ "]") (c_proc cols) in
  let desc := if al_Suppressed a >? 0 then "(+" +:+ fmt_d (al_Suppressed a) +:+ " folded) " +:+ al_Description a
              else al_Description a in
  "   " +:+ color o ansiDim (FormatClock (al_Timestamp a)) +:+ " "
  +:+ color o (severityStyle (al_Severity a)) (padVisible (" " +:+ Severity_String (al_Severity a) +:+ " ") 10) +:+ " "
  +:+ color o ansiBlue (padVisible (truncate (al_Rule a) (c_rule cols)) (c_rule cols)) +:+ " "
  +:+ color o ansiGreen (padVisible proc (c_proc cols)) +:+ " "
  +:+ (if c_mitre cols >? 0
       then color o ansiDim (padVisible (truncate (al_MitreID a) (c_mitre cols)) (c_mitre cols)) +:+ " " else "")
  +:+ truncate desc (c_desc cols).

(** The loop over the history, newest first. *)
Fixpoint feed (o : DashboardOptions) (cols : columns) (rows : nat) (newest_first : list Alert) : string :=
  match rows, newest_first with
  | O, _ | _, [] => ""
  | S rows', a :: l =>
      if al_Severity a <? op_MinSeverity o then feed o cols rows l
      else feed_row o cols a +:+ nl +:+ feed o cols rows' l
  end.

Definition renderRecent (d : Dashboard) (w : Z) (rows : nat) : string :=
  let o := db_opts d in
  let label := "RECENT ALERTS   " +:+ fmt_d (db_total d) +:+ " total" in
  let label := if op_MinSeverity o >? SeverityLow
               then label +:+ "   showing " +:+ Severity_String (op_MinSeverity o) +:+ " and above" else label in
  heading o label w +:+ nl +:+
  (if (length (db_recent d) =? 0)%nat then color o ansiDim "   watching — no alerts yet" +:+ nl
   else feed o (alertColumns w) rows (reverse (db_recent d))).

(** ** The frame *)

Record layout := mkLayout { ly_storyRows : nat; ly_recentRows : nat; ly_showTactics : bool; ly_showProcesses : bool }.

Definition render (p : platform) (v : View) (lay : layout) : string :=
  let d := vw_dash v in
  let m := vw_metrics v in
  let w := width p (db_opts d) (vw_term v) in
  renderHeader d (vw_now v) w m +:+ nl
  +:+ renderSeverityAndRules d (vw_rule_order v) w +:+ nl
  +:+ (if ly_showTactics lay then renderTactics d w else "")
  +:+ (if ly_showProcesses lay
       then (if ly_showTactics lay then nl else "") +:+ renderProcesses d (vw_proc_order v) w else "")
  +:+ (if ly_showTactics lay || ly_showProcesses lay then nl else "")
  +:+ renderStoryline d w m (ly_storyRows lay) +:+ nl
  +:+ renderRecent d w (ly_recentRows lay) +:+ nl
  +:+ renderFooter d w m.

Definition full_layout : layout := mkLayout maxStoryRows maxRecentRows true true.
Definition minimal_layout : layout := mkLayout minStoryRows minRecentRows false false.

(** The [switch] of [Render]'s loop: what is given up next. *)
Definition shrink (lay : layout) : option layout :=
  let '(mkLayout story recent tactics procs) := lay in
  if (minRecentRows <? recent)%nat then Some (mkLayout story (recent - 1) tactics procs)
  else if (minStoryRows <? story)%nat then Some (mkLayout (story - 1) recent tactics procs)
  else if procs then Some (mkLayout story recent tactics false)
  else if tactics then Some (mkLayout story recent false procs)
  else None.

(** [Render]'s loop.  Alerts may be written, the metrics change and the
    terminal be resized between two renderings: the [i]-th sees [views i].  The
    fuel is spent one unit a rendering; [None] is running out of it. *)
Fixpoint render_loop (fuel : nat) (p : platform) (budget : Z) (views : nat -> View) (i : nat) (lay : layout) : option string :=
  match fuel with
  | O => None
  | S fuel =>
      let frame := render p (views i) lay in
      if Z.of_nat (count_newlines frame) <=? budget then Some frame
      else match shrink lay with
           | Some lay => render_loop fuel p budget views (S i) lay
           | None => Some frame
           end
  end.

Definition Render_height (p : platform) (v : View) : Z :=
  let h := op_Height (db_opts (vw_dash v)) in if h <=? 0 then terminalHeight p (vw_term v) else h.
Definition Render (fuel : nat) (p : platform) (views : nat -> View) : option string :=
  render_loop fuel p (Render_height p (views 0%nat) - 1) views 0 full_layout.

(** [Paint]'s text for one frame. *)
Definition ansiHome : string := csi "H".
Definition ansiClearLine : string := csi "K".
Definition ansiClearBelow : string := csi "J".
Definition ansiHideCursor : string := csi "?25l".
Definition ansiShowCursor : string := csi "?25h".

Definition paint_text (o : DashboardOptions) (frame : string) : string :=
  (if op_Color o then ansiHideCursor else "") +:+ ansiHome
  +:+ foldr (fun line acc => line +:+ ansiClearLine +:+ nl +:+ acc) "" (Split frame newline)
  +:+ ansiClearBelow.

(** [Paint] of a frame onto a writer that fails as [write] says: what is written,
    and the error returned. *)
Inductive paint_error := PaintingDashboard | ShowingCursor.
Definition Paint (o : DashboardOptions) (frame : string) (write : bool) : string * option paint_error :=
  (paint_text o frame, if write then None else Some PaintingDashboard).

(** The end of [Close]: the last frame, and the cursor back if that was
    painted. *)
Definition close_paint (o : DashboardOptions) (frame : string) (write show : bool) : list string * option paint_error :=
  let '(text, err) := Paint o frame write in
  match err with
  | Some err => ([text], Some err)
  | None => if op_Color o then ([text; ansiShowCursor], if show then None else Some ShowingCursor) else ([text], None)
  end.
End panels.
