(* ===== verification/DashProps.v ===== *)
(** * Properties of the dashboard

    The height of a frame, the width of a feed row, and what the counters
    count; where they stand on the screen is in [Screen]. *)

From S2P Require Import Prelude GoStrings GoTime GoText GoFloat Alerts Storyline Record Sinks Console Term Dashboard Panels.

(** ** Text on one line *)

Definition flat (s : string) : Prop := count_newlines s = 0%nat.

Create HintDb flat.

Lemma flat_app s t : flat s -> flat t -> flat (s +:+ t).
Proof. unfold flat. rewrite count_newlines_app. lia. Qed.

Lemma flat_bytes P s :
  (forall a, P a = true -> Ascii.eqb a (chr 10) = false) -> all_bytes P s = true -> flat s.
Proof.
  intros HP. induction s as [|a s IH]; [done|]. cbn [all_bytes]. intros [Ha Hs]%andb_true_iff.
  unfold flat. cbn [count_newlines]. rewrite HP by done. by apply IH.
Qed.

Lemma flat_cut n s : flat s -> flat (stake n s) /\ flat (sdrop n s).
Proof. unfold flat. intros Hs. rewrite <- (stake_sdrop n s), count_newlines_app in Hs. lia. Qed.

Lemma flat_FormatUint n : flat (FormatUint n 10).
Proof.
  apply (flat_bytes is_decimal), FormatUint_decimal. intros a Ha.
  destruct (Ascii.eqb_spec a (chr 10)) as [->|]; [discriminate Ha|done].
Qed.
Lemma flat_fmt_d n : flat (fmt_d n).
Proof. unfold fmt_d. case_match; [apply (flat_app "-"); [done|]|]; apply flat_FormatUint. Qed.

Lemma flat_srepeat s n : flat s -> flat (srepeat s n).
Proof. intros Hs. induction n as [|n IH]; [done|]. cbn [srepeat]. by apply flat_app. Qed.
Lemma flat_Repeat s n : flat s -> flat (Repeat s n).
Proof. intros Hs. by apply flat_srepeat. Qed.
Lemma flat_padVisible s w : flat s -> flat (padVisible s w).
Proof. intros Hs. unfold padVisible. case_match; [|done]. apply flat_app; [done|]. by apply flat_Repeat. Qed.
Lemma flat_pad0 n s : flat s -> flat (pad0 n s).
Proof. intros Hs. unfold pad0. apply flat_app; [by apply flat_srepeat|done]. Qed.
Lemma flat_pad_left n s : flat s -> flat (pad_left n s).
Proof. intros Hs. unfold pad_left. apply flat_app; [by apply flat_srepeat|done]. Qed.
Lemma flat_color o style s : flat style -> flat s -> flat (color o style s).
Proof. intros. unfold color. case_match; [done|]. repeat apply flat_app; done. Qed.
Lemma flat_styleIf b s : flat s -> flat (styleIf b s).
Proof. by destruct b. Qed.
Lemma flat_severityStyle s : flat (severityStyle s).
Proof. unfold severityStyle, severityStyles. cbn [assoc]. by repeat case_decide. Qed.
Lemma flat_barStyle s : flat (barStyle s).
Proof. unfold barStyle. by repeat case_match. Qed.

(** Every rune of a flat text is flat. *)
Lemma flat_runes s : flat s -> Forall (fun rb => flat (rune_text rb)) (runes s).
Proof.
  remember (String.length s) as n eqn:Hn. revert s Hn.
  induction n as [n IH] using lt_wf_ind. intros [|a s] Hn Hs; [constructor|].
  rewrite runes_step by done. pose proof (DecodeRune_width a s) as Hw.
  destruct (DecodeRune (String a s)) as [r w]. cbn [fst snd] in *.
  destruct (flat_cut w (String a s) Hs) as [Ht Hd]. constructor.
  - unfold rune_text. cbn [fst snd]. by case_match.
  - apply (IH (n - w)%nat); [cbn in *; lia| |done]. rewrite sdrop_length. cbn in *. lia.
Qed.

Lemma flat_string_of_runes l : Forall (fun rb => flat (rune_text rb)) l -> flat (string_of_runes l).
Proof. induction 1; [done|]. cbn [string_of_runes foldr]. by apply flat_app. Qed.

Lemma flat_truncate s w : flat s -> flat (truncate s w).
Proof.
  intros Hs. unfold truncate. repeat case_match; try done. apply flat_app; [|done].
  apply flat_string_of_runes. by apply Forall_take, flat_runes.
Qed.

Lemma flat_Join l sep : flat sep -> Forall flat l -> flat (Join l sep).
Proof.
  intros Hsep. induction 1 as [|s [|t l] Hs Hl IH]; [done..|]. rewrite Join_cons2. by repeat apply flat_app.
Qed.

Lemma group_loop_flat f s parts : flat s -> Forall flat parts -> Forall flat (group_loop f s parts).
Proof.
  revert s parts. induction f as [|f IH]; intros s parts Hs Hp; cbn [group_loop]; [by constructor|].
  case_match; [|by constructor]. destruct (flat_cut (String.length s - 3) s Hs). by apply IH; [|constructor].
Qed.
Lemma flat_formatCount n : flat (formatCount n).
Proof.
  unfold formatCount. pose proof (flat_fmt_d n). case_match; [done|].
  apply flat_Join; [done|]. by apply group_loop_flat.
Qed.

#[export] Hint Resolve flat_app flat_FormatUint flat_fmt_d flat_Repeat flat_padVisible flat_pad0 flat_pad_left flat_color
  flat_styleIf flat_severityStyle flat_barStyle flat_truncate flat_formatCount : flat.
#[export] Hint Extern 5 (flat _) => reflexivity : flat.

Lemma flat_formatDuration d : flat (formatDuration d).
Proof. unfold formatDuration. cbv zeta. case_match; auto 10 with flat. Qed.
Lemma flat_bar n m w : flat (bar n m w).
Proof. unfold bar. case_match; auto with flat. Qed.
Lemma flat_meter x w : flat (meter x w).
Proof. unfold meter. auto with flat. Qed.
Lemma flat_Severity_String s : flat (Severity_String s).
Proof. unfold Severity_String, severityNames. cbn [assoc]. by repeat case_decide. Qed.
#[export] Hint Resolve flat_formatDuration flat_bar flat_meter flat_Severity_String : flat.

Lemma flat_rule o lc rc w l r style :
  flat lc -> flat rc -> flat l -> flat r -> flat style -> flat (rule o lc rc w l r style).
Proof. intros. unfold rule. cbv zeta. repeat case_match; auto 20 with flat. Qed.
Lemma flat_heading o t w : flat t -> flat (heading o t w).
Proof. intros. unfold heading. cbv zeta. auto 20 with flat. Qed.
Lemma flat_heading2 o l r w : flat l -> flat r -> flat (heading2 o l r w).
Proof. intros. unfold heading2. cbv zeta. auto 20 with flat. Qed.
Lemma flat_statLine o cells :
  Forall (fun c => flat (sc_label c) /\ flat (sc_value c) /\ flat (sc_style c)) cells -> flat (statLine o cells).
Proof.
  intros Hc. unfold statLine. apply flat_app; [done|]. induction Hc as [|c cells (? & ? & ?) _ IH]; [done|].
  cbn [foldr]. auto 20 with flat.
Qed.
#[export] Hint Resolve flat_rule flat_heading flat_heading2 flat_statLine : flat.

(** ** Text the display is given *)

Definition flat_step (st : StoryStep) : Prop := flat (st_Comm st) /\ flat (st_Tactic st) /\ flat (st_Summary st).
Definition flat_alert (a : Alert) : Prop :=
  flat (al_Comm a) /\ flat (al_Rule a) /\ flat (al_MitreID a) /\ flat (al_Description a) /\ Forall flat_step (al_Story a).

(** One-line options; the mode is one of the documented two. *)
Definition flat_options (o : DashboardOptions) : Prop :=
  flat (op_Version o) /\ (op_Mode o = "live" \/ op_Mode o = "replay") /\ flat (op_Scope o) /\ flat (op_Source o)
  /\ flat (op_AlertPath o) /\ Forall flat (op_Rules o).

(** What the panels read of a dashboard. *)
Record flat_dash (d : Dashboard) : Prop := {
  fd_opts : flat_options (db_opts d);
  fd_recent : Forall flat_alert (db_recent d);
  fd_chain : forall a, db_lastChain d = Some a -> flat_alert a;
  fd_rules : op_Rules (db_opts d) <> [] /\ forall name, is_Some (db_byRule d !! name) -> name ∈ op_Rules (db_opts d)
}.

Lemma NewDashboard_flat o t :
  flat_options o -> op_Rules o <> [] -> flat_dash (NewDashboard o t).
Proof.
  intros (Hv & Hm & Hs & Hsrc & Hp & Hr) Hne. unfold NewDashboard. cbv zeta.
  assert ((op_Mode o ==s "") = false) as -> by (by destruct Hm as [-> | ->]).
  split; cbn [db_opts db_recent db_lastChain db_byRule op_Rules]; [by split_and!|constructor|done|].
  split; [done|]. intros name. by rewrite lookup_empty, is_Some_alt.
Qed.

Lemma Dashboard_Write_flat d a :
  flat_dash d -> flat_alert a -> al_Rule a ∈ op_Rules (db_opts d) -> flat_dash (Dashboard_Write d (Some a)).
Proof.
  intros [Ho Hr Hc [Hne Hrules]] Ha Hrule.
  split; cbn [Dashboard_Write db_opts db_recent db_lastChain db_byRule]; [done| | |split; [done|]].
  - unfold keep_recent. assert (Forall flat_alert (db_recent d ++ [a])) by (apply Forall_app; split; [done|by constructor]).
    case_match; [by apply Forall_drop|done].
  - intros a'. case_match; [by intros [= <-]|apply Hc].
  - intros name. unfold bump. destruct (decide (name = al_Rule a)) as [->|Hn]; [done|].
    rewrite lookup_insert_ne by done. apply Hrules.
Qed.

Lemma Dashboard_Write_opts d oa : db_opts (Dashboard_Write d oa) = db_opts d.
Proof. by destruct oa. Qed.
Lemma Dashboard_WriteAll_opts d alerts : db_opts (Dashboard_WriteAll d alerts) = db_opts d.
Proof.
  revert d. induction alerts as [|a alerts IH]; intros d; [done|]. unfold Dashboard_WriteAll in *. cbn [foldl].
  by rewrite IH, Dashboard_Write_opts.
Qed.

Lemma Dashboard_WriteAll_flat d alerts :
  flat_dash d -> Forall (fun a => flat_alert a /\ al_Rule a ∈ op_Rules (db_opts d)) alerts ->
  flat_dash (Dashboard_WriteAll d alerts).
Proof.
  intros Hd Ha. revert d Hd Ha. induction alerts as [|a alerts IH]; intros d Hd Ha; [done|].
  apply Forall_cons in Ha as [[Hf Hr] Ha]. unfold Dashboard_WriteAll in *. cbn [foldl].
  apply IH; [by apply Dashboard_Write_flat|]. by rewrite Dashboard_Write_opts.
Qed.

(** ** Panel heights *)

Lemma lines_nl : count_newlines nl = 1%nat.
Proof. done. Qed.
Ltac lines := repeat rewrite count_newlines_app; rewrite ?lines_nl.

Lemma flat_lines s : flat s -> count_newlines s = 0%nat.
Proof. done. Qed.

Section heights.
Context `{UnicodeUpper} `{WallClock}.
Hypothesis Clock_flat : forall t, flat (FormatClock t).

Lemma renderHeader_lines d now w m :
  flat_options (db_opts d) -> (count_newlines (renderHeader d now w m) <= 4)%nat.
Proof.
  intros (Hv & Hm & Hs & Hsrc & Hp & Hr). unfold renderHeader. cbv zeta.
  assert (flat (ToUpper (op_Mode (db_opts d)))) as Hmode by (destruct Hm as [-> | ->]; reflexivity).
  match goal with |- context [rule _ _ _ _ ?l _ _] => assert (flat l) as Hl by (case_match; auto 20 with flat); revert Hl; generalize l end.
  intros l Hl. match goal with |- context [statLine ?o ?cells] => assert (flat (statLine o cells)) as Hst end.
  { apply flat_statLine. apply Forall_app. split; [repeat constructor|case_match; repeat constructor]; cbn; auto with flat. }
  lines. rewrite Hst. rewrite !(flat_lines (rule _ _ _ _ _ _ _)) by auto 10 with flat. destruct (f_le _ _); [|cbn; lia].
  lines. rewrite (flat_lines (color _ _ _)), (flat_lines (pad_left _ _)) by auto 10 with flat. cbn. lia.
Qed.

Lemma renderFooter_lines d w m : flat_options (db_opts d) -> count_newlines (renderFooter d w m) = 1%nat.
Proof.
  intros (Hv & Hm & Hs & Hsrc & Hp & Hr). unfold renderFooter. cbv zeta. lines.
  rewrite flat_lines; [done|]. apply flat_rule; auto with flat. case_match; auto with flat.
Qed.

Lemma side_by_side_lines w ls rs :
  Forall flat ls -> Forall flat rs -> count_newlines (side_by_side w ls rs) = Nat.max (length ls) (length rs).
Proof.
  assert (Hline : forall l r, flat l -> flat r ->
    count_newlines ("  " +:+ padVisible l (Z.quot w 2 - 2) +:+ "  " +:+ r +:+ nl) = 1%nat).
  { intros l r Hl Hr. lines. rewrite (flat_lines (padVisible _ _)), Hr by auto with flat. done. }
  intros Hls. revert rs. induction Hls as [|l ls Hl Hls IH]; intros rs Hrs.
  - cbn [side_by_side]. induction Hrs as [|r rs Hr Hrs IHr]; [done|]. cbn [foldr].
    rewrite count_newlines_app, Hline, IHr by done. cbn. lia.
  - destruct Hrs as [|r rs Hr Hrs]; cbn [side_by_side]; rewrite count_newlines_app, Hline, IH by auto with flat; cbn; lia.
Qed.

Lemma rule_names_listed d order :
  op_Rules (db_opts d) <> [] -> Forall (.∈ op_Rules (db_opts d)) order -> rule_names d order = op_Rules (db_opts d).
Proof.
  intros Hne Ho. unfold rule_names. assert ((length (op_Rules (db_opts d)) =? 0)%nat = false) as -> by by destruct (op_Rules _).
  induction Ho as [|name order Hn Ho IH]; [done|]. cbn [foldl].
  assert (contains (op_Rules (db_opts d)) name = true) as ->; [|done].
  unfold contains. apply existsb_exists. exists name. split; [by apply list_elem_of_In|by apply String.eqb_eq].
Qed.

Lemma renderSeverityAndRules_lines d order w :
  flat_dash d -> Forall (.∈ op_Rules (db_opts d)) order ->
  count_newlines (renderSeverityAndRules d order w) = (1 + Nat.max 4 (length (op_Rules (db_opts d))))%nat.
Proof.
  intros [(_ & _ & _ & _ & _ & Hr) _ _ [Hne _]] Ho. unfold renderSeverityAndRules. cbv zeta. lines.
  rewrite flat_lines by auto with flat. rewrite side_by_side_lines.
  - unfold ruleRows. cbv zeta. by rewrite length_fmap, rule_names_listed by done.
  - unfold severityRows. cbv zeta. apply Forall_fmap, Forall_true. intros s. cbn [compose]. case_match; auto 20 with flat.
  - unfold ruleRows. cbv zeta. rewrite rule_names_listed by done. apply Forall_fmap.
    eapply Forall_impl; [exact Hr|]. intros name Hn. cbn [compose]. case_match; auto 20 with flat.
Qed.

Lemma story_step_line_lines o w branch st :
  flat branch -> flat_step st -> count_newlines (story_step_line o w branch st) = 1%nat.
Proof. intros Hb (? & ? & ?). unfold story_step_line. lines. rewrite !(flat_lines (color _ _ _)) by auto 20 with flat. done. Qed.

Lemma story_lines_lines o w f (steps : list StoryStep) :
  (forall i, flat (f i)) -> Forall flat_step steps ->
  count_newlines (foldr String.append "" (imap (fun i st => story_step_line o w (f i) st) steps)) = length steps.
Proof.
  intros Hf Hs. revert f Hf. induction Hs as [|st steps Hst Hs IH]; intros f Hf; [done|]. cbn [imap foldr].
  rewrite count_newlines_app, story_step_line_lines by done. cbn [length]. f_equal.
  exact (IH (fun i => f (S i)) (fun i => Hf (S i))).
Qed.

Lemma renderStoryline_lines d w m rows :
  flat_dash d -> (1 <= rows)%nat -> (count_newlines (renderStoryline d w m rows) <= 2 + rows)%nat.
Proof.
  intros [(_ & _ & _ & _ & Hp & _) _ Hc _] Hrows. unfold renderStoryline. cbv zeta. lines.
  rewrite (flat_lines (heading _ _ _)) by auto 10 with flat.
  destruct (db_lastChain d) as [a|]; [|lines; rewrite flat_lines by auto with flat; cbn; lia].
  destruct (Hc a eq_refl) as (_ & _ & _ & Hd & Hst).
  assert (Hbody : forall dropped steps, Forall flat_step steps ->
    count_newlines ("   " +:+ color (db_opts d) (ansiBgRed +:+ ansiWhite +:+ ansiBold) " CRITICAL " +:+ " "
      +:+ truncate (al_Description a) (w - 16) +:+ nl
      +:+ foldr String.append "" (imap (fun i st => story_step_line (db_opts d) w
            (if (i =? length steps - 1)%nat && (dropped =? 0)%nat then "└─" else "├─") st) steps)
      +:+ (if (0 <? dropped)%nat
           then "   " +:+ color (db_opts d) ansiDim "└─" +:+ " "
                +:+ color (db_opts d) ansiDim ("… " +:+ fmt_d (Z.of_nat dropped) +:+ " more step(s) — full story in " +:+ op_AlertPath (db_opts d)) +:+ nl
           else "")) = (1 + length steps + (if (0 <? dropped)%nat then 1 else 0))%nat).
  { intros dropped steps Hs. lines. rewrite (flat_lines (truncate _ _)), !(flat_lines (color _ _ _)) by auto 10 with flat.
    rewrite (story_lines_lines _ _ (fun i => if (i =? length steps - 1)%nat && (dropped =? 0)%nat then "└─" else "├─"))
      by (try intros i; try case_match; done).
    destruct (0 <? dropped)%nat; [|cbn; lia]. lines. rewrite !(flat_lines (color _ _ _)) by auto 20 with flat. cbn. lia. }
  destruct (rows <? length (al_Story a))%nat eqn:E; bool_prop.
  - rewrite Hbody by by apply Forall_take. rewrite length_take. case_match; lia.
  - rewrite Hbody by done. cbn. lia.
Qed.

Lemma feed_row_flat o cols a : flat_alert a -> flat (feed_row o cols a).
Proof.
  intros (? & ? & ? & ? & _). unfold feed_row. cbv zeta. pose proof (Clock_flat (al_Timestamp a)).
  repeat case_match; auto 30 with flat.
Qed.

Lemma feed_lines o cols rows l : Forall flat_alert l -> (count_newlines (feed o cols rows l) <= rows)%nat.
Proof.
  intros Hl. revert rows. induction Hl as [|a l Ha Hl IH]; intros [|rows]; cbn [feed]; try (cbn; lia).
  case_match; [apply IH|]. lines. rewrite (flat_lines (feed_row _ _ _)) by by apply feed_row_flat. specialize (IH rows). lia.
Qed.

Lemma renderRecent_lines d w rows :
  flat_dash d -> (1 <= rows)%nat -> (count_newlines (renderRecent d w rows) <= 1 + rows)%nat.
Proof.
  intros [_ Hr _ _] Hrows. unfold renderRecent. cbv zeta. lines.
  rewrite (flat_lines (heading _ _ _)) by (case_match; auto 20 with flat). case_match.
  - lines. rewrite flat_lines by auto with flat. lia.
  - pose proof (feed_lines (db_opts d) (alertColumns w) rows (reverse (db_recent d))) as Hf.
    rewrite Forall_reverse in Hf. specialize (Hf Hr). lia.
Qed.

(** The frame of the smallest layout. *)
Lemma minimal_frame_lines p v :
  flat_dash (vw_dash v) -> view_ok v -> (length (op_Rules (db_opts (vw_dash v))) <= 5)%nat ->
  (count_newlines (render p v minimal_layout) <= 23)%nat.
Proof.
  intros Hd [Ho _] H5. unfold render. cbv zeta. cbn [minimal_layout ly_showTactics ly_showProcesses ly_storyRows ly_recentRows orb].
  lines. rewrite renderFooter_lines by apply Hd.
  rewrite renderSeverityAndRules_lines; [|done|].
  - pose proof (renderHeader_lines (vw_dash v) (vw_now v) (width p (db_opts (vw_dash v)) (vw_term v)) (vw_metrics v) (fd_opts _ Hd)).
    pose proof (renderStoryline_lines (vw_dash v) (width p (db_opts (vw_dash v)) (vw_term v)) (vw_metrics v) minStoryRows Hd ltac:(unfold minStoryRows; lia)) as H2.
    pose proof (renderRecent_lines (vw_dash v) (width p (db_opts (vw_dash v)) (vw_term v)) minRecentRows Hd ltac:(unfold minRecentRows; lia)) as H3.
    unfold minStoryRows, minRecentRows in *. cbn [count_newlines]. lia.
  - rewrite Ho. apply Forall_fmap, Forall_forall. intros [k n] Hk%elem_of_map_to_list. cbn. apply (fd_rules _ Hd). by exists n.
Qed.
End heights.

(** ** The loop of [Render] *)

Definition layout_size (lay : layout) : nat :=
  (ly_recentRows lay - minRecentRows) + (ly_storyRows lay - minStoryRows)
  + (if ly_showProcesses lay then 1 else 0) + (if ly_showTactics lay then 1 else 0).
Definition layout_ok (lay : layout) : Prop :=
  (minRecentRows <= ly_recentRows lay)%nat /\ (minStoryRows <= ly_storyRows lay)%nat.

Lemma shrink_Some lay lay' :
  layout_ok lay -> shrink lay = Some lay' -> layout_ok lay' /\ layout_size lay = S (layout_size lay').
Proof.
  destruct lay as [story recent tactics procs]. unfold layout_ok, layout_size, shrink. cbn [ly_recentRows ly_storyRows ly_showTactics ly_showProcesses].
  intros [Hr Hs]. destruct (Nat.ltb_spec minRecentRows recent); [|destruct (Nat.ltb_spec minStoryRows story)];
    [intros [= <-]; cbn; lia..|]. destruct procs, tactics; intros [= <-]; cbn; lia.
Qed.

Lemma shrink_None lay : layout_ok lay -> shrink lay = None -> lay = minimal_layout.
Proof.
  destruct lay as [story recent tactics procs]. unfold layout_ok, shrink. cbn [ly_recentRows ly_storyRows].
  intros [Hr Hs]. destruct (Nat.ltb_spec minRecentRows recent); [done|]. destruct (Nat.ltb_spec minStoryRows story); [done|].
  destruct procs; [done|]. destruct tactics; [done|]. intros _. unfold minimal_layout. f_equal; lia.
Qed.

Section loop.
Context `{UnicodeUpper} `{WallClock}.

(** The loop ends with a frame that fits or with the smallest layout. *)
Lemma render_loop_result p budget views lay i :
  layout_ok lay ->
  exists j lay', let frame := render p (views j) lay' in
    (forall fuel, (layout_size lay < fuel)%nat -> render_loop fuel p budget views i lay = Some frame)
    /\ (Z.of_nat (count_newlines frame) <= budget \/ lay' = minimal_layout).
Proof.
  remember (layout_size lay) as n eqn:Hn. revert lay i Hn. induction n as [|n IH]; intros lay i Hn Hok.
  all: destruct (Z.of_nat (count_newlines (render p (views i) lay)) <=? budget) eqn:E;
    [exists i, lay; bool_prop; split; [|by left]; intros [|fuel] Hf; [lia|]; cbn [render_loop]; by rewrite (proj2 (Z.leb_le _ _))|].
  all: destruct (shrink lay) as [lay'|] eqn:Es;
    [|exists i, lay; split; [|by right; apply shrink_None]; intros [|fuel] Hf; [lia|]; cbn [render_loop]; by rewrite E, Es].
  all: destruct (shrink_Some lay lay' Hok Es) as [Hok' Hsz].
  { lia. }
  destruct (IH lay' (S i) ltac:(lia) Hok') as (j & lay2 & Hfuel & Hres). exists j, lay2. split; [|done].
  intros [|fuel] Hf; [lia|]. cbn [render_loop]. rewrite E, Es. apply Hfuel. lia.
Qed.
End loop.

(** Splitting at line breaks and ending each piece with one adds one. *)
Lemma paint_lines s :
  count_newlines (foldr (fun line acc => line +:+ ansiClearLine +:+ nl +:+ acc) "" (Split s newline)) = S (count_newlines s).
Proof.
  induction s as [|a s IH]; [done|]. cbn [Split count_newlines]. unfold newline in *.
  destruct (Ascii.eqb a (chr 10)) eqn:E; [cbn [foldr String.append]; by lines; rewrite IH|].
  destruct (Split s (chr 10)) as [|l ls]; [cbn in IH; lia|]. cbn [foldr] in *. revert IH.
  lines. unfold flat in *. cbn [count_newlines]. rewrite E. done.
Qed.

Lemma paint_text_lines o frame : count_newlines (paint_text o frame) = S (count_newlines frame).
Proof. unfold paint_text. lines. rewrite paint_lines. destruct (op_Color o); cbn; lia. Qed.

(** ** Properties of the frame *)

Section frame_properties.
Context `{UnicodeUpper} `{WallClock}.
Hypothesis Clock_flat : forall t, flat (FormatClock t).

(** [Render] terminates, whatever happens between two renderings: seventeen
    more attempts than the first always suffice, although alerts arrive, the
    metrics change and the terminal is resized while it looks for a layout.
    What it returns is the rendering of one of the states it saw, and that
    frame fits the height, or was drawn with the smallest layout. *)
Theorem Render_terminates p views :
  exists i lay, let frame := render p (views i) lay in
    (forall fuel, (18 <= fuel)%nat -> Render fuel p views = Some frame)
    /\ (Z.of_nat (count_newlines frame) <= Render_height p (views 0%nat) - 1 \/ lay = minimal_layout).
Proof.
  destruct (render_loop_result p (Render_height p (views 0%nat) - 1) views full_layout 0) as (i & lay & Hf & Hr).
  { unfold layout_ok, full_layout, minRecentRows, minStoryRows, maxRecentRows, maxStoryRows. cbn. lia. }
  exists i, lay. split; [|done]. intros fuel Hfuel. apply Hf. vm_compute. exact Hfuel.
Qed.

(** C32: on a terminal of [MinUsableHeight] rows or more, and with no more than
    the five rules there are, the frame [Render] returns has at most one line
    break fewer than the terminal has rows, whatever alerts have been written
    and however the state changes while it renders: provided no text the alerts
    and the options carry contains a line break.  What [Paint] writes for that
    frame has one line break more, so at most as many as there are rows. *)
Theorem Render_fits p o t0 views :
  flat_options o -> op_Rules o <> [] -> (length (op_Rules o) <= 5)%nat ->
  (forall i, view_ok (views i)
     /\ exists alerts, Forall (fun a => flat_alert a /\ al_Rule a ∈ op_Rules o) alerts
        /\ vw_dash (views i) = Dashboard_WriteAll (NewDashboard o t0) alerts) ->
  MinUsableHeight <= Render_height p (views 0%nat) ->
  exists frame,
    (forall fuel, (18 <= fuel)%nat -> Render fuel p views = Some frame)
    /\ Z.of_nat (count_newlines frame) <= Render_height p (views 0%nat) - 1
    /\ Z.of_nat (count_newlines (paint_text o frame)) <= Render_height p (views 0%nat).
Proof.
  intros Ho Hne H5 Hv Hh.
  destruct (render_loop_result p (Render_height p (views 0%nat) - 1) views full_layout 0) as (i & lay & Hf & Hr).
  { unfold layout_ok, full_layout, minRecentRows, minStoryRows, maxRecentRows, maxStoryRows. cbn. lia. }
  exists (render p (views i) lay). split; [intros fuel Hfuel; apply Hf; vm_compute; exact Hfuel|].
  rewrite paint_text_lines. enough (Z.of_nat (count_newlines (render p (views i) lay)) <= Render_height p (views 0%nat) - 1) by lia.
  destruct Hr as [Hr | ->]; [done|]. destruct (Hv i) as [Hok (alerts & Ha & Hd)].
  assert (Hrules : op_Rules (db_opts (NewDashboard o t0)) = op_Rules o) by done.
  assert (flat_dash (vw_dash (views i))) as Hflat.
  { rewrite Hd. apply Dashboard_WriteAll_flat; [by apply NewDashboard_flat|by rewrite Hrules]. }
  pose proof (minimal_frame_lines Clock_flat p (views i) Hflat Hok) as Hm.
  rewrite Hd, Dashboard_WriteAll_opts, Hrules in Hm. specialize (Hm H5). unfold MinUsableHeight in Hh. lia.
Qed.
End frame_properties.

(** ** The width of text

    [wide s n]: on a terminal in its normal state, [s] takes [n] columns and
    leaves it in its normal state, whatever ASCII text follows. *)

Definition ascii_start (t : string) : Prop := match t with EmptyString => True | String a _ => byte_of a < 128 end.
Definition wide (s : string) (n : Z) : Prop :=
  forall t, ascii_start t -> vis v_text (runes (s +:+ t)) = let '(st, m) := vis v_text (runes t) in (st, n + m).
Definition plain (s : string) : Prop := Forall (fun rb => fst rb <> 27) (runes s).

Lemma ascii_start_app s t : ascii_start s -> ascii_start t -> ascii_start (s +:+ t).
Proof. by destruct s. Qed.

Lemma wide_visibleLen s n : wide s n -> visibleLen s = n.
Proof.
  intros Hs. specialize (Hs "" I). rewrite sapp_nil_r in Hs. unfold visibleLen. rewrite Hs. cbn. lia.
Qed.

Lemma wide_app s t n m : wide s n -> wide t m -> ascii_start t -> wide (s +:+ t) (n + m).
Proof.
  intros Hs Ht Ha u Hu. rewrite <- sapp_assoc, Hs by by apply ascii_start_app. rewrite Ht by done.
  destruct (vis v_text (runes u)) as [st k]. by rewrite Z.add_assoc.
Qed.

Lemma wide_nil : wide "" 0.
Proof. intros t _. cbn [String.append]. by destruct (vis v_text (runes t)). Qed.

Lemma vis_app st l1 l2 :
  vis st (l1 ++ l2) = let '(st1, n1) := vis st l1 in let '(st2, n2) := vis st1 l2 in (st2, n1 + n2).
Proof.
  revert st. induction l1 as [|[r b] l1 IH]; intros st; cbn [app vis]; [by destruct (vis st l2)|].
  destruct (vis_step st r) as [st1 n1]. rewrite IH. destruct (vis st1 l1) as [st2 n2]. destruct (vis st2 l2) as [st3 n3].
  by rewrite Z.add_assoc.
Qed.

Lemma vis_plain l : Forall (fun rb => fst rb <> 27) l -> vis v_text l = (v_text, Z.of_nat (length l)).
Proof.
  induction 1 as [|[r b] l Hr _ IH]; [done|]. cbn [vis vis_step fst] in *. destruct (Z.eqb_spec r 27); [done|].
  rewrite IH. f_equal. cbn [length]. lia.
Qed.

Lemma wide_plain s : plain s -> wide s (Z.of_nat (length (runes s))).
Proof.
  intros Hs t Ht. assert (runes (s +:+ t) = runes s ++ runes t) as ->.
  { destruct t as [|a t]; [by rewrite sapp_nil_r, app_nil_r|]. by apply runes_app_ascii. }
  rewrite vis_app, vis_plain by done. by destruct (vis v_text (runes t)).
Qed.

(** ASCII text can be read whatever follows it; plain ASCII takes a column a
    byte, a style takes none. *)
Definition strict (s : string) (n : Z) : Prop :=
  forall t, vis v_text (runes (s +:+ t)) = let '(st, m) := vis v_text (runes t) in (st, n + m).

Fixpoint scan_text (st : vstate) (s : string) : vstate * Z :=
  match s with
  | EmptyString => (st, 0)
  | String a s => let '(st, n) := vis_step st (byte_of a) in let '(st, m) := scan_text st s in (st, n + m)
  end.

Lemma scan_strict s n :
  all_bytes (fun a => byte_of a <? 128) s = true -> scan_text v_text s = (v_text, n) -> strict s n.
Proof.
  intros Ha Hs t. revert Ha Hs. generalize v_text at 1 3 as st. revert n.
  induction s as [|a s IH]; intros n st Ha Hs.
  - cbn in Hs. injection Hs as -> <-. cbn [String.append]. by destruct (vis v_text (runes t)).
  - cbn [all_bytes] in Ha. apply andb_true_iff in Ha as [Ha Has]. bool_prop. cbn [String.append scan_text] in *.
    rewrite runes_ascii by done. cbn [vis]. destruct (vis_step st (byte_of a)) as [st1 n1].
    destruct (scan_text st1 s) as [st2 n2] eqn:E. injection Hs as -> <-. rewrite (IH n2 st1 Has E).
    destruct (vis v_text (runes t)) as [st3 m]. by rewrite Z.add_assoc.
Qed.

Definition plain_byte (a : ascii) : bool := (byte_of a <? 128) && negb (byte_of a =? 27).
Lemma strict_plain s : all_bytes plain_byte s = true -> strict s (slen s).
Proof.
  intros Hs. apply scan_strict.
  - revert Hs. apply all_bytes_impl. intros a Ha. unfold plain_byte in Ha. by apply andb_true_iff in Ha as [? _].
  - induction s as [|a s IH]; [done|]. cbn [all_bytes] in Hs. apply andb_true_iff in Hs as [Ha Hs].
    unfold plain_byte in Ha. bool_prop. cbn [scan_text vis_step]. destruct (Z.eqb_spec (byte_of a) 27); [done|].
    rewrite (IH Hs). f_equal. unfold slen. cbn [String.length]. lia.
Qed.

Lemma strict_wide s n : strict s n -> wide s n.
Proof. intros Hs t _. apply Hs. Qed.
Lemma strict_app s t n m : strict s n -> wide t m -> wide (s +:+ t) (n + m).
Proof.
  intros Hs Ht u Hu. rewrite <- sapp_assoc, Hs, Ht by done. destruct (vis v_text (runes u)) as [st k]. by rewrite Z.add_assoc.
Qed.

Lemma wide_spaces k : wide (srepeat " " k) (Z.of_nat k) /\ ascii_start (srepeat " " k).
Proof.
  induction k as [|k [IH IHa]]; [split; [apply wide_nil|done]|]. cbn [srepeat]. split; [|done].
  replace (Z.of_nat (S k)) with (1 + Z.of_nat k) by lia. apply strict_app; [by apply (strict_plain " ")|done].
Qed.

Lemma wide_padVisible s n w : wide s n -> wide (padVisible s w) (Z.max n w).
Proof.
  intros Hs. unfold padVisible. rewrite (wide_visibleLen s n Hs). destruct (Z.ltb_spec n w).
  - rewrite Z.max_r by lia. replace w with (n + (w - n)) at 2 by lia. unfold Repeat.
    destruct (wide_spaces (Z.to_nat (w - n))) as [Hw Ha]. rewrite Z2Nat.id in Hw by lia. by apply wide_app.
  - by rewrite Z.max_l by lia.
Qed.

Lemma wide_color o style s n : strict style 0 -> wide s n -> wide (color o style s) n.
Proof.
  intros Hst Hs. unfold color. case_match; [done|]. replace n with (0 + (n + 0)) by lia.
  apply strict_app; [done|]. apply wide_app; [done|by apply strict_wide, scan_strict|done].
Qed.

Lemma wide_truncate s w : 0 < w -> plain s -> exists n, 0 <= n <= w /\ wide (truncate s w) n.
Proof.
  intros Hw Hs. unfold truncate. rewrite (proj2 (Z.leb_gt w 0)) by done.
  destruct (Z.leb_spec (Z.of_nat (length (runes s))) w); [exists (Z.of_nat (length (runes s))); split; [lia|by apply wide_plain]|].
  assert (He : forall t, runes (ellipsis +:+ t) = (0x2026, ellipsis) :: runes t).
  { intros t. rewrite runes_step by done. reflexivity. }
  destruct (Z.eqb_spec w 1) as [->|].
  { exists 1. split; [lia|]. intros t _. rewrite He. cbn [vis vis_step Z.eqb Pos.eqb]. by destruct (vis v_text (runes t)). }
  exists w. split; [lia|]. intros t _. rewrite <- sapp_assoc, runes_string_of by apply Forall_take, runes_good.
  rewrite vis_app, vis_plain by (apply Forall_fmap; cbn; by apply Forall_take). rewrite He. cbn [vis vis_step Z.eqb Pos.eqb].
  rewrite length_fmap, length_take. destruct (vis v_text (runes t)) as [st m]. f_equal. lia.
Qed.

Lemma wide_cell s w : 0 < w -> plain s -> wide (padVisible (truncate s w) w) w.
Proof.
  intros Hw Hs. destruct (wide_truncate s w Hw Hs) as (n & Hn & Hwide). replace w with (Z.max n w) at 3 by lia.
  by apply wide_padVisible.
Qed.

Lemma strict_severityStyle s : strict (severityStyle s) 0.
Proof. unfold severityStyle, severityStyles. cbn [assoc]. repeat case_decide; by apply scan_strict. Qed.

Lemma wide_severity s : wide (padVisible (" " +:+ Severity_String s +:+ " ") 10) 10.
Proof. unfold Severity_String, severityNames. cbn [assoc]. repeat case_decide; by apply (strict_wide _ 10), strict_plain. Qed.

Lemma wide_nonneg s n : wide s n -> 0 <= n.
Proof.
  intros Hs. rewrite <- (wide_visibleLen s n Hs). unfold visibleLen. generalize v_text as st.
  induction (runes s) as [|[r b] l IH]; intros st; cbn [vis]; [done|].
  assert (0 <= snd (vis_step st r)) by (unfold vis_step; destruct st; repeat case_match; cbn; lia).
  destruct (vis_step st r) as [st1 n1]. specialize (IH st1). destruct (vis st1 l) as [st2 n2]. cbn in *. lia.
Qed.

(** Plain text built from plain text. *)
Lemma plain_ascii_app s t : ascii_start t -> plain s -> plain t -> plain (s +:+ t).
Proof.
  unfold plain. intros Ha Hs Ht. destruct t as [|a t]; [by rewrite sapp_nil_r|]. rewrite runes_app_ascii by done.
  apply Forall_app. done.
Qed.
Lemma plain_app_bytes s t : all_bytes plain_byte s = true -> plain t -> plain (s +:+ t).
Proof.
  intros Hs Ht. induction s as [|a s IH]; [done|]. cbn [all_bytes] in Hs. apply andb_true_iff in Hs as [Ha Hs].
  unfold plain_byte in Ha. bool_prop. unfold plain in *. cbn [String.append]. rewrite runes_ascii by done.
  constructor; [done|]. by apply IH.
Qed.
Lemma plain_bytes s : all_bytes plain_byte s = true -> plain s.
Proof. intros Hs. rewrite <- (sapp_nil_r s). apply plain_app_bytes; [done|constructor]. Qed.
Lemma plain_fmt_d n : all_bytes plain_byte (fmt_d n) = true.
Proof.
  assert (forall m, all_bytes plain_byte (FormatUint m 10) = true) as Hd.
  { intros m. generalize (FormatUint_decimal m). apply all_bytes_impl. intros a Ha. unfold is_decimal, in_range, plain_byte in *. lia. }
  unfold fmt_d. case_match; [cbn [all_bytes]; by rewrite Hd|done].
Qed.

(** ** The feed *)

Definition plain_alert (a : Alert) : Prop :=
  plain (al_Comm a) /\ plain (al_Rule a) /\ plain (al_MitreID a) /\ plain (al_Description a).

(** The columns, for every width there is. *)
Definition columns_ok (w : Z) : bool :=
  let c := alertColumns w in
  (10 <=? c_rule c) && (10 <=? c_proc c) && (minDescCols <=? c_desc c) && ((c_mitre c =? 0) || (c_mitre c =? 10))
  && (overhead + c_rule c + c_proc c + (if c_mitre c >? 0 then c_mitre c + 1 else 0) + c_desc c =? w).

Lemma alertColumns_ok w : minWidth <= w <= maxWidth -> columns_ok w = true.
Proof.
  assert (forallb (fun n => columns_ok (Z.of_nat n)) (seq 76 85) = true) as Hc by (vm_compute; reflexivity).
  rewrite forallb_forall in Hc. unfold minWidth, maxWidth. intros Hw. specialize (Hc (Z.to_nat w)).
  rewrite Z2Nat.id in Hc by lia. apply Hc, in_seq. lia.
Qed.

Lemma width_bounds p o t : minWidth <= width p o t <= maxWidth.
Proof.
  unfold width. cbv zeta. generalize (if op_Width o <=? 0 then terminalWidth p t else op_Width o). intros w.
  unfold minWidth, maxWidth. destruct (Z.ltb_spec w 76); [done|]. destruct (Z.gtb_spec w 160); lia.
Qed.

Section feed_property.
Context `{UnicodeUpper} `{WallClock}.
Hypothesis Clock_width : forall t, all_bytes plain_byte (FormatClock t) = true /\ slen (FormatClock t) = 12.

Lemma wide_snoc_space s n t m : wide s n -> wide t m -> wide (s +:+ " " +:+ t) (n + (1 + m)).
Proof. intros Hs Ht. apply wide_app; [done| |done]. apply strict_app; [by apply (strict_plain " ")|done]. Qed.

Lemma feed_row_width o w a :
  minWidth <= w <= maxWidth -> plain_alert a ->
  exists n, 0 <= n <= c_desc (alertColumns w) /\ visibleLen (feed_row o (alertColumns w) a) = w - c_desc (alertColumns w) + n.
Proof.
  intros Hw (Hcomm & Hrule & Hmitre & Hdesc). pose proof (alertColumns_ok w Hw) as Hok. unfold columns_ok in Hok. cbv zeta in Hok.
  set (c := alertColumns w) in *. bool_prop. unfold minDescCols, overhead in *.
  set (desc := if al_Suppressed a >? 0 then "(+" +:+ fmt_d (al_Suppressed a) +:+ " folded) " +:+ al_Description a else al_Description a).
  assert (Hd : plain desc).
  { subst desc. destruct (al_Suppressed a >? 0); [|exact Hdesc]. apply plain_app_bytes; [done|]. apply plain_app_bytes; [apply plain_fmt_d|].
    by apply plain_app_bytes. }
  assert (Hproc : plain (al_Comm a +:+ "[" +:+ fmt_d (al_PID a) +:+ "]")).
  { apply plain_ascii_app; [reflexivity|done|]. apply plain_bytes. cbn [String.append all_bytes]. by rewrite all_bytes_app, plain_fmt_d. }
  destruct (wide_truncate desc (c_desc c) ltac:(lia) Hd) as (n & Hn & Hwn). exists n. split; [done|].
  destruct (Clock_width (al_Timestamp a)) as [Hclock Hclen]. pose proof (strict_wide _ _ (strict_plain _ Hclock)) as Hcw. rewrite Hclen in Hcw.
  apply wide_visibleLen. unfold feed_row. cbv zeta. fold desc.
  assert (Htail : exists k, k = (if c_mitre c >? 0 then c_mitre c + 1 else 0) + n /\
    wide ((if c_mitre c >? 0 then color o ansiDim (padVisible (truncate (al_MitreID a) (c_mitre c)) (c_mitre c)) +:+ " " else "")
          +:+ truncate desc (c_desc c)) k).
  { eexists. split; [done|]. destruct (Z.gtb_spec (c_mitre c) 0); [|exact Hwn].
    rewrite <- sapp_assoc. replace (c_mitre c + 1 + n) with (c_mitre c + (1 + n)) by lia.
    apply wide_snoc_space; [|done]. apply wide_color; [by apply scan_strict|]. by apply wide_cell. }
  destruct Htail as (k & Hk & Htail).
  replace (w - c_desc c + n) with (3 + (12 + (1 + (10 + (1 + (c_rule c + (1 + (c_proc c + (1 + k))))))))) by (rewrite Hk; lia).
  apply strict_app; [by apply (strict_plain "   ")|].
  repeat apply wide_snoc_space; [| | | |exact Htail]; apply wide_color;
    [by apply scan_strict|done|apply strict_severityStyle|apply wide_severity|by apply scan_strict|apply wide_cell; [lia|done]
    |by apply scan_strict|apply wide_cell; [lia|done]].
Qed.

(** A row of the alert feed never wraps.  On every terminal, once the width
    is brought within its limits, the row's columns fill it exactly, with at
    least twelve for the description and ten for the names, and the row an
    alert is drawn as has no more printable columns than the terminal, coloured
    or not, however long the alert's texts are and whatever bytes, valid UTF-8
    or not, they hold besides the escape character. *)
Theorem feed_row_fits p o t a :
  plain_alert a ->
  let w := width p o t in
  let c := alertColumns w in
  visibleLen (feed_row o c a) <= w
  /\ minDescCols <= c_desc c /\ minNameCols <= c_rule c /\ minNameCols <= c_proc c
  /\ overhead + c_rule c + c_proc c + (if c_mitre c >? 0 then c_mitre c + 1 else 0) + c_desc c = w.
Proof.
  intros Ha w c. pose proof (width_bounds p o t) as Hw. fold w in Hw.
  destruct (feed_row_width o w a Hw Ha) as (n & Hn & Hlen). fold c in Hn, Hlen.
  pose proof (alertColumns_ok w Hw) as Hok. unfold columns_ok in Hok. cbv zeta in Hok. fold c in Hok. bool_prop.
  unfold minNameCols. lia.
Qed.
End feed_property.

(** ** The counters *)

Section counting.
Context {K : Type} `{Countable K}.

Lemma count_bump (m : gmap K Z) k k' : count (bump m k) k' = if decide (k' = k) then u64 (count m k + 1) else count m k'.
Proof.
  unfold count, bump. case_decide as E; [by rewrite E, lookup_insert_eq|by rewrite lookup_insert_ne].
Qed.

Lemma u64_add_u64 a b : u64 (u64 a + b) = u64 (a + b).
Proof. unfold u64. by rewrite Z.add_mod_idemp_l. Qed.

(** Counting a sequence of keys, from a map of counters in range. *)
Lemma count_bumps (l : list K) (m : gmap K Z) k :
  u64 (count m k) = count m k ->
  count (foldl bump m l) k = u64 (count m k + Z.of_nat (length (filter (.= k) l))).
Proof.
  revert m. induction l as [|x l IH]; intros m Hm; cbn [foldl].
  - cbn. by rewrite Z.add_0_r, Hm.
  - rewrite IH; rewrite count_bump.
    + case_decide as E.
      * subst x. rewrite filter_cons_True by done. rewrite u64_add_u64. cbn [length]. f_equal. lia.
      * rewrite filter_cons_False by congruence. done.
    + case_decide; [|done]. unfold u64. by rewrite Z.mod_mod.
Qed.
End counting.

(** The state after a stream of alerts, field by field. *)
Lemma Dashboard_WriteAll_fields d alerts :
  let d' := Dashboard_WriteAll d alerts in
  db_bySeverity d' = foldl bump (db_bySeverity d) (al_Severity <$> alerts)
  /\ db_byRule d' = foldl bump (db_byRule d) (al_Rule <$> alerts)
  /\ db_byTactic d' = foldl bump (db_byTactic d) (mjoin ((fun a => tac_Name <$> TacticsFor a) <$> alerts))
  /\ db_byProcess d' = foldl bump (db_byProcess d) ((fun a => mkProcKey (al_Comm a) (al_PID a)) <$> alerts)
  /\ db_started d' = db_started d.
Proof.
  revert d. induction alerts as [|a alerts IH]; intros d; [done|]. cbv zeta. unfold Dashboard_WriteAll in *. cbn [foldl fmap list_fmap mjoin list_join].
  destruct (IH (Dashboard_Write d (Some a))) as (-> & -> & -> & -> & ->). split_and!; try done.
  rewrite foldl_app. f_equal. cbn [Dashboard_Write db_byTactic]. generalize (db_byTactic d). induction (TacticsFor a) as [|t ts IHt]; intros m; [done|].
  cbn [foldl fmap list_fmap]. apply IHt.
Qed.

Lemma Dashboard_WriteAll_snoc d alerts a :
  Dashboard_WriteAll d (alerts ++ [a]) = Dashboard_Write (Dashboard_WriteAll d alerts) (Some a).
Proof. unfold Dashboard_WriteAll. by rewrite foldl_snoc. Qed.

Lemma keep_recent_lastn l : keep_recent l = lastn recentCap l.
Proof.
  unfold keep_recent. destruct (Nat.ltb_spec recentCap (length l)); [done|]. by rewrite lastn_all.
Qed.

(** The alerts that carry a story. *)
Definition has_story (a : Alert) : Prop := al_Story a <> [].
#[export] Instance has_story_dec a : Decision (has_story a).
Proof. unfold has_story. destruct (al_Story a); [right; by intros ?|by left]. Defined.

(** What the counters and the two kept lists hold after the alerts. *)
Lemma dashboard_counters o t0 alerts :
  let d := Dashboard_WriteAll (NewDashboard o t0) alerts in
  db_total d = u64 (Z.of_nat (length alerts))
  /\ (forall s, count (db_bySeverity d) s = u64 (Z.of_nat (length (filter (fun a => al_Severity a = s) alerts))))
  /\ (forall r, count (db_byRule d) r = u64 (Z.of_nat (length (filter (fun a => al_Rule a = r) alerts))))
  /\ (forall k, count (db_byProcess d) k
        = u64 (Z.of_nat (length (filter (fun a => mkProcKey (al_Comm a) (al_PID a) = k) alerts))))
  /\ (forall t, count (db_byTactic d) t
        = u64 (Z.of_nat (length (filter (.= t) (mjoin ((fun a => tac_Name <$> TacticsFor a) <$> alerts))))))
  /\ db_recent d = lastn recentCap alerts
  /\ db_lastChain d = last (filter has_story alerts).
Proof.
  intros d. destruct (Dashboard_WriteAll_fields (NewDashboard o t0) alerts) as (Hs & Hr & Ht & Hp & _). fold d in Hs, Hr, Ht, Hp.
  assert (Hfilter : forall (K : Type) `{EqDecision K} (f : Alert -> K) k,
    length (filter (.= k) (f <$> alerts)) = length (filter (fun a => f a = k) alerts)).
  { intros K HK f k. clear. induction alerts as [|a l IH]; [done|]. rewrite fmap_cons, !filter_cons.
    repeat case_decide; cbn [length]; congruence. }
  assert (Hcount : forall (K : Type) `{Countable K} (f : Alert -> K) k,
    count (foldl bump (∅ : gmap K Z) (f <$> alerts)) k = u64 (Z.of_nat (length (filter (fun a => f a = k) alerts)))).
  { intros K HK1 HK2 f k. rewrite count_bumps by done. by rewrite Hfilter. }
  split_and!.
  - subst d. clear. assert (Hg : forall d, db_total d = u64 (db_total d) ->
      db_total (Dashboard_WriteAll d alerts) = u64 (db_total d + Z.of_nat (length alerts))).
    { induction alerts as [|a l IH]; intros d Hd; [cbn; by rewrite Z.add_0_r|]. unfold Dashboard_WriteAll in *. cbn [foldl].
      rewrite IH; cbn [Dashboard_Write db_total]; [rewrite u64_add_u64; cbn [length]; f_equal; lia|].
      unfold u64. by rewrite Z.mod_mod. }
    by apply Hg.
  - intros s. rewrite Hs. apply Hcount.
  - intros r. rewrite Hr. apply Hcount.
  - intros k. rewrite Hp. apply Hcount.
  - intros t. rewrite Ht. by rewrite count_bumps by done.
  - subst d. clear. induction alerts as [|a l IH] using rev_ind; [done|]. rewrite Dashboard_WriteAll_snoc.
    cbn [Dashboard_Write db_recent]. rewrite keep_recent_lastn, IH. by rewrite lastn_lastn_snoc.
  - subst d. clear. induction alerts as [|a l IH] using rev_ind; [done|]. rewrite Dashboard_WriteAll_snoc.
    cbn [Dashboard_Write db_lastChain]. rewrite IH, filter_app, filter_cons, filter_nil.
    case_decide as Hd; unfold has_story in Hd.
    + destruct (al_Story a); [done|]. cbn. by rewrite last_snoc.
    + destruct (al_Story a); [cbn; by rewrite app_nil_r|by destruct Hd].
Qed.

(** ** The screen

    How many rows a terminal of [h] rows scrolls while it shows text from row
    [row] on: a line break on its last row moves everything up by one.  Rows that
    wrap are not counted: the feed's do not ([feed_row_fits]). *)
Fixpoint scrolled (h row : Z) (s : string) : Z :=
  match s with
  | EmptyString => 0
  | String a s =>
      if Ascii.eqb a newline then if row <? h then scrolled h (row + 1) s else 1 + scrolled h row s
      else scrolled h row s
  end.

Lemma scrolled_count h row s :
  1 <= row <= h -> scrolled h row s = Z.max 0 (row + Z.of_nat (count_newlines s) - h).
Proof.
  revert row. induction s as [|a s IH]; intros row Hr; cbn [scrolled count_newlines]; [lia|]. unfold newline.
  destruct (Ascii.eqb a (chr 10)); [|by apply IH]. destruct (Z.ltb_spec row h); rewrite IH by lia; lia.
Qed.

(** What one repaint does to the terminal.  [Paint] homes the cursor and
    ends every piece of the frame with a line break, the empty piece after the
    frame's last one too; so a frame of [n] line breaks scrolls a terminal of
    [h] rows by [n + 2 - h] rows.  The frames [Render] accepts have up to
    [h - 1]: one that uses its budget to the full scrolls the screen by a row at
    every repaint, and one line less does not. *)
Theorem Paint_scrolls o frame h :
  1 <= h ->
  scrolled h 1 (paint_text o frame) = Z.max 0 (Z.of_nat (count_newlines frame) + 2 - h).
Proof. intros Hh. rewrite scrolled_count by lia. rewrite paint_text_lines. lia. Qed.

(** Whatever the display shows, there is a height at which it does scroll: the
    one with just room for the whole frame. *)
Definition set_height (h : Z) (v : View) : View :=
  let d := vw_dash v in let o := db_opts d in
  mkView
    (mkDashboard
       (mkDashboardOptions (op_Version o) (op_Mode o) (op_Scope o) (op_Source o) (op_AlertPath o) (op_Rules o)
          (op_MinSeverity o) (op_Color o) (op_Width o) h (op_Refresh o))
       (db_started d) (db_total d) (db_bySeverity d) (db_byRule d) (db_byTactic d) (db_byProcess d) (db_recent d) (db_lastChain d))
    (vw_metrics v) (vw_now v) (vw_term v) (vw_rule_order v) (vw_proc_order v).

Lemma feed_ext `{WallClock} o o' cols rows l :
  op_Color o = op_Color o' -> op_MinSeverity o = op_MinSeverity o' -> feed o cols rows l = feed o' cols rows l.
Proof.
  intros Hc Hm. revert rows. induction l as [|a l IH]; intros [|rows]; [done..|]. cbn [feed]. rewrite Hm, !IH.
  unfold feed_row, color. by rewrite Hc.
Qed.

Lemma render_set_height `{UnicodeUpper} `{WallClock} p h v lay : render p (set_height h v) lay = render p v lay.
Proof.
  destruct v as [[[ver mode scope src path rules sev col wid hgt refresh] t0 n bs br bt bp rec chain] m now t ro po]. unfold render, renderRecent, set_height. cbv zeta.
  cbn [vw_dash vw_metrics vw_now vw_term vw_rule_order vw_proc_order db_opts db_started db_total db_bySeverity db_byRule
       db_byTactic db_byProcess db_recent db_lastChain op_Version op_Mode op_Scope op_Source op_AlertPath op_Rules
       op_MinSeverity op_Color op_Width op_Height op_Refresh].
  rewrite (feed_ext (mkDashboardOptions ver mode scope src path rules sev col wid h refresh)
             (mkDashboardOptions ver mode scope src path rules sev col wid hgt refresh)) by done.
  reflexivity.
Qed.

Lemma full_frame_scrolls `{UnicodeUpper} `{WallClock} p v fuel :
  let frame := render p v full_layout in
  let h := Z.of_nat (count_newlines frame) + 1 in
  Render (S fuel) p (fun _ => set_height h v) = Some frame
  /\ scrolled h 1 (paint_text (db_opts (vw_dash v)) frame) = 1.
Proof.
  intros frame h. split; [|rewrite scrolled_count by lia; rewrite paint_text_lines; lia].
  unfold Render, Render_height. cbn [set_height vw_dash db_opts op_Height].
  rewrite (proj2 (Z.leb_gt h 0)) by lia. cbn [render_loop]. rewrite render_set_height. fold frame.
  by rewrite (proj2 (Z.leb_le _ _)) by lia.
Qed.

(** ** A display in use *)

Definition example_upper : UnicodeUpper := {| upper_rune := fun _ => "" |}.
Definition example_options : DashboardOptions :=
  mkDashboardOptions "v1" "live" "system-wide" "" "alerts.jsonl"
    ["privilege-escalation"; "sensitive-file-access"; "process-injection"; "reverse-shell"; "attack-chain"]
    SeverityLow false 80 25 defaultRefresh.
Definition example_alerts : list Alert :=
  (fun pid => mkAlert 0 pid pid 1 "bash" 1000 1000 "openat" EventArgs "T1003" "OS Credential Dumping" SeverityHigh
     "read /etc/shadow" "sensitive-file-access" "" 0 []) <$> [101; 102; 103; 104; 105].
Definition example_view : View :=
  let d := Dashboard_WriteAll (NewDashboard example_options 0) example_alerts in
  mkView d (mkMetrics 12 0 12 0 0 3 1 0 0 (f_of_int (-1))) (90 * Second)
    (mkTerminal true (Some (80, 25)) (Some true) "" "") ((map_to_list (db_byRule d)).*1) ((map_to_list (db_byProcess d)).*1).

Lemma Render_fits_witness :
  exists frame,
    (forall fuel, (18 <= fuel)%nat -> @Render example_upper example_clock fuel unix (fun _ => example_view) = Some frame)
    /\ Z.of_nat (count_newlines frame) <= 24 /\ Z.of_nat (count_newlines (paint_text example_options frame)) <= 25.
Proof.
  apply (@Render_fits example_upper example_clock (fun _ => eq_refl) unix example_options 0 (fun _ => example_view)).
  - split_and!; try reflexivity; [by left|by repeat constructor].
  - done.
  - cbn. lia.
  - intros _. split; [split; reflexivity|]. exists example_alerts. split; [|reflexivity].
    unfold example_alerts. apply Forall_fmap, Forall_true. intros pid. split; [by split_and!|]. cbn. set_solver.
  - done.
Defined.

Lemma feed_row_fits_witness :
  let a := mkAlert 0 101 101 1 ("b" +:+ str1 (chr 255)) 0 0 "openat" EventArgs "T1003" "" SeverityHigh
             "a description far too long for the columns that are left for it" "sensitive-file-access" "" 3 [] in
  let t := mkTerminal false None None "" "" in
  let o := mkDashboardOptions "v1" "live" "" "" "" [] SeverityLow true 76 24 0 in
  visibleLen (@feed_row example_clock o (alertColumns (width unix o t)) a) <= width unix o t
  /\ minDescCols <= c_desc (alertColumns (width unix o t)).
Proof.
  intros a t o.
  assert (Hc : forall ts, all_bytes plain_byte (@FormatClock example_clock ts) = true /\ slen (@FormatClock example_clock ts) = 12)
    by (intros ts; split; reflexivity).
  assert (Ha : plain_alert a) by (split_and!; repeat constructor; discriminate).
  destruct (@feed_row_fits example_clock Hc unix o t a Ha) as (H1 & H2 & _). by split.
Defined.

Lemma Paint_scrolls_witness :
  exists frame, count_newlines frame = 23%nat /\ scrolled 24 1 (paint_text example_options frame) = 1.
Proof.
  exists (srepeat nl 23). split; [reflexivity|]. etransitivity; [apply Paint_scrolls; lia|reflexivity].
Defined.

(** The text let into a divider is not cut: a long capture path makes the header
    wider than the terminal. *)
Example header_overflows : 76 < visibleLen (rule example_options "╭" "╮" 76 (srepeat "x" 90) "01:30" "").
Proof. vm_compute. reflexivity. Qed.
