(* ===== verification/Screen.v ===== *)
(** * What the dashboard shows ([output/dashboard.go])

    From the alerts written to the display to the text of a frame: where the
    counters of [DashProps] stand on the screen, and which alerts the feed lists. *)

From S2P Require Import Prelude GoStrings GoTime GoText GoFloat Alerts Storyline Record Sinks Console Term Dashboard Panels DashProps.

(** ** Finding text in a frame *)

Definition on_screen (frame text : string) : Prop := exists before after, frame = before +:+ text +:+ after.

Lemma on_screen_refl s : on_screen s s.
Proof. exists "", "". by rewrite sapp_nil_r. Qed.
Lemma on_screen_trans s t u : on_screen s t -> on_screen t u -> on_screen s u.
Proof. intros (b & a & ->) (b' & a' & ->). exists (b +:+ b'), (a' +:+ a). by rewrite !sapp_assoc. Qed.
Lemma on_screen_l s t u : on_screen s u -> on_screen (s +:+ t) u.
Proof. intros (b & a & ->). exists b, (a +:+ t). by rewrite !sapp_assoc. Qed.
Lemma on_screen_r s t u : on_screen t u -> on_screen (s +:+ t) u.
Proof. intros (b & a & ->). exists (s +:+ b), a. by rewrite !sapp_assoc. Qed.

Lemma on_screen_3 a b c rest : on_screen (a +:+ b +:+ c +:+ rest) (a +:+ b +:+ c).
Proof. exists "", rest. cbn [String.append]. by rewrite !sapp_assoc. Qed.

(** Finds a piece of a concatenation. *)
Ltac piece := first [apply on_screen_refl | apply on_screen_l; piece | apply on_screen_r; piece].

Lemma on_screen_foldr {A} (f : A -> string) (x : A) l z : x ∈ l -> on_screen (foldr (fun a acc => f a +:+ acc) z l) (f x).
Proof. induction 1 as [x l|x y l _ IH]; cbn [foldr]; [by piece|by apply on_screen_r]. Qed.

Lemma padVisible_shows s w : on_screen (padVisible s w) s.
Proof. unfold padVisible. case_match; by piece. Qed.

Lemma side_by_side_shows w ls rs x : x ∈ ls \/ x ∈ rs -> on_screen (side_by_side w ls rs) x.
Proof.
  assert (Hl : forall l r, on_screen ("  " +:+ padVisible l (Z.quot w 2 - 2) +:+ "  " +:+ r +:+ nl) l).
  { intros l r. apply on_screen_r, on_screen_l, padVisible_shows. }
  assert (Hr : forall l r, on_screen ("  " +:+ padVisible l (Z.quot w 2 - 2) +:+ "  " +:+ r +:+ nl) r) by (intros; by piece).
  revert rs. induction ls as [|l ls IH]; intros rs [Hx|Hx]; [by apply elem_of_nil in Hx| | |].
  - cbn [side_by_side]. induction Hx as [r rs|r y rs _ IHr]; cbn [foldr]; [by apply on_screen_l|by apply on_screen_r].
  - destruct rs as [|r rs]; cbn [side_by_side]; apply elem_of_cons in Hx as [->|Hx];
      first [by apply on_screen_l | apply on_screen_r, IH; by left].
  - destruct rs as [|r rs]; cbn [side_by_side]; [by apply elem_of_nil in Hx|].
    apply elem_of_cons in Hx as [->|Hx]; [by apply on_screen_l|apply on_screen_r, IH; by right].
Qed.

Lemma wrap_loop_shows w indent sep used chips chip n :
  (chip, n) ∈ chips -> on_screen (wrap_loop w indent sep used chips) chip.
Proof.
  revert used. induction chips as [|[c k] chips IH]; intros used Hin; [by apply elem_of_nil in Hin|]. cbn [wrap_loop].
  match goal with |- context [let '(_, _) := ?x in _] => destruct x as [before u] end.
  apply elem_of_cons in Hin as [[= -> ->]|Hin]; [by piece|by apply on_screen_r, on_screen_r, IH].
Qed.

(** ** The pieces of the panels *)

(** The header's count of all alerts, the number beside a rule's name, the mark
    beside a tactic's, the count beside a process. *)
Definition total_cell (o : DashboardOptions) (n : Z) : string :=
  color o ansiDim "alerts" +:+ " " +:+ color o (styleIf (n >? 0) ansiBold) (formatCount n).
Definition rule_row (o : DashboardOptions) (w : Z) (name : string) (n : Z) : string :=
  let cols := w - Z.quot w 2 - 2 - 7 in
  color o (if n >? 0 then ansiBlue else ansiDim) (padVisible (truncate name cols) cols) +:+ " " +:+ padVisible (formatCount n) 5.
Definition tactic_chip (o : DashboardOptions) (t : Tactic) (seen : bool) : string :=
  color o (if seen then ansiYellow +:+ ansiBold else ansiDim) ((if seen then "●" else "·") +:+ " " +:+ tac_Name t).
Definition process_chip (o : DashboardOptions) (k : procKey) (n : Z) : string :=
  color o ansiGreen (pk_Comm k +:+ "[" +:+ fmt_d (pk_PID k) +:+ "]") +:+ " " +:+ color o ansiDim ("×" +:+ fmt_d n).

(** A line with a severity's name, a bar as long as its share of the busiest
    severity, and its number; [n] says how many alerts of each there were. *)
Definition severity_row (o : DashboardOptions) (w : Z) (n : Severity -> Z) (s : Severity) : string :=
  let cols := Z.max 8 (Z.quot w 2 - 18) in
  let busiest := Z.max 0 (Z.max (n SeverityCritical) (Z.max (n SeverityHigh) (Z.max (n SeverityMedium) (n SeverityLow)))) in
  color o (if (s =? SeverityCritical) && (n s =? 0) then ansiDim else severityStyle s) (padVisible (Severity_String s) 8)
  +:+ " " +:+ color o (barStyle s) (padVisible (bar (n s) busiest cols) cols) +:+ " " +:+ padVisible (formatCount (n s)) 5.

(** The feed: its heading, then a line for each of the alerts it lists. *)
Definition feed_label (o : DashboardOptions) (total : Z) : string :=
  let label := "RECENT ALERTS   " +:+ fmt_d total +:+ " total" in
  if op_MinSeverity o >? SeverityLow then label +:+ "   showing " +:+ Severity_String (op_MinSeverity o) +:+ " and above" else label.
Definition listed (o : DashboardOptions) (rows : nat) (alerts : list Alert) : list Alert :=
  take rows (filter (fun a => op_MinSeverity o <= al_Severity a) (reverse (lastn recentCap alerts))).

Section panels.
Context `{UnicodeUpper} `{WallClock}.

Definition feed_text (o : DashboardOptions) (w : Z) (total : Z) (rows : list Alert) : string :=
  heading o (feed_label o total) w +:+ nl +:+ foldr (fun a acc => (feed_row o (alertColumns w) a +:+ nl) +:+ acc) "" rows.

(** The panels are in the frame. *)
Lemma render_panels p v lay :
  let d := vw_dash v in
  let w := width p (db_opts d) (vw_term v) in
  on_screen (render p v lay) (renderHeader d (vw_now v) w (vw_metrics v))
  /\ on_screen (render p v lay) (renderSeverityAndRules d (vw_rule_order v) w)
  /\ (ly_showTactics lay = true -> on_screen (render p v lay) (renderTactics d w))
  /\ (ly_showProcesses lay = true -> on_screen (render p v lay) (renderProcesses d (vw_proc_order v) w))
  /\ on_screen (render p v lay) (renderStoryline d w (vw_metrics v) (ly_storyRows lay))
  /\ on_screen (render p v lay) (renderRecent d w (ly_recentRows lay)).
Proof.
  cbv zeta. unfold render. cbv zeta. split_and!; [by piece|by piece| | |by piece|by piece].
  - intros ->. by piece.
  - intros ->. by piece.
Qed.

Lemma header_shows d now w m : on_screen (renderHeader d now w m) (total_cell (db_opts d) (db_total d)).
Proof.
  unfold renderHeader. cbv zeta. apply on_screen_r, on_screen_r, on_screen_l. unfold statLine. apply on_screen_r.
  cbn [app foldr sc_label sc_value sc_style]. do 5 apply on_screen_r. apply on_screen_3.
Qed.

Lemma severityRows_are d w n :
  (forall s, count (db_bySeverity d) s = n s) ->
  severityRows d (Z.quot w 2 - 2) = severity_row (db_opts d) w n <$> severity_order.
Proof.
  intros Hn. unfold severityRows. cbv zeta.
  assert (Hmax : foldl (fun max s => if count (db_bySeverity d) s >? max then count (db_bySeverity d) s else max) 0 severity_order
    = Z.max 0 (Z.max (n SeverityCritical) (Z.max (n SeverityHigh) (Z.max (n SeverityMedium) (n SeverityLow))))).
  { unfold severity_order. cbn [foldl]. rewrite !Hn, !Z.gtb_ltb. repeat case_match; bool_prop; lia. }
  assert (Hcols : (if Z.quot w 2 - 2 - 16 <? 8 then 8 else Z.quot w 2 - 2 - 16) = Z.max 8 (Z.quot w 2 - 18)).
  { case_match; bool_prop; lia. }
  rewrite Hmax, Hcols. apply list_fmap_ext. intros _ s _. by rewrite Hn.
Qed.

Lemma severity_shows d order w n s :
  (forall s, count (db_bySeverity d) s = n s) -> s ∈ severity_order ->
  on_screen (renderSeverityAndRules d order w) (severity_row (db_opts d) w n s).
Proof.
  intros Hn Hs. unfold renderSeverityAndRules. cbv zeta. rewrite (severityRows_are d w n Hn).
  apply on_screen_r, on_screen_r, side_by_side_shows. left. by apply list_elem_of_fmap_2.
Qed.

Lemma rule_names_complete d order name : name ∈ op_Rules (db_opts d) \/ name ∈ order -> name ∈ rule_names d order.
Proof.
  assert (Hg : forall order names, name ∈ names \/ name ∈ order ->
    name ∈ foldl (fun names name => if contains names name then names else names ++ [name]) names order).
  { clear. induction order as [|x order IH]; intros names Hn; cbn [foldl]; [destruct Hn as [?|[]%elem_of_nil]; done|].
    apply IH. destruct Hn as [Hn|Hn]; [left; case_match; set_solver|]. apply elem_of_cons in Hn as [<-|Hn]; [|by right]. left.
    destruct (contains names name) eqn:E; [|set_solver]. unfold contains in E. apply existsb_exists in E as (y & Hy & ->%String.eqb_eq).
    by apply list_elem_of_In. }
  unfold rule_names. cbv zeta. intros Hn. apply Hg. destruct Hn as [Hn|Hn]; [|by right]. left.
  by destruct (op_Rules (db_opts d)); [apply elem_of_nil in Hn|].
Qed.

Lemma rule_shows d order w name :
  name ∈ op_Rules (db_opts d) \/ name ∈ order ->
  on_screen (renderSeverityAndRules d order w) (rule_row (db_opts d) w name (count (db_byRule d) name)).
Proof.
  intros Hn. unfold renderSeverityAndRules. cbv zeta. apply on_screen_r, on_screen_r, side_by_side_shows. right.
  unfold ruleRows. cbv zeta. apply list_elem_of_fmap. exists name. split; [done|]. by apply rule_names_complete.
Qed.

Lemma tactic_shows d w t :
  t ∈ tactic_chips -> on_screen (renderTactics d w) (tactic_chip (db_opts d) t (count (db_byTactic d) (tac_Name t) >? 0)).
Proof.
  intros Ht. unfold renderTactics. cbv zeta. apply on_screen_r, on_screen_r. unfold wrapChips.
  destruct (count (db_byTactic d) (tac_Name t) >? 0) eqn:E; eapply wrap_loop_shows; apply list_elem_of_fmap; exists t;
    rewrite E; (split; [reflexivity|done]).
Qed.

Lemma process_shows d order w k n :
  size (db_byProcess d) <> 0%nat -> (k, n) ∈ top_processes d order ->
  on_screen (renderProcesses d order w) (process_chip (db_opts d) k n).
Proof.
  intros Hs Hk. unfold renderProcesses. cbv zeta. rewrite (proj2 (Nat.eqb_neq _ _) Hs). apply on_screen_r, on_screen_r.
  unfold wrapChips. eapply wrap_loop_shows. apply list_elem_of_fmap. exists (k, n). split; [reflexivity|done].
Qed.

Lemma chain_shows d w m rows a :
  db_lastChain d = Some a -> on_screen (renderStoryline d w m rows) (truncate (al_Description a) (w - 16)).
Proof.
  intros Ha. unfold renderStoryline. cbv zeta. rewrite Ha. apply on_screen_r, on_screen_r.
  match goal with |- context [let '(_, _) := ?x in _] => destruct x as [dropped steps] end. by piece.
Qed.

Lemma feed_lists o cols rows l :
  feed o cols rows l
  = foldr (fun a acc => (feed_row o cols a +:+ nl) +:+ acc) "" (take rows (filter (fun a => op_MinSeverity o <= al_Severity a) l)).
Proof.
  revert rows. induction l as [|a l IH]; intros [|rows]; try done. cbn [feed]. rewrite filter_cons.
  destruct (Z.ltb_spec (al_Severity a) (op_MinSeverity o)); case_decide; try lia; [by apply IH|].
  cbn [take foldr]. by rewrite <- IH, sapp_assoc.
Qed.

Lemma recent_is d w rows alerts :
  db_recent d = lastn recentCap alerts -> alerts <> [] ->
  renderRecent d w rows = feed_text (db_opts d) w (db_total d) (listed (db_opts d) rows alerts).
Proof.
  intros Hr Hne. unfold renderRecent, feed_text, listed. cbv zeta. rewrite Hr.
  assert ((length (lastn recentCap alerts) =? 0)%nat = false) as ->; [|by rewrite feed_lists].
  apply Nat.eqb_neq. unfold lastn. rewrite length_drop. destruct alerts; [done|]. cbn [length]. unfold recentCap. lia.
Qed.

(** ** The busiest processes *)

#[local] Instance proc_before_total : Total proc_before.
Proof. intros [k n] [k' n']. unfold proc_before. cbn. lia. Qed.
#[local] Instance proc_before_trans : Transitive proc_before.
Proof. intros [k n] [k' n'] [k'' n'']. unfold proc_before. cbn. lia. Qed.

Lemma top_processes_spec d order :
  NoDup order ->
  let top := top_processes d order in
  NoDup top.*1 /\ length top = Nat.min maxProcRows (length order)
  /\ (forall k n, (k, n) ∈ top -> k ∈ order /\ n = count (db_byProcess d) k)
  /\ (forall k n k', (k, n) ∈ top -> k' ∈ order -> k' ∉ top.*1 -> count (db_byProcess d) k' <= n).
Proof.
  intros Hnd. unfold top_processes. cbv zeta. set (all := (fun k => (k, count (db_byProcess d) k)) <$> order).
  set (sorted := merge_sort proc_before all). assert (Hp : sorted ≡ₚ all) by apply merge_sort_Permutation.
  assert (Hs : StronglySorted proc_before sorted) by apply (StronglySorted_merge_sort proc_before).
  assert (Hall : forall x, x ∈ sorted -> fst x ∈ order /\ snd x = count (db_byProcess d) (fst x)).
  { intros x Hx. rewrite Hp in Hx. by apply list_elem_of_fmap in Hx as (k & -> & Hk). }
  assert (Hkeys : sorted.*1 ≡ₚ order).
  { rewrite Hp. unfold all. rewrite <- list_fmap_compose. unfold compose. cbn [fst]. clear. induction order as [|k order IH]; [done|]. cbn. by rewrite IH. }
  split_and!.
  - rewrite fmap_take. eapply sublist_NoDup; [|apply sublist_take]. by rewrite Hkeys.
  - rewrite length_take, Hp. unfold all. by rewrite length_fmap.
  - intros k n Hin. apply (Hall (k, n)). eapply elem_of_sublist; [exact Hin|apply sublist_take].
  - intros k n k' Hin Hk' Hno. rewrite <- Hkeys in Hk'. apply list_elem_of_fmap in Hk' as (x & -> & Hx).
    destruct (Hall x Hx) as [_ <-]. rewrite <- (take_drop maxProcRows sorted) in Hx, Hs. apply elem_of_app in Hx as [Hx|Hx].
    { destruct Hno. by apply list_elem_of_fmap_2. }
    apply StronglySorted_app in Hs as (Hcross & _ & _). specialize (Hcross (k, n) x Hin Hx). unfold proc_before in Hcross. cbn in Hcross. lia.
Qed.
End panels.

(** ** Properties *)

Section screen.
Context `{UnicodeUpper} `{WallClock}.

(** How many alerts there are of a kind, as a 64-bit counter has it. *)
Definition tally (alerts : list Alert) : Z := u64 (Z.of_nat (length alerts)).
Definition key_of (a : Alert) : procKey := mkProcKey (al_Comm a) (al_PID a).
Definition of_process (k : procKey) (alerts : list Alert) : list Alert := filter (fun a => key_of a = k) alerts.
Definition in_tactic (t : Tactic) (alerts : list Alert) : list string :=
  filter (.= tac_Name t) (mjoin ((fun a => tac_Name <$> TacticsFor a) <$> alerts)).

Lemma bumps_keys {K} `{Countable K} (l : list K) (m : gmap K Z) k :
  is_Some (foldl bump m l !! k) <-> is_Some (m !! k) \/ k ∈ l.
Proof.
  revert m. induction l as [|x l IH]; intros m; cbn [foldl]; [rewrite elem_of_nil; tauto|].
  rewrite IH, elem_of_cons. unfold bump. destruct (decide (k = x)) as [->|Hne];
    [rewrite lookup_insert_eq|rewrite lookup_insert_ne by done]; [|tauto]. split; [by auto|]. intros _. left. by eexists.
Qed.

Lemma keys_in {K} `{Countable K} (m : gmap K Z) order k :
  order ≡ₚ (map_to_list m).*1 -> (k ∈ order <-> is_Some (m !! k)).
Proof.
  intros ->. rewrite list_elem_of_fmap. split.
  - intros ([k' n] & -> & Hk). apply elem_of_map_to_list in Hk. by eexists.
  - intros [n Hn]. exists (k, n). split; [done|]. by apply elem_of_map_to_list.
Qed.

(** What the orders of the two maps hold. *)
Lemma view_keys o t0 alerts v :
  vw_dash v = Dashboard_WriteAll (NewDashboard o t0) alerts -> view_ok v ->
  (forall a, a ∈ alerts -> al_Rule a ∈ vw_rule_order v /\ key_of a ∈ vw_proc_order v)
  /\ (forall k, k ∈ vw_proc_order v -> exists a, a ∈ alerts /\ key_of a = k)
  /\ NoDup (vw_proc_order v).
Proof.
  intros Hd [Hr Hp]. destruct (Dashboard_WriteAll_fields (NewDashboard o t0) alerts) as (_ & Er & _ & Ep & _). rewrite <- Hd in Er, Ep.
  split_and!.
  - intros a Ha. rewrite (keys_in _ _ _ Hr), (keys_in _ _ _ Hp), Er, Ep, !bumps_keys.
    split; right; apply list_elem_of_fmap; by exists a.
  - intros k Hk. rewrite (keys_in _ _ _ Hp), Ep, bumps_keys in Hk. destruct Hk as [Hk|Hk].
    + cbn in Hk. by rewrite lookup_empty, is_Some_alt in Hk.
    + apply list_elem_of_fmap in Hk as (a & -> & Ha). by exists a.
  - rewrite Hp. apply NoDup_fst_map_to_list.
Qed.

End screen.

