(* ===== verification/Lifecycle.v ===== *)
(** * Starting and closing the dashboard ([output/dashboard.go])

    [Start]'s goroutine and [Close] meet on two channels: [stop], which [Close]
    closes, and [done], which the goroutine closes as it leaves.  The states of
    both sides and every interleaving of their steps; a send or a receive that
    cannot proceed is a step that is not enabled. *)

From S2P Require Import Prelude.

(** Where the repainting goroutine is: not launched; in the first [Paint] or the
    one after a tick; at the [select]; returned. *)
Inductive painter := NotStarted | Painting | Selecting | Exited.

(** Where the call of [Close] is: not made; past the test of [closed], which it
    has set; past [close(d.stop)], receiving from [done]; past that, in the last
    [Paint]; returned. *)
Inductive closer := NotCalled | Marked | Waiting | LastPaint | Returned.

#[export] Instance painter_eq_dec : EqDecision painter.
Proof. solve_decision. Defined.
#[export] Instance closer_eq_dec : EqDecision closer.
Proof. solve_decision. Defined.

Record life := mkLife {
  lf_closed : bool;
  lf_stop : bool;
  lf_done : bool;
  lf_painter : painter;
  lf_closer : closer;
  lf_frames : list bool
}.
(** [lf_frames]: one entry a frame painted, oldest first; true for the last one,
    painted by [Close]. *)

Definition new_life : life := mkLife false false false NotStarted NotCalled [].

Inductive step : life -> life -> Prop :=
  (** [Start], of a display not yet closed *)
  | step_start l :
      lf_painter l = NotStarted -> lf_closer l = NotCalled ->
      step l (mkLife (lf_closed l) (lf_stop l) (lf_done l) Painting (lf_closer l) (lf_frames l))
  | step_painted l :
      lf_painter l = Painting ->
      step l (mkLife (lf_closed l) (lf_stop l) (lf_done l) Selecting (lf_closer l) (lf_frames l ++ [false]))
  (** [case <-t.C]: Go's [select] may choose it although [stop] is closed too *)
  | step_tick l :
      lf_painter l = Selecting ->
      step l (mkLife (lf_closed l) (lf_stop l) (lf_done l) Painting (lf_closer l) (lf_frames l))
  (** [case <-d.stop: return], and the deferred [close(d.done)] *)
  | step_stop l :
      lf_painter l = Selecting -> lf_stop l = true ->
      step l (mkLife (lf_closed l) (lf_stop l) true Exited (lf_closer l) (lf_frames l))
  (** [Close] *)
  | step_mark l :
      lf_closer l = NotCalled -> lf_closed l = false ->
      step l (mkLife true (lf_stop l) (lf_done l) (lf_painter l) Marked (lf_frames l))
  | step_close_stop l :
      lf_closer l = Marked ->
      step l (mkLife (lf_closed l) true (lf_done l) (lf_painter l) Waiting (lf_frames l))
  | step_receive l :
      lf_closer l = Waiting -> lf_done l = true ->
      step l (mkLife (lf_closed l) (lf_stop l) (lf_done l) (lf_painter l) LastPaint (lf_frames l))
  | step_last l :
      lf_closer l = LastPaint ->
      step l (mkLife (lf_closed l) (lf_stop l) (lf_done l) (lf_painter l) Returned (lf_frames l ++ [true])).

Create HintDb lifecycle.
#[export] Hint Constructors step : lifecycle.

(** A later call of [Close] finds [closed] set and returns at once. *)
Definition second_Close_returns (l : life) : bool := lf_closed l.

Definition reachable : life -> Prop := rtc step new_life.

(** ** Invariant: the channels and the flag follow from where the two sides are *)

Record life_inv (l : life) : Prop := {
  li_closed : lf_closed l = negb (bool_decide (lf_closer l = NotCalled));
  li_stop : lf_stop l = negb (bool_decide (lf_closer l = NotCalled)) && negb (bool_decide (lf_closer l = Marked));
  li_done : lf_done l = bool_decide (lf_painter l = Exited);
  li_last : lf_closer l = LastPaint \/ lf_closer l = Returned -> lf_painter l = Exited;
  li_frames : exists n, lf_frames l = replicate n false ++ (if bool_decide (lf_closer l = Returned) then [true] else [])
}.

Lemma step_inv l l' : step l l' -> life_inv l -> life_inv l'.
Proof.
  intros Hstep [Hc Hs Hd Hl [n Hf]]. destruct Hstep as [l Hp Hq|l Hp|l Hp|l Hp Hq|l Hq|l Hq|l Hq Hr|l Hq];
    rewrite ?Hp, ?Hq in *; split; cbn [lf_closed lf_stop lf_done lf_painter lf_closer lf_frames]; rewrite ?Hp, ?Hq; try done.
  all: try (intros [?|?]; congruence).
  all: try (intros H; by specialize (Hl H)).
  all: try (exists n; exact Hf).
  - exists (n + 1)%nat. assert (lf_closer l <> Returned) by (intros E; by specialize (Hl (or_intror E))).
    rewrite Hf, bool_decide_eq_false_2, !app_nil_r by done. by rewrite replicate_add.
  - intros _. rewrite Hr in Hd. symmetry in Hd. by apply bool_decide_eq_true in Hd.
  - intros _. apply Hl. by left.
  - exists n. by rewrite Hf, <- app_assoc.
Qed.

Lemma reachable_inv l : reachable l -> life_inv l.
Proof.
  intros Hr. unfold reachable in Hr. revert Hr. apply (rtc_ind_r life_inv).
  - split; try done; [by intros [|]|by exists 0%nat].
  - intros y z _ Hs Hy. by eapply step_inv.
Qed.

(** ** Progress

    What is left to do once [Close] has been called; only ticks add to it. *)
Definition painter_work (p : painter) : nat := match p with Painting => 2 | Selecting => 1 | _ => 0 end.
Definition closer_work (c : closer) : nat :=
  match c with NotCalled => 4 | Marked => 3 | Waiting => 2 | LastPaint => 1 | Returned => 0 end.
Definition work (l : life) : nat := painter_work (lf_painter l) + closer_work (lf_closer l).

Definition is_tick (l l' : life) : bool :=
  bool_decide (lf_painter l = Selecting) && bool_decide (lf_painter l' = Painting).

(** A run with the number of its ticks and of its steps. *)
Inductive run : nat -> nat -> life -> life -> Prop :=
  | run_refl l : run 0 0 l l
  | run_step t n l l' l'' : step l l' -> run t n l' l'' -> run ((if is_tick l l' then 1 else 0) + t) (S n) l l''.

(** Closing has begun, of a display that was started. *)
Definition closing (l : life) : Prop := lf_painter l <> NotStarted /\ lf_closer l <> NotCalled.

Lemma closing_step l l' :
  step l l' -> closing l -> closing l' /\ if is_tick l l' then work l' = S (work l) else work l = S (work l').
Proof.
  intros Hstep [Hp Hc]. unfold closing, work, is_tick.
  destruct Hstep as [l H1 H2|l H1|l H1|l H1 H2|l H1 H2|l H1|l H1 H2|l H1];
    cbn [lf_painter lf_closer]; rewrite ?H1 in *; try done.
  all: split; [by split|]; repeat case_bool_decide; cbn [andb painter_work closer_work]; try congruence; lia.
Qed.

Lemma run_work t n l l' : run t n l l' -> closing l -> closing l' /\ (n + work l' = work l + 2 * t)%nat.
Proof.
  induction 1 as [l|t n l l1 l' Hstep Hrun IH]; intros Hcl; [split; [done|lia]|].
  destruct (closing_step _ _ Hstep Hcl) as [Hcl1 Hw]. destruct (IH Hcl1) as [Hcl' Hn]. split; [done|].
  destruct (is_tick l l1); lia.
Qed.

Lemma run_rtc t n l l' : run t n l l' -> rtc step l l'.
Proof. induction 1; [done|by eapply rtc_l]. Qed.

(** Until [Close] has returned something other than a tick can happen. *)
Lemma closing_progress l :
  life_inv l -> closing l -> lf_closer l <> Returned ->
  exists l', step l l' /\ is_tick l l' = false.
Proof.
  intros [Hc Hs Hd Hl _] [Hp Hq] Hr. destruct (lf_closer l) eqn:Ec; try done.
  - eexists. split; [by apply step_close_stop|]. unfold is_tick. cbn. destruct (lf_painter l); done.
  - cbn in Hs. destruct (lf_painter l) eqn:Ep; try done.
    + eexists. split; [by apply step_painted|]. unfold is_tick. by rewrite Ep.
    + eexists. split; [by apply step_stop|]. unfold is_tick. by rewrite Ep.
    + eexists. split; [by apply step_receive|]. unfold is_tick. by rewrite Ep.
  - eexists. split; [by apply step_last|]. unfold is_tick. cbn. by rewrite Hl by by left.
Qed.

(** A display closed without having been started never gets past [<-d.done]. *)
Definition stranded (l : life) : Prop :=
  lf_painter l = NotStarted /\ (lf_closer l = Marked \/ lf_closer l = Waiting).

Lemma stranded_step l l' : step l l' -> life_inv l -> stranded l -> stranded l'.
Proof.
  intros Hstep [_ _ Hd _ _] [Hp Hc]. unfold stranded.
  destruct Hstep as [l H1 H2|l H1|l H1|l H1 H2|l H1 H2|l H1|l H1 H2|l H1]; cbn; rewrite ?Hp in *; try congruence;
    try (by destruct Hc; congruence); [|].
  - by split; [|right].
  - rewrite H2 in Hd. by rewrite bool_decide_eq_false_2 in Hd by done.
Qed.

(** C27: [Close] returns if and only if the display was started.  Take any state
    reached with [Close] called.  If [Start] was called before: in every run the
    number of steps is at most the five that are left plus two for each tick of
    the clock that Go's [select] preferred to the closed [stop] channel; as long
    as [Close] has not returned, a step other than a tick is possible; and when
    it has, nothing is left to happen and the last frame on the screen is the
    one [Close] painted.  If [Start] was not called (its comment calls it
    optional), [Close] never returns: every run gets stuck at [<-d.done]. *)
Theorem Close_returns_iff_started l :
  reachable l -> lf_closer l <> NotCalled ->
  (lf_painter l <> NotStarted ->
     forall t n l', run t n l l' ->
       (n <= 5 + 2 * t)%nat
       /\ (lf_closer l' <> Returned -> exists l'', step l' l'' /\ is_tick l' l'' = false)
       /\ (lf_closer l' = Returned -> (forall l'', ~ step l' l'') /\ exists k, lf_frames l' = replicate k false ++ [true]))
  /\ (lf_painter l = NotStarted ->
     forall l', rtc step l l' -> lf_closer l' <> Returned /\ (lf_closer l' = Waiting -> forall l'', ~ step l' l'')).
Proof.
  intros Hreach Hcalled. pose proof (reachable_inv l Hreach) as Hinv. split.
  - intros Hstarted t n l' Hrun. destruct (run_work _ _ _ _ Hrun (conj Hstarted Hcalled)) as [Hcl Hn].
    pose proof (reachable_inv l' (transitivity (R := rtc step) Hreach (run_rtc _ _ _ _ Hrun))) as Hinv'. split_and!.
    + assert (work l <= 5)%nat; [|lia]. unfold work. destruct (lf_painter l), (lf_closer l); cbn; first [done|lia].
    + intros Hr. by apply closing_progress.
    + intros Hr. split; [|destruct (li_frames l' Hinv') as [k Hk]; exists k; by rewrite Hk, Hr].
      pose proof (li_last l' Hinv' (or_intror Hr)) as Hex. intros l'' Hstep. inversion Hstep; congruence.
  - intros Hns l' Hrun.
    assert (Hst : stranded l).
    { split; [done|]. pose proof (li_last l Hinv) as Hl. destruct (lf_closer l); auto; try done; exfalso;
        [specialize (Hl (or_introl eq_refl))|specialize (Hl (or_intror eq_refl))]; congruence. }
    assert (Hboth : life_inv l' /\ stranded l').
    { revert Hinv Hst. clear -Hrun. induction Hrun as [l|l l1 l' Hs _ IH]; intros Hi Hst; [done|].
      apply IH; [by eapply step_inv|by eapply stranded_step]. }
    destruct Hboth as [Hinv' [Hp Hc]]. split; [by destruct Hc; congruence|].
    intros Hw l'' Hstep. pose proof (li_done l' Hinv') as Hd. rewrite Hp, bool_decide_eq_false_2 in Hd by done.
    inversion Hstep; congruence.
Qed.

(** Started and closed; and closed without a start. *)
Lemma Close_returns_iff_started_witness :
  let started := mkLife true false false Painting Marked [] in
  let never := mkLife true true false NotStarted Waiting [] in
  (forall t n l', run t n started l' -> (n <= 5 + 2 * t)%nat) /\ forall l', rtc step never l' -> lf_closer l' <> Returned.
Proof.
  split.
  - intros t n l' Hrun. refine (proj1 (proj1 (Close_returns_iff_started _ _ _) _ t n l' Hrun)); [|done|done].
    eapply rtc_l; [by apply step_start|]. eapply rtc_l; [by apply step_mark|]. done.
  - intros l' Hrun. refine (proj1 (proj2 (Close_returns_iff_started _ _ _) _ l' Hrun)); [|done|done].
    eapply rtc_l; [by apply step_mark|]. eapply rtc_l; [by apply step_close_stop|]. done.
Defined.
