(* ===== verification/PidFilter.v ===== *)
(** * The PID filter ([cmd/krnlsentry/pidfilter.go])

    [--pid] restricts the agent to one process and its descendants.  The set of
    processes in scope is seeded by a walk of [/proc], closed under parentage by
    sweeping to a fixed point, and then grown by the events themselves.

    [parents] is ranged over in Go's unspecified map order, possibly a different
    one on every sweep: the model takes the order of each sweep as an argument
    and the theorems hold for all of them. *)

From S2P Require Import Prelude GoStrings GoPath Events.

(** What the agent reads of [/proc]: a directory's entries (name, whether a
    directory) and a file's contents; [None] is any error. *)
Class ProcFS := {
  os_ReadDir : string -> option (list (string * bool));
  os_ReadFile : string -> option string
}.

(** [filepath.Join], on Linux [path.Join]: empty elements are left out. *)
Definition filepath_Join (elems : list string) : string :=
  match filter (fun e => e <> "") elems with
  | [] => ""
  | es => Clean (Join es "/")
  end.

(** [type pidFilter struct]; the values of the map [tracked] are all true. *)
Record pidFilter := mkPidFilter { pf_root : Z; pf_tracked : gset Z }.

(** ** Reading [/proc] *)
Section proc.
Context `{ProcFS}.

Definition proc_file (pid : Z) (name : string) : option string :=
  os_ReadFile (filepath_Join ["/proc"; FormatUint pid 10; name]).

(** [readPPID] on the contents of the file. *)
Definition parse_stat (line : string) : option Z :=
  let close := LastIndexByte line ")" in
  if (close <? 0) || (close + 2 >=? slen line) then None
  else
    match Fields (sdrop (Z.to_nat (close + 2)) line) with
    | _ :: f1 :: _ => ParseUint32 f1
    | _ => None
    end.

Definition readPPID (pid : Z) : option Z :=
  match proc_file pid "stat" with
  | None => None
  | Some line => parse_stat line
  end.

Definition lookupProc (pid : Z) : option (Z * string) :=
  match readPPID pid with
  | None => None
  | Some ppid =>
      match proc_file pid "comm" with
      | None => None
      | Some comm => Some (ppid, TrimSpace comm)
      end
  end.

(** The first loop of [seedFromProc]: the map [parents]. *)
Definition add_parent (parents : gmap Z Z) (e : string * bool) : gmap Z Z :=
  let '(name, is_dir) := e in
  if negb is_dir then parents
  else
    match ParseUint32 name with
    | None => parents
    | Some pid =>
        match readPPID pid with
        | None => parents
        | Some ppid => <[pid := ppid]> parents
        end
    end.

Definition read_parents (entries : list (string * bool)) : gmap Z Z := foldl add_parent ∅ entries.

(** One sweep over [parents] in the given order, and whether it grew the set. *)
Definition sweep_one (st : gset Z * bool) (e : Z * Z) : gset Z * bool :=
  let '(tracked, grew) := st in
  let '(pid, ppid) := e in
  if bool_decide (pid ∈ tracked) then st
  else if bool_decide (ppid ∈ tracked) then ({[ pid ]} ∪ tracked, true)
  else st.

Definition sweep (order : list (Z * Z)) (tracked : gset Z) : gset Z * bool :=
  foldl sweep_one (tracked, false) order.

(** The sweeps until one grows nothing; [orders] is the order of each. *)
Fixpoint sweep_loop (fuel : nat) (orders : nat -> list (Z * Z)) (tracked : gset Z) : option (gset Z) :=
  match fuel with
  | O => None
  | S fuel =>
      let '(tracked, grew) := sweep (orders O) tracked in
      if grew then sweep_loop fuel (fun k => orders (S k)) tracked else Some tracked
  end.

Definition seedFromProc (orders : nat -> list (Z * Z)) (f : pidFilter) : option pidFilter :=
  match os_ReadDir "/proc" with
  | None => Some f
  | Some entries =>
      mkPidFilter (pf_root f) <$> sweep_loop (S (size (read_parents entries))) orders (pf_tracked f)
  end.

Definition newPIDFilter (orders : nat -> list (Z * Z)) (pid : Z) : option pidFilter :=
  seedFromProc orders (mkPidFilter pid {[ pid ]}).
End proc.

(** [pidFilter.Allow] and [pidFilter.Len] *)
Definition Allow (f : pidFilter) (ev : Event) : bool * pidFilter :=
  if bool_decide (ev_PID ev ∈ pf_tracked f) then (true, f)
  else if bool_decide (ev_PPID ev ∈ pf_tracked f)
  then (true, mkPidFilter (pf_root f) ({[ ev_PID ev ]} ∪ pf_tracked f))
  else (false, f).

Definition pidFilter_Len (f : pidFilter) : nat := size (pf_tracked f).

(** A stream of events: the verdicts and the filter after it. *)
Fixpoint allow_all (f : pidFilter) (evs : list Event) : list bool * pidFilter :=
  match evs with
  | [] => ([], f)
  | ev :: evs =>
      let '(ok, f) := Allow f ev in
      let '(oks, f) := allow_all f evs in (ok :: oks, f)
  end.

(** ** Specification

    The parentage [/proc] shows, as a relation, and the processes below the
    root in it. *)
Definition child_of (parents : gmap Z Z) (parent pid : Z) : Prop := parents !! pid = Some parent.
Definition below (parents : gmap Z Z) (root pid : Z) : Prop := rtc (child_of parents) root pid.

(** The processes a filter that started with [seed] must have in scope after the
    events: those of the seed, and those that appeared with a parent that was in
    scope by then. *)
Inductive in_scope (seed : Z -> Prop) (evs : list Event) : Z -> Prop :=
  | scope_seed pid : seed pid -> in_scope seed evs pid
  | scope_child before ev after : evs = before ++ ev :: after ->
      in_scope seed before (ev_PPID ev) -> in_scope seed evs (ev_PID ev).

(** A listing of the directory and a range over a map, as orders. *)
Definition ranges (m : gmap Z Z) (orders : nat -> list (Z * Z)) : Prop :=
  forall k, orders k ≡ₚ map_to_list m.

(** ** Sweeping to the fixed point *)

Section sweep.
Context (parents : gmap Z Z).

(** What a sweep keeps true of the set, its growth flag included. *)
Definition sweep_inv (T0 : gset Z) (st : gset Z * bool) : Prop :=
  T0 ⊆ fst st /\ fst st ⊆ T0 ∪ dom parents /\ (snd st = false -> fst st = T0)
  /\ (snd st = true -> exists pid, pid ∈ fst st /\ pid ∈ dom parents /\ pid ∉ T0)
  /\ forall pid, pid ∈ fst st -> exists p, p ∈ T0 /\ below parents p pid.

Lemma sweep_one_inv T0 st e :
  parents !! fst e = Some (snd e) -> sweep_inv T0 st -> sweep_inv T0 (sweep_one st e).
Proof.
  destruct st as [T g], e as [pid ppid]. cbn. intros He Hinv.
  case_bool_decide as Hp; [exact Hinv|]. case_bool_decide as Hpp; [|exact Hinv].
  destruct Hinv as (H1 & H2 & H3 & H4 & H5). cbn in *. assert (pid ∈ dom parents) by (apply elem_of_dom; eauto).
  split_and!; cbn; [set_solver|set_solver|done| |].
  - intros _. exists pid. set_solver.
  - intros q [->%elem_of_singleton|Hq]%elem_of_union; [|by apply H5].
    destruct (H5 _ Hpp) as (p & ? & Hb). exists p. split; [done|]. eapply rtc_r; [exact Hb|exact He].
Qed.

Lemma sweep_inv_foldl T0 order st :
  Forall (fun e => parents !! fst e = Some (snd e)) order -> sweep_inv T0 st ->
  sweep_inv T0 (foldl sweep_one st order).
Proof.
  intros Ho. revert st. induction Ho as [|e order He _ IH]; intros st Hst; cbn; [done|].
  apply IH. by apply sweep_one_inv.
Qed.

Lemma sweep_spec T order : order ≡ₚ map_to_list parents -> sweep_inv T (sweep order T).
Proof.
  intros Hp. apply sweep_inv_foldl.
  - apply Forall_forall. intros [pid ppid] Hin. apply elem_of_map_to_list. by rewrite <- Hp.
  - split_and!; cbn; [done|set_solver|done|done|]. intros pid ?. exists pid. split; [done|apply rtc_refl].
Qed.

(** A sweep that grew nothing saw no process left to add. *)
Lemma sweep_one_true st e : snd st = true -> snd (sweep_one st e) = true.
Proof. destruct st as [T g], e as [pid ppid]. cbn. intros ->. by repeat case_bool_decide. Qed.

Lemma foldl_sweep_true order st : snd st = true -> snd (foldl sweep_one st order) = true.
Proof. revert st. induction order as [|e order IH]; intros st Hst; cbn; [done|]. by apply IH, sweep_one_true. Qed.

Lemma sweep_false_closed order T T' :
  foldl sweep_one (T, false) order = (T', false) ->
  T' = T /\ Forall (fun e => snd e ∈ T -> fst e ∈ T) order.
Proof.
  induction order as [|[pid ppid] order IH]; cbn; [by intros [= ->]|].
  case_bool_decide as Hp; [|case_bool_decide as Hpp].
  - intros [-> Hf]%IH. split; [done|]. by constructor.
  - intros Hf. pose proof (foldl_sweep_true order ({[pid]} ∪ T, true) eq_refl) as Ht. by rewrite Hf in Ht.
  - intros [-> Hf]%IH. split; [done|]. by constructor.
Qed.

Lemma sweep_fixed order T T' :
  order ≡ₚ map_to_list parents -> sweep order T = (T', false) ->
  T' = T /\ forall p pid, p ∈ T -> below parents p pid -> pid ∈ T.
Proof.
  intros Hp [-> Hc]%sweep_false_closed. split; [done|]. intros p pid Hin Hb.
  induction Hb as [|p q pid Hpq _ IH]; [done|]. apply IH.
  rewrite Forall_forall in Hc. apply (Hc (q, p)); [|done]. rewrite Hp. by apply elem_of_map_to_list.
Qed.

(** Enough fuel: every sweep but the last moves a process into the set. *)
Lemma sweep_loop_spec fuel orders T :
  ranges parents orders -> (size (dom parents ∖ T) < fuel)%nat ->
  exists T', sweep_loop fuel orders T = Some T'
    /\ forall pid, pid ∈ T' <-> exists p, p ∈ T /\ below parents p pid.
Proof.
  revert orders T. induction fuel as [|fuel IH]; intros orders T Ho Hfuel; [lia|]. cbn.
  pose proof (sweep_spec T _ (Ho O)) as Hinv.
  destruct (sweep (orders O) T) as [T' [|]] eqn:E; destruct Hinv as (H1 & H2 & H3 & H4 & H5); cbn in *.
  - destruct (H4 eq_refl) as (x & Hx & Hxd & HxT).
    destruct (IH (fun k => orders (S k)) T') as (R & -> & HR).
    + intros k. apply Ho.
    + pose proof (subset_size (dom parents ∖ T') (dom parents ∖ T) ltac:(set_solver)). lia.
    + exists R. split; [done|]. intros pid. rewrite HR. split.
      * intros (p & Hp & Hb). destruct (H5 _ Hp) as (q & Hq & Hqp). exists q. split; [done|].
        by eapply rtc_trans.
      * intros (p & Hp & Hb). exists p. split; [by apply H1|done].
  - exists T'. split; [done|]. destruct (sweep_fixed _ _ _ (Ho O) E) as [-> Hc]. intros pid. split.
    + intros Hin. exists pid. split; [done|apply rtc_refl].
    + intros (p & Hp & Hb). by eapply Hc.
Qed.
End sweep.

(** ** The filter's scope *)

Section seed.
Context `{ProcFS}.

(** The parentage the walk of [/proc] reads. *)
Definition proc_parents : gmap Z Z :=
  match os_ReadDir "/proc" with Some entries => read_parents entries | None => ∅ end.

Lemma newPIDFilter_seeds orders pid :
  ranges proc_parents orders ->
  exists f, newPIDFilter orders pid = Some f /\ pf_root f = pid
    /\ forall q, q ∈ pf_tracked f <-> below proc_parents pid q.
Proof.
  unfold newPIDFilter, seedFromProc, proc_parents. cbn [pf_root pf_tracked].
  destruct (os_ReadDir "/proc") as [entries|].
  - intros Ho. destruct (sweep_loop_spec (read_parents entries) (S (size (read_parents entries))) orders {[ pid ]})
      as (T & -> & HT); [done| |].
    + rewrite <- size_dom. apply Nat.lt_succ_r, subseteq_size. set_solver.
    + exists (mkPidFilter pid T). split_and!; cbn; [done..|]. intros q. rewrite HT. set_solver.
  - intros _. exists (mkPidFilter pid {[ pid ]}). split_and!; cbn; [done..|]. intros q. split; intros Hq.
    + apply elem_of_singleton in Hq as ->. apply rtc_refl.
    + apply elem_of_singleton. destruct Hq as [|x y z Hxy]; [done|]. unfold child_of in Hxy; by rewrite lookup_empty in Hxy.
Qed.
End seed.

(** ** The filter over a stream of events *)

Lemma in_scope_snoc seed evs ev pid :
  in_scope seed (evs ++ [ev]) pid <->
  in_scope seed evs pid \/ pid = ev_PID ev /\ in_scope seed evs (ev_PPID ev).
Proof.
  split.
  - destruct 1 as [pid Hs|before e after Heq Hp]; [left; by constructor|].
    destruct after as [|a after _] using rev_ind.
    + apply app_inj_tail in Heq as [-> ->]. by right.
    + rewrite app_comm_cons, app_assoc in Heq. apply app_inj_tail in Heq as [-> ->].
      left. by eapply scope_child.
  - intros [Hs|[-> Hp]]; [|by eapply scope_child].
    destruct Hs as [pid Hs|before e after -> Hp]; [by constructor|].
    eapply (scope_child _ _ before e (after ++ [ev])); [by rewrite <- app_assoc|done].
Qed.

Lemma Allow_tracked f ev pid :
  pid ∈ pf_tracked (snd (Allow f ev)) <->
  pid ∈ pf_tracked f \/ pid = ev_PID ev /\ ev_PPID ev ∈ pf_tracked f.
Proof. unfold Allow. repeat case_bool_decide; cbn; set_solver. Qed.

Lemma Allow_verdict f ev : fst (Allow f ev) = bool_decide (ev_PID ev ∈ pf_tracked (snd (Allow f ev))).
Proof.
  unfold Allow. repeat case_bool_decide; cbn in *; try done; exfalso; set_solver.
Qed.

Lemma allow_all_snoc f evs ev :
  allow_all f (evs ++ [ev]) =
  let '(oks, f) := allow_all f evs in let '(ok, f) := Allow f ev in (oks ++ [ok], f).
Proof.
  revert f. induction evs as [|e evs IH]; intros f; cbn; [by destruct (Allow f ev)|].
  destruct (Allow f e) as [ok f']. rewrite IH. destruct (allow_all f' evs) as [oks f''].
  by destruct (Allow f'' ev).
Qed.

Lemma allow_all_tracked f evs pid :
  pid ∈ pf_tracked (snd (allow_all f evs)) <-> in_scope (.∈ pf_tracked f) evs pid.
Proof.
  revert pid. induction evs as [|ev evs IH] using rev_ind; intros pid.
  - cbn. split; [by constructor|]. destruct 1 as [|before e after Heq]; [done|].
    by destruct before.
  - rewrite allow_all_snoc, in_scope_snoc, <- !IH.
    destruct (allow_all f evs) as [oks f']. pose proof (Allow_tracked f' ev pid) as Ha.
    destruct (Allow f' ev) as [ok f'']. exact Ha.
Qed.

Lemma in_scope_ext (P Q : Z -> Prop) evs pid : (forall p, P p <-> Q p) -> in_scope P evs pid -> in_scope Q evs pid.
Proof.
  intros HPQ. induction 1 as [evs pid Hp|evs before ev after -> _ IH]; [apply scope_seed; by apply HPQ|].
  by eapply scope_child.
Qed.

Lemma allow_all_app f before ev after :
  fst (allow_all f (before ++ ev :: after)) !! length before = Some (fst (Allow (snd (allow_all f before)) ev)).
Proof.
  revert f. induction before as [|e before IH]; intros f; cbn.
  - destruct (Allow f ev) as [ok f']. by destruct (allow_all f' after).
  - destruct (Allow f e) as [ok f']. specialize (IH f').
    destruct (allow_all f' (before ++ ev :: after)) as [oks f'']. cbn in *.
    destruct (allow_all f' before) as [oks' g]. cbn in *. exact IH.
Qed.

Lemma Allow_in_scope f before ev :
  fst (Allow (snd (allow_all f before)) ev) = true <-> in_scope (.∈ pf_tracked f) (before ++ [ev]) (ev_PID ev).
Proof.
  rewrite Allow_verdict, bool_decide_eq_true, Allow_tracked, in_scope_snoc, <- !allow_all_tracked. tauto.
Qed.

(** ** Reading a stat line *)

Lemma last_index_byte_app c a b : no_byte c b -> last_index_byte c (a +:+ String c b) = Some (String.length a).
Proof.
  intros Hb. assert (Hn : last_index_byte c b = None).
  { revert Hb. unfold no_byte. induction b as [|x b IH]; cbn; [done|]. intros [Hx Hb]%andb_true_iff.
    rewrite IH by done. by apply negb_true_iff in Hx as ->. }
  induction a as [|x a IH]; cbn; [|by rewrite IH]. by rewrite Hn, Ascii.eqb_refl.
Qed.

(** The head of a stat line: everything up to the command's parenthesis. *)
Definition stat_line (pid : Z) (comm : string) (state : ascii) (ppid : Z) (rest : string) : string :=
  (FormatUint pid 10 +:+ " (" +:+ comm) +:+ ") " +:+ String state (" " +:+ FormatUint ppid 10 +:+ " " +:+ rest).

Lemma parse_stat_line pid comm state ppid rest :
  in_range 33 126 (byte_of state) = true -> Ascii.eqb state ")" = false -> no_byte ")" rest -> is_u32 ppid ->
  parse_stat (stat_line pid comm state ppid rest) = Some ppid.
Proof.
  intros Hs Hsp Hr Hp. unfold parse_stat, stat_line. set (a := FormatUint pid 10 +:+ " (" +:+ comm).
  set (tail := String state (" " +:+ FormatUint ppid 10 +:+ " " +:+ rest)).
  assert (Hl : LastIndexByte (a +:+ ") " +:+ tail) ")" = slen a).
  { unfold LastIndexByte. change (") " +:+ tail) with (String ")" (" " +:+ tail)).
    rewrite last_index_byte_app; [done|]. unfold tail.
    apply no_byte_app; split; [done|]. unfold no_byte. cbn [all_bytes]. rewrite Hsp. cbn.
    apply no_byte_app; split; [by apply no_byte_decimal, FormatUint_decimal|]. by apply (no_byte_app _ " "). }
  rewrite Hl, !slen_app. change (slen ") ") with 2.
  assert (0 <= slen a) by (unfold slen; lia). assert (0 < slen tail) by (unfold tail, slen; cbn; lia).
  destruct (slen a <? 0) eqn:?; bool_prop; [lia|]. rewrite Z.geb_leb.
  destruct (slen a + (2 + slen tail) <=? slen a + 2) eqn:?; bool_prop; [lia|]. cbn [orb].
  replace (Z.to_nat (slen a + 2)) with (String.length (a +:+ ") ")) by (rewrite sapp_length; cbn; unfold slen; lia).
  rewrite sapp_assoc, sdrop_app. unfold tail.
  change (String state (" " +:+ FormatUint ppid 10 +:+ " " +:+ rest))
    with (str1 state +:+ String " " (FormatUint ppid 10 +:+ String " " rest)).
  rewrite Fields_word; [|cbn; by rewrite andb_true_r|done].
  rewrite Fields_word by (apply FormatUint_ne || apply decimal_word, FormatUint_decimal).
  by apply ParseUint32_FormatUint.
Qed.

Lemma decimal_plain s : all_bytes is_decimal s = true -> s <> "" -> plain_elem s /\ no_byte slash s.
Proof.
  intros Hd Hne. split; [|by apply no_byte_decimal]. split_and!; [done|..]; intros ->; done.
Qed.

Lemma proc_path pid name :
  plain_elem name -> no_byte slash name ->
  filepath_Join ["/proc"; FormatUint pid 10; name] = "/proc/" +:+ FormatUint pid 10 +:+ "/" +:+ name.
Proof.
  intros Hn Hns.
  destruct (decimal_plain (FormatUint pid 10)) as [Hp Hps]; [apply FormatUint_decimal|apply FormatUint_ne|].
  unfold filepath_Join. rewrite !filter_cons_True by (done || apply Hp || apply Hn). rewrite filter_nil.
  cbn [Join]. unfold Clean. replace (is_rooted _) with true by done.
  change ("/proc" +:+ "/" +:+ FormatUint pid 10 +:+ "/" +:+ name)
    with ("" +:+ String slash ("proc" +:+ String slash (FormatUint pid 10 +:+ String slash name))).
  rewrite !Split_app, Split_no_byte by done.
  change (clean_elems true ("" :: "proc" :: FormatUint pid 10 :: [name]))
    with (clean_elems true ["proc"; FormatUint pid 10; name]).
  rewrite clean_elems_plain by (repeat apply Forall_cons_2; done). done.
Qed.

(** ** Properties *)

(** Reading a process's parentage survives any process name: when the
    kernel's stat line carries parent [ppid], [lookupProc] returns it with the
    trimmed name, whatever bytes (spaces and parentheses included) the name on
    the line holds. *)
Theorem lookupProc_exact `{ProcFS} pid comm state ppid rest comm_file :
  os_ReadFile ("/proc/" +:+ FormatUint pid 10 +:+ "/stat") = Some (stat_line pid comm state ppid rest) ->
  os_ReadFile ("/proc/" +:+ FormatUint pid 10 +:+ "/comm") = Some comm_file ->
  in_range 33 126 (byte_of state) = true -> Ascii.eqb state ")" = false -> no_byte ")" rest -> is_u32 ppid ->
  lookupProc pid = Some (ppid, TrimSpace comm_file).
Proof.
  intros Hs Hc ? ? ? ?. unfold lookupProc, readPPID, proc_file. rewrite !proc_path by done.
  change ("/" +:+ "stat") with "/stat". change ("/" +:+ "comm") with "/comm".
  by rewrite Hs, parse_stat_line, Hc.
Qed.

(** C39: seeding terminates whatever order the map is ranged over in, and the
    filter then lets an event pass exactly when its process is the root, was
    below it in the parentage [/proc] showed, or appeared in this stream with a
    parent that was in scope by then. *)
Theorem pid_filter_exact `{ProcFS} orders root before ev after :
  ranges proc_parents orders ->
  exists f, newPIDFilter orders root = Some f
    /\ (fst (allow_all f (before ++ ev :: after)) !! length before = Some true
        <-> in_scope (below proc_parents root) (before ++ [ev]) (ev_PID ev)).
Proof.
  intros Ho. destruct (newPIDFilter_seeds orders root Ho) as (f & Hf & _ & Hs). exists f. split; [done|].
  rewrite allow_all_app. pose proof (Allow_in_scope f before ev) as Ha.
  rewrite (inj_iff Some), Ha. split; apply in_scope_ext; intros p; by rewrite Hs.
Qed.

(** ** Concrete runs

    A [/proc] with a shell (100), its child (200, named to confuse a parser)
    and an unrelated process (300), listed children first. *)

Definition example_proc : ProcFS := {|
  os_ReadDir := fun _ => Some [("self", false); ("200", true); ("100", true); ("tty", true); ("300", true)];
  os_ReadFile := fun path =>
    assoc path [("/proc/100/stat", stat_line 100 "bash" "S" 1 "100 100");
                ("/proc/200/stat", stat_line 200 "a) R 1 (b" "S" 100 "200 100");
                ("/proc/200/comm", "a) R 1 (b" +:+ str1 (chr 10));
                ("/proc/300/stat", stat_line 300 "cron" "S" 1 "300 300")]
|}.

Example example_parents :
  @proc_parents example_proc = {[ 100 := 1; 200 := 100; 300 := 1 ]}.
Proof. by_compute. Qed.

Definition example_orders (_ : nat) : list (Z * Z) := map_to_list (@proc_parents example_proc).

Definition example_event (pid ppid : Z) : Event := {|
  ev_Timestamp := 0; ev_Wall := 0; ev_PID := pid; ev_TID := pid; ev_TGID := pid; ev_UID := 1000; ev_GID := 1000;
  ev_PPID := ppid; ev_Comm := "sh"; ev_Syscall := "execve"; ev_SyscallID := 1; ev_Args := ∅; ev_ReturnValue := 0;
  ev_IsExit := false; ev_Arg0 := 0; ev_Arg1 := 0; ev_Arg2 := 0; ev_Path := ""; ev_Argv := []; ev_DestIP := "";
  ev_DestPort := 0; ev_Family := 0
|}.

Lemma lookupProc_exact_witness : @lookupProc example_proc 200 = Some (100, "a) R 1 (b").
Proof.
  apply (@lookupProc_exact example_proc 200 "a) R 1 (b" "S" 100 "200 100" ("a) R 1 (b" +:+ str1 (chr 10)));
    [reflexivity|reflexivity|reflexivity|reflexivity|reflexivity|split; z_compute].
Defined.

Lemma pid_filter_exact_witness :
  exists f, @newPIDFilter example_proc example_orders 100 = Some f
    /\ (fst (allow_all f ([example_event 300 1] ++ example_event 400 200 :: [])) !! 1%nat = Some true
        <-> in_scope (below (@proc_parents example_proc) 100) ([example_event 300 1] ++ [example_event 400 200]) 400).
Proof.
  apply (@pid_filter_exact example_proc example_orders 100 [example_event 300 1] (example_event 400 200) []).
  intros k. reflexivity.
Defined.

Example example_filter :
  (fun f => fst (allow_all f [example_event 300 1; example_event 400 200; example_event 500 400; example_event 1 0]))
    <$> @newPIDFilter example_proc example_orders 100 = Some [false; true; true; false].
Proof. vm_compute. reflexivity. Qed.
