(* ===== verification/Agent.v ===== *)
(** * The agent's pipeline ([cmd/krnlsentry/main.go])

    What happens to one event ([process]), and the state the pipeline keeps:
    engine, sinks, debug log, scope filter, counters. *)

From S2P Require Import Prelude GoStrings GoText GoTime GoFloat Syscalls Events Alerts Tracker Dedup Config Storyline Engine Record Sinks.
From S2P Require Import Console Dashboard Panels PidFilter EngineProps.

(** [type counters struct] *)
Record counters := mkCounters { c_observed : Z; c_alerts : Z; c_queueDropped : Z; c_writeErrors : Z }.
Definition no_counts : counters := mkCounters 0 0 0 0.

(** [Add(n)] on each of them. *)
Definition add_observed (n : Z) (c : counters) : counters :=
  mkCounters (u64 (c_observed c + n)) (c_alerts c) (c_queueDropped c) (c_writeErrors c).
Definition add_alerts (n : Z) (c : counters) : counters :=
  mkCounters (c_observed c) (u64 (c_alerts c + n)) (c_queueDropped c) (c_writeErrors c).
Definition add_queueDropped (n : Z) (c : counters) : counters :=
  mkCounters (c_observed c) (c_alerts c) (u64 (c_queueDropped c + n)) (c_writeErrors c).
Definition add_writeErrors (n : Z) (c : counters) : counters :=
  mkCounters (c_observed c) (c_alerts c) (c_queueDropped c) (u64 (c_writeErrors c + n)).

(** What [process] is given by reference. *)
Record Agent := mkAgent {
  ag_engine : Engine;
  ag_sinks : list (option Sink);
  ag_debug : option EventSink;
  ag_filter : option pidFilter;
  ag_counters : counters;
  ag_world : World
}.

(** The display as a sink: alerts change its state; [Close], once, writes its
    last frame ([last]) and gives the cursor back. *)
Record dash_state := mkDashState { ds_dash : Dashboard; ds_closed : bool }.
Definition dash_sink (last : Dashboard -> string) (d : dash_state) : Sink :=
  mkSink dash_state d
    (fun d a w => (None, mkDashState (Dashboard_Write (ds_dash d) (Some a)) (ds_closed d), w))
    (fun d w =>
       if ds_closed d then (None, d, w)
       else
         let o := db_opts (ds_dash d) in
         (None, mkDashState (ds_dash d) true,
          mkWorld (wd_files w)
            (wd_terminal w +:+ paint_text o (last (ds_dash d)) +:+ (if op_Color o then ansiShowCursor else "")))).

Section agent.
Context `{UnicodeTables} `{Host} `{Disk} `{Encoder}.

(** The loop over an event's alerts: the sinks, the counters and the world. *)
Fixpoint write_alert_list (sinks : list (option Sink)) (c : counters) (w : World) (alerts : list Alert)
    : list (option Sink) * counters * World :=
  match alerts with
  | [] => (sinks, c, w)
  | alert :: alerts =>
      let c := add_alerts 1 c in
      let '(errs, sinks, w) := MultiSink_Write sinks alert w in
      let c := if (length errs =? 0)%nat then c else add_writeErrors 1 c in
      write_alert_list sinks c w alerts
  end.

(** The verbose log, when there is one. *)
Definition write_debug (debug : option EventSink) (ev : Event) (c : counters) (w : World) : option EventSink * counters * World :=
  match debug with
  | None => (None, c, w)
  | Some s =>
      let '(err, s, w) := EventSink_WriteEvent s ev w in
      (Some s, match err with Some _ => add_writeErrors 1 c | None => c end, w)
  end.

(** The scope test: [filter != nil && !filter.Allow(ev)] negated. *)
Definition scope (f : option pidFilter) (ev : Event) : bool * option pidFilter :=
  match f with
  | None => (true, None)
  | Some f => let '(ok, f) := Allow f ev in (ok, Some f)
  end.

(** [process] *)
Definition process (ag : Agent) (ev : Event) : Agent :=
  let '(ok, f) := scope (ag_filter ag) ev in
  if negb ok then mkAgent (ag_engine ag) (ag_sinks ag) (ag_debug ag) f (ag_counters ag) (ag_world ag)
  else
    let c := add_observed 1 (ag_counters ag) in
    let '(debug, c, w) := write_debug (ag_debug ag) ev c (ag_world ag) in
    let '(alerts, _, e) := Evaluate (ag_engine ag) ev in
    let '(sinks, c, w) := write_alert_list (ag_sinks ag) c w alerts in
    mkAgent e sinks debug f c w.

Definition process_all (ag : Agent) (evs : list Event) : Agent := foldl process ag evs.

(** ** What a stream of events leads to *)

(** The events in scope, and the filter after all of them. *)
Fixpoint in_filter (f : option pidFilter) (evs : list Event) : list Event * option pidFilter :=
  match evs with
  | [] => ([], f)
  | ev :: evs =>
      let '(ok, f) := scope f ev in
      let '(kept, f) := in_filter f evs in (if ok then ev :: kept else kept, f)
  end.

Lemma in_filter_app f evs1 evs2 :
  in_filter f (evs1 ++ evs2) =
  let '(kept1, f) := in_filter f evs1 in let '(kept2, f) := in_filter f evs2 in (kept1 ++ kept2, f).
Proof.
  revert f. induction evs1 as [|ev evs1 IH]; intros f; cbn [in_filter app]; [by destruct (in_filter f evs2)|].
  destruct (scope f ev) as [ok f1]. rewrite IH. destruct (in_filter f1 evs1) as [k1 f2].
  destruct (in_filter f2 evs2) as [k2 f3]. by destruct ok.
Qed.

Lemma evaluate_all_app e evs1 evs2 :
  evaluate_all e (evs1 ++ evs2) =
  let '(a1, e) := evaluate_all e evs1 in let '(a2, e) := evaluate_all e evs2 in (a1 ++ a2, e).
Proof.
  revert e. induction evs1 as [|ev evs1 IH]; intros e; cbn [evaluate_all app]; [by destruct (evaluate_all e evs2)|].
  destruct (Evaluate e ev) as [[alerts args] e1]. rewrite IH. destruct (evaluate_all e1 evs1) as [a1 e2].
  by destruct (evaluate_all e2 evs2).
Qed.

(** ** Where alerts and events end up *)

(** The sinks [run] builds: the alert log first, then a display that writes to
    neither of the two files. *)
Definition agent_sinks (s : JSONLSink) (dpath : string) (m : list (option Sink)) : Prop :=
  exists post, m = Some (jsonl_sink s) :: post /\ frames (js_path s) post /\ frames dpath post.

Lemma MultiSink_Write_agent s dpath m a w :
  js_open s = true -> js_path s <> dpath -> agent_sinks s dpath m ->
  let '(_, m', w') := MultiSink_Write m a w in
  agent_sinks (after_alerts s [a]) dpath m' /\ content w' (js_path s) = content w (js_path s) +:+ alert_lines s [a]
  /\ content w' dpath = content w dpath.
Proof.
  intros Ho Hne (post & -> & Hp & Hd). cbn [MultiSink_Write]. unfold sink_write. cbn [jsonl_sink sk_Write sk_state sk_State sk_Close].
  pose proof (JSONLSink_Write_open s a w Ho) as Hw. destruct (JSONLSink_Write s a w) as [[e s1] w1].
  destruct Hw as (-> & Hc & Hother & _). specialize (Hother dpath ltac:(congruence)).
  pose proof (frames_Write _ post a w1 Hp) as Hfp. pose proof (frames_Write _ post a w1 Hd) as Hfd.
  destruct (MultiSink_Write post a w1) as [[errs post'] w2]. destruct Hfp as [Hc1 ?], Hfd as [Hc2 ?].
  split_and!; [by exists post'|congruence|congruence].
Qed.

Lemma write_alert_list_spec s dpath m c w alerts :
  js_open s = true -> js_path s <> dpath -> agent_sinks s dpath m -> is_u64 (c_alerts c) ->
  let '(m', c', w') := write_alert_list m c w alerts in
  agent_sinks (after_alerts s alerts) dpath m' /\ content w' (js_path s) = content w (js_path s) +:+ alert_lines s alerts
  /\ content w' dpath = content w dpath
  /\ c_observed c' = c_observed c /\ c_queueDropped c' = c_queueDropped c
  /\ c_alerts c' = u64 (c_alerts c + Z.of_nat (length alerts)).
Proof.
  intros Ho Hne. revert s Ho Hne m c w. induction alerts as [|a alerts IH]; intros s Ho Hne m c w Hm Hc; cbn [write_alert_list].
  - rewrite after_alerts_nil. split_and!; try done; [by rewrite sapp_nil_r|]. cbn. by rewrite Z.add_0_r, u64_small.
  - pose proof (MultiSink_Write_agent s dpath m a w Ho Hne Hm) as Hw. destruct (MultiSink_Write m a w) as [[errs m1] w1].
    destruct Hw as (Hm1 & Hc1 & Hd1).
    set (c1 := if (length errs =? 0)%nat then add_alerts 1 c else add_writeErrors 1 (add_alerts 1 c)).
    assert (Hc1' : c_alerts c1 = u64 (c_alerts c + 1) /\ c_observed c1 = c_observed c /\ c_queueDropped c1 = c_queueDropped c)
      by (subst c1; by case_match). destruct Hc1' as (Ha & Hob & Hq).
    specialize (IH (after_alerts s [a]) Ho Hne m1 c1 w1 Hm1). rewrite Ha in IH. specialize (IH (u64_range _)).
    destruct (write_alert_list m1 c1 w1 alerts) as [[m2 c2] w2]. destruct IH as (? & Hc2 & Hd2 & Ho2 & Hq2 & Ha2).
    change (a :: alerts) with ([a] ++ alerts). rewrite after_alerts_app, alert_lines_app.
    change (js_path (after_alerts s [a])) with (js_path s) in Hc2.
    split_and!; [done| |congruence|congruence|congruence|].
    + by rewrite Hc2, Hc1, sapp_assoc.
    + rewrite Ha2. unfold u64. rewrite Z.add_mod_idemp_l by done. f_equal. cbn [length app]. lia.
Qed.

Lemma write_debug_spec d ev c w :
  es_open d = true ->
  let '(d', c', w') := write_debug (Some d) ev c w in
  d' = Some (after_events d [ev])
  /\ content w' (es_path d) = content w (es_path d) +:+ event_lines d [ev]
  /\ (forall path, path <> es_path d -> content w' path = content w path)
  /\ c_observed c' = c_observed c /\ c_alerts c' = c_alerts c /\ c_queueDropped c' = c_queueDropped c.
Proof.
  intros Ho. unfold write_debug, EventSink_WriteEvent, after_events, event_lines. rewrite Ho. cbn [negb fmap list_fmap].
  pose proof (Encode_spec (es_path d) (es_failed d) (encode_event ev) w) as He. unfold encode_event in *.
  destruct (Encode _ _ _ w) as [[ok f] w1]. destruct He as (Hc & Hother & -> & _). by split_and!; [| | |destruct ok..].
Qed.
End agent.

(** ** Property *)

Section pipeline.
Context `{UnicodeTables} `{Host} `{Disk} `{Encoder}.

(** What any events lead to, for an agent with both logs. *)
Definition processed_exactly (s : JSONLSink) (d : EventSink) (ag : Agent) (evs : list Event) : Prop :=
  let ag' := process_all ag evs in
  let '(kept, f') := in_filter (ag_filter ag) evs in
  let '(alerts, e') := evaluate_all (ag_engine ag) kept in
  ag_engine ag' = e' /\ ag_filter ag' = f'
  /\ c_observed (ag_counters ag') = u64 (c_observed (ag_counters ag) + Z.of_nat (length kept))
  /\ c_alerts (ag_counters ag') = u64 (c_alerts (ag_counters ag) + Z.of_nat (length (mjoin alerts)))
  /\ c_queueDropped (ag_counters ag') = c_queueDropped (ag_counters ag)
  /\ content (ag_world ag') (js_path s) = content (ag_world ag) (js_path s) +:+ alert_lines s (mjoin alerts)
  /\ content (ag_world ag') (es_path d) = content (ag_world ag) (es_path d) +:+ event_lines d kept.

Lemma process_all_spec s d ag evs :
  js_open s = true -> es_open d = true -> js_path s <> es_path d ->
  agent_sinks s (es_path d) (ag_sinks ag) -> ag_debug ag = Some d ->
  is_u64 (c_observed (ag_counters ag)) -> is_u64 (c_alerts (ag_counters ag)) ->
  processed_exactly s d ag evs.
Proof.
  unfold processed_exactly. intros Hjo Heo Hne. revert s d Hjo Heo Hne ag.
  induction evs as [|ev evs IH]; intros s d Hjo Heo Hne ag Hm Hd Hob Hal; cbv zeta.
  - cbn. rewrite !sapp_nil_r, !Z.add_0_r, !u64_small by done. by split_and!.
  - unfold process_all in *. cbn [foldl in_filter].
    remember (process ag ev) as ag1 eqn:E1. unfold process in E1. destruct (scope (ag_filter ag) ev) as [ok f1].
    destruct ok; cbn [negb] in E1.
    2:{ subst ag1. specialize (IH s d Hjo Heo Hne (mkAgent (ag_engine ag) (ag_sinks ag) (ag_debug ag) f1 (ag_counters ag) (ag_world ag)) Hm Hd Hob Hal).
        cbv zeta in IH. cbn [ag_engine ag_filter ag_counters ag_world] in IH. by destruct (in_filter f1 evs) as [kept f2]. }
    rewrite Hd in E1. pose proof (write_debug_spec d ev (add_observed 1 (ag_counters ag)) (ag_world ag) Heo) as Hdbg.
    destruct (write_debug _ _ _ _) as [[d1 c1] w1]. destruct Hdbg as (-> & Hdc & Hdo & Ho1 & Ha1 & Hq1).
    destruct (Evaluate (ag_engine ag) ev) as [[alerts1 args] e1] eqn:Eev.
    pose proof (write_alert_list_spec s (es_path d) (ag_sinks ag) c1 w1 alerts1 Hjo Hne Hm ltac:(by rewrite Ha1)) as Hwl.
    destruct (write_alert_list (ag_sinks ag) c1 w1 alerts1) as [[m2 c2] w2]. destruct Hwl as (Hm2 & Hc2 & Hdc2 & Ho2 & Hq2 & Ha2).
    subst ag1. specialize (IH (after_alerts s alerts1) (after_events d [ev]) Hjo Heo Hne (mkAgent e1 m2 (Some (after_events d [ev])) f1 c2 w2)).
    cbn [ag_engine ag_sinks ag_debug ag_filter ag_counters ag_world] in IH.
    rewrite Ho2, Ho1, Ha2, Ha1 in IH. specialize (IH Hm2 eq_refl (u64_range _) (u64_range _)). cbv zeta in IH.
    destruct (in_filter f1 evs) as [kept f2]. cbn [evaluate_all]. rewrite Eev. destruct (evaluate_all e1 kept) as [alerts2 e2].
    cbn [after_alerts js_path after_events es_path] in IH. fold (after_alerts s alerts1) (after_events d [ev]) in IH.
    destruct IH as (-> & -> & -> & -> & -> & -> & ->). cbn [add_observed c_observed c_alerts c_queueDropped] in *.
    change (mjoin (alerts1 :: alerts2)) with (alerts1 ++ mjoin alerts2). change (ev :: kept) with ([ev] ++ kept).
    rewrite alert_lines_app, event_lines_app, !length_app.
    split_and!; [done|done| | |congruence| |].
    + unfold u64. rewrite Z.add_mod_idemp_l by done. f_equal. cbn [length]. lia.
    + unfold u64. rewrite Z.add_mod_idemp_l by done. f_equal. lia.
    + by rewrite Hc2, Hdo, sapp_assoc by done.
    + by rewrite Hdc2, Hdc, sapp_assoc.
Qed.

(** The same without a verbose log: the engine, the filter and the alert log. *)
Lemma process_all_quiet s dpath ag evs :
  js_open s = true -> js_path s <> dpath -> agent_sinks s dpath (ag_sinks ag) -> ag_debug ag = None ->
  is_u64 (c_alerts (ag_counters ag)) ->
  let ag' := process_all ag evs in
  let '(kept, f') := in_filter (ag_filter ag) evs in
  let '(alerts, e') := evaluate_all (ag_engine ag) kept in
  ag_engine ag' = e' /\ ag_filter ag' = f'
  /\ content (ag_world ag') (js_path s) = content (ag_world ag) (js_path s) +:+ alert_lines s (mjoin alerts).
Proof.
  intros Hjo Hne. revert s Hjo Hne ag. induction evs as [|ev evs IH]; intros s Hjo Hne ag Hm Hd Hal; cbv zeta.
  - cbn. rewrite !sapp_nil_r. by split_and!.
  - unfold process_all in *. cbn [foldl in_filter].
    remember (process ag ev) as ag1 eqn:E1. unfold process in E1. destruct (scope (ag_filter ag) ev) as [ok f1].
    destruct ok; cbn [negb] in E1.
    2:{ subst ag1. specialize (IH s Hjo Hne (mkAgent (ag_engine ag) (ag_sinks ag) (ag_debug ag) f1 (ag_counters ag) (ag_world ag)) Hm Hd Hal).
        cbv zeta in IH. cbn [ag_engine ag_filter ag_counters ag_world] in IH. by destruct (in_filter f1 evs) as [kept f2]. }
    rewrite Hd in E1. cbn [write_debug] in E1. destruct (Evaluate (ag_engine ag) ev) as [[alerts1 args] e1] eqn:Eev.
    pose proof (write_alert_list_spec s dpath (ag_sinks ag) (add_observed 1 (ag_counters ag)) (ag_world ag) alerts1 Hjo Hne Hm Hal) as Hwl.
    destruct (write_alert_list _ _ _ alerts1) as [[m2 c2] w2]. destruct Hwl as (Hm2 & Hc2 & _ & _ & _ & Ha2).
    subst ag1. specialize (IH (after_alerts s alerts1) Hjo Hne (mkAgent e1 m2 None f1 c2 w2)).
    cbn [ag_engine ag_sinks ag_debug ag_filter ag_counters ag_world] in IH.
    rewrite Ha2 in IH. specialize (IH Hm2 eq_refl (u64_range _)). cbv zeta in IH.
    destruct (in_filter f1 evs) as [kept f2]. cbn [evaluate_all]. rewrite Eev. destruct (evaluate_all e1 kept) as [alerts2 e2].
    change (js_path (after_alerts s alerts1)) with (js_path s) in IH.
    destruct IH as (-> & -> & ->). split_and!; [done..|]. rewrite Hc2.
    change (mjoin (alerts1 :: alerts2)) with (alerts1 ++ mjoin alerts2). by rewrite alert_lines_app, sapp_assoc.
Qed.

(** C24: the pipeline is the filter, then the engine, then the files.  After any
    events, an agent with an alert log and a verbose log holds the engine and
    the filter that filtering and evaluating them in order give; its counters
    count exactly the events in scope and the alerts raised, written or not; the
    alert log has gained the line of every alert raised and the verbose log the
    record of every event in scope, in order, each log as far as its first failed
    write, of which it holds the beginning and after which it gains nothing; and
    what one file or the display does never affects the other file. *)
Theorem process_all_exact s d ag evs :
  js_open s = true -> es_open d = true -> js_path s <> es_path d ->
  agent_sinks s (es_path d) (ag_sinks ag) -> ag_debug ag = Some d ->
  is_u64 (c_observed (ag_counters ag)) -> is_u64 (c_alerts (ag_counters ag)) ->
  let ag' := process_all ag evs in
  let '(kept, f') := in_filter (ag_filter ag) evs in
  let '(alerts, e') := evaluate_all (ag_engine ag) kept in
  ag_engine ag' = e' /\ ag_filter ag' = f'
  /\ c_observed (ag_counters ag') = u64 (c_observed (ag_counters ag) + Z.of_nat (length kept))
  /\ c_alerts (ag_counters ag') = u64 (c_alerts (ag_counters ag) + Z.of_nat (length (mjoin alerts)))
  /\ c_queueDropped (ag_counters ag') = c_queueDropped (ag_counters ag)
  /\ content (ag_world ag') (js_path s) = content (ag_world ag) (js_path s) +:+ alert_lines s (mjoin alerts)
  /\ content (ag_world ag') (es_path d) = content (ag_world ag) (es_path d) +:+ event_lines d kept.
Proof. apply process_all_spec. Qed.
End pipeline.

(** ** A concrete agent

    Filtered to process 42 and its descendants, with a verbose log and the
    scrolling display; a [setuid(0)] in scope and one out of it. *)
#[local] Existing Instance example_tables.
#[local] Existing Instance example_host.
#[local] Existing Instance example_disk.
#[local] Existing Instance example_encoder.
#[local] Existing Instance example_clock.

Definition example_agent (e : Engine) : Agent :=
  mkAgent e [Some (jsonl_sink (mkJSONLSink "alerts.jsonl" true false)); Some (console_sink (mkConsoleSink false SeverityLow))]
    (Some (mkEventSink "debug.jsonl" true false)) (Some (mkPidFilter 42 {[ 42 ]})) no_counts example_world.
Definition example_setuid (pid : Z) : Event :=
  Decode (mkRaw 1500 pid pid 1000 1000 7 SysSetuid 0 0 0 0 0 0 0 0 "sh" "" []) 1709251199123456789.

Lemma process_all_exact_witness :
  match NewEngine DefaultConfig [] with
  | inl e =>
      let ag := process_all (example_agent e) [example_setuid 42; example_setuid 43] in
      c_observed (ag_counters ag) = 1 /\ c_queueDropped (ag_counters ag) = 0
      /\ content (ag_world ag) "debug.jsonl" = "{sh}" +:+ nl
  | inr _ => False
  end.
Proof.
  destruct (NewEngine DefaultConfig []) as [e|] eqn:E; [|discriminate E]. cbv zeta.
  pose proof (process_all_exact (mkJSONLSink "alerts.jsonl" true false) (mkEventSink "debug.jsonl" true false) (example_agent e)
    [example_setuid 42; example_setuid 43]) as H. cbv zeta in H.
  assert (Hin : in_filter (ag_filter (example_agent e)) [example_setuid 42; example_setuid 43]
    = ([example_setuid 42], Some (mkPidFilter 42 {[ 42 ]}))) by reflexivity.
  rewrite Hin in H. destruct (evaluate_all (ag_engine (example_agent e)) [example_setuid 42]) as [alerts e'].
  destruct H as (_ & _ & Ho & _ & Hq & _ & Hd).
  - reflexivity.
  - reflexivity.
  - discriminate.
  - exists [Some (console_sink (mkConsoleSink false SeverityLow))].
    assert (Hf : forall path, frames path [Some (console_sink (mkConsoleSink false SeverityLow))]).
    { intros path. constructor; [|constructor]. intros s a w. unfold console_sink. cbn [sk_Write]. unfold ConsoleSink_Write.
      by destruct (al_Severity a <? cs_minSeverity s). }
    split_and!; [reflexivity|apply Hf|apply Hf].
  - reflexivity.
  - split; z_compute.
  - split; z_compute.
  - split_and!; [exact Ho|exact Hq|]. etransitivity; [exact Hd|reflexivity].
Defined.
