(* ===== verification/Pump.v ===== *)
(** * The live pipeline's two goroutines ([cmd/krnlsentry/main.go], [pump])

    The collector's goroutine hands events to a bounded queue and counts those
    that do not fit; the main one takes them off, processes them and refreshes
    the metrics on a tick.  Their steps in every interleaving.  A step of
    [process] is atomic here: the only thing another goroutine changes meanwhile
    is the count of dropped events, which [process] neither reads nor writes
    ([process_drops]). *)

From S2P Require Import Prelude GoStrings GoText GoTime GoFloat Syscalls Events Alerts Tracker Dedup Config Storyline Engine Record Sinks.
From S2P Require Import Console Dashboard Panels PidFilter EngineProps Agent.

Definition eventQueueDepth : nat := Z.to_nat 4096.

Section pump.
Context `{UnicodeTables} `{Host} `{Disk} `{Encoder}.

(** [metricsSource.refresh]: the snapshot it stores; [stats] is what the
    collector reports, [None] without one or on an error. *)
Definition refresh (replaying : bool) (ag : Agent) (stats : option (Z * Z)) (progress : float64) : Metrics :=
  let es := Engine_Stats (ag_engine ag) in
  let c := ag_counters ag in
  let '(kernel_events, kernel_drops) := default (0, 0) stats in
  mkMetrics (c_observed c) (c_queueDropped c) kernel_events kernel_drops (c_writeErrors c)
    (Tracker_Len (en_tracker (ag_engine ag))) (es_Storylines es) (es_AttackChains es) (es_Suppressed es)
    (if replaying then progress else f_of_int (-1)).

(** [type metricsSource struct], without the pointers to the counters and the
    engine, which are the agent's: what it was told of the run, whether a
    collector is attached, and the last snapshot. *)
Record metricsSource := mkMetricsSource { ms_replaying : bool; ms_collector : bool; ms_snap : Metrics }.

Definition newMetricsSource (ag : Agent) (replaying : bool) : metricsSource :=
  mkMetricsSource replaying false (refresh replaying ag None (f_of_int (-1))).
Definition attachCollector (ms : metricsSource) : metricsSource := mkMetricsSource (ms_replaying ms) true (ms_snap ms).
Definition ms_refresh (ms : metricsSource) (ag : Agent) (stats : option (Z * Z)) (progress : float64) : metricsSource :=
  mkMetricsSource (ms_replaying ms) (ms_collector ms)
    (refresh (ms_replaying ms) ag (if ms_collector ms then stats else None) progress).
Definition snapshot (ms : metricsSource) : Metrics := ms_snap ms.

(** How often [pump] takes a snapshot when nothing happens. *)
Definition metricsRefreshInterval : Z := 200 * Millisecond.

(** [logStats]: the attributes of the line it logs. *)
Definition logStats (stats : option (Z * Z)) (ag : Agent) : list (string * Z) :=
  let es := Engine_Stats (ag_engine ag) in
  let c := ag_counters ag in
  [("observed", c_observed c); ("alerts", c_alerts c); ("queue_dropped", c_queueDropped c);
   ("tracked_processes", Tracker_Len (en_tracker (ag_engine ag))); ("open_storylines", es_Storylines es);
   ("attack_chains", es_AttackChains es)]
  ++ match stats with Some (events, dropped) => [("kernel_events", events); ("kernel_dropped", dropped)] | None => [] end.

(** The state both goroutines share.  [pm_closed]: the collector has returned,
    its error is in [collectErr] and the queue is closed. *)
Record pump := mkPump {
  pm_agent : Agent;
  pm_queue : list Event;
  pm_closed : bool;
  pm_returned : bool;
  pm_snap : Metrics
}.

Definition set_agent (ag : Agent) (s : pump) : pump :=
  mkPump ag (pm_queue s) (pm_closed s) (pm_returned s) (pm_snap s).
Definition set_counters (c : counters) (ag : Agent) : Agent :=
  mkAgent (ag_engine ag) (ag_sinks ag) (ag_debug ag) (ag_filter ag) c (ag_world ag).
Definition drop_one (ag : Agent) : Agent := set_counters (add_queueDropped 1 (ag_counters ag)) ag.

(** The handler given to [Collector.Run]: a send that does not block. *)
Definition hand (s : pump) (ev : Event) : pump :=
  if (length (pm_queue s) <? eventQueueDepth)%nat
  then mkPump (pm_agent s) (pm_queue s ++ [ev]) (pm_closed s) (pm_returned s) (pm_snap s)
  else set_agent (drop_one (pm_agent s)) s.

Inductive label := Handed (ev : Event) | Ended | Consumed | Ticked (stats : option (Z * Z)) | Logged (line : list (string * Z)) | Finished (stats : option (Z * Z)).

Inductive pump_step : pump -> label -> pump -> Prop :=
  | pump_hand s ev : pm_closed s = false -> pump_step s (Handed ev) (hand s ev)
  | pump_end s : pm_closed s = false ->
      pump_step s Ended (mkPump (pm_agent s) (pm_queue s) true (pm_returned s) (pm_snap s))
  | pump_consume s ev q : pm_returned s = false -> pm_queue s = ev :: q ->
      pump_step s Consumed (mkPump (process (pm_agent s) ev) q (pm_closed s) (pm_returned s) (pm_snap s))
  | pump_tick s stats : pm_returned s = false ->
      pump_step s (Ticked stats)
        (mkPump (pm_agent s) (pm_queue s) (pm_closed s) (pm_returned s) (refresh false (pm_agent s) stats (f_of_int (-1))))
  | pump_log s stats : pm_returned s = false -> pump_step s (Logged (logStats stats (pm_agent s))) s
  | pump_finish s stats : pm_returned s = false -> pm_queue s = [] -> pm_closed s = true ->
      pump_step s (Finished stats)
        (mkPump (pm_agent s) [] (pm_closed s) true (refresh false (pm_agent s) stats (f_of_int (-1)))).

(** Runs, and the events handed over in one. *)
Inductive pump_run : pump -> list label -> pump -> Prop :=
  | pump_none s : pump_run s [] s
  | pump_more s tr s' l s'' : pump_run s tr s' -> pump_step s' l s'' -> pump_run s (tr ++ [l]) s''.

Definition handed (tr : list label) : list Event :=
  omap (fun l => match l with Handed ev => Some ev | _ => None end) tr.

Definition start (ag : Agent) (snap : Metrics) : pump := mkPump ag [] false false snap.

(** ** Dropping commutes with processing *)

Definition drops (n : nat) (ag : Agent) : Agent := set_counters (add_queueDropped (Z.of_nat n) (ag_counters ag)) ag.

Lemma write_alert_list_drops n m c w alerts :
  write_alert_list m (add_queueDropped n c) w alerts =
  let '(m, c, w) := write_alert_list m c w alerts in (m, add_queueDropped n c, w).
Proof.
  revert m c w. induction alerts as [|a alerts IH]; intros m c w; [done|]. cbn [write_alert_list].
  destruct (MultiSink_Write m a w) as [[errs m1] w1]. destruct (length errs =? 0)%nat;
    [exact (IH m1 (add_alerts 1 c) w1)|exact (IH m1 (add_writeErrors 1 (add_alerts 1 c)) w1)].
Qed.

Lemma process_drops n ag ev : process (drops n ag) ev = drops n (process ag ev).
Proof.
  unfold process, drops, set_counters. cbn [ag_engine ag_sinks ag_debug ag_filter ag_counters ag_world].
  destruct (scope (ag_filter ag) ev) as [[|] f]; cbn [negb]; [|done].
  change (add_observed 1 (add_queueDropped (Z.of_nat n) (ag_counters ag)))
    with (add_queueDropped (Z.of_nat n) (add_observed 1 (ag_counters ag))).
  assert (Hd : forall c w, write_debug (ag_debug ag) ev (add_queueDropped (Z.of_nat n) c) w =
    let '(d, c, w) := write_debug (ag_debug ag) ev c w in (d, add_queueDropped (Z.of_nat n) c, w)).
  { intros c w. unfold write_debug. destruct (ag_debug ag) as [d|]; [|done].
    destruct (EventSink_WriteEvent d ev w) as [[[e|] d1] w1]; done. }
  rewrite Hd. destruct (write_debug _ _ _ _) as [[d c] w]. destruct (Evaluate (ag_engine ag) ev) as [[alerts args] e].
  rewrite write_alert_list_drops. by destruct (write_alert_list (ag_sinks ag) c w alerts) as [[m1 c1] w1].
Qed.

Lemma drops_0 ag : is_u64 (c_queueDropped (ag_counters ag)) -> drops 0 ag = ag.
Proof.
  destruct ag as [e m d f [o a q we] w]. cbn. intros Hq. unfold drops, set_counters, add_queueDropped. cbn.
  by rewrite Z.add_0_r, u64_small.
Qed.
Lemma drops_S n ag : drop_one (drops n ag) = drops (S n) ag.
Proof.
  unfold drop_one, drops, set_counters, add_queueDropped. cbn. do 2 f_equal.
  unfold u64. rewrite Z.add_mod_idemp_l by done. f_equal. lia.
Qed.

(** ** The invariant of runs *)

(** What [processed], the queue and the dropped events are to those handed over
    so far. *)
Record accounts (ag0 : Agent) (all processed dropped : list Event) (s : pump) : Prop := {
  ac_agent : pm_agent s = drops (length dropped) (process_all ag0 processed);
  ac_order : sublist (processed ++ pm_queue s) all;
  ac_all : all ≡ₚ (processed ++ pm_queue s) ++ dropped;
  ac_depth : (length (pm_queue s) <= eventQueueDepth)%nat;
  ac_few : (length all <= eventQueueDepth)%nat -> dropped = [];
  ac_returned : pm_returned s = true -> pm_closed s = true /\ pm_queue s = []
}.

Lemma pump_step_accounts ag0 all processed dropped s l s' :
  pump_step s l s' -> accounts ag0 all processed dropped s ->
  exists processed' dropped', accounts ag0 (all ++ handed [l]) processed' dropped' s'.
Proof.
  intros Hstep [Ha Ho Hall Hd Hf Hr]. destruct Hstep as [s ev Hc|s Hc|s ev q Hret Hq|s stats Hret|s stats Hret|s stats Hret Hq Hc];
    cbn [handed omap list_omap]; rewrite ?app_nil_r.
  - unfold hand. destruct (Nat.ltb_spec (length (pm_queue s)) eventQueueDepth) as [Hl|Hl].
    + exists processed, dropped. split; cbn [pm_agent pm_queue pm_closed pm_returned]; [done| | | | |].
      * rewrite app_assoc. by apply sublist_app.
      * rewrite Hall. solve_Permutation.
      * rewrite length_app. cbn. lia.
      * rewrite length_app. cbn. intros. apply Hf. lia.
      * intros E. destruct (Hr E). congruence.
    + exists processed, (dropped ++ [ev]). split; cbn [set_agent pm_agent pm_queue pm_closed pm_returned]; [| | |done| |done].
      * rewrite Ha, drops_S, length_app. f_equal. cbn. lia.
      * by apply sublist_inserts_r.
      * rewrite Hall. solve_Permutation.
      * rewrite length_app. cbn. intros Hle. apply Permutation_length in Hall. rewrite !length_app in Hall. lia.
  - exists processed, dropped. split; try done. intros E. destruct (Hr E). congruence.
  - exists (processed ++ [ev]), dropped. rewrite Hq in *. split; cbn [pm_agent pm_queue pm_closed pm_returned]; [| | | |done|].
    + rewrite Ha, process_drops. unfold process_all. by rewrite foldl_snoc.
    + rewrite <- (app_assoc processed [ev] q). done.
    + rewrite <- (app_assoc processed [ev] q). done.
    + cbn in Hd. lia.
    + intros E. destruct (Hr E). congruence.
  - exists processed, dropped. by split.
  - exists processed, dropped. by split.
  - exists processed, dropped. rewrite Hq in *. split; try done.
Qed.

Lemma pump_run_accounts ag0 snap tr s :
  is_u64 (c_queueDropped (ag_counters ag0)) -> pump_run (start ag0 snap) tr s ->
  exists processed dropped, accounts ag0 (handed tr) processed dropped s.
Proof.
  intros Hq. remember (start ag0 snap) as s0 eqn:E0. induction 1 as [s|s tr s' l s'' _ IH Hstep].
  - exists [], []. subst s. split; cbn; try done; [by rewrite drops_0|apply Nat.le_0_l].
  - destruct IH as (p & d & Hacc); [done|]. destruct (pump_step_accounts _ _ _ _ _ _ _ Hstep Hacc) as (p' & d' & Hacc').
    exists p', d'. unfold handed in *. by rewrite omap_app.
Qed.
End pump.

(** ** Properties *)

Section pump_properties.
Context `{UnicodeTables} `{Host} `{Disk} `{Encoder}.

(** no event is lost without being counted.  In every interleaving of the
    two goroutines, the events handed over so far split into those processed,
    those queued and those dropped, in such a way that the processed and queued
    ones kept their order; the agent is exactly what processing the first ones
    one after the other gives, with the dropped ones counted; the queue never
    holds more than its depth, and nothing is dropped before that many events
    have been handed over.  When [pump] returns, the queue has been processed to
    its end. *)
Theorem pump_accounts ag0 snap tr s :
  is_u64 (c_queueDropped (ag_counters ag0)) ->
  pump_run (start ag0 snap) tr s ->
  exists processed dropped,
    let ag := process_all ag0 processed in
    handed tr ≡ₚ (processed ++ pm_queue s) ++ dropped /\ sublist (processed ++ pm_queue s) (handed tr)
    /\ pm_agent s = set_counters (add_queueDropped (Z.of_nat (length dropped)) (ag_counters ag)) ag
    /\ (length (pm_queue s) <= eventQueueDepth)%nat
    /\ ((length (handed tr) <= eventQueueDepth)%nat -> dropped = [])
    /\ (pm_returned s = true -> pm_queue s = []).
Proof.
  intros Hq Hrun. destruct (pump_run_accounts ag0 snap tr s Hq Hrun) as (p & d & [Ha Ho Hall Hd Hf Hr]).
  exists p, d. split_and!; try done. intros E. by apply Hr.
Qed.

Definition is_ticked (l : label) : bool := match l with Ticked _ | Logged _ => true | _ => false end.
Definition ticks (tr : list label) : nat := length (filter (fun l => is_ticked l = true) tr).

(** The rest of a run once the collector has ended: what is left in the queue
    and the return, and nothing else but ticks. *)
Lemma closed_run s tr s' :
  pump_run s tr s' -> pm_closed s = true -> pm_returned s = false ->
  pm_closed s' = true
  /\ (length tr + length (pm_queue s') + (if pm_returned s' then 0 else 1) = length (pm_queue s) + 1 + ticks tr)%nat
  /\ (pm_returned s' = true -> pm_queue s' = [])
  /\ exists done_, pm_queue s = done_ ++ pm_queue s' /\ pm_agent s' = process_all (pm_agent s) done_.
Proof.
  intros Hrun Hc Hr. induction Hrun as [s|s tr s' l s'' _ IH Hstep].
  - rewrite Hr. split_and!; [done|cbn; lia|done|by exists []].
  - destruct IH as (Hc' & Hlen & Hret & dn & Hq & Ha); [done..|]. unfold ticks in *. rewrite filter_app, !length_app.
    destruct Hstep as [s' ev Hc2|s' Hc2|s' ev q Hret2 Hq2|s' stats Hret2|s' stats Hret2|s' stats Hret2 Hq2 Hc2]; try congruence;
      cbn [pm_agent pm_queue pm_closed pm_returned]; rewrite Hret2 in *; rewrite ?Hq2 in *;
      rewrite ?(filter_cons_True (fun l => is_ticked l = true)) by done;
      rewrite ?(filter_cons_False (fun l => is_ticked l = true)) by (by cbn); cbn [length] in *;
      (split_and!; [done|cbn in *; lia|done|]).
    + exists (dn ++ [ev]). split; [by rewrite <- app_assoc|]. unfold process_all in *. by rewrite foldl_snoc, Ha.
    + by exists dn.
    + by exists dn.
    + by exists dn.
Qed.

(** the pipeline drains and stops.  Once the collector has ended, whatever
    the scheduling, [pump] takes exactly one step for each event still queued
    and one to return, besides the ticks; until it has returned such a step is
    possible; and it returns with every queued event processed, in order. *)
Theorem pump_drains s tr s' :
  pm_closed s = true -> pm_returned s = false -> pump_run s tr s' ->
  (length tr <= length (pm_queue s) + 1 + ticks tr)%nat
  /\ (pm_returned s' = true ->
        length tr = (length (pm_queue s) + 1 + ticks tr)%nat /\ pm_agent s' = process_all (pm_agent s) (pm_queue s))
  /\ (pm_returned s' = false -> exists l s'', is_ticked l = false /\ pump_step s' l s'').
Proof.
  intros Hc Hr Hrun. destruct (closed_run s tr s' Hrun Hc Hr) as (Hc' & Hlen & Hret & dn & Hq & Ha). split_and!.
  - destruct (pm_returned s'); lia.
  - intros E. specialize (Hret E). rewrite E, Hret in *. cbn in Hlen. rewrite app_nil_r in Hq. split; [lia|]. by rewrite Ha, Hq.
  - intros E. destruct (pm_queue s') as [|ev q] eqn:Eq.
    + exists (Finished None). eexists. split; [done|]. by apply pump_finish.
    + exists Consumed. eexists. split; [done|]. by apply (pump_consume _ ev q).
Qed.
End pump_properties.

(** ** Concrete runs *)
#[local] Existing Instance example_tables.
#[local] Existing Instance example_host.
#[local] Existing Instance example_disk.
#[local] Existing Instance example_encoder.

Lemma pump_accounts_witness :
  let ag := example_agent example_engine in
  let ev := example_setuid 42 in
  let s := mkPump ag [ev] true false noMetrics in
  exists processed dropped,
    [ev] ≡ₚ (processed ++ [ev]) ++ dropped /\ pm_agent s = drops (length dropped) (process_all ag processed) /\ dropped = [].
Proof.
  intros ag ev s.
  destruct (pump_accounts ag noMetrics [Handed ev; Ended] s) as (p & d & Hall & _ & Ha & _ & Hd & _).
  - split; z_compute.
  - apply (pump_more _ [Handed ev] (hand (start ag noMetrics) ev) Ended); [|by apply (pump_end (hand (start ag noMetrics) ev))].
    apply (pump_more _ [] (start ag noMetrics) (Handed ev)); [apply pump_none|by apply pump_hand].
  - exists p, d. split_and!; [exact Hall|exact Ha|]. apply Hd. unfold handed. cbn. unfold eventQueueDepth. lia.
Defined.

Lemma pump_drains_witness :
  let ag := example_agent example_engine in
  let ev := example_setuid 42 in
  let s := mkPump ag [ev] true false noMetrics in
  exists s', pump_run s [Consumed; Finished None] s' /\ pm_agent s' = process_all ag [ev].
Proof.
  intros ag ev s.
  set (s1 := mkPump (process ag ev) [] true false noMetrics).
  set (s2 := mkPump (process ag ev) [] true true (refresh false (process ag ev) None (f_of_int (-1)))).
  assert (Hrun : pump_run s [Consumed; Finished None] s2).
  { apply (pump_more s [Consumed] s1 (Finished None)); [|exact (pump_finish s1 None eq_refl eq_refl eq_refl)].
    exact (pump_more s [] s Consumed s1 (pump_none s) (pump_consume s ev [] eq_refl eq_refl)). }
  exists s2. split; [exact Hrun|].
  destruct (pump_drains s [Consumed; Finished None] s2 eq_refl eq_refl Hrun) as (_ & Hret & _). by apply Hret.
Defined.
