(* ===== verification/Cli.v ===== *)
(** * The command line and the replay loop ([cmd/krnlsentry/main.go]) *)

From S2P Require Import Prelude GoStrings GoText GoTime GoFloat Syscalls Events Alerts Tracker Dedup Config Storyline Engine Record Sinks.
From S2P Require Import Console Term Dashboard Panels PidFilter EngineProps Replay Agent Pump.

(** [type config struct]: the parsed flags. *)
Record config := mkConfigFlags {
  fl_pid : Z;
  fl_outputPath : string;
  fl_rules : string;
  fl_verbose : bool;
  fl_debugPath : string;
  fl_minSeverity : string;
  fl_window : Z;
  fl_noColor : bool;
  fl_forceColor : bool;
  fl_ignoreLoop : bool;
  fl_ignoreSelf : bool;
  fl_statsInterval : Z;
  fl_showVersion : bool;
  fl_listRules : bool;
  fl_replayPath : string;
  fl_replaySpeed : float64;
  fl_dashboard : bool;
  fl_dedupWindow : Z;
  fl_noStoryline : bool;
  fl_chainThreshold : Z;
  fl_chainWindow : Z
}.

(** The values the flags have when they are not given. *)
Definition default_flags : config :=
  mkConfigFlags 0 "./alerts.jsonl" "" false "./debug.jsonl" "LOW" (2 * Second) false false false false 0 false false
    "" (f_of_int 0) false (5 * Second) false 3 (10 * Minute).

(** [splitRules] *)
Definition splitRules (s : string) : list string :=
  if TrimSpace s ==s "" then []
  else filter (fun p => p <> "") (TrimSpace <$> Split s ",").

Definition replaying (cfg : config) : bool := negb (fl_replayPath cfg ==s "").
Definition displayMode (cfg : config) : string := if negb (fl_replayPath cfg ==s "") then "replay" else "live".
Definition scopeLabel (pid : Z) : string :=
  if pid >? 0 then "PID " +:+ fmt_d pid +:+ " + descendants" else "system-wide".

Section cli.
Context `{UnicodeTables} `{Host} `{ProcFS}.

(** The engine's configuration as [run] fills it in. *)
Definition engine_config (cfg : config) : Config :=
  let d := DefaultConfig in
  mkConfig (fl_window cfg) (cfg_DebuggerComms d) (fl_ignoreLoop cfg) (fl_ignoreSelf cfg) (cfg_Stat d) (fl_dedupWindow cfg)
    (mkStorylineConfig (negb (fl_noStoryline cfg)) (fl_chainThreshold cfg) (fl_chainWindow cfg)
       (if replaying cfg then sc_Lookup (cfg_Storyline d) else Some lookupProc))
    (if replaying cfg then 0 else cfg_SelfPID d).

(** [enabledRuleNames] *)
Definition enabledRuleNames (e : Engine) : list string :=
  (rule_Name <$> en_rules e) ++ (if Correlating e then [RuleNameAttackChain] else []).

(** The filter of a replay, which does not look at [/proc]. *)
Definition replay_filter (cfg : config) : option pidFilter :=
  if fl_pid cfg >? 0 then Some (mkPidFilter (u32 (fl_pid cfg)) {[ u32 (fl_pid cfg) ]}) else None.

(** The display's options. *)
Definition dashboard_options (cfg : config) (e : Engine) (version : string) (minSeverity : Severity) : DashboardOptions :=
  mkDashboardOptions version (displayMode cfg) (scopeLabel (fl_pid cfg)) (fl_replayPath cfg) (fl_outputPath cfg)
    (enabledRuleNames e) minSeverity (negb (fl_noColor cfg)) 0 0 0.

(** [printRules] *)
Definition technique_line (id name : string) : string := "      " +:+ pad_right 12 id +:+ " " +:+ name +:+ nl.
Definition printRules : string :=
  "Available detection rules:" +:+ nl +:+ nl
  +:+ foldr (fun r acc => "  " +:+ rule_Name r +:+ nl +:+ "      " +:+ rule_Description r +:+ nl
                +:+ foldr (fun t acc => technique_line (tech_ID t) (tech_Name t) +:+ acc) "" (rule_Techniques r)
                +:+ nl +:+ acc) "" AllRules
  +:+ "  " +:+ RuleNameAttackChain +:+ nl
  +:+ "      Correlates alerts from one process tree; raised when they span" +:+ nl
  +:+ "      --chain-threshold distinct ATT&CK tactics (disable with --no-storyline)" +:+ nl
  +:+ foldr (fun t acc => technique_line (tac_ID t) (tac_Name t) +:+ acc) "" tactic_chips
  +:+ nl.

(** [printSummary]: the text, and the number of lost events it warns of, if any. *)
Definition summary_line (label : string) (n : Z) (note : string) : string := "  " +:+ label +:+ " : " +:+ fmt_d n +:+ note +:+ nl.
Definition printSummary (stats : option (Z * Z)) (e : Engine) (c : counters) : string * option Z :=
  let es := Engine_Stats e in
  let text :=
    nl +:+ "── summary ─────────────────────────────" +:+ nl
    +:+ summary_line "events observed" (c_observed c) ""
    +:+ summary_line "alerts raised  " (c_alerts c) ""
    +:+ summary_line "rules enabled  " (Z.of_nat (length (en_rules e))) ""
    +:+ (if es_Suppressed es >? 0 then summary_line "alerts folded  " (es_Suppressed es) "  (duplicates within --dedup-window)" else "")
    +:+ (if Correlating e then summary_line "attack chains  " (es_AttackChains es) "" else "")
    +:+ (match stats with
         | Some (ev, dropped) =>
             summary_line "kernel events  " ev ""
             +:+ (if dropped >? 0 then summary_line "kernel drops   " dropped "  (ring buffer full)" else "")
         | None => ""
         end)
    +:+ (if c_queueDropped c >? 0 then summary_line "queue drops    " (c_queueDropped c) "  (detection engine fell behind)" else "")
    +:+ (if c_writeErrors c >? 0 then summary_line "write errors   " (c_writeErrors c) "" else "")
    +:+ "────────────────────────────────────────" +:+ nl in
  let totalDropped := match stats with Some (_, dropped) => u64 (c_queueDropped c + dropped) | None => c_queueDropped c end in
  (text, if totalDropped >? 0 then Some totalDropped else None).
End cli.

(** ** Pacing a replay *)

(** [type pacer struct] *)
Record pacer := mkPacer { pc_speed : float64; pc_prev : Z; pc_first : bool }.
Definition newPacer (speed : float64) : pacer := mkPacer speed 0 true.
Definition maxPacedGap : Z := 2 * Second.

(** Converting a float that no [int64] holds is up to the machine. *)
Class FloatConv := { f_out_of_range : float64 -> Z; f_out_of_range_i64 x : is_i64 (f_out_of_range x) }.
Definition f_i64 `{FloatConv} (x : float64) : Z :=
  match x with
  | S754_zero _ => 0
  | S754_finite _ _ _ => let z := f_int x in if (- 2 ^ 63 <=? z) && (z <? 2 ^ 63) then z else f_out_of_range x
  | _ => f_out_of_range x
  end.

(** Whether the context is done when [wait] first looks, and whether it is before
    the timer fires. *)
Record interruption := mkInterruption { in_before : bool; in_during : bool }.

(** [pacer.wait]: whether the run was interrupted, the pause it asked the timer
    for, if any, and the pacer. *)
Definition wait `{FloatConv} (p : pacer) (ctx : interruption) (monotonicNS : Z) : bool * option Z * pacer :=
  if in_before ctx then (true, None, p)
  else if f_le (pc_speed p) (f_of_int 0) then (false, None, p)
  else if pc_first p then (false, None, mkPacer (pc_speed p) monotonicNS false)
  else if monotonicNS >? pc_prev p then
    let gap := f_i64 (f_div (f_of_int (u64 (monotonicNS - pc_prev p))) (pc_speed p)) in
    let gap := if gap >? maxPacedGap then maxPacedGap else gap in
    if in_during ctx then (true, Some gap, p) else (false, Some gap, mkPacer (pc_speed p) monotonicNS (pc_first p))
  else (false, None, mkPacer (pc_speed p) monotonicNS (pc_first p)).

Definition progressOf (read total : Z) : float64 :=
  if total <=? 0 then f_of_int (-1)
  else if read >=? total then f_of_int 1
  else f_div (f_of_int read) (f_of_int total).

(** [type countingReader struct] and its [Read], over a reader that returns the
    bytes read, an error and itself. *)
Record countingReader (R : Type) := mkCountingReader { cr_r : R; cr_n : Z }.
Arguments mkCountingReader {R}.
Arguments cr_r {R}.
Arguments cr_n {R}.
Definition countingReader_Read {R E} (read : R -> nat -> string * option E * R) (c : countingReader R) (len : nat)
    : string * option E * countingReader R :=
  let '(p, err, r) := read (cr_r c) len in (p, err, mkCountingReader r (i64 (cr_n c + slen p))).

(** The bytes of a sequence of reads, whatever errors come with them. *)
Fixpoint read_all {R E} (read : R -> nat -> string * option E * R) (r : R) (lens : list nat) : string * R :=
  match lens with
  | [] => ("", r)
  | len :: lens => let '(p, _, r) := read r len in let '(rest, r) := read_all read r lens in (p +:+ rest, r)
  end.

(** The count is the number of bytes handed on, so the progress of a replay is
    the share of the capture read. *)
Lemma countingReader_counts {R E} (read : R -> nat -> string * option E * R) r n lens :
  0 <= n -> n + slen (fst (read_all read r lens)) < 2 ^ 63 ->
  let '(text, c) := read_all (countingReader_Read read) (mkCountingReader r n) lens in
  text = fst (read_all read r lens) /\ cr_n c = n + slen text.
Proof.
  revert r n. induction lens as [|len lens IH]; intros r n Hn Hsmall; [cbn; split; [done|unfold slen; cbn; lia]|].
  cbn [read_all] in *. unfold countingReader_Read at 1. cbn [cr_r cr_n]. destruct (read r len) as [[p err] r1].
  specialize (IH r1 (i64 (n + slen p))).
  destruct (read_all read r1 lens) as [rest r2]. destruct (read_all (countingReader_Read read) _ lens) as [text c].
  cbn [fst] in *. rewrite slen_app in Hsmall. assert (0 <= slen p /\ 0 <= slen rest) by (unfold slen; lia).
  rewrite i64_small in IH by (unfold is_i64; lia). destruct IH as [-> Hc]; [lia|lia|].
  split; [done|]. rewrite Hc, slen_app. lia.
Qed.

(** No pause is longer than the cap, whatever the capture and the speed say. *)
Lemma wait_bounded `{FloatConv} p ctx ts : from_option (fun gap => gap <= maxPacedGap) True (snd (fst (wait p ctx ts))).
Proof.
  assert (Hcap : forall g, (if g >? maxPacedGap then maxPacedGap else g) <= maxPacedGap)
    by (intros g; destruct (Z.gtb_spec g maxPacedGap); lia).
  unfold wait. destruct (in_before ctx); [done|]. destruct (f_le _ _); [done|]. destruct (pc_first p); [done|].
  destruct (ts >? pc_prev p); [|done]. destruct (in_during ctx); apply Hcap.
Qed.

(** ** [replay] *)
Section replay.
Context `{UnicodeTables} `{Host} `{Disk} `{Encoder} `{RecordDecoder} `{FloatConv}.

(** The state the callback works on; [rp_index] counts its calls. *)
Record replay_state := mkReplayState {
  rp_pacer : pacer;
  rp_agent : Agent;
  rp_snap : Metrics;
  rp_slept : list Z;
  rp_index : nat
}.

(** The callback: at its [i]-th call the context is as [ctx i] says, and the
    reader has read [position i] bytes of a file of [total]. *)
Definition replay_callback (ctx : nat -> interruption) (position : nat -> Z) (total : Z) (st : replay_state) (ev : Event)
    : replay_state * option () :=
  let i := rp_index st in
  let '(interrupted, slept, p) := wait (rp_pacer st) (ctx i) (ev_Timestamp ev) in
  let slept := rp_slept st ++ option_list slept in
  if interrupted then (mkReplayState p (rp_agent st) (rp_snap st) slept (S i), Some ())
  else
    let ag := process (rp_agent st) ev in
    (mkReplayState p ag (refresh true ag None (progressOf (position i) total)) slept (S i), None).

Inductive replay_error := OpenCapture | ReplayError (e : read_error ()).

(** [replay]: the error it returns, the agent, the last snapshot, and whether
    the warning about an empty replay is logged; [file] is [None] if the capture
    cannot be opened. *)
Definition replay (file : option Reader) (speed : float64) (ctx : nat -> interruption) (position : nat -> Z) (total : Z)
    (ag : Agent) (snap : Metrics) : option replay_error * Agent * Metrics * bool :=
  match file with
  | None => (Some OpenCapture, ag, snap, false)
  | Some r =>
      let '(st, err) := ReadRecords (replay_callback ctx position total) r (mkReplayState (newPacer speed) ag snap [] 0) in
      let ag := rp_agent st in
      match err with
      | Some (CallbackError _) => (None, ag, rp_snap st, false)
      | Some err => (Some (ReplayError err), ag, rp_snap st, false)
      | None => (None, ag, refresh true ag None (f_of_int 1), c_observed (ag_counters ag) =? 0)
      end
  end.

Lemma feed_replay ctx position total evs st :
  exists k, let r := Record.feed (replay_callback ctx position total) st evs in
    (k <= length evs)%nat /\ rp_agent (fst r) = process_all (rp_agent st) (take k evs)
    /\ (snd r = None -> k = length evs)
    /\ ((forall i, in_before (ctx i) = false /\ in_during (ctx i) = false) -> snd r = None).
Proof.
  revert st. induction evs as [|ev evs IH]; intros st; [exists 0%nat; cbn; split_and!; done || lia|].
  cbn [Record.feed]. destruct (replay_callback ctx position total st ev) as [st1 e1] eqn:Estep. unfold replay_callback in Estep.
  destruct (wait (rp_pacer st) (ctx (rp_index st)) (ev_Timestamp ev)) as [[interrupted slept] p] eqn:Ew.
  destruct interrupted; injection Estep as <- <-.
  - exists 0%nat. cbn. split_and!; [lia|done|done|]. intros Hno. exfalso. destruct (Hno (rp_index st)) as [Hb Hd].
    unfold wait in Ew. rewrite Hb, Hd in Ew. repeat case_match; congruence.
  - match goal with |- context [Record.feed _ ?st1 evs] => destruct (IH st1) as (k & Hk & Ha & Hn & Hno) end.
    exists (S k). cbn [rp_agent] in Ha. split_and!; [cbn; lia|exact Ha| |exact Hno]. intros E. cbn. by rewrite Hn.
Qed.

(** A replay puts the capture through the agent's own pipeline.  Replaying
    the capture of any events the agent decodes, cut short anywhere in its last
    line, leaves the agent as processing the events would, one after the other
    and unpaced: all of them, and the display shows the replay complete, if the
    run is not interrupted; and if it is, a first part of them, which is no
    failure either. *)
Lemma replay_capture evs lines partial speed ctx position total ag snap :
  Forall capturable evs ->
  Forall2 (fun l ev => plain_line l /\ ~ blank l /\ Unmarshal l = Some (json_image (NewRecord ev))) lines evs ->
  no_byte newline partial -> slen partial < maxRecordLine ->
  (partial = "" \/ Unmarshal (dropCR partial) = None) ->
  let '(err, ag', snap', _) :=
    replay (Some (mkReader (unlines lines +:+ partial) false)) speed ctx position total ag snap in
  err = None
  /\ (exists k, (k <= length evs)%nat /\ ag' = process_all ag (take k (captured <$> evs)))
  /\ ((forall i, in_before (ctx i) = false /\ in_during (ctx i) = false) ->
        ag' = process_all ag (captured <$> evs) /\ snap' = refresh true ag' None (f_of_int 1)).
Proof.
  intros Hc Hl Hp Hlen Hpart. unfold replay. rewrite (ReadRecords_capture _ evs lines partial) by done.
  destruct (feed_replay ctx position total (captured <$> evs) (mkReplayState (newPacer speed) ag snap [] 0)) as (k & Hk & Ha & Hn & Hno).
  destruct (Record.feed _ _ _) as [st e]. unfold reported. cbn [fst snd rp_agent] in *. rewrite length_fmap in Hk.
  destruct e as [e|]; cbn [fmap option_fmap option_map]; (split_and!; [done|by exists k|]).
  - intros Hi. by specialize (Hno Hi).
  - intros _. rewrite (Hn eq_refl), take_ge in Ha by lia. split; [done|]. by rewrite Ha.
Qed.
End replay.

(** ** A concrete replay *)
#[local] Existing Instance example_tables.
#[local] Existing Instance example_host.
#[local] Existing Instance example_disk.
#[local] Existing Instance example_encoder.
#[local] Existing Instance example_setuid_decoder.

(** Out of range, amd64 gives the least integer. *)
Definition example_conv : FloatConv.
Proof. refine {| f_out_of_range := fun _ => - 2 ^ 63 |}. intros _. split; z_compute. Defined.
#[local] Existing Instance example_conv.

(** [--rules=,] names no rule, and so enables them all. *)
Example comma_enables_all : splitRules "," = [] /\ splitRules " reverse-shell , ," = ["reverse-shell"].
Proof. by_compute. Qed.
