(* ===== verification/Flags.v ===== *)
(** * The command-line flags ([cmd/krnlsentry/main.go], [parseFlags])

    The flags the agent defines, over the model of the [flag] package, and the
    usage text. *)

From S2P Require Import Prelude GoStrings GoText GoTime GoFloat GoFlag Syscalls Alerts Config Engine Dashboard Cli.

(** ** Where each flag is stored *)

Definition put_pid (c : config) v : config :=
  mkConfigFlags v (fl_outputPath c) (fl_rules c) (fl_verbose c) (fl_debugPath c) (fl_minSeverity c) (fl_window c) (fl_noColor c) (fl_forceColor c) (fl_ignoreLoop c) (fl_ignoreSelf c) (fl_statsInterval c) (fl_showVersion c) (fl_listRules c) (fl_replayPath c) (fl_replaySpeed c) (fl_dashboard c) (fl_dedupWindow c) (fl_noStoryline c) (fl_chainThreshold c) (fl_chainWindow c).
Definition put_outputPath (c : config) v : config :=
  mkConfigFlags (fl_pid c) v (fl_rules c) (fl_verbose c) (fl_debugPath c) (fl_minSeverity c) (fl_window c) (fl_noColor c) (fl_forceColor c) (fl_ignoreLoop c) (fl_ignoreSelf c) (fl_statsInterval c) (fl_showVersion c) (fl_listRules c) (fl_replayPath c) (fl_replaySpeed c) (fl_dashboard c) (fl_dedupWindow c) (fl_noStoryline c) (fl_chainThreshold c) (fl_chainWindow c).
Definition put_rules (c : config) v : config :=
  mkConfigFlags (fl_pid c) (fl_outputPath c) v (fl_verbose c) (fl_debugPath c) (fl_minSeverity c) (fl_window c) (fl_noColor c) (fl_forceColor c) (fl_ignoreLoop c) (fl_ignoreSelf c) (fl_statsInterval c) (fl_showVersion c) (fl_listRules c) (fl_replayPath c) (fl_replaySpeed c) (fl_dashboard c) (fl_dedupWindow c) (fl_noStoryline c) (fl_chainThreshold c) (fl_chainWindow c).
Definition put_verbose (c : config) v : config :=
  mkConfigFlags (fl_pid c) (fl_outputPath c) (fl_rules c) v (fl_debugPath c) (fl_minSeverity c) (fl_window c) (fl_noColor c) (fl_forceColor c) (fl_ignoreLoop c) (fl_ignoreSelf c) (fl_statsInterval c) (fl_showVersion c) (fl_listRules c) (fl_replayPath c) (fl_replaySpeed c) (fl_dashboard c) (fl_dedupWindow c) (fl_noStoryline c) (fl_chainThreshold c) (fl_chainWindow c).
Definition put_debugPath (c : config) v : config :=
  mkConfigFlags (fl_pid c) (fl_outputPath c) (fl_rules c) (fl_verbose c) v (fl_minSeverity c) (fl_window c) (fl_noColor c) (fl_forceColor c) (fl_ignoreLoop c) (fl_ignoreSelf c) (fl_statsInterval c) (fl_showVersion c) (fl_listRules c) (fl_replayPath c) (fl_replaySpeed c) (fl_dashboard c) (fl_dedupWindow c) (fl_noStoryline c) (fl_chainThreshold c) (fl_chainWindow c).
Definition put_minSeverity (c : config) v : config :=
  mkConfigFlags (fl_pid c) (fl_outputPath c) (fl_rules c) (fl_verbose c) (fl_debugPath c) v (fl_window c) (fl_noColor c) (fl_forceColor c) (fl_ignoreLoop c) (fl_ignoreSelf c) (fl_statsInterval c) (fl_showVersion c) (fl_listRules c) (fl_replayPath c) (fl_replaySpeed c) (fl_dashboard c) (fl_dedupWindow c) (fl_noStoryline c) (fl_chainThreshold c) (fl_chainWindow c).
Definition put_window (c : config) v : config :=
  mkConfigFlags (fl_pid c) (fl_outputPath c) (fl_rules c) (fl_verbose c) (fl_debugPath c) (fl_minSeverity c) v (fl_noColor c) (fl_forceColor c) (fl_ignoreLoop c) (fl_ignoreSelf c) (fl_statsInterval c) (fl_showVersion c) (fl_listRules c) (fl_replayPath c) (fl_replaySpeed c) (fl_dashboard c) (fl_dedupWindow c) (fl_noStoryline c) (fl_chainThreshold c) (fl_chainWindow c).
Definition put_noColor (c : config) v : config :=
  mkConfigFlags (fl_pid c) (fl_outputPath c) (fl_rules c) (fl_verbose c) (fl_debugPath c) (fl_minSeverity c) (fl_window c) v (fl_forceColor c) (fl_ignoreLoop c) (fl_ignoreSelf c) (fl_statsInterval c) (fl_showVersion c) (fl_listRules c) (fl_replayPath c) (fl_replaySpeed c) (fl_dashboard c) (fl_dedupWindow c) (fl_noStoryline c) (fl_chainThreshold c) (fl_chainWindow c).
Definition put_forceColor (c : config) v : config :=
  mkConfigFlags (fl_pid c) (fl_outputPath c) (fl_rules c) (fl_verbose c) (fl_debugPath c) (fl_minSeverity c) (fl_window c) (fl_noColor c) v (fl_ignoreLoop c) (fl_ignoreSelf c) (fl_statsInterval c) (fl_showVersion c) (fl_listRules c) (fl_replayPath c) (fl_replaySpeed c) (fl_dashboard c) (fl_dedupWindow c) (fl_noStoryline c) (fl_chainThreshold c) (fl_chainWindow c).
Definition put_ignoreLoop (c : config) v : config :=
  mkConfigFlags (fl_pid c) (fl_outputPath c) (fl_rules c) (fl_verbose c) (fl_debugPath c) (fl_minSeverity c) (fl_window c) (fl_noColor c) (fl_forceColor c) v (fl_ignoreSelf c) (fl_statsInterval c) (fl_showVersion c) (fl_listRules c) (fl_replayPath c) (fl_replaySpeed c) (fl_dashboard c) (fl_dedupWindow c) (fl_noStoryline c) (fl_chainThreshold c) (fl_chainWindow c).
Definition put_ignoreSelf (c : config) v : config :=
  mkConfigFlags (fl_pid c) (fl_outputPath c) (fl_rules c) (fl_verbose c) (fl_debugPath c) (fl_minSeverity c) (fl_window c) (fl_noColor c) (fl_forceColor c) (fl_ignoreLoop c) v (fl_statsInterval c) (fl_showVersion c) (fl_listRules c) (fl_replayPath c) (fl_replaySpeed c) (fl_dashboard c) (fl_dedupWindow c) (fl_noStoryline c) (fl_chainThreshold c) (fl_chainWindow c).
Definition put_statsInterval (c : config) v : config :=
  mkConfigFlags (fl_pid c) (fl_outputPath c) (fl_rules c) (fl_verbose c) (fl_debugPath c) (fl_minSeverity c) (fl_window c) (fl_noColor c) (fl_forceColor c) (fl_ignoreLoop c) (fl_ignoreSelf c) v (fl_showVersion c) (fl_listRules c) (fl_replayPath c) (fl_replaySpeed c) (fl_dashboard c) (fl_dedupWindow c) (fl_noStoryline c) (fl_chainThreshold c) (fl_chainWindow c).
Definition put_showVersion (c : config) v : config :=
  mkConfigFlags (fl_pid c) (fl_outputPath c) (fl_rules c) (fl_verbose c) (fl_debugPath c) (fl_minSeverity c) (fl_window c) (fl_noColor c) (fl_forceColor c) (fl_ignoreLoop c) (fl_ignoreSelf c) (fl_statsInterval c) v (fl_listRules c) (fl_replayPath c) (fl_replaySpeed c) (fl_dashboard c) (fl_dedupWindow c) (fl_noStoryline c) (fl_chainThreshold c) (fl_chainWindow c).
Definition put_listRules (c : config) v : config :=
  mkConfigFlags (fl_pid c) (fl_outputPath c) (fl_rules c) (fl_verbose c) (fl_debugPath c) (fl_minSeverity c) (fl_window c) (fl_noColor c) (fl_forceColor c) (fl_ignoreLoop c) (fl_ignoreSelf c) (fl_statsInterval c) (fl_showVersion c) v (fl_replayPath c) (fl_replaySpeed c) (fl_dashboard c) (fl_dedupWindow c) (fl_noStoryline c) (fl_chainThreshold c) (fl_chainWindow c).
Definition put_replayPath (c : config) v : config :=
  mkConfigFlags (fl_pid c) (fl_outputPath c) (fl_rules c) (fl_verbose c) (fl_debugPath c) (fl_minSeverity c) (fl_window c) (fl_noColor c) (fl_forceColor c) (fl_ignoreLoop c) (fl_ignoreSelf c) (fl_statsInterval c) (fl_showVersion c) (fl_listRules c) v (fl_replaySpeed c) (fl_dashboard c) (fl_dedupWindow c) (fl_noStoryline c) (fl_chainThreshold c) (fl_chainWindow c).
Definition put_replaySpeed (c : config) v : config :=
  mkConfigFlags (fl_pid c) (fl_outputPath c) (fl_rules c) (fl_verbose c) (fl_debugPath c) (fl_minSeverity c) (fl_window c) (fl_noColor c) (fl_forceColor c) (fl_ignoreLoop c) (fl_ignoreSelf c) (fl_statsInterval c) (fl_showVersion c) (fl_listRules c) (fl_replayPath c) v (fl_dashboard c) (fl_dedupWindow c) (fl_noStoryline c) (fl_chainThreshold c) (fl_chainWindow c).
Definition put_dashboard (c : config) v : config :=
  mkConfigFlags (fl_pid c) (fl_outputPath c) (fl_rules c) (fl_verbose c) (fl_debugPath c) (fl_minSeverity c) (fl_window c) (fl_noColor c) (fl_forceColor c) (fl_ignoreLoop c) (fl_ignoreSelf c) (fl_statsInterval c) (fl_showVersion c) (fl_listRules c) (fl_replayPath c) (fl_replaySpeed c) v (fl_dedupWindow c) (fl_noStoryline c) (fl_chainThreshold c) (fl_chainWindow c).
Definition put_dedupWindow (c : config) v : config :=
  mkConfigFlags (fl_pid c) (fl_outputPath c) (fl_rules c) (fl_verbose c) (fl_debugPath c) (fl_minSeverity c) (fl_window c) (fl_noColor c) (fl_forceColor c) (fl_ignoreLoop c) (fl_ignoreSelf c) (fl_statsInterval c) (fl_showVersion c) (fl_listRules c) (fl_replayPath c) (fl_replaySpeed c) (fl_dashboard c) v (fl_noStoryline c) (fl_chainThreshold c) (fl_chainWindow c).
Definition put_noStoryline (c : config) v : config :=
  mkConfigFlags (fl_pid c) (fl_outputPath c) (fl_rules c) (fl_verbose c) (fl_debugPath c) (fl_minSeverity c) (fl_window c) (fl_noColor c) (fl_forceColor c) (fl_ignoreLoop c) (fl_ignoreSelf c) (fl_statsInterval c) (fl_showVersion c) (fl_listRules c) (fl_replayPath c) (fl_replaySpeed c) (fl_dashboard c) (fl_dedupWindow c) v (fl_chainThreshold c) (fl_chainWindow c).
Definition put_chainThreshold (c : config) v : config :=
  mkConfigFlags (fl_pid c) (fl_outputPath c) (fl_rules c) (fl_verbose c) (fl_debugPath c) (fl_minSeverity c) (fl_window c) (fl_noColor c) (fl_forceColor c) (fl_ignoreLoop c) (fl_ignoreSelf c) (fl_statsInterval c) (fl_showVersion c) (fl_listRules c) (fl_replayPath c) (fl_replaySpeed c) (fl_dashboard c) (fl_dedupWindow c) (fl_noStoryline c) v (fl_chainWindow c).
Definition put_chainWindow (c : config) v : config :=
  mkConfigFlags (fl_pid c) (fl_outputPath c) (fl_rules c) (fl_verbose c) (fl_debugPath c) (fl_minSeverity c) (fl_window c) (fl_noColor c) (fl_forceColor c) (fl_ignoreLoop c) (fl_ignoreSelf c) (fl_statsInterval c) (fl_showVersion c) (fl_listRules c) (fl_replayPath c) (fl_replaySpeed c) (fl_dashboard c) (fl_dedupWindow c) (fl_noStoryline c) (fl_chainThreshold c) v.

(** ** [parseFlags] *)
Section flags.
Context `{UnicodeTables} `{FloatText}.

(** One definition of a flag per [Var] call: its name and where its parsed value
    goes. *)
Definition var {V} (name : string) (bool : bool) (parse : string -> option V) (put : config -> V -> config) : flag config :=
  mkFlag name bool (fun s c => put c <$> parse s).

Definition flag_set_vars : list (flag config) :=
  [var "pid" false ParseInt0 put_pid;
   var "output" false Some put_outputPath;
   var "rules" false Some put_rules;
   var "verbose" true ParseBool put_verbose;
   var "debug-output" false Some put_debugPath;
   var "min-severity" false Some put_minSeverity;
   var "window" false ParseDuration put_window;
   var "no-color" true ParseBool put_noColor;
   var "color" true ParseBool put_forceColor;
   var "ignore-loopback" true ParseBool put_ignoreLoop;
   var "ignore-self-proc" true ParseBool put_ignoreSelf;
   var "stats-interval" false ParseDuration put_statsInterval;
   var "replay" false Some put_replayPath;
   var "replay-speed" false ParseFloat put_replaySpeed;
   var "dashboard" true ParseBool put_dashboard;
   var "dedup-window" false ParseDuration put_dedupWindow;
   var "no-storyline" true ParseBool put_noStoryline;
   var "chain-threshold" false ParseInt0 put_chainThreshold;
   var "chain-window" false ParseDuration put_chainWindow;
   var "version" true ParseBool put_showVersion;
   var "list-rules" true ParseBool put_listRules].

(** The flags as set by the arguments; an error is printed by the package, with
    the usage text, and returned as [errSilent]. *)
Definition parseFlags (args : list string) : flag_error + config :=
  match Parse flag_set_vars args default_flags with
  | inl e => inl e
  | inr (cfg, _) => inr cfg
  end.

(** [fs.Usage]; what [PrintDefaults] writes is the package's. *)
Definition rule_usage (name description : string) : string := "  " +:+ pad_right 24 name +:+ " " +:+ description +:+ nl.
Definition Usage (defaults : string) : string :=
  "krnlsentry — eBPF syscall monitoring and threat detection" +:+ nl +:+ nl
  +:+ "Usage:" +:+ nl +:+ "  krnlsentry [flags]" +:+ nl +:+ nl +:+ "Flags:" +:+ nl
  +:+ defaults
  +:+ nl +:+ "Rules:" +:+ nl
  +:+ foldr (fun r acc => rule_usage (rule_Name r) (rule_Description r) +:+ acc) "" AllRules
  +:+ rule_usage RuleNameAttackChain "Correlates alerts across a process tree into an ATT&CK kill chain"
  +:+ nl +:+ "Live monitoring requires root, or CAP_BPF and CAP_PERFMON." +:+ nl.

(** ** Specification: a configuration written as arguments *)
Definition setting (name value : string) : string := "--" +:+ name +:+ "=" +:+ value.
Definition duration_text (d : Z) : string := fmt_d d +:+ "ns".

Definition render (c : config) : list string :=
  [setting "pid" (fmt_d (fl_pid c));
   setting "output" ((fl_outputPath c));
   setting "rules" ((fl_rules c));
   setting "verbose" (FormatBool (fl_verbose c));
   setting "debug-output" ((fl_debugPath c));
   setting "min-severity" ((fl_minSeverity c));
   setting "window" (duration_text (fl_window c));
   setting "no-color" (FormatBool (fl_noColor c));
   setting "color" (FormatBool (fl_forceColor c));
   setting "ignore-loopback" (FormatBool (fl_ignoreLoop c));
   setting "ignore-self-proc" (FormatBool (fl_ignoreSelf c));
   setting "stats-interval" (duration_text (fl_statsInterval c));
   setting "replay" ((fl_replayPath c));
   setting "replay-speed" (FormatFloat (fl_replaySpeed c));
   setting "dashboard" (FormatBool (fl_dashboard c));
   setting "dedup-window" (duration_text (fl_dedupWindow c));
   setting "no-storyline" (FormatBool (fl_noStoryline c));
   setting "chain-threshold" (fmt_d (fl_chainThreshold c));
   setting "chain-window" (duration_text (fl_chainWindow c));
   setting "version" (FormatBool (fl_showVersion c));
   setting "list-rules" (FormatBool (fl_listRules c))].
End flags.

(** ** Lemmas *)
Section facts.
Context `{FloatText}.

(** Setting a flag with a value its parser reads. *)
Lemma Parse_var {V} name b (parse : string -> option V) put text v rest c :
  flag_named name = true -> lookup_flag flag_set_vars name = Some (var name b parse put) -> parse text = Some v ->
  Parse flag_set_vars (setting name text :: rest) c = Parse flag_set_vars rest (put c v).
Proof.
  intros Hn Hl Hp. apply (Parse_setting flag_set_vars (var name b parse put)); [done|done|]. cbn. by rewrite Hp.
Qed.

(** Values the fields can have. *)
Record config_fits (c : config) : Prop := {
  cf_pid : is_i64 (fl_pid c);
  cf_threshold : is_i64 (fl_chainThreshold c);
  cf_window : is_i64 (fl_window c);
  cf_stats : is_i64 (fl_statsInterval c);
  cf_dedup : is_i64 (fl_dedupWindow c);
  cf_chain : is_i64 (fl_chainWindow c);
  cf_speed : ParseFloat (FormatFloat (fl_replaySpeed c)) = Some (fl_replaySpeed c)
}.

(** A tail of arguments that no flag begins. *)
Definition not_flags (tail : list string) : Prop := match tail with [] => True | p :: _ => classify p = Positional end.

Lemma Parse_not_flags tail c : not_flags tail -> Parse flag_set_vars tail c = inr (c, tail).
Proof. destruct tail as [|p tail]; [done|]. apply Parse_positional. Qed.

Lemma ParseDuration_text d : is_i64 d -> ParseDuration (duration_text d) = Some d.
Proof. apply ParseDuration_ns. Qed.

Lemma Parse_render c tail c0 :
  config_fits c -> not_flags tail -> Parse flag_set_vars (render c ++ tail) c0 = inr (c, tail).
Proof.
  intros [] Ht. unfold render. cbn [app].
  repeat (erewrite Parse_var;
    [|reflexivity|reflexivity|first [reflexivity | by apply ParseInt0_fmt_d | apply ParseBool_FormatBool | by apply ParseDuration_text | eassumption]]).
  rewrite Parse_not_flags by done. by destruct c.
Qed.
End facts.

(** ** Properties *)

(** C34: the command line says what the agent is configured as, up to the first
    argument that is not a flag.  Every configuration can be written as
    arguments that [parseFlags] reads back, each of the twenty-one flags into
    its own field; from the first argument on that is not a flag, the rest is
    ignored, flags and all, without an error. *)
Theorem parseFlags_roundtrip `{FloatText} c tail :
  config_fits c -> not_flags tail -> parseFlags (render c ++ tail) = inr c.
Proof. intros Hc Ht. unfold parseFlags. by rewrite Parse_render. Qed.

(** A float text for the values the example uses. *)
Definition example_float_text : FloatText := {|
  ParseFloat := fun s => if s ==s "0" then Some (f_of_int 0) else None;
  FormatFloat := fun _ => "0"
|}.

(** The stray [true] hides the scope: the agent watches the whole system. *)
Lemma parseFlags_roundtrip_witness :
  @parseFlags example_float_text (@render example_float_text default_flags ++ ["true"; "--pid=42"]) = inr default_flags
  /\ fl_pid default_flags = 0.
Proof.
  split; [|reflexivity]. apply (@parseFlags_roundtrip example_float_text); [|reflexivity].
  split; try reflexivity; split; z_compute.
Defined.

Example parseFlags_errors :
  @parseFlags example_float_text ["--pid"] = inl (NeedsArgument "pid")
  /\ @parseFlags example_float_text ["--pid=x"] = inl (InvalidValue "pid" "x")
  /\ @parseFlags example_float_text ["--rule=x"] = inl (NotDefined "rule")
  /\ @parseFlags example_float_text ["-h"] = inl ErrHelp
  /\ @parseFlags example_float_text ["--verbose"; "--window"; "1.5s"; "--"; "--pid"] = inr (put_window (put_verbose default_flags true) 1500000000).
Proof. split_and!; vm_compute; reflexivity. Qed.
