(* ===== verification/EndToEnd.v ===== *)
(** * From a live run to its replay

    The pieces put together: the verbose log an agent writes while it watches
    the kernel, read back by [replay] with the engine that [run] builds for one,
    raises the rule alerts the live agent raised. *)

From S2P Require Import Prelude GoStrings GoText GoTime GoDate GoFloat Syscalls Events Alerts Tracker Dedup Config Storyline Engine EngineProps Record Replay Sinks.
From S2P Require Import Console Dashboard Panels PidFilter Agent Pump Cli.

Section end_to_end.
Context `{UnicodeTables} `{Host} `{ProcFS} `{Disk} `{Encoder} `{RecordDecoder} `{FloatConv}.

(** The same command line with [--replay] added. *)
Definition with_replay (path : string) (f : config) : config :=
  mkConfigFlags (fl_pid f) (fl_outputPath f) (fl_rules f) (fl_verbose f) (fl_debugPath f) (fl_minSeverity f) (fl_window f)
    (fl_noColor f) (fl_forceColor f) (fl_ignoreLoop f) (fl_ignoreSelf f) (fl_statsInterval f) (fl_showVersion f)
    (fl_listRules f) path (fl_replaySpeed f) (fl_dashboard f) (fl_dedupWindow f) (fl_noStoryline f) (fl_chainThreshold f)
    (fl_chainWindow f).

(** What that changes in the engine's configuration is what [replay_config] says. *)
Lemma engine_config_replay path f :
  replaying f = false -> path <> "" -> engine_config (with_replay path f) = replay_config (engine_config f).
Proof.
  intros Hf Hp. unfold engine_config. rewrite Hf. unfold replaying. cbn [fl_replayPath with_replay].
  by rewrite (proj2 (String.eqb_neq _ _) Hp).
Qed.

(** The live engine is alone in looking [/proc] up, unless it does not correlate. *)
Lemma engine_config_alike f : fl_noStoryline f = true -> correlates_alike (engine_config f) = true.
Proof. unfold correlates_alike. cbn. by intros ->. Qed.

(** The event is of another process than the agent, its texts are UTF-8, it can be
    captured, its record's JSON is one line that decodes to what JSON keeps of the
    record, and the line reaches the file whole. *)
Definition logged (path : string) (ev : Event) : Prop :=
  capturable ev /\ readable ev /\ ev_PID ev <> 0 /\ ev_PID ev <> u32 os_Getpid /\ exists line,
    encode_event ev = Some line /\ plain_line line /\ ~ blank line
    /\ Unmarshal line = Some (json_image (NewRecord ev)) /\ dk_short path (line +:+ nl) = None.

(** A live agent with an alert log [s] and a verbose log [d] that is still empty;
    and a replaying one, without a verbose log or a scope. *)
Record recording (s : JSONLSink) (d : EventSink) (e : Engine) (ag : Agent) : Prop := {
  rec_open : js_open s = true;
  rec_debug_open : es_open d = true /\ es_failed d = false;
  rec_paths : js_path s <> es_path d;
  rec_sinks : agent_sinks s (es_path d) (ag_sinks ag);
  rec_debug : ag_debug ag = Some d;
  rec_empty : content (ag_world ag) (es_path d) = "";
  rec_engine : ag_engine ag = e;
  rec_counters : is_u64 (c_observed (ag_counters ag)) /\ is_u64 (c_alerts (ag_counters ag))
}.
Record rerunning (s : JSONLSink) (e : Engine) (ag : Agent) : Prop := {
  rer_open : js_open s = true;
  rer_sinks : exists dpath, js_path s <> dpath /\ agent_sinks s dpath (ag_sinks ag);
  rer_debug : ag_debug ag = None;
  rer_filter : ag_filter ag = None;
  rer_engine : ag_engine ag = e;
  rer_counters : is_u64 (c_alerts (ag_counters ag))
}.

Lemma in_filter_None evs : in_filter None evs = (evs, None).
Proof. induction evs as [|ev evs IH]; [done|]. cbn [in_filter scope]. by rewrite IH. Qed.

(** The verbose log of such events is a capture of them. *)
Lemma event_lines_capture d evs :
  es_failed d = false -> Forall (logged (es_path d)) evs ->
  exists lines, event_lines d evs = unlines lines +:+ ""
    /\ Forall2 (fun l ev => plain_line l /\ ~ blank l /\ Unmarshal l = Some (json_image (NewRecord ev))) lines evs.
Proof.
  unfold event_lines. intros ->.
  induction 1 as [|ev evs (_ & _ & _ & _ & line & Henc & Hpl & Hb & Hu & Hs) _ (lines & IH & Hl)]; [by exists []|].
  exists (line :: lines). split; [|by constructor]. cbn [fmap list_fmap encoder_lines unlines encoder_line breaks].
  rewrite Henc. cbn [encoder_line breaks]. rewrite Hs, IH, !sapp_nil_r. by rewrite <- sapp_assoc.
Qed.

End end_to_end.

(** ** A concrete pair of runs *)
#[local] Existing Instance example_tables.
#[local] Existing Instance example_host.
#[local] Existing Instance example_disk.
#[local] Existing Instance example_encoder.
#[local] Existing Instance example_clock.
#[local] Existing Instance example_conv.

Definition example_line_decoder : RecordDecoder := {|
  Unmarshal := fun line => if line ==s "{sh}" then Some (json_image (NewRecord (example_setuid 42))) else None
|}.
#[local] Existing Instance example_line_decoder.

#[local] Existing Instance example_proc.

Definition example_rerun (e : Engine) : Agent :=
  mkAgent e [Some (jsonl_sink (mkJSONLSink "again.jsonl" true false))] None None no_counts example_world.

Lemma console_frames path (s : ConsoleSink) : frames path [Some (console_sink s)].
Proof.
  constructor; [|constructor]. intros st a w. unfold console_sink. cbn [sk_Write]. unfold ConsoleSink_Write.
  by destruct (al_Severity a <? cs_minSeverity st).
Qed.

