(* ===== verification/System.v ===== *)
(** * From system calls to the alert log

    Everything in one line: the probes, the ring buffer, the collector, the
    queue between the two goroutines, filter, engine and files. *)

From S2P Require Import Prelude GoStrings GoText GoTime GoDate GoFloat Syscalls Events Alerts Tracker Dedup Config Storyline Engine EngineProps Record Sinks.
From S2P Require Import Wire KernelEvent Loader Probes ProbeProps Console Dashboard Panels PidFilter Agent Pump Cli EndToEnd.

Section system.
Context `{UnicodeTables} `{Host} `{Disk} `{Encoder}.

(** A whole run: tracepoints fire ([sr_hits]) on a machine of [sr_cpus] processors
    monitored by process [sr_pid]; the collector reads the buffer to its end and
    hands what it decodes to [pump], whose goroutines take the steps [sr_steps]
    until [pump] returns in the state [sr_end]. *)
Record system_run := mkSystemRun {
  sr_hits : list (tracepoint * Hit);
  sr_cpus : nat;
  sr_pid : Z;
  sr_boot : Z;
  sr_agent : Agent;
  sr_snap : Metrics;
  sr_steps : list label;
  sr_end : pump
}.

Definition sr_maps (r : system_run) : Maps := fire_all (sr_hits r) (writeConfig (sr_pid r) (fresh_maps (sr_cpus r))).
Definition sr_self (r : system_run) : option Z := Some (u32 (sr_pid r)).

(** What the run must satisfy to be one of this system. *)
Record system_ok (s : JSONLSink) (d : EventSink) (r : system_run) : Prop := {
  sy_hits : lawful_hits (sr_hits r);
  sy_cpus : Forall (fun x => (h_cpu (snd x) < sr_cpus r)%nat) (sr_hits r);
  sy_monitored : Forall (fun x => is_Some (assoc (tp_name (fst x)) reports)) (sr_hits r);
  sy_run : pump_run (start (sr_agent r) (sr_snap r)) (sr_steps r) (sr_end r);
  sy_handed : handed (sr_steps r) = fst (Run (sr_boot r) (Sample <$> events (sr_maps r)));
  sy_returned : pm_returned (sr_end r) = true;
  sy_open : js_open s = true /\ es_open d = true /\ js_path s <> es_path d;
  sy_sinks : agent_sinks s (es_path d) (ag_sinks (sr_agent r));
  sy_debug : ag_debug (sr_agent r) = Some d;
  sy_counts : ag_counters (sr_agent r) = no_counts
}.

(** from a system call to its line in the log, with every loss counted.
    When the agent has stopped, the firings of monitored system calls that were
    not its own have been processed, dropped from the queue, or refused by the
    full ring buffer, and the three counts add up; the kernel's counters and the
    agent's say how many of each, up to their 64 bits.  What was processed is, in
    order, the decoded report of a firing, and the alert log has gained exactly
    the lines of the alerts the engine raises for those in scope, up to the first
    write to it that fails.  Nothing is
    dropped from the queue before more events than it holds have been handed
    over. *)
Theorem from_syscall_to_log s d r :
  system_ok s d r ->
  let reported := (fun raw => Decode raw (sr_boot r)) <$> omap (observe_hit (sr_self r)) (sr_hits r) in
  let refused := length (filter (fun x => lost (sr_self r) x = true) (sr_hits r)) in
  let ag := pm_agent (sr_end r) in
  exists processed dropped,
    sublist processed reported /\ reported ≡ₚ processed ++ dropped
    /\ (length processed + length dropped + refused
        = length (filter (fun x => is_self (sr_self r) (snd x) = false) (sr_hits r)))%nat
    /\ Collector_Stats (lookup_stats (sr_maps r))
       = (mkStats (u64 (Z.of_nat (length processed + length dropped))) (u64 (Z.of_nat refused)), None)
    /\ c_queueDropped (ag_counters ag) = u64 (Z.of_nat (length dropped))
    /\ ((length reported <= eventQueueDepth)%nat -> dropped = [])
    /\ let kept := fst (in_filter (ag_filter (sr_agent r)) processed) in
       let alerts := mjoin (fst (evaluate_all (ag_engine (sr_agent r)) kept)) in
       content (ag_world ag) (js_path s) = content (ag_world (sr_agent r)) (js_path s) +:+ alert_lines s alerts.
Proof.
  intros [Hl Hc Hmon Hrun Hh Hret (Hso & Hdo & Hne) Hm Hdb Hcnt]. cbn zeta.
  unfold sr_maps in *. rewrite fired_run in Hh by done. cbn [fst] in Hh. fold (sr_self r) in Hh.
  set (reported := _ <$> _) in *.
  destruct (pump_run_accounts (sr_agent r) (sr_snap r) (sr_steps r) (sr_end r)) as (p & dr & [Ha Ho Hall Hd Hf Hr]);
    [rewrite Hcnt; split; z_compute|done|].
  destruct (Hr Hret) as [_ Hempty]. rewrite Hempty, app_nil_r, ?Hh in *. clear Hr.
  assert (Hlen : length (omap (observe_hit (sr_self r)) (sr_hits r)) = (length p + length dr)%nat).
  { rewrite <- length_app, <- Hall. unfold reported. by rewrite length_fmap. }
  pose proof (process_all_spec s d (sr_agent r) p Hso Hdo Hne Hm Hdb) as Hp. unfold processed_exactly in Hp. rewrite Hcnt in Hp.
  specialize (Hp ltac:(split; z_compute) ltac:(split; z_compute)). cbv zeta in Hp.
  exists p, dr. split_and!; [done|done| | | |by auto|]; rewrite <- ?Hlen; [by apply observed_or_lost_count|by apply fired_stats|..];
    rewrite Ha; destruct (in_filter _ p) as [kept f]; cbn [fst] in *; destruct (evaluate_all _ kept) as [alerts e];
    destruct Hp as (_ & _ & _ & _ & Hdrop & Hlog & _); [|exact Hlog].
  unfold drops, set_counters, add_queueDropped. cbn [ag_counters c_queueDropped]. by rewrite Hdrop.
Qed.
End system.

(** ** A concrete run

    One [setuid(0)] of process 42, user 1000, watched by process 100. *)
#[local] Existing Instance example_tables.
#[local] Existing Instance example_host.
#[local] Existing Instance example_disk.
#[local] Existing Instance example_encoder.
#[local] Existing Instance example_clock.
#[local] Existing Instance example_conv.

Definition example_firing : list (tracepoint * Hit) :=
  [(syscall_tp "sys_enter_setuid", example_hit example_memory 0 42 1000 [0] (Some left_behind))].
Definition example_event : Event := Decode (mkRaw 1500 42 42 1000 1000 7 SysSetuid 0 0 0 0 0 0 0 0 "bash" "" []) 0.
Definition example_steps : list label := [Handed example_event; Ended; Consumed; Finished None].

Definition example_end : pump :=
  let ag := process (example_agent example_engine) example_event in
  mkPump ag [] true true (refresh false ag None (f_of_int (-1))).
Definition example_system : system_run :=
  mkSystemRun example_firing 1 100 0 (example_agent example_engine) noMetrics example_steps example_end.

Lemma example_firing_lawful : lawful_hits example_firing.
Proof.
  unfold lawful_hits, example_firing. rewrite Forall_cons, Forall_nil. split; [|done]. exists example_memory.
  example_lawful_tac.
Qed.

Lemma example_pump_run : pump_run (start (example_agent example_engine) noMetrics) example_steps example_end.
Proof.
  set (ag := example_agent example_engine). set (ev := example_event).
  apply (pump_more _ [Handed ev; Ended; Consumed] (mkPump (process ag ev) [] true false noMetrics) (Finished None));
    [|exact (pump_finish (mkPump (process ag ev) [] true false noMetrics) None eq_refl eq_refl eq_refl)].
  apply (pump_more _ [Handed ev; Ended] (mkPump ag [ev] true false noMetrics) Consumed);
    [|exact (pump_consume (mkPump ag [ev] true false noMetrics) ev [] eq_refl eq_refl)].
  apply (pump_more _ [Handed ev] (mkPump ag [ev] false false noMetrics) Ended);
    [|exact (pump_end (mkPump ag [ev] false false noMetrics) eq_refl)].
  exact (pump_more _ [] (start ag noMetrics) (Handed ev) _ (pump_none _) (pump_hand (start ag noMetrics) ev eq_refl)).
Qed.

Lemma example_system_ok : system_ok (mkJSONLSink "alerts.jsonl" true false) (mkEventSink "debug.jsonl" true false) example_system.
Proof.
  split.
  - apply example_firing_lawful.
  - repeat constructor.
  - by_compute.
  - apply example_pump_run.
  - unfold sr_maps. cbn [example_system sr_hits sr_cpus sr_pid sr_boot sr_steps].
    rewrite (fired_run example_firing 1 100 0 example_firing_lawful). reflexivity.
  - reflexivity.
  - split_and!; done.
  - exists [Some (console_sink (mkConsoleSink false SeverityLow))]. split_and!; [reflexivity|apply console_frames..].
  - reflexivity.
  - reflexivity.
Qed.

Lemma from_syscall_to_log_witness :
  Collector_Stats (lookup_stats (sr_maps example_system)) = (mkStats 1 0, None)
  /\ c_queueDropped (ag_counters (pm_agent (sr_end example_system))) = 0.
Proof.
  destruct (from_syscall_to_log _ _ example_system example_system_ok) as (p & dr & _ & _ & Hn & Hs & Hq & Hd & _).
  assert (Hr : length (filter (fun x => lost (sr_self example_system) x = true) (sr_hits example_system)) = 0%nat) by reflexivity.
  assert (Ha : length (filter (fun x => is_self (sr_self example_system) (snd x) = false) (sr_hits example_system)) = 1%nat)
    by reflexivity.
  rewrite Hr, Ha in Hn. rewrite Hr in Hs. rewrite Hs, Hq, Hd; [|by apply Nat.leb_le].
  rewrite Hd in Hn by (by apply Nat.leb_le). cbn [length] in *. replace (length p) with 1%nat by lia. done.
Defined.
