(* ===== verification/Live.v ===== *)
(** * The live agent, every interleaving

    The probes, the ring buffer, the collector's two goroutines, the queue and
    the main goroutine as one step relation.  [System] follows a run from the
    firings to the log when the collector reads the buffer to its end; here the
    kernel fires, the collector reads, the main goroutine processes and the user
    interrupts in any order, and the buffer and the queue fill and empty
    meanwhile.  The runs of the whole project to the runs of [Collect] and
    [Pump], whose invariants are used for it.  That the agent stops is a property
    of infinite runs in which its goroutines are scheduled fairly ([Fair]); of the
    main goroutine, whose [select] also serves two tickers, fairness says that a
    case that stays ready is picked at some time. *)

From S2P Require Import Prelude Fair GoStrings GoText GoTime GoDate GoFloat Syscalls Events Alerts Tracker Dedup Config Storyline Engine EngineProps Record Sinks.
From S2P Require Import Wire KernelEvent Loader Probes ProbeProps Collect Console Dashboard Panels PidFilter Agent Pump Cli EndToEnd.

(** The size of the ring buffer in bytes, of which the kernel takes eight for
    the header of each record. *)
Definition RINGBUF_SIZE : Z := 256 * 1024.
Definition record_header : Z := 8.

(** What [bpf_ringbuf_reserve] answers with [unread] records in the buffer, and
    at most one more being written by each other processor: memory only while
    the records fit the buffer, and always while they fit it with their headers. *)
Record reserve_lawful (cpus unread : nat) (h : Hit) : Prop := {
  rs_fits : is_Some (h_reserve h) -> (Z.of_nat unread + 1) * eventSize <= RINGBUF_SIZE;
  rs_room : Z.of_nat (unread + cpus) * (eventSize + record_header) < RINGBUF_SIZE -> is_Some (h_reserve h)
}.

Section live.
Context `{UnicodeTables} `{Host} `{Disk} `{Encoder}.

(** The machine and the agent on it. *)
Context (cpus : nat) (getpid boot : Z) (ag0 : Agent) (snap0 : Metrics).

Record live := mkLive { lv_maps : Maps; lv_drain : drain; lv_pump : pump }.

Definition booted : Maps := writeConfig getpid (fresh_maps cpus).
Definition start_live : live := mkLive booted (start_drain []) (start ag0 snap0).
Definition self : option Z := Some (u32 getpid).

(** The records a firing adds to the unread ones, and the events a step of the
    collector hands on. *)
Definition submitted (m m' : Maps) : list string := drop (length (events m)) (events m').
Definition receive (bs : list string) (d : drain) : drain :=
  mkDrain (dr_cancelled d) (dr_closed d) (dr_watcher d) (dr_loop d) (dr_avail d ++ bs) (dr_handed d).
Definition handed_since (d d' : drain) : list Event := drop (length (dr_handed d)) (dr_handed d').

(** [Collector.Stats] as the main goroutine reads it. *)
Definition kernel_stats (m : Maps) : option (Z * Z) :=
  match Collector_Stats (lookup_stats m) with
  | (s, None) => Some (st_Events s, st_Dropped s)
  | (_, Some _) => None
  end.

(** A firing the kernel can make: of a monitored tracepoint, on one of its
    processors, with [unread] records in the buffer. *)
Record may_fire (unread : nat) (x : tracepoint * Hit) : Prop := {
  mf_lawful : exists mem, lawful mem (snd x);
  mf_cpu : (h_cpu (snd x) < cpus)%nat;
  mf_monitored : is_Some (assoc (tp_name (fst x)) reports);
  mf_reserve : reserve_lawful cpus unread (snd x)
}.

(** Who takes a step: the kernel, the collector's goroutines, the user, a
    failing read, the main goroutine ([Ended] is the collector's return, which
    closes the queue). *)
Inductive live_label := Fired (x : tracepoint * Hit) | Collected | Interrupted | ReadBroken | Main (l : label).

(** What the main goroutine reads of the kernel is what the maps hold. *)
Definition main_label (m : Maps) (ag : Agent) (l : label) : Prop :=
  match l with
  | Consumed => True
  | Ticked stats | Finished stats => stats = kernel_stats m
  | Logged line => line = logStats (kernel_stats m) ag
  | Handed _ | Ended => False
  end.

Inductive live_step : live -> live_label -> live -> Prop :=
  | live_fire s x :
      may_fire (length (dr_avail (lv_drain s))) x ->
      let m := fire (snd x) (fst x) (lv_maps s) in
      live_step s (Fired x) (mkLive m (receive (submitted (lv_maps s) m) (lv_drain s)) (lv_pump s))
  | live_collect s d :
      run_step boot (lv_drain s) d ->
      live_step s Collected (mkLive (lv_maps s) d (foldl hand (lv_pump s) (handed_since (lv_drain s) d)))
  | live_interrupt s :
      let d := lv_drain s in
      live_step s Interrupted
        (mkLive (lv_maps s) (mkDrain true (dr_closed d) (dr_watcher d) (dr_loop d) (dr_avail d) (dr_handed d)) (lv_pump s))
  | live_read_fails s :
      let d := lv_drain s in
      dr_loop d = Reading -> dr_closed d = false ->
      live_step s ReadBroken
        (mkLive (lv_maps s)
           (mkDrain (dr_cancelled d) false (dr_watcher d) (Returning (negb (dr_cancelled d))) (dr_avail d) (dr_handed d))
           (lv_pump s))
  | live_ended s failed p :
      dr_loop (lv_drain s) = Returned failed -> pump_step (lv_pump s) Ended p ->
      live_step s (Main Ended) (mkLive (lv_maps s) (lv_drain s) p)
  | live_main s l p :
      main_label (lv_maps s) (pm_agent (lv_pump s)) l -> pump_step (lv_pump s) l p ->
      live_step s (Main l) (mkLive (lv_maps s) (lv_drain s) p).

Inductive live_run : list live_label -> live -> Prop :=
  | live_none : live_run [] start_live
  | live_more tr s l s' : live_run tr s -> live_step s l s' -> live_run (tr ++ [l]) s'.

(** The firings of a run. *)
Definition fired (tr : list live_label) : list (tracepoint * Hit) :=
  omap (fun l => match l with Fired x => Some x | _ => None end) tr.

(** Anybody's step, and the four actors of the agent: the goroutine that reads,
    the watcher, the one that closes the queue once the collector has returned,
    and the main goroutine taking an event off the queue or returning. *)
Definition anyone (s s' : live) : Prop := exists l, live_step s l s'.
Definition by_loop (s s' : live) : Prop := live_step s Collected s' /\ loop_step boot (lv_drain s) (lv_drain s').
Definition by_watcher (s s' : live) : Prop := live_step s Collected s' /\ watcher_step (lv_drain s) (lv_drain s').
Definition by_closer (s s' : live) : Prop := live_step s (Main Ended) s'.
Definition by_consumer (s s' : live) : Prop :=
  live_step s (Main Consumed) s' \/ exists stats, live_step s (Main (Finished stats)) s'.

(** An infinite run of the agent on its machine, with all four scheduled fairly. *)
Record fair_run (run : nat -> live) : Prop := {
  fr_start : run 0%nat = start_live;
  fr_steps : execution anyone run;
  fr_loop : weakly_fair by_loop run;
  fr_watcher : weakly_fair by_watcher run;
  fr_closer : weakly_fair by_closer run;
  fr_consumer : weakly_fair by_consumer run
}.

(** ** Lemmas: one firing, one step of the collector *)

(** A firing adds the record of what it reports, or nothing. *)
Lemma fire_submits mem x m :
  lawful mem (snd x) ->
  let m' := fire (snd x) (fst x) m in
  events m' = events m ++ submitted m m'
  /\ (observe_hit (config_map m) x = None /\ submitted m m' = []
      \/ exists raw e, observe_hit (config_map m) x = Some raw /\ submitted m m' = [e] /\ parseRecord e = inl raw
           /\ is_Some (h_reserve (snd x))).
Proof.
  intros L. destruct x as [tp h]. cbn [fst snd] in *. unfold submitted.
  destruct (fire_cases mem h tp m L) as [(Ho & _ & ->)|[(Ho & _ & ->)|(raw & e & Ho & _ & He & ->)]].
  - rewrite drop_all, app_nil_r. auto.
  - cbn [stat_inc events]. rewrite drop_all, app_nil_r. auto.
  - cbn [event_submit stat_inc events]. rewrite drop_app_length. split; [done|]. right. exists raw, e. split_and!; try done.
    unfold observe_hit in Ho. destruct (assoc _ _); [|done]. cbn in Ho. destruct (is_self _ _); [done|]. by destruct (h_reserve h).
Qed.

(** The collector either moves on without the buffer, or takes a record. *)
Lemma run_step_cases d d' :
  run_step boot d d' ->
  (dr_avail d' = dr_avail d /\ handed_since d d' = [] /\ dr_handed d' = dr_handed d)
  \/ exists b rest, dr_avail d = b :: rest /\ dr_avail d' = rest /\ dr_loop d = Reading
       /\ dr_handed d' = deliver boot b (dr_handed d) /\ handed_since d d' = deliver boot b [].
Proof.
  unfold handed_since. intros [Hs|Hs]; [destruct Hs as [d b rest El Ec Ea|d|d]|destruct Hs]; try (left; cbn; by rewrite drop_all).
  right. exists b, rest. cbn [dr_avail dr_handed]. unfold deliver. destruct (parseRecord b); cbn; rewrite ?drop_app_length, ?drop_all; done.
Qed.

Lemma handed_since_app d d' : run_step boot d d' -> dr_handed d' = dr_handed d ++ handed_since d d'.
Proof.
  intros [(_ & -> & ->)|(b & rest & _ & _ & _ & -> & ->)]%run_step_cases; [by rewrite app_nil_r|].
  unfold deliver. destruct (parseRecord b); [done|by rewrite app_nil_r].
Qed.

(** What a step of the collector leaves of the loop's end. *)
Lemma run_step_returned d d' failed :
  run_step boot d d' -> dr_loop d = Returned failed -> dr_loop d' = Returned failed /\ handed_since d d' = [].
Proof.
  intros Hs El. split; [by destruct Hs as [Hs|Hs]; destruct Hs; cbn; congruence|].
  destruct (run_step_cases d d' Hs) as [(_ & ? & _)|(b & rest & _ & _ & El' & _)]; [done|congruence].
Qed.

(** ** Projection: the parts run as their own step relations say *)

Lemma live_step_drain s l s' : live_step s l s' -> rtc (drain_step boot) (lv_drain s) (lv_drain s').
Proof.
  destruct 1 as [s x [[mem L] _ _ _] m|s d Hd|s|s d El Ec|s failed p|s l p]; cbn [lv_drain]; try done.
  - subst m. destruct (fire_submits mem x (lv_maps s) L) as [_ [(_ & ->)|(raw & e & _ & -> & _)]].
    + unfold receive. rewrite app_nil_r. by destruct (lv_drain s).
    + apply rtc_once. right. apply world_record.
  - apply rtc_once. by left.
  - apply rtc_once. right. apply world_cancel.
  - apply rtc_once. right. by apply world_read_fails.
Qed.

Lemma hand_closed s ev : pm_closed (hand s ev) = pm_closed s.
Proof. unfold hand. by case_match. Qed.
Lemma hand_returned s ev : pm_returned (hand s ev) = pm_returned s.
Proof. unfold hand. by case_match. Qed.
Lemma foldl_hand_flags s evs :
  pm_closed (foldl hand s evs) = pm_closed s /\ pm_returned (foldl hand s evs) = pm_returned s.
Proof. revert s. induction evs as [|ev evs IH]; intros s; [done|]. cbn. destruct (IH (hand s ev)) as [-> ->]. by rewrite hand_closed, hand_returned. Qed.

Lemma pump_run_hands s tr p evs :
  pump_run s tr p -> pm_closed p = false -> pump_run s (tr ++ (Handed <$> evs)) (foldl hand p evs).
Proof.
  revert p tr. induction evs as [|ev evs IH]; intros p tr Hr Hc; [by rewrite app_nil_r|].
  cbn. rewrite (cons_middle (Handed ev)), app_assoc. apply IH; [|by rewrite hand_closed].
  eapply pump_more; [done|]. by apply pump_hand.
Qed.

Lemma handed_app tr tr' : handed (tr ++ tr') = handed tr ++ handed tr'.
Proof. apply omap_app. Qed.
Lemma handed_hands evs : handed (Handed <$> evs) = evs.
Proof. induction evs as [|ev evs IH]; [done|]. cbn. by rewrite <- IH at 2. Qed.

(** ** The invariant of the whole *)

Record live_inv (hits : list (tracepoint * Hit)) (s : live) : Prop := {
  li_hits : Forall (fun x => (exists mem, lawful mem (snd x)) /\ (h_cpu (snd x) < cpus)%nat /\ is_Some (assoc (tp_name (fst x)) reports)) hits;
  li_maps : lv_maps s = fire_all hits booted;
  li_ring : exists taken, events (lv_maps s) = taken ++ dr_avail (lv_drain s)
    /\ dr_handed (lv_drain s) = (fun r => Decode r boot) <$> well_formed taken;
  li_drain : rtc (drain_step boot) (start_drain []) (lv_drain s);
  li_pump : exists tr, pump_run (start ag0 snap0) tr (lv_pump s) /\ handed tr = dr_handed (lv_drain s);
  li_closed : pm_closed (lv_pump s) = true -> exists failed, dr_loop (lv_drain s) = Returned failed;
  li_room : Z.of_nat (length (dr_avail (lv_drain s))) * eventSize <= RINGBUF_SIZE
}.

Lemma live_inv_start : live_inv [] start_live.
Proof. split; try done; [by exists []|by exists []; split; [apply pump_none|]]. Qed.

Lemma fire_all_snoc hits x m : fire_all (hits ++ [x]) m = fire (snd x) (fst x) (fire_all hits m).
Proof. unfold fire_all. by rewrite foldl_snoc. Qed.

Lemma config_fired hits :
  Forall (fun x => (exists mem, lawful mem (snd x)) /\ (h_cpu (snd x) < cpus)%nat /\ is_Some (assoc (tp_name (fst x)) reports)) hits ->
  lawful_hits hits /\ Forall (fun x => (h_cpu (snd x) < cpus)%nat) hits
  /\ Forall (fun x => is_Some (assoc (tp_name (fst x)) reports)) hits
  /\ config_map (fire_all hits booted) = self.
Proof.
  intros Hh. rewrite !Forall_and in Hh. destruct Hh as (Hl & Hc & Hm). split_and!; [done..|].
  by destruct (fire_all_carries hits booted [] Hl (fresh_carries cpus getpid)).
Qed.

Lemma live_inv_fire hits s x :
  live_inv hits s -> may_fire (length (dr_avail (lv_drain s))) x ->
  let m := fire (snd x) (fst x) (lv_maps s) in
  live_inv (hits ++ [x]) (mkLive m (receive (submitted (lv_maps s) m) (lv_drain s)) (lv_pump s)).
Proof.
  intros [Hh Hm (taken & Hev & Hhd) Hd Hp Hc Hr] Hx m. pose proof Hx as [[mem L] Hcpu Hmon [Hfit _]].
  destruct (fire_submits mem x (lv_maps s) L) as [He Hs]. fold m in He, Hs. split; cbn [lv_maps lv_drain lv_pump].
  - apply Forall_app. split; [done|]. apply Forall_singleton. eauto.
  - subst m. by rewrite Hm, fire_all_snoc.
  - exists taken. cbn [receive dr_avail dr_handed]. by rewrite He, Hev, app_assoc.
  - etrans; [exact Hd|]. apply (live_step_drain s (Fired x) (mkLive m (receive (submitted (lv_maps s) m) (lv_drain s)) (lv_pump s))).
    by apply live_fire.
  - destruct Hp as (tr & Hp & Hhp). eauto.
  - done.
  - cbn [receive dr_avail]. rewrite length_app. destruct Hs as [(_ & ->)|(raw & e & _ & -> & _ & Hg)]; cbn [length]; [lia|].
    specialize (Hfit Hg). lia.
Qed.

Lemma live_inv_collect hits s d :
  live_inv hits s -> run_step boot (lv_drain s) d ->
  live_inv hits (mkLive (lv_maps s) d (foldl hand (lv_pump s) (handed_since (lv_drain s) d))).
Proof.
  intros [Hh Hm (taken & Hev & Hhd) Hd (tr & Hp & Hhp) Hc Hr] Hs.
  assert (Hdr : rtc (drain_step boot) (start_drain []) d) by (eapply rtc_r; [done|by left]).
  assert (Hflags := foldl_hand_flags (lv_pump s) (handed_since (lv_drain s) d)).
  split; cbn [lv_maps lv_drain lv_pump]; [done|done| |done| | |].
  - destruct (run_step_cases _ _ Hs) as [(-> & _ & ->)|(b & rest & Ha & -> & _ & -> & _)]; [by exists taken|].
    exists (taken ++ [b]). rewrite <- app_assoc, Hhd, deliver_well_formed. split; [|done]. by rewrite Hev, Ha.
  - destruct (run_step_cases _ _ Hs) as [(_ & -> & ->)|(b & rest & _ & _ & El & _)]; [by exists tr|].
    exists (tr ++ (Handed <$> handed_since (lv_drain s) d)). split.
    + apply pump_run_hands; [done|]. destruct (pm_closed (lv_pump s)); [|done]. destruct (Hc eq_refl). congruence.
    + by rewrite handed_app, handed_hands, Hhp, <- handed_since_app.
  - destruct Hflags as [-> _]. intros Hcl. destruct (Hc Hcl) as [failed Hf]. exists failed.
    by destruct (run_step_returned _ _ failed Hs Hf).
  - destruct (run_step_cases _ _ Hs) as [(-> & _)|(b & rest & Ha & -> & _)]; [done|]. rewrite Ha in Hr. cbn [length] in Hr.
    unfold eventSize in *. lia.
Qed.

Lemma live_inv_pump hits s l p :
  live_inv hits s -> pump_step (lv_pump s) l p -> handed [l] = [] ->
  (pm_closed p = true -> exists failed, dr_loop (lv_drain s) = Returned failed) ->
  live_inv hits (mkLive (lv_maps s) (lv_drain s) p).
Proof.
  intros [Hh Hm Hev Hd (tr & Hp & Hhp) Hc Hr] Hs Hl Hc'. split; try done. exists (tr ++ [l]). split; [by eapply pump_more|].
  by rewrite handed_app, Hl, app_nil_r.
Qed.

Lemma live_inv_step hits s l s' : live_inv hits s -> live_step s l s' -> live_inv (hits ++ fired [l]) s'.
Proof.
  intros Hi Hs. pose proof (live_step_drain _ _ _ Hs) as Hd.
  destruct Hs as [s x Hx m|s d Hs|s d|s d El Ec|s failed p El Hs|s l p Hl Hs]; cbn [fired omap list_omap]; rewrite ?app_nil_r.
  - by apply live_inv_fire.
  - by apply live_inv_collect.
  - destruct Hi. split; try done. by etrans.
  - destruct Hi as [Hh Hm Hev Hd' Hp Hc Hr]. split; try done; [by etrans|]. cbn [lv_drain lv_pump]. intros Hcl.
    subst d. destruct (Hc Hcl). congruence.
  - apply (live_inv_pump hits s Ended); eauto.
  - apply (live_inv_pump hits s l); [done|done|by destruct l|]. destruct Hi as [_ _ _ _ _ Hc _].
    destruct Hs; try done; eauto.
Qed.

Lemma live_inv_run tr s : live_run tr s -> live_inv (fired tr) s.
Proof.
  induction 1 as [|tr s l s' _ IH Hs]; [apply live_inv_start|]. unfold fired in *. rewrite omap_app. by eapply live_inv_step.
Qed.

(** ** Lemmas: accounting *)

(** The reports of the firings, split where the collector has read to. *)
Lemma live_reports hits s :
  live_inv hits s ->
  exists taken unread, (fun r => Decode r boot) <$> omap (observe_hit self) hits = taken ++ unread
    /\ dr_handed (lv_drain s) = taken /\ length unread = length (dr_avail (lv_drain s)).
Proof.
  intros [Hh Hm (tk & Hev & Hhd) _ _ _ _]. destruct (config_fired hits Hh) as (Hl & _).
  pose proof (fired_carries hits cpus getpid Hl) as Hcarry. fold booted in Hcarry. fold self in Hcarry.
  rewrite <- Hm, Hev in Hcarry. apply Forall2_app_inv_l in Hcarry as (raws1 & raws2 & R1 & R2 & ->).
  exists ((fun r => Decode r boot) <$> raws1), ((fun r => Decode r boot) <$> raws2).
  rewrite fmap_app, length_fmap, (Forall2_length _ _ _ R2). split_and!; [done| |done]. rewrite Hhd. f_equal.
  clear -R1. induction R1 as [|e raw es raws He _ IH]; [done|]. unfold well_formed in *. cbn. by rewrite He, IH.
Qed.

Lemma live_counters hits s :
  live_inv hits s ->
  (length (omap (observe_hit self) hits) + length (filter (fun x => lost self x = true) hits)
   = length (filter (fun x => is_self self (snd x) = false) hits))%nat
  /\ Collector_Stats (lookup_stats (lv_maps s))
     = (mkStats (u64 (Z.of_nat (length (omap (observe_hit self) hits))))
          (u64 (Z.of_nat (length (filter (fun x => lost self x = true) hits)))), None).
Proof.
  intros [Hh Hm _ _ _ _ _]. destruct (config_fired hits Hh) as (Hl & Hc & Hmon & _). split; [by apply observed_or_lost_count|].
  rewrite Hm. by apply fired_stats.
Qed.

Definition ring_records : nat := Z.to_nat (RINGBUF_SIZE / eventSize).

Lemma live_unread_bound hits s : live_inv hits s -> (length (dr_avail (lv_drain s)) <= ring_records)%nat.
Proof.
  intros [_ _ _ _ _ _ Hr]. unfold ring_records. unfold eventSize in *. 
  apply Nat2Z.inj_le. rewrite Z2Nat.id by (apply Z.div_pos; unfold RINGBUF_SIZE; lia). apply Z.div_le_lower_bound; lia.
Qed.

(** A firing is not refused while the buffer has room for it. *)
Lemma live_not_refused unread x :
  may_fire unread x -> Z.of_nat (unread + cpus) * (eventSize + record_header) < RINGBUF_SIZE -> lost self x = false.
Proof.
  intros [_ _ _ [_ Hroom]] Hlt. unfold lost. destruct (assoc _ _); [|done]. destruct (Hroom Hlt) as [e ->]. apply andb_false_r.
Qed.

(** ** Lemmas: stopping *)

Lemma pump_ended p p' :
  pump_step p Ended p' -> pm_closed p = false /\ p' = mkPump (pm_agent p) (pm_queue p) true (pm_returned p) (pm_snap p).
Proof. by inversion 1. Qed.

(** Everything a run goes through is a run's. *)
Definition reachable (s : live) : Prop := exists hits, live_inv hits s.

Lemma reachable_step s s' : anyone s s' -> reachable s -> reachable s'.
Proof. intros [l Hs] [hits Hi]. eexists. by eapply live_inv_step. Qed.

Lemma fair_run_reachable run n : fair_run run -> reachable (run n).
Proof.
  intros [Hst Hex _ _ _ _]. apply (execution_keeps anyone run reachable 0); [done|intros; by eapply reachable_step| |lia].
  rewrite Hst. exists []. apply live_inv_start.
Qed.

(** What the steps of the whole do to the collector. *)
Lemma drain_keeps (P : drain -> Prop) s s' :
  (forall d d', drain_step boot d d' -> P d -> P d') -> anyone s s' -> P (lv_drain s) -> P (lv_drain s').
Proof.
  intros HP [l Hs]. apply live_step_drain in Hs. revert Hs. generalize (lv_drain s'). intros d' Hs. induction Hs; eauto.
Qed.

Lemma rank_keeps (rank : drain -> nat) s s' :
  (forall d d', drain_step boot d d' -> (rank d' <= rank d)%nat) -> anyone s s' -> (rank (lv_drain s') <= rank (lv_drain s))%nat.
Proof.
  intros Hr [l Hs]. apply live_step_drain in Hs. induction Hs as [d|d d1 d2 Hd _ IH]; [done|]. apply Hr in Hd. lia.
Qed.

(** Each actor moves when its part can. *)
Lemma watcher_moves s : (forall s', ~ by_watcher s s') -> forall d, ~ watcher_step (lv_drain s) d.
Proof. intros Hno d Hd. eapply Hno. split; [apply (live_collect s d); by right|exact Hd]. Qed.
Lemma loop_moves s : (forall s', ~ by_loop s s') -> forall d, ~ loop_step boot (lv_drain s) d.
Proof. intros Hno d Hd. eapply Hno. split; [apply (live_collect s d); by left|exact Hd]. Qed.

(** Closing the queue, and emptying it. *)
Definition closer_rank (s : live) : nat := if pm_closed (lv_pump s) then 0 else 1.
Definition consumer_rank (s : live) : nat :=
  length (pm_queue (lv_pump s)) + (if pm_returned (lv_pump s) then 0 else 1).

Definition loop_over (s : live) : Prop := exists failed, dr_loop (lv_drain s) = Returned failed.

(** Once the loop has returned, nothing is put in the queue any more. *)
Lemma pump_after_loop s l s' :
  loop_over s -> live_step s l s' -> lv_pump s' = lv_pump s \/ exists m, l = Main m /\ pump_step (lv_pump s) m (lv_pump s').
Proof.
  intros [failed El] Hs. destruct Hs as [s x ? m|s d Hd|s|s d ? ?|s f p ? Hp|s m p ? Hp]; cbn [lv_pump]; eauto.
  left. by destruct (run_step_returned _ _ failed Hd El) as [_ ->].
Qed.

Lemma closer_rank_step s s' : anyone s s' -> (closer_rank s' <= closer_rank s)%nat.
Proof.
  unfold closer_rank. intros [l Hs]. destruct Hs as [| s d Hd| | |s f p _ Hp|s m p _ Hp]; cbn [lv_pump]; try lia.
  - by destruct (foldl_hand_flags (lv_pump s) (handed_since (lv_drain s) d)) as [-> _].
  - apply pump_ended in Hp as [_ ->]. cbn. lia.
  - destruct Hp as [p ev Hc|p Hc|p ev q ? ?|p st ?|p st ?|p st ? ? Hc]; cbn [pm_closed set_agent]; rewrite ?hand_closed, ?Hc; lia.
Qed.
Lemma closer_rank_own s s' : by_closer s s' -> (closer_rank s' < closer_rank s)%nat.
Proof.
  unfold closer_rank. intros Hs. inversion Hs as [| | | |s0 f p _ Hp|s0 m p Hm _]; subst; [|by destruct Hm].
  apply pump_ended in Hp as [Hc ->]. cbn. rewrite Hc. lia.
Qed.
Lemma closer_stuck s : loop_over s -> (forall s', ~ by_closer s s') -> closer_rank s = 0%nat.
Proof.
  intros [failed El] Hno. unfold closer_rank. destruct (pm_closed (lv_pump s)) eqn:Ec; [done|]. exfalso.
  eapply Hno. eapply live_ended; [exact El|]. by apply pump_end.
Qed.

Lemma consumer_rank_step s s' : loop_over s -> anyone s s' -> (consumer_rank s' <= consumer_rank s)%nat.
Proof.
  intros Ho [l Hs]. unfold consumer_rank. destruct (pump_after_loop s l s' Ho Hs) as [->|(m & -> & Hp)]; [lia|].
  assert (Hno : forall ev, m <> Handed ev).
  { intros ev ->. inversion Hs as [| | | | |s0 l0 p Hm _]; by destruct Hm. }
  destruct Hp as [p ev Hc|p Hc|p ev q Hr Hq|p st ?|p st ?|p st Hr Hq Hc]; cbn [pm_queue pm_returned]; rewrite ?Hq; cbn [length]; try lia.
  by destruct (Hno ev).
Qed.
Lemma consumer_rank_own s s' : by_consumer s s' -> (consumer_rank s' < consumer_rank s)%nat.
Proof.
  unfold consumer_rank. intros [Hs|[stats Hs]]; inversion Hs as [| | | | |s0 l0 p _ Hp]; subst; cbn [lv_pump];
    inversion Hp as [| |p0 ev q Hr Hq| | |p0 st Hr Hq Hc]; subst; cbn [pm_queue pm_returned]; rewrite Hr, Hq; cbn [length]; lia.
Qed.
Lemma consumer_stuck s :
  pm_closed (lv_pump s) = true -> (pm_returned (lv_pump s) = true -> pm_queue (lv_pump s) = []) ->
  (forall s', ~ by_consumer s s') -> consumer_rank s = 0%nat.
Proof.
  intros Hc Hret Hno. unfold consumer_rank. destruct (pm_returned (lv_pump s)) eqn:Er; [by rewrite Hret|]. exfalso.
  destruct (pm_queue (lv_pump s)) as [|ev q] eqn:Eq.
  - eapply Hno. right. exists (kernel_stats (lv_maps s)). apply live_main; [done|]. by apply pump_finish.
  - eapply Hno. left. apply live_main; [done|]. by eapply pump_consume.
Qed.

(** Where everything taken from the buffer is, once [pump] has returned. *)
Lemma reachable_accounts s :
  is_u64 (c_queueDropped (ag_counters ag0)) -> reachable s ->
  exists processed dropped, accounts ag0 (dr_handed (lv_drain s)) processed dropped (lv_pump s).
Proof. intros Hq [hits [_ _ _ _ (tr & Hp & <-) _ _]]. by apply (pump_run_accounts ag0 snap0 tr). Qed.

Lemma reachable_drain s : reachable s -> drain_inv (lv_drain s).
Proof. intros [hits Hi]. by eapply drain_inv_reachable, li_drain. Qed.
End live.

(** ** Properties *)

Section live_properties.
Context `{UnicodeTables} `{Host} `{Disk} `{Encoder}.

(** An agent about to run: its alert log [s] and verbose log [d] are open. *)
Record agent_ready (s : JSONLSink) (d : EventSink) (ag : Agent) : Prop := {
  ar_open : js_open s = true /\ es_open d = true /\ js_path s <> es_path d;
  ar_sinks : agent_sinks s (es_path d) (ag_sinks ag);
  ar_debug : ag_debug ag = Some d;
  ar_counts : ag_counters ag = no_counts
}.

(** What the agent holds of the events its main goroutine took. *)
Lemma live_agent s d ag0 ag processed dropped :
  agent_ready s d ag0 -> ag = drops (length dropped) (process_all ag0 processed) ->
  c_queueDropped (ag_counters ag) = u64 (Z.of_nat (length (dropped : list Event)))
  /\ let kept := fst (in_filter (ag_filter ag0) processed) in
     let alerts := mjoin (fst (evaluate_all (ag_engine ag0) kept)) in
     content (ag_world ag) (js_path s) = content (ag_world ag0) (js_path s) +:+ alert_lines s alerts.
Proof.
  intros [(Hso & Hdo & Hne) Hm Hdb Hcnt] ->. pose proof (process_all_spec s d ag0 processed Hso Hdo Hne Hm Hdb) as Hp.
  unfold processed_exactly in Hp. rewrite Hcnt in Hp. specialize (Hp ltac:(split; z_compute) ltac:(split; z_compute)). cbv zeta in Hp |- *.
  destruct (in_filter _ processed) as [kept f]. cbn [fst]. destruct (evaluate_all _ kept) as [alerts e]. cbn [fst].
  destruct Hp as (_ & _ & _ & _ & Hdrop & Hlog & _). split; [|exact Hlog].
  unfold drops, set_counters, add_queueDropped. cbn [ag_counters c_queueDropped]. by rewrite Hdrop.
Qed.

(** C22: at every moment of every run, every system call is accounted for.  The
    kernel fires probes on any processor, the collector reads, the main
    goroutine processes, the user interrupts, in any order.  The firings of
    monitored system calls that were not the agent's own then are, without
    overlap: processed, waiting in the queue, dropped at the queue, unread in
    the ring buffer, or refused by it.  The first four kinds are the decoded
    reports in the order of the firings, the unread ones being the last; the
    counters the agent can read say how many were refused and dropped; the
    buffer never holds more than 481 records nor the queue more than its depth.
    Nothing is refused while the buffer has room, and nothing dropped before the
    queue could be full.  The alert log has gained exactly the lines of the
    alerts the engine raises for the processed events in scope, in order, up to
    the first write to it that fails, which leaves a beginning and after which it
    gains nothing ([alert_lines]). *)
Theorem live_accounts cpus getpid boot ag0 snap0 s d tr st :
  agent_ready s d ag0 -> live_run cpus getpid boot ag0 snap0 tr st ->
  let me := Some (u32 getpid) in
  let ag := pm_agent (lv_pump st) in
  let queued := pm_queue (lv_pump st) in
  let reported := (fun raw => Decode raw boot) <$> omap (observe_hit me) (fired tr) in
  let refused := length (filter (fun x => lost me x = true) (fired tr)) in
  exists taken unread processed dropped,
    reported = taken ++ unread /\ length unread = length (dr_avail (lv_drain st))
    /\ taken ≡ₚ (processed ++ queued) ++ dropped /\ sublist (processed ++ queued) taken
    /\ (length processed + length queued + length dropped + length unread + refused
        = length (filter (fun x => is_self me (snd x) = false) (fired tr)))%nat
    /\ Collector_Stats (lookup_stats (lv_maps st)) = (mkStats (u64 (Z.of_nat (length reported))) (u64 (Z.of_nat refused)), None)
    /\ c_queueDropped (ag_counters ag) = u64 (Z.of_nat (length dropped))
    /\ (length unread <= 481)%nat /\ (length queued <= eventQueueDepth)%nat
    /\ (forall x, may_fire cpus (length unread) x -> (length unread + cpus <= 474)%nat -> lost me x = false)
    /\ ((length taken <= eventQueueDepth)%nat -> dropped = [])
    /\ let kept := fst (in_filter (ag_filter ag0) processed) in
       let alerts := mjoin (fst (evaluate_all (ag_engine ag0) kept)) in
       content (ag_world ag) (js_path s) = content (ag_world ag0) (js_path s) +:+ alert_lines s alerts.
Proof.
  intros Hready Hrun. cbv zeta. pose proof (live_inv_run cpus getpid boot ag0 snap0 tr st Hrun) as Hi.
  destruct (live_reports _ _ _ _ _ _ _ Hi) as (taken & unread & Hrep & Hhd & Hun).
  destruct (live_counters _ _ _ _ _ _ _ Hi) as [Hcount Hstats]. unfold self in *.
  destruct (li_pump _ _ _ _ _ _ _ Hi) as (ptr & Hp & Hhp).
  destruct (pump_run_accounts ag0 snap0 ptr (lv_pump st)) as (p & dr & [Ha Ho Hall Hd Hf _]);
    [rewrite (ar_counts _ _ _ Hready); split; z_compute|done|]. rewrite Hhp, Hhd in *.
  destruct (live_agent s d ag0 _ p dr Hready Ha) as [Hdrop Hlog].
  assert (Hlen : length (omap (observe_hit (Some (u32 getpid))) (fired tr)) = (length p + length (pm_queue (lv_pump st)) + length dr + length unread)%nat).
  { rewrite <- (length_fmap (fun raw => Decode raw boot)), Hrep, length_app, Hall, !length_app. lia. }
  exists taken, unread, p, dr. rewrite length_fmap. split_and!; try done.
  - by rewrite <- Hlen.
  - rewrite Hun. exact (live_unread_bound _ _ _ _ _ _ _ Hi).
  - intros x Hx Hle. eapply live_not_refused; [done|]. unfold eventSize, record_header, RINGBUF_SIZE. lia.
Qed.

(** C28: an interrupted agent stops, whatever goes on around it.  Take any infinite
    run in which the agent's goroutines are scheduled fairly, and a moment of it at
    which the user has interrupted and the collector was still reading (no read
    had failed).  However many system calls the kernel goes on reporting, and
    whatever reads fail and ticks come in between, from some moment on the agent
    has returned, without an error: the collector's loop and its watcher have
    ended, the queue is closed and empty, and everything that was taken from the
    buffer was processed, in order, or counted as dropped. *)
Theorem live_stops cpus getpid boot ag0 snap0 run n :
  is_u64 (c_queueDropped (ag_counters ag0)) ->
  fair_run cpus getpid boot ag0 snap0 run ->
  dr_cancelled (lv_drain (run n)) = true -> dr_loop (lv_drain (run n)) = Reading ->
  exists m, (n <= m)%nat /\ forall k, (m <= k)%nat ->
    pm_returned (lv_pump (run k)) = true /\ dr_loop (lv_drain (run k)) = Returned false /\ dr_watcher (lv_drain (run k)) = Gone
    /\ pm_closed (lv_pump (run k)) = true /\ pm_queue (lv_pump (run k)) = []
    /\ exists processed dropped,
         dr_handed (lv_drain (run k)) ≡ₚ processed ++ dropped /\ sublist processed (dr_handed (lv_drain (run k)))
         /\ pm_agent (lv_pump (run k)) = drops (length dropped) (process_all ag0 processed).
Proof.
  intros Hq Hfr Hc El. pose proof (fun k => fair_run_reachable _ _ _ _ _ run k Hfr) as Hreach. destruct Hfr as [_ Hex Hl Hw Hcl Hco].
  pose proof (fun k => reachable_drain _ _ _ _ _ _ (Hreach k)) as Hdrain.
  assert (Hcan : forall k, (n <= k)%nat -> dr_cancelled (lv_drain (run k)) = true /\ no_error (lv_drain (run k))).
  { apply (execution_keeps (anyone cpus boot) run (fun s => dr_cancelled (lv_drain s) = true /\ no_error (lv_drain s)) n); [done| |].
    - intros s s'. apply (drain_keeps cpus boot (fun d => dr_cancelled d = true /\ no_error d)).
      intros d d' Hd [? ?]. split; [by eapply drain_step_cancelled|by eapply no_error_step].
    - split; [done|]. intros f. rewrite El. naive_solver. }
  destruct (fair_progress (anyone cpus boot) run (by_watcher cpus boot) (fun s => dr_cancelled (lv_drain s) = true)
    (fun s => watcher_rank (lv_drain s)) n) as (m1 & Hm1 & Hgone); [done|done|by intros; apply Hcan
      |intros s s' _; apply rank_keeps, watcher_rank_step|intros s s' _ [_ Hs]; by apply watcher_rank_own
      |intros s Hs Hno; by eapply watcher_stuck, watcher_moves|].
  assert (Hg : forall k, (m1 <= k)%nat -> dr_watcher (lv_drain (run k)) = Gone).
  { intros k Hk. specialize (Hgone k Hk). unfold watcher_rank in Hgone. by destruct (dr_watcher (lv_drain (run k))). }
  destruct (fair_progress (anyone cpus boot) run (by_loop cpus boot) (fun s => drain_inv (lv_drain s) /\ dr_watcher (lv_drain s) = Gone)
    (fun s => loop_rank (lv_drain s)) m1) as (m2 & Hm2 & Hret); [done|done|by intros; split; [|apply Hg]
      |intros s s' _; apply rank_keeps, loop_rank_step|intros s s' [? ?] [_ Hs]; by apply (loop_rank_own boot)
      |intros s [? ?] Hno; by eapply loop_stuck, loop_moves|].
  assert (Hover : forall k, (m2 <= k)%nat -> dr_loop (lv_drain (run k)) = Returned false).
  { intros k Hk. specialize (Hret k Hk). unfold loop_rank in Hret. destruct (dr_loop (lv_drain (run k))) as [| |failed] eqn:E; [done..|].
    destruct (Hcan k ltac:(lia)) as [_ Hn]. by rewrite (Hn failed (or_intror E)). }
  assert (Hlo : forall k, (m2 <= k)%nat -> loop_over (run k)) by (intros k Hk; exists false; by apply Hover).
  destruct (fair_progress (anyone cpus boot) run (by_closer cpus boot) loop_over closer_rank m2) as (m3 & Hm3 & Hclosed);
    [done|done|done|intros s s' _; apply closer_rank_step|intros s s' _; apply closer_rank_own|by apply closer_stuck|].
  assert (Hc3 : forall k, (m3 <= k)%nat -> pm_closed (lv_pump (run k)) = true).
  { intros k Hk. specialize (Hclosed k Hk). unfold closer_rank in Hclosed. by destruct (pm_closed (lv_pump (run k))). }
  assert (Hacc : forall k, exists p dr, accounts ag0 (dr_handed (lv_drain (run k))) p dr (lv_pump (run k)))
    by (intros k; by apply (reachable_accounts cpus getpid boot ag0 snap0)).
  destruct (fair_progress (anyone cpus boot) run (by_consumer cpus boot)
    (fun s => loop_over s /\ pm_closed (lv_pump s) = true /\ (pm_returned (lv_pump s) = true -> pm_queue (lv_pump s) = []))
    consumer_rank m3) as (m4 & Hm4 & Hdone); [done|done| |intros s s' [? _]; by apply consumer_rank_step|intros s s' _; apply consumer_rank_own
      |intros s (_ & ? & ?); by apply consumer_stuck|].
  { intros k Hk. split_and!; [apply Hlo; lia|by apply Hc3|]. destruct (Hacc k) as (p & dr & [_ _ _ _ _ Hr]). intros E. by apply Hr. }
  exists m4. split; [lia|]. intros k Hk. specialize (Hdone k Hk). unfold consumer_rank in Hdone.
  assert (Hr : pm_returned (lv_pump (run k)) = true) by (destruct (pm_returned (lv_pump (run k))); [done|lia]).
  assert (Hqe : pm_queue (lv_pump (run k)) = []) by (destruct (pm_queue (lv_pump (run k))); [done|cbn in Hdone; lia]).
  split_and!; [done|apply Hover; lia|apply Hg; lia|apply Hc3; lia|done|].
  destruct (Hacc k) as (p & dr & [Ha Ho Hall _ _ _]). rewrite Hqe, app_nil_r in *. by exists p, dr.
Qed.
End live_properties.

(** ** Concrete runs

    Process 42, user 1000, calls [setuid(0)] twice, watched by process 100 on a
    machine of one processor; the user interrupts before the second record is
    read. *)
#[local] Existing Instance example_tables.
#[local] Existing Instance example_host.
#[local] Existing Instance example_disk.
#[local] Existing Instance example_encoder.
#[local] Existing Instance example_clock.
#[local] Existing Instance example_conv.

Definition setuid_firing : tracepoint * Hit :=
  (syscall_tp "sys_enter_setuid", example_hit example_memory 0 42 1000 [0] (Some left_behind)).
Definition fire_one (s : live) : live :=
  let m := fire (snd setuid_firing) (fst setuid_firing) (lv_maps s) in
  mkLive m (receive (submitted (lv_maps s) m) (lv_drain s)) (lv_pump s).

Definition quiet_agent : Agent := example_agent example_engine.
Definition live0 : live := start_live 1 100 quiet_agent noMetrics.
Definition live1 : live := fire_one live0.
Definition live2 : live :=
  let d := mkDrain false false Watching Reading [] (deliver 0 (hd "" (dr_avail (lv_drain live1))) []) in
  mkLive (lv_maps live1) d (foldl hand (lv_pump live1) (handed_since (lv_drain live1) d)).
Definition live3 : live := fire_one live2.
Definition live4 : live :=
  let d := lv_drain live3 in
  mkLive (lv_maps live3) (mkDrain true (dr_closed d) (dr_watcher d) (dr_loop d) (dr_avail d) (dr_handed d)) (lv_pump live3).
Definition live_trace : list live_label := [Fired setuid_firing; Collected; Fired setuid_firing; Interrupted].

Lemma setuid_may_fire : may_fire 1 0 setuid_firing.
Proof.
  split; [|unfold setuid_firing; cbn; lia|by_compute|].
  - exists example_memory. unfold setuid_firing. example_lawful_tac.
  - split; [intros _; unfold eventSize, RINGBUF_SIZE; lia|]. intros _. unfold setuid_firing. cbn. eauto.
Qed.

Lemma fire_one_step s : dr_avail (lv_drain s) = [] -> live_step 1 0 s (Fired setuid_firing) (fire_one s).
Proof. intros E. apply (live_fire 1 0 s setuid_firing). rewrite E. apply setuid_may_fire. Qed.

Lemma live_trace_run : live_run 1 100 0 quiet_agent noMetrics live_trace live4.
Proof.
  apply (live_more 1 100 0 quiet_agent noMetrics [Fired setuid_firing; Collected; Fired setuid_firing] live3 Interrupted);
    [|exact (live_interrupt 1 0 live3)].
  apply (live_more 1 100 0 quiet_agent noMetrics [Fired setuid_firing; Collected] live2 (Fired setuid_firing));
    [|by apply fire_one_step].
  apply (live_more 1 100 0 quiet_agent noMetrics [Fired setuid_firing] live1 Collected).
  - apply (live_more 1 100 0 quiet_agent noMetrics [] live0 (Fired setuid_firing)); [apply live_none|by apply fire_one_step].
  - apply (live_collect 1 0 live1). left. by apply (run_sample 0 (lv_drain live1)).
Qed.

Lemma quiet_agent_ready : agent_ready (mkJSONLSink "alerts.jsonl" true false) (mkEventSink "debug.jsonl" true false) quiet_agent.
Proof.
  split; try done. exists [Some (console_sink (mkConsoleSink false SeverityLow))]. split_and!; [reflexivity|apply console_frames..].
Qed.

Lemma live_accounts_witness :
  Collector_Stats (lookup_stats (lv_maps live4)) = (mkStats 2 0, None) /\ c_queueDropped (ag_counters (pm_agent (lv_pump live4))) = 0
  /\ length (dr_avail (lv_drain live4)) = 1%nat.
Proof.
  assert (Hl : length (dr_avail (lv_drain live4)) = 1%nat) by reflexivity.
  destruct (live_accounts 1 100 0 quiet_agent noMetrics _ _ live_trace live4 quiet_agent_ready live_trace_run)
    as (tk & un & p & dr & Hrep & Hun & _ & _ & _ & Hs & Hd & _ & _ & _ & Hnone & _).
  apply (f_equal (@length Event)) in Hrep. rewrite length_fmap, length_app, Hun, Hl in Hrep. cbn [omap] in Hrep.
  assert (Hn : length (omap (observe_hit (Some (u32 100))) (fired live_trace)) = 2%nat) by reflexivity. 
  rewrite length_fmap, Hn in Hs. rewrite Hn in Hrep.
  rewrite Hs, Hd, Hnone by (unfold eventQueueDepth; lia). done.
Defined.

(** Interrupted before anything happened; a system call is reported after that, and
    never read. *)
Definition stopping (s : live) (closed : bool) (w : watcher) (l : loop) (p : pump) : live :=
  mkLive (lv_maps s) (mkDrain true closed w l (dr_avail (lv_drain s)) []) p.
Definition waiting : pump := start quiet_agent noMetrics.
Definition late : live := fire_one (stopping live0 false ClosingReader Reading waiting).
Definition stop_run (n : nat) : live :=
  match n with
  | 0%nat => live0
  | 1%nat => stopping live0 false Watching Reading waiting
  | 2%nat => stopping live0 false ClosingReader Reading waiting
  | 3%nat => late
  | 4%nat => stopping late true Gone Reading waiting
  | 5%nat => stopping late true Gone (Returning false) waiting
  | 6%nat => stopping late true Gone (Returned false) waiting
  | 7%nat => stopping late true Gone (Returned false) (mkPump quiet_agent [] true false noMetrics)
  | _ => stopping late true Gone (Returned false)
           (mkPump quiet_agent [] true true (refresh false quiet_agent (kernel_stats (lv_maps late)) (f_of_int (-1))))
  end.

Lemma stop_run_fair : fair_run 1 100 0 quiet_agent noMetrics stop_run.
Proof.
  split; [done| | | | |].
  - intros n. destruct n as [|[|[|[|[|[|[|[|n]]]]]]]]; [left..|by right].
    + exists Interrupted. exact (live_interrupt 1 0 live0).
    + exists Collected. apply (live_collect 1 0 (stop_run 1)). right. by apply (run_cancel (lv_drain (stop_run 1))).
    + exists (Fired setuid_firing). by apply (fire_one_step (stop_run 2)).
    + exists Collected. apply (live_collect 1 0 (stop_run 3)). right. by apply (run_close (lv_drain (stop_run 3))).
    + exists Collected. apply (live_collect 1 0 (stop_run 4)). left. by apply (run_closed 0 (lv_drain (stop_run 4))).
    + exists Collected. apply (live_collect 1 0 (stop_run 5)). left. by apply (run_return 0 (lv_drain (stop_run 5)) false).
    + exists (Main Ended). apply (live_ended 1 0 (stop_run 6) false); [done|]. by apply (pump_end waiting).
    + exists (Main (Finished (kernel_stats (lv_maps late)))). apply (live_main 1 0 (stop_run 7)); [done|].
      by apply (pump_finish (lv_pump (stop_run 7))).
  - apply (weakly_fair_quiet _ _ 6). intros [|[|[|[|[|[|[|[|n]]]]]]]] s Hm [_ Hs]; try lia; by inversion Hs.
  - apply (weakly_fair_quiet _ _ 4). intros [|[|[|[|[|[|[|[|n]]]]]]]] s Hm [_ Hs]; try lia; by inversion Hs.
  - apply (weakly_fair_quiet _ _ 7). intros [|[|[|[|[|[|[|[|n]]]]]]]] s Hm Hs; try lia;
      inversion Hs as [| | | |s0 f p _ Hp|s0 m p Hml _]; subst; (by inversion Hp) || by destruct Hml.
  - apply (weakly_fair_quiet _ _ 8). intros [|[|[|[|[|[|[|[|n]]]]]]]] s Hm [Hs|[stats Hs]]; try lia;
      inversion Hs as [| | | | |s0 m p _ Hp]; subst; by inversion Hp.
Qed.

Lemma live_stops_witness :
  length (dr_avail (lv_drain late)) = 1%nat
  /\ exists m, (1 <= m)%nat /\ forall k, (m <= k)%nat ->
       pm_returned (lv_pump (stop_run k)) = true /\ dr_loop (lv_drain (stop_run k)) = Returned false.
Proof.
  split; [reflexivity|].
  destruct (live_stops 1 100 0 quiet_agent noMetrics stop_run 1 ltac:(split; z_compute) stop_run_fair eq_refl eq_refl) as (m & Hm & Hall).
  exists m. split; [exact Hm|]. intros k Hk. destruct (Hall k Hk) as (Hr & Hl & _). by split.
Defined.
