(* ===== verification/Gencapture.v ===== *)
(** * The sample capture ([internal/gencapture/main.go])

    The development tool that writes the capture of an intrusion: its events, in
    order, as records. *)

From S2P Require Import Prelude GoStrings GoTime Syscalls Constants Events Record.

(** [type p struct] *)
Record p := mkP { p_pid : Z; p_ppid : Z; p_uid : Z; p_comm : string }.

(** [time.Date(2026, 10, 5, 8, 0, 0, 0, time.UTC)], and the clock's start. *)
Definition boot : Z := 1791187200 * Second.
Definition start_at : Z := 3 * (60 * Minute).

(** The global clock, and the records written. *)
Record gen := mkGen { g_at : Z; g_records : list Rec }.

(** A call of [emit]: the process, the call, the step of the clock, what the
    function passed does to the record. *)
Definition emit (pr : p) (sc step : Z) (mut : Raw -> Raw) (g : gen) : gen :=
  let at_ := g_at g + step in
  let r := mkRaw at_ (p_pid pr) (p_pid pr) (p_uid pr) (p_uid pr) (p_ppid pr) sc 0 0 0 0 0 0 0 0 (p_comm pr) "" [] in
  mkGen at_ (g_records g ++ [NewRecord (Decode (mut r) boot)]).

(** The assignments the functions make. *)
Definition set_path (path : string) (argv : list string) (r : Raw) : Raw :=
  mkRaw (raw_Timestamp r) (raw_PID r) (raw_TGID r) (raw_UID r) (raw_GID r) (raw_PPID r) (raw_SyscallID r) (raw_Ret r)
    (raw_Arg0 r) (raw_Arg1 r) (raw_Arg2 r) (raw_Daddr r) (raw_Dport r) (raw_Family r) (raw_Flags r) (raw_Comm r) path argv.
Definition set_args (a0 a1 a2 : Z) (r : Raw) : Raw :=
  mkRaw (raw_Timestamp r) (raw_PID r) (raw_TGID r) (raw_UID r) (raw_GID r) (raw_PPID r) (raw_SyscallID r) (raw_Ret r)
    a0 a1 a2 (raw_Daddr r) (raw_Dport r) (raw_Family r) (raw_Flags r) (raw_Comm r) (raw_Path r) (raw_Argv r).
Definition set_exit (ret : Z) (r : Raw) : Raw :=
  mkRaw (raw_Timestamp r) (raw_PID r) (raw_TGID r) (raw_UID r) (raw_GID r) (raw_PPID r) (raw_SyscallID r) ret
    (raw_Arg0 r) (raw_Arg1 r) (raw_Arg2 r) (raw_Daddr r) (raw_Dport r) (raw_Family r) FlagSysExit (raw_Comm r)
    (raw_Path r) (raw_Argv r).
Definition set_peer (daddr dport : Z) (r : Raw) : Raw :=
  mkRaw (raw_Timestamp r) (raw_PID r) (raw_TGID r) (raw_UID r) (raw_GID r) (raw_PPID r) (raw_SyscallID r) (raw_Ret r)
    (raw_Arg0 r) (raw_Arg1 r) (raw_Arg2 r) daddr dport AFInet (raw_Flags r) (raw_Comm r) (raw_Path r) (raw_Argv r).

Definition exec (pr : p) (step : Z) (path : string) (argv : list string) : gen -> gen :=
  emit pr SysExecve step (set_path path argv).
Definition open (pr : p) (step : Z) (path : string) : gen -> gen :=
  emit pr SysOpenat step (fun r => set_args (-100) (oct 2000000) (raw_Arg2 r) (set_path path (raw_Argv r) r)).
Definition connect (pr : p) (step daddr dport : Z) : gen -> gen :=
  emit pr SysConnect step (fun r => set_peer daddr dport (set_args 3 (raw_Arg1 r) (raw_Arg2 r) r)).

(** The calls of [main], in order. *)
Definition sshdSession : p := mkP 4090 812 0 "sshd".
Definition bash : p := mkP 4100 4090 1000 "bash".
Definition ls : p := mkP 4105 4100 1000 "ls".
Definition curl : p := mkP 4110 4100 1000 "curl".
Definition cat : p := mkP 4120 4100 1000 "cat".
Definition inject : p := mkP 4130 4100 1000 "inject".
Definition exploit : p := mkP 4140 4100 1000 "exploit".
Definition py : p := mkP 4150 4100 1000 "python3".
Definition cron : p := mkP 700 1 0 "cron".
Definition backup : p := mkP 5200 700 0 "backup.sh".

Definition gen_calls : list (gen -> gen) :=
  [ exec sshdSession 0 "/usr/sbin/sshd" ["sshd: dev [priv]"];
    exec bash (40 * Millisecond) "/bin/bash" ["-bash"];
    open bash (2 * Millisecond) "/etc/ld.so.cache";
    open bash (3 * Millisecond) "/home/dev/.bashrc";
    exec ls (4 * Second) "/usr/bin/ls" ["ls"; "-la"];
    open ls Millisecond "/etc/passwd";
    exec cron (100 * Millisecond) "/usr/sbin/cron" ["/usr/sbin/cron"; "-f"];
    exec backup (300 * Millisecond) "/usr/local/bin/backup.sh" ["backup.sh"] ]
  ++ replicate 12 (open backup (20 * Millisecond) "/etc/shadow")
  ++ [ exec curl (2 * Second) "/usr/bin/curl" ["curl"; "-sO"; "https://example.com/x"];
    emit curl SysSocket Millisecond (set_args 2 1 6);
    emit curl SysSocket Millisecond (set_exit 3);
    connect curl Millisecond 0x22d8b85d 0xbb01;
    exec cat (9 * Second) "/usr/bin/cat" ["cat"; "/home/dev/.aws/credentials"];
    open cat Millisecond "/home/dev/.aws/credentials";
    exec inject (6 * Second) "/tmp/.x/inject" ["inject"; "4100"];
    emit inject SysPtrace (2 * Millisecond) (fun r => set_args 16 4100 (raw_Arg2 r) r);
    exec exploit (5 * Second) "/tmp/.x/exploit" ["exploit"];
    emit exploit SysSetuid (3 * Millisecond) (fun r => set_args 0 (raw_Arg1 r) (raw_Arg2 r) r);
    exec py (7 * Second) "/usr/bin/python3" ["python3"; "-c"; "import socket,os,pty;s=socket.socket()"];
    emit py SysSocket (30 * Millisecond) (set_args 2 1 6);
    emit py SysSocket Millisecond (set_exit 3);
    connect py Millisecond 0x09250d0a 0x5c11 ]
  ++ ((fun fd => emit py SysDup2 Millisecond (fun r => set_args 3 fd (raw_Arg2 r) r)) <$> [0; 1; 2])
  ++ [ exec py Millisecond "/bin/sh" ["sh"; "-i"] ].

Definition gen_main : list Rec := g_records (foldl (fun g call => call g) (mkGen start_at []) gen_calls).

(** The events a replay of the capture reads. *)
Definition gen_events : list (Event + event_error) := Rec_Event <$> gen_main.

(** Every line of the capture reads back as an event, with the timestamps of the
    capture's own clock in order. *)
Fixpoint nondecreasing (l : list Z) : bool :=
  match l with
  | a :: (b :: _) as t => (a <=? b) && nondecreasing t
  | _ => true
  end.
Example gen_capture_reads_back :
  forallb (fun r => match r with inl _ => true | inr _ => false end) gen_events
  && nondecreasing (omap (fun r => match r with inl ev => Some (ev_Timestamp ev) | inr _ => None end) gen_events)
  && (length gen_events =? 38)%nat = true.
Proof. vm_compute. reflexivity. Qed.
