(* ===== verification/Main.v ===== *)
(** * The agent from start to exit ([cmd/krnlsentry/main.go], [main] and [run])

    [run] as the trace of what it acquires, releases and does, deferred calls
    included, for every way the steps can turn out; and what becomes of that
    trace when the display's [Close] is called on a display never started, which
    blocks ([Lifecycle]). *)

From S2P Require Import Prelude GoStrings GoText GoTime GoFloat Syscalls Events Alerts Tracker Dedup Config Storyline Engine Record Sinks.
From S2P Require Import Console Term Dashboard Panels DashProps Lifecycle PidFilter EngineProps Agent Pump Cli.

(** What [run] does, in order; [RefusedCollector] is a call of [ebpfloader.New]
    that failed.  [CloseDisplay] is [Close] of the display, called as a sink;
    [CloseDashboard] the same [Close], called on the dashboard. *)
Inductive action :=
  | PrintVersion
  | PrintRules
  | OpenAlertLog | CloseAlertLog
  | MakeDisplay (dashboard : bool) | CloseDisplay
  | OpenDebugLog | CloseDebugLog
  | LoadCollector | RefusedCollector | DetachProbes
  | SeedFilter
  | StartDashboard | CloseDashboard
  | PrintBanner
  | Pipeline
  | PrintSummary.
#[export] Instance action_eq_dec : EqDecision action.
Proof. solve_decision. Defined.

Inductive run_error :=
  | ErrSilent
  | ErrMinSeverity
  | ErrEngine (text : string)
  | ErrAlertLog
  | ErrDebugLog
  | ErrCollector
  | ErrCapture
  | ErrPipeline.

(** How the steps of one run turn out. *)
Record outcome := mkOutcome {
  oc_flags : option config;         (** [parseFlags]; [None] is its error *)
  oc_terminal : Terminal;
  oc_alert_log : bool;              (** [NewJSONLSink] succeeds *)
  oc_debug_log : bool;              (** [NewEventSink] succeeds *)
  oc_collector : bool;              (** [ebpfloader.New] succeeds *)
  oc_capture : bool;                (** [os.Open] of the capture succeeds *)
  oc_pipeline : bool                (** the loop ends without an error *)
}.

Section run.
Context `{UnicodeTables} `{UnicodeUpper} `{Host} `{ProcFS}.

(** [defer f()], and the rest of the function. *)
Definition deferring (a : action) (rest : list action * option run_error) : list action * option run_error :=
  (fst rest ++ [a], snd rest).
(** [sinks.Close] of [MultiSink{jsonl, display}] ([MultiSink_Close]): the alert
    log, then the display. *)
Definition sinks_Close : list action := [CloseAlertLog; CloseDisplay].
Definition deferring_sinks (rest : list action * option run_error) : list action * option run_error :=
  (fst rest ++ sinks_Close, snd rest).
Definition doing (a : action) (rest : list action * option run_error) : list action * option run_error :=
  (a :: fst rest, snd rest).
Definition failing (e : run_error) : list action * option run_error := ([], Some e).

(** [finishDisplay] and [printSummary], then the loop's result. *)
Definition finishing (dash : bool) (err : option run_error) : list action * option run_error :=
  ((if dash then [CloseDashboard] else []) ++ [PrintSummary], err).

(** [pump], and [replay], which may fail before it has begun. *)
Definition run_pump (dash : bool) (oc : outcome) : list action * option run_error :=
  doing Pipeline (finishing dash (if oc_pipeline oc then None else Some ErrPipeline)).
Definition run_replay (dash : bool) (oc : outcome) : list action * option run_error :=
  if negb (oc_capture oc) then failing ErrCapture
  else doing Pipeline (finishing dash (if oc_pipeline oc then None else Some ErrPipeline)).

(** Starting the display with its deferred close, or printing the banner. *)
Definition with_display (dash : bool) (rest : list action * option run_error) : list action * option run_error :=
  if dash then doing StartDashboard (deferring CloseDashboard rest) else doing PrintBanner rest.

(** From the scope filter on. *)
Definition run_source (cfg : config) (dash : bool) (oc : outcome) : list action * option run_error :=
  if replaying cfg then with_display dash (run_replay dash oc)
  else if negb (oc_collector oc) then doing RefusedCollector (failing ErrCollector)
  else
    doing LoadCollector (deferring DetachProbes
      (let rest := with_display dash (run_pump dash oc) in
       if fl_pid cfg >? 0 then doing SeedFilter rest else rest)).

(** Whether the display is the dashboard, after the fallback. *)
Definition uses_dashboard (cfg : config) (t : Terminal) : bool :=
  fl_dashboard cfg && negb (negb (DashboardUsable t) && negb (fl_forceColor cfg)).

(** From the sinks on. *)
Definition run_sinks (cfg : config) (oc : outcome) : list action * option run_error :=
  let dash := uses_dashboard cfg (oc_terminal oc) in
  doing (MakeDisplay dash) (deferring_sinks
    (if fl_verbose cfg then
       if negb (oc_debug_log oc) then failing ErrDebugLog
       else doing OpenDebugLog (deferring CloseDebugLog (run_source cfg dash oc))
     else run_source cfg dash oc)).

(** [run] *)
Definition run (oc : outcome) : list action * option run_error :=
  match oc_flags oc with
  | None => failing ErrSilent
  | Some cfg =>
      if fl_showVersion cfg then ([PrintVersion], None)
      else if fl_listRules cfg then ([PrintRules], None)
      else if negb (snd (ParseSeverity (ToUpper (fl_minSeverity cfg)))) then failing ErrMinSeverity
      else
        match NewEngine (engine_config cfg) (splitRules (fl_rules cfg)) with
        | inr text => failing (ErrEngine text)
        | inl _ =>
            if negb (oc_alert_log oc) then failing ErrAlertLog
            else doing OpenAlertLog (deferring CloseAlertLog (run_sinks cfg oc))
        end
  end.

(** [main]: the exit code, and the message on standard error. *)
Definition error_text (message : run_error -> string) (e : run_error) : string :=
  match e with ErrSilent => "" | _ => message e end.
Definition main (message : run_error -> string) (oc : outcome) : Z * string :=
  match snd (run oc) with
  | Some e => (1, "krnlsentry: " +:+ error_text message e +:+ nl)
  | None => (0, "")
  end.

(** ** Carrying the trace out

    Nothing after a call that blocks is done. *)
Record display := mkDisplay { dy_made : bool; dy_started : bool; dy_closed : bool }.
Definition no_display : display := mkDisplay false false false.

Inductive verdict := Goes (d : display) | Blocks.
Definition close_display (d : display) : verdict :=
  if negb (dy_made d) || dy_closed d then Goes d
  else if dy_started d then Goes (mkDisplay true true true)
  else Blocks.
Definition perform (d : display) (a : action) : verdict :=
  match a with
  | MakeDisplay dash => Goes (mkDisplay dash false false)
  | StartDashboard => Goes (mkDisplay (dy_made d) true (dy_closed d))
  | CloseDashboard | CloseDisplay => close_display d
  | _ => Goes d
  end.

(** What is done of a trace, and whether all of it is. *)
Fixpoint carry_out (d : display) (tr : list action) : list action * bool :=
  match tr with
  | [] => ([], true)
  | a :: tr =>
      match perform d a with
      | Blocks => ([], false)
      | Goes d => let '(done_, all) := carry_out d tr in (a :: done_, all)
      end
  end.

(** What the process says and with what code it exits, if it ends. *)
Definition exits (message : run_error -> string) (oc : outcome) : option (Z * string) :=
  if snd (carry_out no_display (fst (run oc))) then Some (main message oc) else None.

(** ** Specification *)

(** Acquiring and releasing: what each release gives back. *)
Definition releases (a : action) : option action :=
  match a with
  | CloseAlertLog => Some OpenAlertLog
  | CloseDebugLog => Some OpenDebugLog
  | DetachProbes => Some LoadCollector
  | _ => None
  end.
Definition acquires (a : action) : bool :=
  match a with OpenAlertLog | OpenDebugLog | LoadCollector => true | _ => false end.

(** What is held after a trace; [None]: something was released out of order.  A
    second [Close] does nothing. *)
Fixpoint held (stack : list action) (tr : list action) : option (list action) :=
  match tr with
  | [] => Some stack
  | a :: tr =>
      if acquires a then held (a :: stack) tr
      else
        match releases a with
        | None => held stack tr
        | Some b =>
            match stack with
            | c :: below => if bool_decide (b = c) then held below tr else if bool_decide (b ∈ stack) then None else held stack tr
            | [] => held [] tr
            end
        end
  end.

(** A run that gets to build its sinks, with these flags. *)
Definition gets_to_sinks (oc : outcome) (cfg : config) : Prop :=
  oc_flags oc = Some cfg /\ fl_showVersion cfg = false /\ fl_listRules cfg = false
  /\ snd (ParseSeverity (ToUpper (fl_minSeverity cfg))) = true
  /\ (exists e, NewEngine (engine_config cfg) (splitRules (fl_rules cfg)) = inl e)
  /\ oc_alert_log oc = true.

(** What goes wrong between building the display and starting it. *)
Definition fails_before_start (oc : outcome) (cfg : config) : bool :=
  (fl_verbose cfg && negb (oc_debug_log oc)) || (negb (replaying cfg) && negb (oc_collector oc)).
End run.

(** ** Properties *)

Section run_properties.
Context `{UnicodeTables} `{UnicodeUpper} `{Host} `{ProcFS}.

(** The trace from the sinks on, run to its end or not. *)
Lemma run_sinks_outcome cfg oc :
  let tr := (OpenAlertLog :: (fst (run_sinks cfg oc) ++ [CloseAlertLog])) in
  held [] tr = Some []
  /\ snd (carry_out no_display tr) = negb (uses_dashboard cfg (oc_terminal oc) && fails_before_start oc cfg)
  /\ (snd (carry_out no_display tr) = true -> fst (carry_out no_display tr) = tr)
  /\ (snd (carry_out no_display tr) = false ->
        tr = fst (carry_out no_display tr) ++ [CloseDisplay; CloseAlertLog] /\ is_Some (snd (run_sinks cfg oc))
        /\ held [] (fst (carry_out no_display tr)) = Some []).
Proof.
  unfold run_sinks, fails_before_start, run_source, run_pump, run_replay, with_display.
  generalize (uses_dashboard cfg (oc_terminal oc)) as dash. intros dash. cbv zeta.
  destruct (fl_verbose cfg), (oc_debug_log oc), (replaying cfg), (oc_collector oc), (oc_capture oc), (oc_pipeline oc),
    (fl_pid cfg >? 0), dash; cbn; (split_and!; [reflexivity|reflexivity|intros E; (discriminate E || reflexivity)|intros E; try discriminate E]).
  all: split_and!; [reflexivity|eauto|reflexivity].
Qed.

(** The same of the whole of [run]. *)
Lemma run_outcome oc :
  let tr := fst (run oc) in
  let '(done_, all) := carry_out no_display tr in
  held [] tr = Some []
  /\ (all = true -> done_ = tr)
  /\ (all = false <-> exists cfg, gets_to_sinks oc cfg
        /\ uses_dashboard cfg (oc_terminal oc) = true /\ fails_before_start oc cfg = true)
  /\ (all = false -> is_Some (snd (run oc)) /\ tr = done_ ++ [CloseDisplay; CloseAlertLog] /\ held [] done_ = Some []).
Proof.
  intros tr. subst tr. unfold run. destruct (oc_flags oc) as [cfg|] eqn:Ef.
  2:{ cbn. split_and!; try done. split; [done|]. intros (cfg & (E & _) & _). congruence. }
  assert (Hno : forall P : Prop, ~ P -> (true = false <-> P)) by (intros P HP; split; [done|by intros]).
  destruct (fl_showVersion cfg) eqn:E1; [cbn; split_and!; try done; apply Hno; intros (c & (E & ? & _) & _); congruence|].
  destruct (fl_listRules cfg) eqn:E2; [cbn; split_and!; try done; apply Hno; intros (c & (E & _ & ? & _) & _); congruence|].
  destruct (snd (ParseSeverity _)) eqn:E3; cbn [negb];
    [|cbn; split_and!; try done; apply Hno; intros (c & (E & _ & _ & ? & _) & _); congruence].
  destruct (NewEngine _ _) as [e|text] eqn:E4;
    [|cbn; split_and!; try done; apply Hno; intros (c & (E & _ & _ & _ & [e ?] & _) & _); congruence].
  destruct (oc_alert_log oc) eqn:E5; cbn [negb];
    [|cbn; split_and!; try done; apply Hno; intros (c & (E & _ & _ & _ & _ & ?) & _); congruence].
  destruct (run_sinks_outcome cfg oc) as (Hheld & Hall & Hdone & Hblocked). cbv zeta in *.
  cbn [doing deferring fst snd]. destruct (carry_out _ _) as [dn all]. cbn [fst snd] in *. subst all. split_and!; [done|done| |].
  - rewrite negb_false_iff, andb_true_iff. split.
    + intros [Hd Hfail]. exists cfg. split_and!; [|done..]. split_and!; try done. eauto.
    + intros (c & (E & _) & Hd & Hfail). rewrite Ef in E. injection E as <-. done.
  - intros Hb. by destruct (Hblocked Hb) as (? & ? & ?).
Qed.
(** C25: every run of the agent ends by giving back what it took, in reverse
    order, on every path through its errors, but for one case, in which it does
    not end at all.  If the dashboard is to be the display, and a step between
    building it and starting it fails (opening the verbose log, or, live,
    loading the probes), the error is returned through the deferred
    [sinks.Close], which closes the alert log and then a display that was never
    started, and blocks: everything taken has been given back, but the error is
    never printed and the process never exits.  In every other case the trace is
    carried out to its end, and the process exits. *)
Theorem run_ends_or_strands_dashboard oc :
  let tr := fst (run oc) in
  let '(done_, all) := carry_out no_display tr in
  held [] tr = Some []
  /\ (all = true -> done_ = tr /\ forall message, exits message oc = Some (main message oc))
  /\ (all = false <-> exists cfg, gets_to_sinks oc cfg
        /\ uses_dashboard cfg (oc_terminal oc) = true /\ fails_before_start oc cfg = true)
  /\ (all = false -> is_Some (snd (run oc)) /\ tr = done_ ++ [CloseDisplay; CloseAlertLog] /\ held [] done_ = Some []
        /\ forall message, exits message oc = None).
Proof.
  pose proof (run_outcome oc) as Hrun. cbv zeta in *. unfold exits. destruct (carry_out no_display (fst (run oc))) as [dn all].
  destruct Hrun as (Hheld & Hdone & Hiff & Hstrand). cbn [snd]. split_and!; [done| |done|].
  - intros E. split; [by apply Hdone|]. by rewrite E.
  - intros E. destruct (Hstrand E) as (? & ? & ?). split_and!; [done..|]. by rewrite E.
Qed.
End run_properties.

(** The agent started with [--dashboard] at a terminal by a user who may not
    load probes. *)
#[local] Existing Instance example_tables.
#[local] Existing Instance example_upper.
#[local] Existing Instance example_host.
#[local] Existing Instance example_proc.

Definition dashboard_flags : config :=
  let d := default_flags in
  mkConfigFlags (fl_pid d) (fl_outputPath d) (fl_rules d) (fl_verbose d) (fl_debugPath d) (fl_minSeverity d) (fl_window d)
    (fl_noColor d) (fl_forceColor d) (fl_ignoreLoop d) (fl_ignoreSelf d) (fl_statsInterval d) (fl_showVersion d)
    (fl_listRules d) (fl_replayPath d) (fl_replaySpeed d) true (fl_dedupWindow d) (fl_noStoryline d) (fl_chainThreshold d)
    (fl_chainWindow d).

Example unprivileged_dashboard_hangs :
  carry_out no_display
    (fst (run (mkOutcome (Some dashboard_flags) (mkTerminal true (Some (80, 25)) (Some true) "" "") true true false true true)))
  = ([OpenAlertLog; MakeDisplay true; RefusedCollector; CloseAlertLog], false).
Proof. vm_compute. reflexivity. Qed.
