(* ===== verification/Exit.v ===== *)
(** * What a run asks of the kernel, from its arguments

    [run] of [Main] with its outcomes computed: the arguments are parsed by
    [parseFlags], the logs opened on the disk, the collector loaded by
    [ebpfloader.New] on this kernel.  The trace of a run is then also a trace of
    requests to the kernel. *)

From S2P Require Import Prelude GoStrings GoText GoTime GoFloat GoFlag Syscalls Events Alerts Tracker Dedup Config Storyline Engine EngineProps Record Sinks.
From S2P Require Import Loader Console Term Dashboard Panels DashProps Lifecycle PidFilter Agent Pump Cli Flags Main.

Section exit.
Context `{UnicodeTables} `{UnicodeUpper} `{Host} `{ProcFS} `{FloatText} `{Kernel} `{Disk}.

(** Where the agent is started, and what becomes of the capture and of the
    pipeline. *)
Record session := mkSession {
  ss_args : list string;
  ss_terminal : Terminal;
  ss_world : World;
  ss_capture : bool;
  ss_pipeline : bool
}.

Definition succeeds {A B} (r : A + B) : bool := match r with inl _ => true | inr _ => false end.

(** The debug log is opened after the alert log. *)
Definition outcome_of (x : session) : outcome :=
  let cfg := match parseFlags (ss_args x) with inr cfg => Some cfg | inl _ => None end in
  let path f := default "" (f <$> cfg) in
  let '(alert_log, w) := NewJSONLSink (path fl_outputPath) (ss_world x) in
  let '(debug_log, w) := NewEventSink (path fl_debugPath) w in
  mkOutcome cfg (ss_terminal x) (succeeds alert_log) (succeeds debug_log) (succeeds (fst New)) (ss_capture x) (ss_pipeline x).

(** What is done of a session's run. *)
Definition session_trace (x : session) : list action := fst (carry_out no_display (fst (run (outcome_of x)))).

(** What an action asks of the kernel. *)
Definition requests (a : action) : list effect :=
  match a with
  | LoadCollector | RefusedCollector => snd New
  | DetachProbes => match fst New with inl c => snd (fst (Close c)) | inr _ => [] end
  | _ => []
  end.

(** The probes in the kernel after a trace, and those at each time the pipeline
    is started. *)
Definition attached_after (attached : list tracepoint) (tr : list action) : list tracepoint :=
  foldl (fun attached a => foldl live_step attached (requests a)) attached tr.
Fixpoint watched (attached : list tracepoint) (tr : list action) : list (list tracepoint) :=
  match tr with
  | [] => []
  | a :: tr =>
      let rest := watched (foldl live_step attached (requests a)) tr in
      if bool_decide (a = Pipeline) then attached :: rest else rest
  end.

(** The configuration of a session that gets past its checks. *)
Definition configured (x : session) (cfg : config) : Prop :=
  parseFlags (ss_args x) = inr cfg /\ fl_showVersion cfg = false /\ fl_listRules cfg = false
  /\ snd (ParseSeverity (ToUpper (fl_minSeverity cfg))) = true
  /\ (exists e, NewEngine (engine_config cfg) (splitRules (fl_rules cfg)) = inl e)
  /\ dk_open (fl_outputPath cfg) = true.

Definition all_provided : list tracepoint := filter (fun tp => provided tp = true) tracepoints.

(** ** Lemmas *)

(** The requests of the three actions that have some. *)
Lemma load_attaches : succeeds (fst New) = true -> live (snd New) = all_provided.
Proof.
  destruct New as [[c|e] tr] eqn:E; cbn [fst snd succeeds]; [|done]. intros _.
  destruct (New_succeeds c tr E) as (Hl & _ & _ & -> & _). exact Hl.
Qed.

Lemma refused_leaves : succeeds (fst New) = false -> Forall (fun tp => k_detach tp = false) (live (snd New)).
Proof. destruct New as [[c|e] tr] eqn:E; cbn [fst snd succeeds]; [done|]. intros _. by apply (New_fails_live e). Qed.

Lemma detach_detaches : succeeds (fst New) = true -> foldl live_step all_provided (requests DetachProbes) = stuck all_provided.
Proof.
  unfold requests. destruct New as [[c|e] tr] eqn:E; cbn [fst succeeds]; [|done]. intros _.
  destruct (New_succeeds c tr E) as (Hl & _). unfold all_provided. rewrite <- Hl. apply live_close.
Qed.

(** Each probe that is attached is asked back. *)
Definition asked_back (tr : list effect) : Prop := forall tp, Attach tp ∈ tr -> Detach tp ∈ tr.

Lemma attach_in tp (tps : list tracepoint) : Attach tp ∈ Attach <$> tps <-> tp ∈ tps.
Proof. rewrite list_elem_of_fmap. split; [by intros (t & [= ->] & ?)|eauto]. Qed.

Lemma refused_asked_back : succeeds (fst New) = false -> asked_back (snd New).
Proof.
  destruct New as [[c|e] tr] eqn:E; cbn [fst snd succeeds]; [done|]. intros _ tp.
  destruct (New_fails e tr E) as [[_ ->]|(before & d & after & -> & Hno & _)]; [by intros []%elem_of_nil|].
  specialize (Hno tp). rewrite elem_of_app in Hno. rewrite !elem_of_app, attach_in. intros [?|[Htp|[?|[(t & [=] & _)%list_elem_of_fmap|Hn]]]].
  - naive_solver.
  - right; right; right; left. apply list_elem_of_fmap. exists tp. split; [done|]. rewrite list_elem_of_In, <- in_rev. by apply list_elem_of_In.
  - naive_solver.
  - by apply list_elem_of_singleton in Hn.
Qed.

Lemma loaded_asked_back : succeeds (fst New) = true -> asked_back (snd New ++ requests DetachProbes).
Proof.
  unfold requests. destruct New as [[c|e] tr] eqn:E; cbn [fst snd succeeds]; [|done]. intros _ tp.
  destruct (New_succeeds c tr E) as (_ & _ & _ & _ & -> & _). rewrite !elem_of_app, attach_in. intros Htp. right.
  assert (Hin : tp ∈ cl_links c).
  { destruct Htp as [[Hn|[?|Hn]]|Hn]; [by apply elem_of_cons in Hn as [?|Hn%list_elem_of_singleton]|done|by apply list_elem_of_singleton in Hn|].
    unfold Close in Hn. destruct (cl_reader c); cbn [fst snd] in Hn; rewrite !elem_of_app, list_elem_of_fmap in Hn;
      destruct Hn as [Hn|[(t & [=] & _)|Hn]]; set_solver. }
  unfold Close. destruct (cl_reader c); cbn [fst snd]; rewrite !elem_of_app; right; left; apply list_elem_of_fmap; exists tp;
    (split; [done|]); rewrite list_elem_of_In, <- in_rev; by apply list_elem_of_In.
Qed.

(** Only these actions bear on the kernel, or on the time the pipeline starts. *)
Definition matters (a : action) : bool :=
  match a with LoadCollector | RefusedCollector | DetachProbes | Pipeline => true | _ => false end.
Definition core (tr : list action) : list action := filter (fun a => matters a = true) tr.

Lemma requests_matters a : matters a = false -> requests a = [] /\ a <> Pipeline.
Proof. by destruct a. Qed.

Lemma core_attached attached tr : attached_after attached tr = attached_after attached (core tr).
Proof.
  unfold core. revert attached. induction tr as [|a tr IH]; intros attached; [done|]. rewrite filter_cons. cbn [attached_after foldl].
  destruct (matters a) eqn:E; [rewrite decide_True by done; apply IH|]. rewrite decide_False by done.
  destruct (requests_matters a E) as [-> _]. apply IH.
Qed.

Lemma core_watched attached tr : watched attached tr = watched attached (core tr).
Proof.
  unfold core. revert attached. induction tr as [|a tr IH]; intros attached; [done|]. rewrite filter_cons. cbn [watched].
  destruct (matters a) eqn:E; [rewrite decide_True by done; cbn [watched]; by rewrite IH|]. rewrite decide_False by done.
  destruct (requests_matters a E) as [-> Hne]. rewrite bool_decide_false by done. apply IH.
Qed.

Lemma core_requests tr : tr ≫= requests = core tr ≫= requests.
Proof.
  unfold core. induction tr as [|a tr IH]; [done|]. rewrite filter_cons. cbn [mbind list_bind].
  destruct (matters a) eqn:E; [rewrite decide_True by done; cbn; by f_equal|]. rewrite decide_False by done.
  by destruct (requests_matters a E) as [-> _].
Qed.

(** From the sinks on, on every path: what is done that matters. *)
Lemma run_sinks_core cfg oc :
  core (fst (carry_out no_display (OpenAlertLog :: (fst (run_sinks cfg oc) ++ [CloseAlertLog]))))
  ∈ (if replaying cfg then [[]; [Pipeline]]
     else if oc_collector oc then [[]; [LoadCollector; Pipeline; DetachProbes]] else [[]; [RefusedCollector]]).
Proof.
  unfold run_sinks, run_source, run_pump, run_replay, with_display.
  generalize (uses_dashboard cfg (oc_terminal oc)) as dash. intros dash. cbv zeta.
  destruct (fl_verbose cfg), (oc_debug_log oc), (replaying cfg), (oc_collector oc), (oc_capture oc), (fl_pid cfg >? 0), dash;
    apply (bool_decide_unpack _); vm_compute; exact I.
Qed.

(** What such a run does to the kernel. *)
Lemma core_probes (replay : bool) c :
  c ∈ (if replay then [[]; [Pipeline]]
       else if succeeds (fst New) then [[]; [LoadCollector; Pipeline; DetachProbes]] else [[]; [RefusedCollector]]) ->
  Forall (fun tp => k_detach tp = false) (attached_after [] c) /\ asked_back (c ≫= requests)
  /\ Forall (fun attached => attached = if replay then [] else all_provided) (watched [] c)
  /\ (replay = true -> c ≫= requests = []).
Proof.
  assert (Hnil : asked_back []) by by intros tp []%elem_of_nil.
  assert (Hnone : foldl live_step all_provided [] = all_provided) by done.
  intros Hc. destruct replay; [|destruct (succeeds (fst New)) eqn:Es];
    apply elem_of_cons in Hc as [->|[->|[]%elem_of_nil]%elem_of_cons];
    try (split_and!; [constructor|exact Hnil|repeat constructor|done]).
  - pose proof (load_attaches Es) as Hload. pose proof (detach_detaches Es) as Hdetach. unfold live in Hload.
    cbn [attached_after watched foldl requests mbind list_bind app] in *. rewrite Hload, Hdetach, app_nil_r. split_and!; try done.
    + apply Forall_forall. by intros tp [? _]%list_elem_of_filter.
    + by apply (loaded_asked_back Es).
    + by repeat constructor.
  - cbn [attached_after watched foldl requests mbind list_bind]. rewrite app_nil_r. split_and!; try done.
    + by apply refused_leaves.
    + by apply refused_asked_back.
Qed.

(** A session does nothing that matters, or gets to its sinks. *)
Lemma run_configured x :
  session_trace x ∈ [[]; [PrintVersion]; [PrintRules]]
  \/ exists cfg, configured x cfg
       /\ session_trace x = fst (carry_out no_display (OpenAlertLog :: (fst (run_sinks cfg (outcome_of x)) ++ [CloseAlertLog]))).
Proof.
  unfold session_trace. set (oc := outcome_of x).
  assert (Hf : oc_flags oc = match parseFlags (ss_args x) with inr cfg => Some cfg | inl _ => None end).
  { unfold oc, outcome_of. destruct (NewJSONLSink _ _). by destruct (NewEventSink _ _). }
  unfold run. destruct (oc_flags oc) as [cfg|] eqn:Ef; [|left; by constructor].
  destruct (parseFlags (ss_args x)) as [e|cfg'] eqn:Ep; [done|]. injection Hf as ->.
  assert (Ha : oc_alert_log oc = dk_open (fl_outputPath cfg')).
  { unfold oc, outcome_of. rewrite Ep. cbv zeta. cbn [fmap option_fmap option_map from_option id]. unfold NewJSONLSink, NewEventSink, open_append.
    by destruct (dk_open (fl_outputPath cfg')), (dk_open (fl_debugPath cfg')). }
  destruct (fl_showVersion cfg') eqn:E1; [left; by do 2 constructor|]. destruct (fl_listRules cfg') eqn:E2; [left; by do 3 constructor|].
  destruct (snd (ParseSeverity _)) eqn:E3; cbn [negb]; [|left; constructor].
  destruct (NewEngine _ _) as [e|text] eqn:E4; [|left; constructor]. rewrite Ha.
  destruct (dk_open (fl_outputPath cfg')) eqn:E5; cbn [negb]; [|left; constructor].
  right. exists cfg'. split; [|done]. split_and!; try done. eauto.
Qed.

Lemma outcome_collector x : oc_collector (outcome_of x) = succeeds (fst New).
Proof. unfold outcome_of. destruct (NewJSONLSink _ _). by destruct (NewEventSink _ _). Qed.
End exit.

(** ** Properties *)

Section exit_properties.
Context `{UnicodeTables} `{UnicodeUpper} `{Host} `{ProcFS} `{FloatText} `{Kernel} `{Disk}.

(** C23: whatever the arguments, the disk and the kernel, the agent takes its
    probes back and never watches less than it claims.  When [main] is done, or is
    stuck for ever in the close of a dashboard that was not started, it has asked
    the kernel to detach every probe it attached; the only ones left are those
    whose detachment the kernel refused, so none when it refuses none.  While the
    pipeline runs live, attached are exactly the tracepoints this kernel provides;
    a replay asks nothing of the kernel.  And the kernel is not touched before the
    arguments have been parsed, the severity and the rules found valid and the
    alert log opened. *)
Theorem agent_leaves_no_probe x :
  let tr := session_trace x in
  asked_back (tr ≫= requests)
  /\ Forall (fun tp => k_detach tp = false) (attached_after [] tr)
  /\ ((forall tp, k_detach tp = true) -> attached_after [] tr = [])
  /\ Forall (fun attached => exists cfg, parseFlags (ss_args x) = inr cfg /\ attached = if replaying cfg then [] else all_provided)
       (watched [] tr)
  /\ (tr ≫= requests <> [] -> exists cfg, configured x cfg /\ replaying cfg = false).
Proof.
  cbv zeta. destruct (run_configured x) as [Ht|(cfg & Hc & ->)].
  - set (tr := session_trace x) in *. clearbody tr.
    apply elem_of_cons in Ht as [->|[->|[->|[]%elem_of_nil]%elem_of_cons]%elem_of_cons];
      split_and!; try done; try constructor; by intros tp []%elem_of_nil.
  - rewrite core_attached, core_watched, core_requests. pose proof (run_sinks_core cfg (outcome_of x)) as Hcore.
    rewrite outcome_collector in Hcore. destruct (core_probes (replaying cfg) _ Hcore) as (Ha & Hb & Hw & Hr).
    split_and!; [done|done|by apply all_stuck_none| |].
    + eapply Forall_impl; [exact Hw|]. intros attached ->. exists cfg. split; [apply Hc|done].
    + intros Hne. exists cfg. split; [done|]. destruct (replaying cfg); [|done]. by destruct Hne; apply Hr.
Qed.
End exit_properties.

(** A live session on an arm64 kernel, which has every tracepoint but [dup2]; and
    on one that does not let go of a probe. *)
Example live_session_watches :
  let x := mkSession ["--verbose"; "--rules=privilege-escalation"] (mkTerminal true (Some (80, 25)) (Some true) "" "") (mkWorld ∅ "") true true in
  let tr k := @session_trace example_tables example_upper example_host example_proc example_float_text k example_disk x in
  let kernel := example_kernel "" in
  let stubborn := stubborn_kernel "" "sys_enter_openat" in
  length (tr kernel) = 12%nat /\ length <$> @watched kernel [] (tr kernel) = [14%nat] /\ @attached_after kernel [] (tr kernel) = []
  /\ @attached_after stubborn [] (tr stubborn) = [mkTracepoint "syscalls" "sys_enter_openat"].
Proof. vm_compute. done. Qed.
